(* ===== verification/_CoqProject ===== *)
-Q . S2P
Prelude.v
Json.v
Iso.v
JsonCodec.v
Redis.v
Broker.v
PostStore.v
PostService.v
Interleave.v
SearchService.v
Gateway.v
Routes.v
AuthService.v
AuthIndex.v
MediaService.v
Apps.v
Wire.v
System.v
