(* ===== verification/Prelude.v ===== *)
(** * A verification library for social-media-microservice-demo

    ** The program
    The repository is Node.js services behind an api-gateway.  They share
    a RabbitMQ topic exchange ([facebook_events]), and several use Redis:
    - api-gateway: [src/api-gateway/src/middleware/auth-middleware.js]
      ([validateToken]) checks the bearer token before it proxies a request.
    - auth-service: [controllers/auth-controller.js] (register, login,
      refresh-token rotation, logout) over Mongo users and refresh tokens,
      routed by [routes/auth-service-route.js]; [index.js] puts two
      Redis-backed rate limiters in front of the router.
    - post-service: [controllers/post-controller.js] (create, list, get
      and delete posts).  Reads are cache-aside, and writes invalidate the
      cache coarsely.  [utils/rabbitmq.js] holds a lazily opened connection
      and [publishEvent].  [index.js] mounts [routes/post-routes.js] and
      calls [connectToRabbitMQ] before it listens.
    - search-service: [event-handlers/search-event-handler.js] keeps a
      search index in step with [post.created] / [post.deleted], and
      [controllers/search-post-controller.js] queries it.
    - media-service: [controllers/media-controller.js] and
      [routes/media-routes.js] upload files (multer, Cloudinary) and list
      them; on [post.deleted] it deletes the post's media.
    The post service publishes; the search and media services consume
    through queues bound to routing keys.

    ** How the code is modelled
    Every JS [async] handler is a function of the exception-state monad
    [Ex] below.  An [await] that rejects is an exception; the handler's
    [try/catch] ([catch!]) turns it into a 500 response; the effects made
    before the exception stay in the state.  External services are parts
    of the state: Mongo collections as lists in insertion order with an
    up/down flag, Redis as a [gmap], Cloudinary as a list of assets, and
    the broker as exchanges, queues and open channels.  Their failures and
    the passing of time are environment steps of the step relations.  Code
    that is not under src/ (the consumers' [consumeEvent], the media event
    handler, [authenticateRequest], the Mongoose models, the limiter and
    Express libraries) is modelled from the spec or from its documented
    behaviour, and marked so in the manifest.

    ** Files, in dependency order
    - [Prelude] (this file): [Ex] with stdpp's [≫=] notation, [throw!] and
      [catch!] in [sm_scope]; the hint databases [sm] and [sm_rw]; the
      tactics [ex_simp], [ex_mono_split] and [ex_post_split]; the closure
      lemmas of [ex_mono] (the state moves along a preorder) and [ex_post]
      (every returned value satisfies a predicate); the JS helpers
      [js_or_default] ([parseInt(x) || d]), [js_ceil_div] ([Math.ceil])
      and [split_on] ([String.split]); lemmas on strings and [find].
    - [Json]: the JSON values of bodies, payloads and responses.
    - [Iso]: [Date.prototype.toISOString] and the ISO reading of
      [Date.parse], over the proleptic Gregorian calendar
      ([civil_from_days], [days_from_civil]).
    - [JsonCodec]: [JSON.stringify] ([stringify]) and [JSON.parse]
      ([JSON_parse], a recursive descent with fuel) on those values, and
      [wire v], what a value becomes once stringified and parsed back.
    - [Redis]: the interface [CacheStore] with its laws [CacheStoreLaws],
      which are what the post controller relies on.  The instance
      [redis_store] ([RedisDb]: a [gmap string (V * Z)]) has Redis' glob
      matching for [KEYS] and discharges the laws.
    - [Broker]: [Topic] (AMQP topic matching), [Mq] (broker state and the
      client of [rabbitmq.js]: [connectToRabbitMQ], [publishEvent]),
      [Registry] (the consumers' [consumeEvent]), [PostIndex] and
      [ConsumerIndex] (the [startServer] functions), the step relation
      [mq_step].
    - [PostStore]: the posts collection and the Mongoose operations the
      controller calls (ObjectId cast, save, sorted paging, findById,
      findByIdAndDelete).
    - [PostService]: [post-controller.js] and [validation.js], over any
      [CacheStoreLaws] instance; the step relation [ps_step] (requests,
      evictions, outages, broker crashes, consumers); concrete runs [Runs].
    - [Interleave]: handlers cut at their awaits ([Thread], [atomic]) and
      run on one state along a schedule ([interleave]); the listing and
      the create of the post service as threads, which run alone are the
      handlers ([post_threads_refine]).
    - [SearchService]: both event handlers, the search query, their
      properties and a run of the spec's scenario.
    - [Gateway]: [validateToken], with [jwt.verify] as a parameter.
    - [Routes]: Express's first-match routing, [authenticateRequest], the
      post and search routers and their mounts in [index.js].
    - [AuthService]: the four auth handlers, the router and the step
      relation [auth_step], with a model of Mongoose's cast of a filter
      value.
    - [AuthIndex]: the auth service's [index.js]: the per-IP limiter on
      every request and the registration limiter, both fixed windows in
      Redis ([incr_window]), composed with the router ([authApp]), and
      requests served in time order ([run_app]).
    - [MediaService]: multer's limits and field check, the upload and
      listing controllers, the media router, Cloudinary, and the
      [post.deleted] projector.
    - [Apps]: the apps of the post, search and media services' [index.js]:
      [express.json()] in strict mode ([express_json], over
      [JSON_parse]) in front of the mounted routers, on the text a client
      sends ([RawReq]); runs of a request through each app.
    - [Wire]: the consumers' [consumeEvent], which parses the text
      [publishEvent] wrote, the handler tables [search_dispatch] and
      [media_dispatch], and the event schemas of spec §6 ([ty],
      [has_ty]).
    - [System]: the post, search and media services side by side over the
      post service's broker ([Sys]); [sys_step] interleaves requests,
      deliveries to each consumer and outages, [sys_fault] adds broker
      crashes and restarts and deliveries while the search store is down;
      [stale] is an index entry no run can remove.

    ** The theorems (claim ids of the manifest)
    - Cache-aside store, for any cache that satisfies the laws:
      + the listing cache stays coherent with the store on every state
        reached while writes are taken with Redis and the broker client
        working, whatever else happens (C1); a cached listing read equals
        the uncached read (C2);
      + read your writes after a 201 (C3);
      + a failed publication answers 500 for a saved post and leaves
        every cached listing stale (C4); so does a create during a Redis
        outage, which has already published its event (C38);
      + [invalidatePostCache] deletes exactly the keys it should (C5);
      + the single-post cache never hits (C6, a key bug);
      + delete does not check the owner (C7); create succeeds (C8);
      + reads fail when Redis is down (C9);
      + a listing miss serves the window [(page-1)*limit] of the posts
        sorted newest first, with its counts (C10); the validation
        schema (C11).
    - Search projector: [post.created] (C12) and [post.deleted] (C13) are
      idempotent; an entry goes absent, indexed, absent (C14); search
      results are sound (C15).
    - Broker client: a closed channel is never reopened (C17); per-queue
      FIFO order (C18); startup ignores a broker that is down (C19); the
      connection is opened lazily and once (C20).
    - Events on the wire: a [post.created] stringified, parsed and handled
      indexes the post with its own [createdAt] (C29); both events parse
      at the consumer into values of their routing key's schema (C36).
      [JSON.parse(JSON.stringify(v))] is [wire v] ([parse_stringify]), the
      parser never runs out of fuel ([parse_fuel_enough]) and
      [toISOString] and [Date.parse] are inverse on every valid time
      ([parse_iso_toISOString]): lemmas these claims rest on.
    - Gateway: a rejected token is answered 429 (C21).
    - Auth: the token and user invariant on reachable states (C22); a
      refresh token is single use (C23); logout revokes (C24);
      [{ $ne: null }] as a refresh token yields another user's session
      (C25); the three outcomes of a login, whose messages tell which
      emails are registered (C26).
    - Media: an upload is accepted exactly for one file part under 3 MiB
      in the field [file] (C27); a failed save orphans the uploaded asset
      (C28).
    - System: the search index holds only live posts or posts whose
      deletion is still queued, on every state reachable by [sys_step],
      the system without faults (C30); deleting a post reclaims exactly
      its media (C31); a deletion lost to a broker crash (C32) or to a
      delivery while the search store is down (C33) is never repaired, by
      any run with faults or not; a user deletes another user's media
      through a post of their own (C34).
    - Auth pipeline: at most 19 requests of one IP a second (C35) and 99
      registrations in 15 minutes (C16) get past the limiters; a Redis
      outage answers every request 429 (C37).
    - Concurrency: from any state, a listing read that reads the store
      before a create and caches after it caches a page without the post
      the create answered 201 for, so read-your-writes fails (C40).
    - Routing: the post router is its reference by cases, [/all-post]
      never being taken for an id (C39).

    ** Bounds and executability
    Every definition but the JSON parser is structural, and every run in
    the development evaluates by [vm_compute].  The parser's fuel is
    [json_fuel s = 2 * length s + 1]: each call consumes a character or
    descends one level, and [parse_fuel_enough] shows it never runs out
    and that more fuel changes nothing.  The calendar is checked on one
    400-year era (146097 days, by [vm_compute]) and extended to all days
    by periodicity; dates range over [|ms| <= 8.64e15], JS's time range.  Search answers the top 10 as
    the controller's [.limit(10)] does.  multer's limit is 3 MiB
    ([FILE_SIZE_LIMIT]).  The limiters' windows are 1000 ms and 15 minutes
    with 10 and 50 points; their bounds are proved for any interval and
    any interleaving of clients.  Post ids are the store's counter in 24
    hex digits ([oid_of]), distinct below [16^24] ([oid_of_inj]), so C32
    and C33 are stated for runs that issue fewer ids than that, the real
    ObjectIds never repeating.  Counters are [nat] or [N], clocks [Z] in
    milliseconds.  No machine-width integer arithmetic is in scope: page
    and limit are JS numbers, kept as [Z].

    ** Not modelled
    - Logging, helmet, cors and [app.listen]: headers and logs, no state
      of the program; the error handlers (not under src/) only as the
      400 they give a body parse error.
    - The api-gateway's proxying and its [index.js] (not under src/): the
      services are called with the [x-user-id] the gateway would set.
    - Password hashing, JWT signing and the Joi schemas of the auth service
      (not under src/): parameters.
    - The search's stemming and stop words: the score is word overlap.
    - Message acknowledgement timing and prefetch: a delivery is handled
      to completion before the next step.  Requests are interleaved only
      in [Interleave], two at a time.
    - URL decoding, trailing slashes and [parseInt] on strings (a
      parameter of the post router).
    - JSON numbers with a fraction or an exponent, beyond 2^53, and
      [\u] escapes above 0xFF (strings are 8-bit code units): [JSON_parse]
      answers [Unsupported] for them.  JS's ordering of integer-like keys
      first is not modelled; no value of the services has such keys.
      The post service's Redis values are kept as the structured listing
      and post, not as their JSON text.
    - Mongoose keeps [null] elements of a [[String]] array, which
      [joi.array()] lets through in [mediaIds]; the model's array cast
      rejects them, so such a create fails in the model where the code
      stores the post (the Post schema is not under src/).
    - Mongoose's cast of a date string accepts other formats than
      [toISOString]'s; the model reads that format only, which is the one
      the services send.
    - Further interleavings (the single-post read and the delete as
      threads, two refreshes of one token) are left out: the two threads
      modelled already exhibit the race the spec rules out. *)

From stdpp Require Export base gmap fin_maps sets list strings pretty.
From Stdlib Require Export ZArith Ascii.

Declare Scope sm_scope.
Delimit Scope sm_scope with sm.
Open Scope sm_scope.

Create HintDb sm discriminated.
Create Rewrite HintDb sm_rw.

(** ** Exceptions *)

(** The exceptions the awaited calls of the services can raise. *)
Inductive exn : Type :=
| ExnRedis            (** an ioredis command rejected (server unreachable) *)
| ExnMongo            (** a Mongo operation rejected (server unreachable) *)
| ExnCast             (** Mongoose [CastError]: an id that is not an ObjectId *)
| ExnValidation       (** Mongoose [ValidationError] on [save] *)
| ExnDuplicateKey     (** Mongo E11000 on a unique index *)
| ExnBadValue         (** Mongo rejects a query ([skip] below 0) *)
| ExnConnRefused      (** [amqp.connect] rejected *)
| ExnChannelClosed    (** amqplib [IllegalOperationError: Channel closed] *)
| ExnPrecondition     (** AMQP PRECONDITION_FAILED on a redeclaration *)
| ExnTypeError.       (** a JS [TypeError], e.g. a method call on [null] *)

(** ** The exception-state monad of an async handler *)

(** [Ex S E A]: from the state [S], either throw an [E] or return an [A],
    and in both cases the state reached so far. *)
Definition Ex (S E A : Type) : Type := S -> (E + A) * S.

#[export] Instance ex_ret {S E} : MRet (Ex S E) := fun A a s => (inr a, s).
#[export] Instance ex_bind {S E} : MBind (Ex S E) := fun A B f m s =>
  match m s with
  | (inl e, s') => (inl e, s')
  | (inr a, s') => f a s'
  end.

Definition ex_throw {S E A} (e : E) : Ex S E A := fun s => (inl e, s).
Definition ex_get {S E} : Ex S E S := fun s => (inr s, s).
Definition ex_put {S E} (s : S) : Ex S E unit := fun _ => (inr tt, s).
Definition ex_modify {S E} (f : S -> S) : Ex S E unit := fun s => (inr tt, f s).

(** [try { m } catch (e) { h e }]. *)
Definition ex_catch {S E A} (m : Ex S E A) (h : E -> Ex S E A) : Ex S E A :=
  fun s => match m s with
           | (inl e, s') => h e s'
           | r => r
           end.

Notation "'throw!' e" := (ex_throw e) (at level 10) : sm_scope.
Notation "m 'catch!' h" := (ex_catch m h) (at level 60) : sm_scope.

(** The result and the final state of a run. *)
Definition ex_val {S E A} (m : Ex S E A) (s : S) : E + A := fst (m s).
Definition ex_state {S E A} (m : Ex S E A) (s : S) : S := snd (m s).

Section ExLemmas.
Context {S E A B : Type}.

Lemma ex_bind_inr (m : Ex S E A) (f : A -> Ex S E B) s a s' :
  m s = (inr a, s') -> (m ≫= f) s = f a s'.
Proof. intros H. unfold mbind, ex_bind. by rewrite H. Qed.

Lemma ex_bind_inl (m : Ex S E A) (f : A -> Ex S E B) s e s' :
  m s = (inl e, s') -> (m ≫= f) s = (inl e, s').
Proof. intros H. unfold mbind, ex_bind. by rewrite H. Qed.

Lemma ex_catch_inl (m : Ex S E A) h s e s' :
  m s = (inl e, s') -> (m catch! h) s = h e s'.
Proof. intros H. unfold ex_catch. by rewrite H. Qed.

Lemma ex_catch_inr (m : Ex S E A) h s a s' :
  m s = (inr a, s') -> (m catch! h) s = (inr a, s').
Proof. intros H. unfold ex_catch. by rewrite H. Qed.

(** A computation that never throws makes [catch] a no-op. *)
Lemma ex_catch_total (m : Ex S E A) h s :
  (forall e s', m s <> (inl e, s')) -> (m catch! h) s = m s.
Proof.
  intros H. unfold ex_catch. destruct (m s) as [[e|a] s'] eqn:Hm; [|done].
  by destruct (H e s').
Qed.
(** A handler's [try] block whose first step succeeds continues from it. *)
Lemma ex_catch_bind_inr (m : Ex S E A) (k : A -> Ex S E B) h s a s' :
  m s = (inr a, s') -> ((m ≫= k) catch! h) s = (k a catch! h) s'.
Proof. intros H. unfold ex_catch. by rewrite (ex_bind_inr _ _ _ _ _ H). Qed.
End ExLemmas.

#[export] Hint Resolve ex_bind_inr ex_bind_inl ex_catch_inl ex_catch_inr : sm.

(** A [unit] handler whose errors are logged and swallowed returns
    normally, in the state its body reached. *)
Lemma ex_catch_unit {S E} (m : Ex S E unit) s :
  (m catch! (fun _ => mret tt)) s = (inr tt, snd (m s)).
Proof. unfold ex_catch. by destruct (m s) as [[e|[]] s']. Qed.

(** ** The first element of a list that passes a test ([findOne]) *)

Lemma find_none_forall {A} (f : A -> bool) l : (forall x, x ∈ l -> f x = false) -> List.find f l = None.
Proof.
  induction l as [|x l IH]; intros Hl; [done|]. simpl.
  rewrite (Hl x) by apply list_elem_of_here. apply IH. intros y Hy. apply Hl. by apply list_elem_of_further.
Qed.

Lemma find_some_elem {A} (f : A -> bool) l x : List.find f l = Some x -> x ∈ l /\ f x = true.
Proof. intros H. apply find_some in H as [? ?]. split; [by apply list_elem_of_In|done]. Qed.

(** A filter that keeps every element is the identity. *)
Lemma filter_all_id {A} (P : A -> Prop) `{!forall x, Decision (P x)} (l : list A) :
  (forall x, x ∈ l -> P x) -> filter P l = l.
Proof.
  induction l as [|x l IH]; intros Hl; [done|].
  rewrite filter_cons_True by (apply Hl, list_elem_of_here). f_equal.
  apply IH. intros y Hy. by apply Hl, list_elem_of_further.
Qed.

(** ** Handlers that move the state along a preorder

    [ex_mono R m]: whatever [m] returns or throws, its final state is
    [R]-after its initial one.  The class of such computations is closed
    under [mret], [throw!], [ex_get], [≫=] and [catch!], so a handler built
    from primitives that move along [R] moves along [R]. *)
Section ExMono.
Context {S E : Type} (R : relation S) `{!PreOrder R}.

Definition ex_mono {A} (m : Ex S E A) : Prop := forall s, R s (snd (m s)).

Lemma ex_mono_ret {A} (a : A) : ex_mono (mret a).
Proof. intros s. reflexivity. Qed.

Lemma ex_mono_throw {A} (e : E) : ex_mono (ex_throw (A:=A) e).
Proof. intros s. reflexivity. Qed.

Lemma ex_mono_get : ex_mono ex_get.
Proof. intros s. reflexivity. Qed.

Lemma ex_mono_same {A} (m : Ex S E A) : (forall s, snd (m s) = s) -> ex_mono m.
Proof. intros Hm s. rewrite Hm. reflexivity. Qed.

Lemma ex_mono_bind {A B} (m : Ex S E A) (k : A -> Ex S E B) :
  ex_mono m -> (forall a, ex_mono (k a)) -> ex_mono (m ≫= k).
Proof.
  intros Hm Hk s. pose proof (Hm s) as Hs. unfold mbind, ex_bind.
  destruct (m s) as [[e|a] s']; [done|]. by etrans; [apply Hs|apply Hk].
Qed.

Lemma ex_mono_catch {A} (m : Ex S E A) h :
  ex_mono m -> (forall e, ex_mono (h e)) -> ex_mono (m catch! h).
Proof.
  intros Hm Hh s. pose proof (Hm s) as Hs. unfold ex_catch.
  destruct (m s) as [[e|a] s']; [|done]. by etrans; [apply Hs|apply Hh].
Qed.
End ExMono.

(** Take a handler apart along its binds, [catch] and branches; the
    primitives at the leaves are left to the caller. *)
Ltac ex_mono_split :=
  repeat match goal with
  | |- ex_mono _ (_ catch! _) => apply ex_mono_catch; intros; cbv beta
  | |- ex_mono _ (_ ≫= _) => apply ex_mono_bind; intros
  | |- ex_mono _ (match ?x with _ => _ end) => destruct x
  | |- ex_mono _ (let _ := _ in _) => cbv zeta
  | |- ex_mono _ (mret _) => apply ex_mono_ret
  | |- ex_mono _ (ex_throw _) => apply ex_mono_throw
  | |- ex_mono _ ex_get => apply ex_mono_get
  | |- PreOrder _ => exact _
  | |- forall _, _ => intro; cbv beta
  end.

(** ** What a handler can answer

    [ex_post P m]: every value [m] returns, from any state, satisfies [P];
    what it throws is unconstrained.  A handler satisfies it when every
    [mret] at its leaves does, whatever its binds return. *)
Section ExPost.
Context {S E A : Type} (P : A -> Prop).

Definition ex_post (m : Ex S E A) : Prop :=
  forall s, match fst (m s) with inr a => P a | inl _ => True end.

Lemma ex_post_ret a : P a -> ex_post (mret a).
Proof. intros Ha s. exact Ha. Qed.

Lemma ex_post_throw e : ex_post (ex_throw e).
Proof. intros s. exact I. Qed.

Lemma ex_post_bind {B} (m : Ex S E B) (k : B -> Ex S E A) :
  (forall b, ex_post (k b)) -> ex_post (m ≫= k).
Proof.
  intros Hk s. unfold mbind, ex_bind. destruct (m s) as [[e|b] s']; [done|]. apply Hk.
Qed.

Lemma ex_post_catch (m : Ex S E A) h :
  ex_post m -> (forall e, ex_post (h e)) -> ex_post (m catch! h).
Proof.
  intros Hm Hh s. pose proof (Hm s) as Hs. unfold ex_catch.
  destruct (m s) as [[e|a] s']; [apply Hh|done].
Qed.
End ExPost.

Ltac ex_post_split :=
  repeat match goal with
  | |- ex_post _ (_ catch! _) => apply ex_post_catch; intros; cbv beta
  | |- ex_post _ (_ ≫= _) => apply ex_post_bind; intros
  | |- ex_post _ (match ?x with _ => _ end) => destruct x
  | |- ex_post _ (let _ := _ in _) => cbv zeta
  | |- ex_post _ (mret _) => apply ex_post_ret
  | |- ex_post _ (ex_throw _) => apply ex_post_throw
  | |- forall _, _ => intro; cbv beta
  end.

(** Unfold the monad's plumbing so that a concrete run reduces. *)
Ltac ex_simp :=
  unfold mbind, mret, ex_bind, ex_ret, ex_catch, ex_throw, ex_get, ex_put,
    ex_modify, ex_val, ex_state in *; simpl in *.

(** ** JavaScript helpers *)

(** [parseInt(x) || d]: [NaN] (modelled as [None]) and [0] are falsy. *)
Definition js_or_default (v : option Z) (d : Z) : Z :=
  match v with
  | Some z => if Z.eqb z 0 then d else z
  | None => d
  end.

(** [Math.ceil(a / b)] for integers [a] and [b <> 0]. *)
Definition js_ceil_div (a b : Z) : Z := - ((- a) / b).

Lemma js_or_default_nonzero v d : d <> 0%Z -> js_or_default v d <> 0%Z.
Proof. destruct v as [z|]; simpl; [destruct (Z.eqb_spec z 0)|]; lia. Qed.

Lemma js_ceil_div_spec a b :
  (0 < b)%Z -> (b * (js_ceil_div a b - 1) < a <= b * js_ceil_div a b)%Z.
Proof.
  intros Hb. unfold js_ceil_div.
  pose proof (Z.div_mod (- a) b ltac:(lia)).
  pose proof (Z.mod_pos_bound (- a) b Hb). nia.
Qed.

(** ** Strings *)

Lemma prefix_app (p s : string) : String.prefix p (p +:+ s) = true.
Proof.
  induction p as [|c p IH]; [by destruct s|].
  change (String c p +:+ s) with (String c (p +:+ s)); cbn [String.prefix].
  destruct (Ascii.ascii_dec c c); [done|congruence].
Qed.

Lemma prefix_spec (p s : string) :
  String.prefix p s = true <-> exists t, s = p +:+ t.
Proof.
  split.
  - revert s. induction p as [|c p IH]; intros s H.
    + by exists s.
    + destruct s as [|c' s]; [done|]. cbn [String.prefix] in H.
      destruct (Ascii.ascii_dec c c') as [->|]; [|done].
      destruct (IH s H) as [t ->]. by exists t.
  - intros [t ->]. apply prefix_app.
Qed.

Lemma append_inj_l (p s t : string) : p +:+ s = p +:+ t -> s = t.
Proof. induction p as [|c p IH]; simpl; intros H; [done|]. injection H as H. by apply IH. Qed.

#[export] Hint Rewrite prefix_app : sm_rw.

(** Every character of a string satisfies [f]. *)
Fixpoint str_forall (f : ascii -> bool) (s : string) : bool :=
  match s with
  | EmptyString => true
  | String c s' => f c && str_forall f s'
  end.

Lemma str_forall_app f s t :
  str_forall f (s +:+ t) = str_forall f s && str_forall f t.
Proof. induction s as [|c s IH]; simpl; [done|]. by rewrite IH, andb_assoc. Qed.

(** The digits [pretty] writes all satisfy [f] when the ten digits do. *)
Lemma str_forall_pretty_N_go f x s :
  (forall d, f (pretty_N_char d) = true) ->
  str_forall f s = true -> str_forall f (pretty_N_go x s) = true.
Proof.
  intros Hd. revert s. induction (N.lt_wf_0 x) as [x _ IH]; intros s Hs.
  destruct (decide (x = 0)%N) as [->|Hx]; [by rewrite pretty_N_go_0|].
  rewrite pretty_N_go_step by lia. apply IH; [apply N.div_lt; lia|].
  simpl. by rewrite Hd, Hs.
Qed.

Lemma str_forall_pretty_Z f (z : Z) :
  (forall d, f (pretty_N_char d) = true) -> f "-"%char = true ->
  str_forall f (pretty z) = true.
Proof.
  intros Hd Hm. assert (H0 : f "0"%char = true) by exact (Hd 0%N).
  unfold pretty, pretty_Z, pretty_positive, pretty, pretty_N.
  destruct z as [|x|x]; [by simpl; rewrite H0|..]; case_decide; simpl;
    rewrite ?H0, ?Hm; simpl; try done; by apply str_forall_pretty_N_go.
Qed.

(** Splitting at the first separator [c]: [a ++ c ++ b] determines [a] and
    [b] when [a] has no [c]. *)
Lemma split_at_sep (c : ascii) (a a' b b' : string) :
  str_forall (fun x => negb (Ascii.eqb x c)) a = true ->
  str_forall (fun x => negb (Ascii.eqb x c)) a' = true ->
  a +:+ String c b = a' +:+ String c b' -> a = a' /\ b = b'.
Proof.
  revert a'. induction a as [|x a IH]; intros [|x' a'] Ha Ha' H; simpl in *.
  - by injection H.
  - injection H as -> _. by rewrite Ascii.eqb_refl in Ha'.
  - injection H as -> _. by rewrite Ascii.eqb_refl in Ha.
  - apply andb_prop in Ha as [_ Ha], Ha' as [_ Ha'].
    injection H as -> H. destruct (IH a' Ha Ha' H) as [-> ->]. done.
Qed.

(** [s.split(sep)] for a one-character separator. *)
Fixpoint split_on (sep : ascii) (s : string) : list string :=
  match s with
  | EmptyString => [EmptyString]
  | String c s' =>
      let ws := split_on sep s' in
      if Ascii.eqb c sep then EmptyString :: ws
      else match ws with
           | w :: ws' => String c w :: ws'
           | [] => [String c EmptyString]
           end
  end.
