(* ===== verification/Json.v ===== *)
(** JSON values: the request bodies the controllers read ([req.body]), the
    event payloads [publishEvent] sends and the handlers read, and the
    objects the controllers build.  Numbers are integers (every number the
    services put in JSON is an integer).  A JS [Date] is kept as [JDate]
    (milliseconds since the epoch): [JSON.stringify] writes it as its ISO
    string and the Mongoose schemas that read it back ([createdAt: Date])
    cast that string back.  [JsonCodec] and [Iso] model both directions,
    and [Wire] proves the consumers get back the same instant. *)

From S2P Require Import Prelude.

#[local] Set Warnings "-register-all".
Inductive json : Type :=
| JNull
| JBool (b : bool)
| JNum (z : Z)
| JStr (s : string)
| JDate (ms : Z)
| JArr (l : list json)
| JObj (fields : list (string * json)).

(** [obj[k]]: [None] is [undefined]; the first binding wins, as in an
    object literal read back by [JSON.parse] with distinct keys. *)
Fixpoint assoc (k : string) (fs : list (string * json)) : option json :=
  match fs with
  | [] => None
  | (k', v) :: fs' => if String.eqb k' k then Some v else assoc k fs'
  end.

Definition jget (k : string) (j : json) : option json :=
  match j with JObj fs => assoc k fs | _ => None end.

(** [typeof v === 'string'] and the string it holds. *)
Definition jstring (j : option json) : option string :=
  match j with Some (JStr s) => Some s | _ => None end.

(** The keys of an object, in order. *)
Definition jkeys (j : json) : list string :=
  match j with JObj fs => fst <$> fs | _ => [] end.

Lemma jget_cons_eq k v fs : jget k (JObj ((k, v) :: fs)) = Some v.
Proof. simpl. by rewrite String.eqb_refl. Qed.

Lemma jget_cons_ne k k' v fs :
  k' <> k -> jget k (JObj ((k', v) :: fs)) = jget k (JObj fs).
Proof. intros Hne. simpl. by destruct (String.eqb_spec k' k). Qed.

#[export] Hint Rewrite jget_cons_eq : sm_rw.
