(* ===== verification/Iso.v ===== *)
(** Dates on the wire: [Date.prototype.toISOString], which
    [JSON.stringify] calls (through [toJSON]) on the [createdAt] of a
    post when [publishEvent] serialises [post.created]
    ([src/post-service/src/utils/rabbitmq.js], line 30), and its inverse,
    the cast Mongoose applies to that string when the search service
    saves the event ([createdAt: { type: Date }] in
    [src/search-service/src/models/search-post-model.js]).

    A time value is an integer of milliseconds since the epoch, valid
    when its absolute value is at most 8.64e15 ([TimeClip]).  The
    calendar is the proleptic Gregorian one of ECMAScript's [MakeDay];
    [civil_from_days] and [days_from_civil] compute it by 400-year eras.
    [toISOString] writes [YYYY-MM-DDTHH:mm:ss.sssZ], with the expanded
    year [+YYYYYY] / [-YYYYYY] outside 0..9999.  [parse_iso] reads that
    format back; the other formats [Date.parse] accepts (date only, time
    zone offsets, local time) are not modelled and read as invalid.

    Theorems: the two calendar functions are inverse on every day (one
    era is checked by computation, and every day is that era shifted);
    and [parse_iso (toISOString ms) = Some ms] on every valid time
    value. *)

From S2P Require Import Prelude.

#[local] Open Scope Z_scope.

(** ** Fixed-width decimal fields *)

Definition digit_char (d : Z) : ascii := ascii_of_nat (48 + Z.to_nat d).

Definition char_digit (c : ascii) : option Z :=
  let n := nat_of_ascii c in
  if (48 <=? n)%nat && (n <=? 57)%nat then Some (Z.of_nat (n - 48)) else None.

(** The [w] last decimal digits of [z], most significant first. *)
Fixpoint pad_digits (w : nat) (z : Z) : string :=
  match w with
  | O => ""
  | S w' => String (digit_char (z / 10 ^ Z.of_nat w')) (pad_digits w' (z mod 10 ^ Z.of_nat w'))
  end.

(** Exactly [w] digits, and what follows them. *)
Fixpoint read_digits (w : nat) (s : string) : option (Z * string) :=
  match w with
  | O => Some (0%Z, s)
  | S w' =>
      match s with
      | String c s' =>
          d ← char_digit c;
          '(v, r) ← read_digits w' s';
          Some ((d * 10 ^ Z.of_nat w' + v)%Z, r)
      | EmptyString => None
      end
  end.

(** The character [c] and what follows it. *)
Definition expect (c : ascii) (s : string) : option string :=
  match s with
  | String c' s' => if Ascii.eqb c c' then Some s' else None
  | EmptyString => None
  end.

(** ** The calendar *)

Definition MS_PER_DAY : Z := 86400000.
Definition MAX_TIME : Z := 8640000000000000.

(** Year of the era (March-based), month and day of a day of the era
    [0 <= doe < 146097]. *)
Definition civil_of_doe (doe : Z) : Z * Z * Z :=
  let yoe := (doe - doe / 1460 + doe / 36524 - doe / 146096) / 365 in
  let doy := doe - (365 * yoe + yoe / 4 - yoe / 100) in
  let mp := (5 * doy + 2) / 153 in
  let d := doy - (153 * mp + 2) / 5 + 1 in
  let m := if mp <? 10 then mp + 3 else mp - 9 in
  (yoe, m, d).

Definition doe_of_civil (yoe m d : Z) : Z :=
  let doy := (153 * (if 2 <? m then m - 3 else m + 9) + 2) / 5 + d - 1 in
  yoe * 365 + yoe / 4 - yoe / 100 + doy.

(** The year, month and day of day [z] (days since 1970-01-01). *)
Definition civil_from_days (z : Z) : Z * Z * Z :=
  let z' := z + 719468 in
  let '(yoe, m, d) := civil_of_doe (z' mod 146097) in
  (yoe + (z' / 146097) * 400 + (if m <=? 2 then 1 else 0), m, d).

(** [MakeDay(y, m - 1, d)]. *)
Definition days_from_civil (y m d : Z) : Z :=
  let y' := y - (if m <=? 2 then 1 else 0) in
  (y' / 400) * 146097 + doe_of_civil (y' mod 400) m d - 719468.

(** ** [toISOString] and its inverse *)

Definition year_string (y : Z) : string :=
  if (0 <=? y) && (y <=? 9999) then pad_digits 4 y
  else (if y <? 0 then "-" else "+") +:+ pad_digits 6 (Z.abs y).

Definition toISOString (ms : Z) : string :=
  let t := ms mod MS_PER_DAY in
  let '(y, m, d) := civil_from_days (ms / MS_PER_DAY) in
  year_string y +:+ "-" +:+ pad_digits 2 m +:+ "-" +:+ pad_digits 2 d +:+ "T" +:+
  pad_digits 2 (t / 3600000) +:+ ":" +:+ pad_digits 2 (t / 60000 mod 60) +:+ ":" +:+
  pad_digits 2 (t / 1000 mod 60) +:+ "." +:+ pad_digits 3 (t mod 1000) +:+ "Z".

Definition read_year (s : string) : option (Z * string) :=
  match s with
  | String "+"%char r => read_digits 6 r
  | String "-"%char r =>
      '(y, r') ← read_digits 6 r; if Z.eqb y 0 then None else Some ((- y)%Z, r')
  | _ => read_digits 4 s
  end.

(** [Date.parse] on the format [toISOString] writes; [None] is an
    invalid date. *)
Definition parse_iso (s : string) : option Z :=
  '(y, s) ← read_year s; s ← expect "-" s;
  '(mo, s) ← read_digits 2 s; s ← expect "-" s;
  '(d, s) ← read_digits 2 s; s ← expect "T" s;
  '(h, s) ← read_digits 2 s; s ← expect ":" s;
  '(mi, s) ← read_digits 2 s; s ← expect ":" s;
  '(sec, s) ← read_digits 2 s; s ← expect "." s;
  '(msec, s) ← read_digits 3 s; s ← expect "Z" s;
  if String.eqb s "" && (1 <=? mo) && (mo <=? 12) && (1 <=? d) && (d <=? 31)
     && (h <=? 23) && (mi <=? 59) && (sec <=? 59) then
    let ms := (days_from_civil y mo d * MS_PER_DAY + h * 3600000 + mi * 60000 + sec * 1000 + msec)%Z in
    if Z.abs ms <=? MAX_TIME then Some ms else None
  else None.

(** ** Digits *)

Lemma digit_cases d : 0 <= d < 10 ->
  d = 0 \/ d = 1 \/ d = 2 \/ d = 3 \/ d = 4 \/ d = 5 \/ d = 6 \/ d = 7 \/ d = 8 \/ d = 9.
Proof. lia. Qed.

Lemma char_digit_digit d : 0 <= d < 10 -> char_digit (digit_char d) = Some d.
Proof. intros Hd. by destruct (digit_cases d Hd) as [->|[->|[->|[->|[->|[->|[->|[->|[->| ->]]]]]]]]]. Qed.

Lemma pow10_succ w : 10 ^ Z.of_nat (S w) = 10 * 10 ^ Z.of_nat w.
Proof. rewrite Nat2Z.inj_succ, Z.pow_succ_r; lia. Qed.

Lemma pow10_pos w : 0 < 10 ^ Z.of_nat w.
Proof. apply Z.pow_pos_nonneg; lia. Qed.

Lemma append_cons c s r : String c s +:+ r = String c (s +:+ r).
Proof. reflexivity. Qed.

Lemma pad_digits_S w z :
  pad_digits (S w) z = String (digit_char (z / 10 ^ Z.of_nat w)) (pad_digits w (z mod 10 ^ Z.of_nat w)).
Proof. reflexivity. Qed.

Lemma read_digits_S w c s :
  read_digits (S w) (String c s) =
    d ← char_digit c; '(v, r) ← read_digits w s; Some (d * 10 ^ Z.of_nat w + v, r).
Proof. reflexivity. Qed.

(** Reading back [w] digits written by [pad_digits]. *)
Lemma read_pad w z rest :
  0 <= z < 10 ^ Z.of_nat w -> read_digits w (pad_digits w z +:+ rest) = Some (z, rest).
Proof.
  revert z. induction w as [|w IH]; intros z Hz.
  - simpl in Hz. replace z with 0 by lia. reflexivity.
  - pose proof (pow10_pos w) as Hp. rewrite pow10_succ in Hz.
    rewrite pad_digits_S, append_cons, read_digits_S.
    rewrite char_digit_digit by (split; [apply Z.div_pos|apply Z.div_lt_upper_bound]; lia).
    cbn [mbind option_bind]. rewrite IH by (apply Z.mod_pos_bound; lia). cbn [mbind option_bind].
    do 2 f_equal. pose proof (Z.div_mod z (10 ^ Z.of_nat w) ltac:(lia)). lia.
Qed.

Lemma expect_cons c s : expect c (String c s) = Some s.
Proof. unfold expect. by rewrite Ascii.eqb_refl. Qed.

(** ** One era, checked *)

Definition doe_ok (doe : Z) : bool :=
  let '(yoe, m, d) := civil_of_doe doe in
  (0 <=? yoe) && (yoe <=? 399) && (1 <=? m) && (m <=? 12) && (1 <=? d) && (d <=? 31)
  && (doe_of_civil yoe m d =? doe).

(** [doe_ok] on the [p] days [k], ..., [k + p - 1], split in halves. *)
Fixpoint check_era (p : positive) (k : Z) : bool :=
  match p with
  | xH => doe_ok k
  | xO p' => check_era p' k && check_era p' (k + Zpos p')
  | xI p' => doe_ok k && check_era p' (k + 1) && check_era p' (k + 1 + Zpos p')
  end.

Lemma check_era_146097 : check_era 146097 0 = true.
Proof. vm_compute. reflexivity. Qed.

Lemma check_era_spec p k j : check_era p k = true -> k <= j < k + Zpos p -> doe_ok j = true.
Proof.
  revert k. induction p as [p IH|p IH|]; simpl; intros k Hc Hj.
  - apply andb_prop in Hc as [Hc H2]. apply andb_prop in Hc as [Hd H1].
    rewrite Pos2Z.inj_xI in Hj.
    destruct (Z.eq_dec j k) as [->|Hne]; [done|].
    destruct (Z_lt_ge_dec j (k + 1 + Zpos p)); [apply (IH (k + 1))|apply (IH (k + 1 + Zpos p))]; auto; lia.
  - apply andb_prop in Hc as [H1 H2]. rewrite Pos2Z.inj_xO in Hj.
    destruct (Z_lt_ge_dec j (k + Zpos p)); [apply (IH k)|apply (IH (k + Zpos p))]; auto; lia.
  - replace j with k by lia. done.
Qed.

Lemma civil_of_doe_ok doe :
  0 <= doe < 146097 ->
  let '(yoe, m, d) := civil_of_doe doe in
  0 <= yoe <= 399 /\ 1 <= m <= 12 /\ 1 <= d <= 31 /\ doe_of_civil yoe m d = doe.
Proof.
  intros Hr. pose proof (check_era_spec _ _ doe check_era_146097 ltac:(lia)) as Hok.
  unfold doe_ok in Hok. destruct (civil_of_doe doe) as [[yoe m] d].
  repeat (apply andb_prop in Hok as [Hok ?]). lia.
Qed.

(** The calendar: every day is a day of an era, shifted by whole eras. *)
Lemma civil_from_days_ok z :
  let '(y, m, d) := civil_from_days z in
  1 <= m <= 12 /\ 1 <= d <= 31 /\ days_from_civil y m d = z /\
  exists yoe, 0 <= yoe <= 399 /\
    y - (if m <=? 2 then 1 else 0) = yoe + ((z + 719468) / 146097) * 400.
Proof.
  unfold civil_from_days. cbv zeta.
  pose proof (Z.mod_pos_bound (z + 719468) 146097 ltac:(lia)) as Hdoe.
  pose proof (civil_of_doe_ok _ Hdoe) as Hc.
  destruct (civil_of_doe _) as [[yoe m] d] eqn:Heq.
  destruct Hc as (Hy & Hm & Hd & Hinv). split; [done|split; [done|]].
  split; [|exists yoe; split; [done|lia]].
  unfold days_from_civil.
  replace (yoe + (z + 719468) / 146097 * 400 + (if m <=? 2 then 1 else 0) - (if m <=? 2 then 1 else 0))
    with (yoe + (z + 719468) / 146097 * 400) by lia.
  rewrite Z.div_add, Z.mod_add, (Z.div_small yoe), (Z.mod_small yoe), Hinv by lia.
  pose proof (Z.div_mod (z + 719468) 146097 ltac:(lia)). lia.
Qed.

(** ** The round trip *)

(** The fields of a time of day, and the time of day they make. *)
Lemma time_of_day t :
  0 <= t < MS_PER_DAY ->
  0 <= t / 3600000 <= 23 /\ 0 <= t / 60000 mod 60 < 60 /\ 0 <= t / 1000 mod 60 < 60 /\
  0 <= t mod 1000 < 1000 /\
  t / 3600000 * 3600000 + t / 60000 mod 60 * 60000 + t / 1000 mod 60 * 1000 + t mod 1000 = t.
Proof.
  unfold MS_PER_DAY. intros Ht.
  assert (H1 : t / 60000 = t / 1000 / 60) by (rewrite Z.div_div by lia; reflexivity).
  assert (H2 : t / 3600000 = t / 60000 / 60) by (rewrite Z.div_div by lia; reflexivity).
  pose proof (Z.div_mod t 1000 ltac:(lia)). pose proof (Z.mod_pos_bound t 1000 ltac:(lia)).
  pose proof (Z.div_mod (t / 1000) 60 ltac:(lia)). pose proof (Z.mod_pos_bound (t / 1000) 60 ltac:(lia)).
  pose proof (Z.div_mod (t / 60000) 60 ltac:(lia)). pose proof (Z.mod_pos_bound (t / 60000) 60 ltac:(lia)).
  assert (0 <= t / 3600000 <= 23) by (split; [apply Z.div_pos|apply Z.lt_succ_r, Z.div_lt_upper_bound]; lia).
  rewrite <- H1 in *. rewrite <- H2 in *. lia.
Qed.

(** The year of a valid time value has at most six digits. *)
Lemma year_bound ms :
  Z.abs ms <= MAX_TIME ->
  let '(y, m, d) := civil_from_days (ms / MS_PER_DAY) in -999999 <= y <= 999999.
Proof.
  unfold MAX_TIME, MS_PER_DAY. intros Hms.
  pose proof (civil_from_days_ok (ms / 86400000)) as Hc.
  destruct (civil_from_days _) as [[y m] d]. destruct Hc as (_ & _ & _ & yoe & Hyoe & Hy).
  pose proof (Z.div_mod ms 86400000 ltac:(lia)). pose proof (Z.mod_pos_bound ms 86400000 ltac:(lia)).
  pose proof (Z.div_mod (ms / 86400000 + 719468) 146097 ltac:(lia)).
  pose proof (Z.mod_pos_bound (ms / 86400000 + 719468) 146097 ltac:(lia)).
  destruct (m <=? 2); lia.
Qed.

Lemma read_year_digit d r :
  0 <= d < 10 -> read_year (String (digit_char d) r) = read_digits 4 (String (digit_char d) r).
Proof. intros Hd. by destruct (digit_cases d Hd) as [->|[->|[->|[->|[->|[->|[->|[->|[->| ->]]]]]]]]]. Qed.

Lemma read_year_string y r :
  -999999 <= y <= 999999 -> read_year (year_string y +:+ r) = Some (y, r).
Proof.
  intros Hy. unfold year_string.
  destruct (Z.leb_spec 0 y), (Z.leb_spec y 9999); cbn [andb].
  - rewrite pad_digits_S, append_cons, read_year_digit, <- append_cons, <- pad_digits_S
      by (split; [apply Z.div_pos|apply Z.div_lt_upper_bound]; simpl; lia).
    apply read_pad. simpl. lia.
  - destruct (Z.ltb_spec y 0); [lia|]. cbn [String.append read_year].
    rewrite Z.abs_eq by lia. apply read_pad. simpl. lia.
  - destruct (Z.ltb_spec y 0); [|lia].
    change (read_year (("-" +:+ pad_digits 6 (Z.abs y)) +:+ r))
      with (read_year (String "-" (pad_digits 6 (Z.abs y) +:+ r))). cbn [read_year].
    rewrite read_pad by (simpl; lia). cbn [mbind option_bind].
    destruct (Z.eqb_spec (Z.abs y) 0); [lia|]. do 2 f_equal. lia.
  - lia.
Qed.

Lemma expect_app c s : expect c (String c "" +:+ s) = Some s.
Proof. apply expect_cons. Qed.

Lemma parse_iso_toISOString ms : Z.abs ms <= MAX_TIME -> parse_iso (toISOString ms) = Some ms.
Proof.
  intros Hms. pose proof (year_bound ms Hms) as Hyb.
  pose proof (civil_from_days_ok (ms / MS_PER_DAY)) as Hc.
  pose proof (Z.mod_pos_bound ms MS_PER_DAY ltac:(unfold MS_PER_DAY; lia)) as Ht.
  pose proof (time_of_day _ Ht) as (Hh & Hmi & Hs & Hmsec & Htime).
  pose proof (Z.div_mod ms MS_PER_DAY ltac:(unfold MS_PER_DAY; lia)) as Hdm.
  unfold toISOString. destruct (civil_from_days (ms / MS_PER_DAY)) as [[y m] d].
  destruct Hc as (Hm & Hd & Hinv & _).
  unfold parse_iso. rewrite read_year_string by done.
  repeat first [rewrite expect_app | rewrite expect_cons | rewrite read_pad by (simpl; lia)
               | progress cbn [mbind option_bind]].
  cbn [String.eqb andb]. cbv zeta.
  repeat match goal with |- context [Z.leb ?a ?b] => destruct (Z.leb_spec a b); try lia end.
  f_equal. unfold MS_PER_DAY in *. lia.
Qed.

Module IsoChecks.
Example iso_epoch : toISOString 0 = "1970-01-01T00:00:00.000Z".
Proof. vm_compute. reflexivity. Qed.
Example iso_2023 : toISOString 1700000000000 = "2023-11-14T22:13:20.000Z".
Proof. vm_compute. reflexivity. Qed.
Example iso_leap : toISOString 951782400000 = "2000-02-29T00:00:00.000Z".
Proof. vm_compute. reflexivity. Qed.
Example iso_before_epoch : toISOString (-1) = "1969-12-31T23:59:59.999Z".
Proof. vm_compute. reflexivity. Qed.
Example iso_year0 : toISOString (-62167219200000) = "0000-01-01T00:00:00.000Z".
Proof. vm_compute. reflexivity. Qed.
Example iso_max : toISOString MAX_TIME = "+275760-09-13T00:00:00.000Z".
Proof. vm_compute. reflexivity. Qed.
Example iso_min : toISOString (- MAX_TIME) = "-271821-04-20T00:00:00.000Z".
Proof. vm_compute. reflexivity. Qed.
End IsoChecks.
