(* ===== verification/JsonCodec.v ===== *)
(** JSON text: [JSON.stringify] and [JSON.parse] on the values of
    [Json.v].

    The services turn values into text and back at three places:
    [publishEvent] sends [Buffer.from(JSON.stringify(message))] and the
    consumers parse it ([src/post-service/src/utils/rabbitmq.js], line
    30); the post controller caches [JSON.stringify(result)] in Redis and
    answers [JSON.parse(cachedPosts)] on a hit ([post-controller.js],
    lines 72, 90, 110, 121); every service parses request bodies with
    [express.json()] and answers with [res.json].

    [stringify] follows ECMAScript's [SerializeJSONProperty]: no
    whitespace, strings quoted by [QuoteJSONString] (the two-character
    escapes, [\u00xx] for the other control characters), a [Date] through
    [toJSON] as its ISO string ([Iso.toISOString]), [null] for an invalid
    one.  [parse_value] is [JSON.parse]'s grammar as a recursive descent:
    whitespace between tokens, the literals, integers, strings with all
    escapes, arrays and objects; a repeated key keeps its first position
    and takes the last value ([CreateDataProperty]).  The parser takes a
    fuel argument: [json_fuel s] is always enough.

    Outside the model, and answered [PUnsup]: numbers with a fraction or
    an exponent, integers beyond [Number.MAX_SAFE_INTEGER] (a JS number
    is a double), and [\u] escapes above 0xFF (strings are sequences
    of 8-bit code units here).  JS orders integer-like keys of an object
    first; no value of the services has such keys, and the order is not
    modelled.

    Theorems: the parser terminates within [json_fuel s] on every input
    and more fuel changes nothing; [JSON.parse (JSON.stringify v)] is
    [wire v] (each [Date] replaced by its ISO string) for every value
    whose numbers are safe integers and whose objects have distinct
    keys; and [JSON.stringify (wire v)] is [JSON.stringify v], so a value
    read back from its text is written as the same text (a cache hit of
    the post service sends what the miss sent, which is why [PostService]
    keeps its Redis values structured). *)

From S2P Require Import Prelude Json Iso.

(** ** A nested induction principle for [json] *)

Section JsonInd.
Context (P : json -> Prop)
  (Pnull : P JNull) (Pbool : forall b, P (JBool b)) (Pnum : forall z, P (JNum z))
  (Pstr : forall s, P (JStr s)) (Pdate : forall ms, P (JDate ms))
  (Parr : forall l, Forall P l -> P (JArr l))
  (Pobj : forall fs, Forall (fun kv => P kv.2) fs -> P (JObj fs)).

Fixpoint json_ind' (j : json) : P j :=
  match j with
  | JNull => Pnull
  | JBool b => Pbool b
  | JNum z => Pnum z
  | JStr s => Pstr s
  | JDate ms => Pdate ms
  | JArr l => Parr l ((fix go (l : list json) : Forall P l :=
                        match l with
                        | [] => Forall_nil_2 _
                        | x :: l' => Forall_cons_2 _ _ _ (json_ind' x) (go l')
                        end) l)
  | JObj fs => Pobj fs ((fix go (fs : list (string * json)) : Forall (fun kv => P kv.2) fs :=
                          match fs with
                          | [] => Forall_nil_2 _
                          | kv :: fs' => Forall_cons_2 _ _ _ (json_ind' kv.2) (go fs')
                          end) fs)
  end.
End JsonInd.

(** ** Characters *)

Definition quote_char : ascii := "034"%char.
Definition bslash : ascii := "\"%char.

Definition hex_digit (n : nat) : ascii :=
  if (n <? 10)%nat then ascii_of_nat (48 + n) else ascii_of_nat (87 + n).

Definition hex_val (c : ascii) : option nat :=
  let n := nat_of_ascii c in
  if (48 <=? n)%nat && (n <=? 57)%nat then Some (n - 48)%nat
  else if (97 <=? n)%nat && (n <=? 102)%nat then Some (n - 87)%nat
  else if (65 <=? n)%nat && (n <=? 70)%nat then Some (n - 55)%nat
  else None.

(** JSON whitespace: space, tab, line feed, carriage return. *)
Definition is_ws (c : ascii) : bool :=
  let n := nat_of_ascii c in ((n =? 32) || (n =? 9) || (n =? 10) || (n =? 13))%nat.

Fixpoint skip_ws (s : string) : string :=
  match s with
  | String c s' => if is_ws c then skip_ws s' else s
  | EmptyString => s
  end.

Definition is_digit (c : ascii) : bool :=
  let n := nat_of_ascii c in ((48 <=? n) && (n <=? 57))%nat.

(** ** [JSON.stringify] *)

(** [QuoteJSONString] on one code unit. *)
Definition escape_char (c : ascii) : string :=
  let n := nat_of_ascii c in
  if Ascii.eqb c quote_char then String bslash (String quote_char "")
  else if Ascii.eqb c bslash then String bslash (String bslash "")
  else if (n =? 8)%nat then "\b"
  else if (n =? 9)%nat then "\t"
  else if (n =? 10)%nat then "\n"
  else if (n =? 12)%nat then "\f"
  else if (n =? 13)%nat then "\r"
  else if (n <? 32)%nat then String bslash (String "u" (String "0" (String "0"
         (String (hex_digit (n / 16)) (String (hex_digit (n mod 16)) "")))))
  else String c "".

Fixpoint escape_string (s : string) : string :=
  match s with
  | String c s' => escape_char c +:+ escape_string s'
  | EmptyString => ""
  end.

Definition quote (s : string) : string :=
  String quote_char (escape_string s +:+ String quote_char "").

(** The decimal digits of [n > 0], with fuel from its binary size. *)
Fixpoint dec_digits (fuel : nat) (n : Z) (acc : string) : string :=
  match fuel with
  | O => acc
  | S f => if Z.ltb n 10 then String (digit_char n) acc
           else dec_digits f (n / 10) (String (digit_char (n mod 10)) acc)
  end.

(** [Number::toString] on an integer. *)
Definition number_string (z : Z) : string :=
  let digits (n : Z) := dec_digits (S (Pos.size_nat (Z.to_pos n))) n "" in
  if Z.ltb z 0 then "-" +:+ digits (- z)%Z
  else if Z.eqb z 0 then "0" else digits z.

Definition MAX_SAFE_INTEGER : Z := 9007199254740991.

Fixpoint stringify (v : json) : string :=
  match v with
  | JNull => "null"
  | JBool true => "true"
  | JBool false => "false"
  | JNum z => number_string z
  | JStr s => quote s
  | JDate ms => if Z.leb (Z.abs ms) MAX_TIME then quote (toISOString ms) else "null"
  | JArr [] => "[]"
  | JArr (v :: vs) =>
      "[" +:+ stringify v +:+
      (fix tail (vs : list json) : string :=
         match vs with [] => "]" | w :: ws => "," +:+ stringify w +:+ tail ws end) vs
  | JObj [] => "{}"
  | JObj ((k, v) :: fs) =>
      "{" +:+ quote k +:+ ":" +:+ stringify v +:+
      (fix tail (fs : list (string * json)) : string :=
         match fs with
         | [] => "}"
         | (k', w) :: fs' => "," +:+ quote k' +:+ ":" +:+ stringify w +:+ tail fs'
         end) fs
  end.

(** What a value becomes on the wire. *)
Fixpoint wire (v : json) : json :=
  match v with
  | JDate ms => if Z.leb (Z.abs ms) MAX_TIME then JStr (toISOString ms) else JNull
  | JArr l => JArr (map wire l)
  | JObj fs => JObj (map (fun kv => (kv.1, wire kv.2)) fs)
  | _ => v
  end.

(** ** [JSON.parse] *)

Inductive presult (A : Type) : Type :=
| POk (a : A) (rest : string)
| PErr      (** a [SyntaxError] *)
| PUnsup    (** valid JSON outside the model *)
| PFuel.
Arguments POk {A} a rest. Arguments PErr {A}. Arguments PUnsup {A}. Arguments PFuel {A}.

Definition pbind {A B} (r : presult A) (f : A -> string -> presult B) : presult B :=
  match r with POk a s => f a s | PErr => PErr | PUnsup => PUnsup | PFuel => PFuel end.

(** The rest of [s] after the character [c], when [s] starts with it. *)
Definition peek (c : ascii) (s : string) : option string :=
  match s with
  | String c' s' => if Ascii.eqb c c' then Some s' else None
  | EmptyString => None
  end.

(** The rest of a literal. *)
Fixpoint lit (p s : string) : option string :=
  match p, s with
  | EmptyString, _ => Some s
  | String c p', String c' s' => if Ascii.eqb c c' then lit p' s' else None
  | _, _ => None
  end.

Definition lit_value (p : string) (v : json) (s : string) : presult json :=
  match lit p s with Some r => POk v r | None => PErr end.

(** The character a two-character escape [\e] stands for. *)
Definition unescape (e : ascii) : option ascii :=
  if Ascii.eqb e quote_char then Some quote_char
  else if Ascii.eqb e bslash then Some bslash
  else if Ascii.eqb e "/"%char then Some "/"%char
  else if Ascii.eqb e "b"%char then Some (ascii_of_nat 8)
  else if Ascii.eqb e "f"%char then Some (ascii_of_nat 12)
  else if Ascii.eqb e "n"%char then Some (ascii_of_nat 10)
  else if Ascii.eqb e "r"%char then Some (ascii_of_nat 13)
  else if Ascii.eqb e "t"%char then Some (ascii_of_nat 9)
  else None.

(** The code unit of the four hex digits of a [\u] escape. *)
Definition hex_code (h1 h2 h3 h4 : ascii) : option nat :=
  match hex_val h1, hex_val h2, hex_val h3, hex_val h4 with
  | Some a, Some b, Some c, Some d => Some (a * 4096 + b * 256 + c * 16 + d)%nat
  | _, _, _, _ => None
  end.

(** The body of a string after its opening quote, up to the closing one. *)
Fixpoint parse_chars (s : string) : presult string :=
  match s with
  | EmptyString => PErr
  | String c s' =>
      if Ascii.eqb c quote_char then POk "" s'
      else if Ascii.eqb c bslash then
        match s' with
        | String e s'' =>
            if Ascii.eqb e "u"%char then
              match s'' with
              | String h1 (String h2 (String h3 (String h4 r))) =>
                  match hex_code h1 h2 h3 h4 with
                  | Some code =>
                      if (code <? 256)%nat
                      then pbind (parse_chars r) (fun str r' => POk (String (ascii_of_nat code) str) r')
                      else PUnsup
                  | None => PErr
                  end
              | _ => PErr
              end
            else
              match unescape e with
              | Some x => pbind (parse_chars s'') (fun str r => POk (String x str) r)
              | None => PErr
              end
        | EmptyString => PErr
        end
      else if (nat_of_ascii c <? 32)%nat then PErr
      else pbind (parse_chars s') (fun str r => POk (String c str) r)
  end.

(** The digits of an integer, and what follows them. *)
Fixpoint read_int (s : string) (acc : Z) : Z * string :=
  match s with
  | String c s' =>
      if is_digit c then read_int s' (acc * 10 + (Z.of_nat (nat_of_ascii c) - 48))%Z else (acc, s)
  | EmptyString => (acc, s)
  end.

Fixpoint skip_digits (s : string) : string :=
  match s with
  | String c s' => if is_digit c then skip_digits s' else s
  | EmptyString => s
  end.

(** At least one digit. *)
Definition digits1 (s : string) : option string :=
  match s with
  | String c s' => if is_digit c then Some (skip_digits s') else None
  | EmptyString => None
  end.

(** A well-formed fraction and exponent follow an integer. *)
Definition frac_exp_valid (s : string) : bool :=
  match (match peek "."%char s with Some s' => digits1 s' | None => Some s end) with
  | None => false
  | Some s1 =>
      match s1 with
      | String e s2 =>
          if Ascii.eqb e "e"%char || Ascii.eqb e "E"%char then
            match digits1 (match peek "+"%char s2, peek "-"%char s2 with
                           | Some s3, _ | None, Some s3 => s3
                           | None, None => s2
                           end) with Some _ => true | None => false end
          else true
      | EmptyString => true
      end
  end.

Definition after_int (v : Z) (s : string) : presult json :=
  let int := if Z.leb (Z.abs v) MAX_SAFE_INTEGER then POk (JNum v) s else PUnsup in
  match s with
  | String c _ =>
      if Ascii.eqb c "."%char || Ascii.eqb c "e"%char || Ascii.eqb c "E"%char
      then (if frac_exp_valid s then PUnsup else PErr) else int
  | EmptyString => int
  end.

(** A number, from its sign or first digit; [-0] reads as [0]. *)
Definition parse_number (s : string) : presult json :=
  let '(neg, s1) := match peek "-"%char s with Some s' => (true, s') | None => (false, s) end in
  match s1 with
  | String c s2 =>
      if Ascii.eqb c "0"%char then after_int 0 s2
      else if is_digit c then
        let '(v, r) := read_int s1 0 in after_int (if neg then (- v)%Z else v) r
      else PErr
  | EmptyString => PErr
  end.

(** [CreateDataProperty(obj, k, v)] on the fields read so far. *)
Fixpoint set_field (k : string) (v : json) (fs : list (string * json)) : list (string * json) :=
  match fs with
  | [] => [(k, v)]
  | (k', v') :: fs' => if String.eqb k k' then (k, v) :: fs' else (k', v') :: set_field k v fs'
  end.

Fixpoint parse_value (n : nat) (s : string) {struct n} : presult json :=
  match n with
  | O => PFuel
  | S n' =>
      match skip_ws s with
      | String c s1 =>
          if Ascii.eqb c "n"%char then lit_value "ull" JNull s1
          else if Ascii.eqb c "t"%char then lit_value "rue" (JBool true) s1
          else if Ascii.eqb c "f"%char then lit_value "alse" (JBool false) s1
          else if Ascii.eqb c quote_char then pbind (parse_chars s1) (fun str r => POk (JStr str) r)
          else if Ascii.eqb c "["%char then
            match peek "]"%char (skip_ws s1) with
            | Some r => POk (JArr []) r
            | None => pbind (parse_elems n' s1) (fun l r => POk (JArr l) r)
            end
          else if Ascii.eqb c "{"%char then
            match peek "}"%char (skip_ws s1) with
            | Some r => POk (JObj []) r
            | None => pbind (parse_fields n' [] s1) (fun fs r => POk (JObj fs) r)
            end
          else if Ascii.eqb c "-"%char || is_digit c then parse_number (String c s1)
          else PErr
      | EmptyString => PErr
      end
  end
with parse_elems (n : nat) (s : string) {struct n} : presult (list json) :=
  match n with
  | O => PFuel
  | S n' =>
      pbind (parse_value n' s) (fun v r =>
        match skip_ws r with
        | String c r' =>
            if Ascii.eqb c ","%char then pbind (parse_elems n' r') (fun vs r'' => POk (v :: vs) r'')
            else if Ascii.eqb c "]"%char then POk [v] r'
            else PErr
        | EmptyString => PErr
        end)
  end
with parse_fields (n : nat) (acc : list (string * json)) (s : string) {struct n}
    : presult (list (string * json)) :=
  match n with
  | O => PFuel
  | S n' =>
      match skip_ws s with
      | String c s1 =>
          if Ascii.eqb c quote_char then
            pbind (parse_chars s1) (fun k r =>
              match skip_ws r with
              | String c' r1 =>
                  if Ascii.eqb c' ":"%char then
                    pbind (parse_value n' r1) (fun v r2 =>
                      match skip_ws r2 with
                      | String c'' r3 =>
                          if Ascii.eqb c'' ","%char then parse_fields n' (set_field k v acc) r3
                          else if Ascii.eqb c'' "}"%char then POk (set_field k v acc) r3
                          else PErr
                      | EmptyString => PErr
                      end)
                  else PErr
              | EmptyString => PErr
              end)
          else PErr
      | EmptyString => PErr
      end
  end.

(** The fuel [JSON.parse] runs with: always enough ([parse_fuel_enough]). *)
Definition json_fuel (s : string) : nat := S (2 * String.length s).

Inductive parsed := Parsed (v : json) | SyntaxError | Unsupported.

(** [JSON.parse(s)]: one value, then only whitespace. *)
Definition JSON_parse (s : string) : parsed :=
  match parse_value (json_fuel s) s with
  | POk v r => if String.eqb (skip_ws r) "" then Parsed v else SyntaxError
  | PErr | PFuel => SyntaxError
  | PUnsup => Unsupported
  end.

Module CodecChecks.
Example parse_obj :
  JSON_parse (" {" +:+ quote "a" +:+ ": [1, -2, true, null], " +:+ quote "a" +:+ ":" +:+ quote "x\ny" +:+ "} ")
  = Parsed (JObj [("a", JStr "x\ny")]).
Proof. vm_compute. reflexivity. Qed.
Example parse_trailing_comma : JSON_parse "[1,]" = SyntaxError.
Proof. vm_compute. reflexivity. Qed.
Example parse_leading_zero : JSON_parse "01" = SyntaxError.
Proof. vm_compute. reflexivity. Qed.
Example parse_fraction : JSON_parse "1.5e3" = Unsupported.
Proof. vm_compute. reflexivity. Qed.
Example stringify_date : stringify (JObj [("createdAt", JDate 0)])
  = "{" +:+ quote "createdAt" +:+ ":" +:+ quote "1970-01-01T00:00:00.000Z" +:+ "}".
Proof. vm_compute. reflexivity. Qed.
End CodecChecks.

(** ** Fuel: more fuel changes nothing *)

(** [r2] is [r1], unless [r1] ran out of fuel. *)
Definition le_res {A} (r1 r2 : presult A) : Prop := r1 = PFuel \/ r1 = r2.

Lemma le_res_refl {A} (r : presult A) : le_res r r.
Proof. by right. Qed.

Lemma le_res_bind {A B} (r1 r2 : presult A) (f g : A -> string -> presult B) :
  le_res r1 r2 -> (forall a s, le_res (f a s) (g a s)) -> le_res (pbind r1 f) (pbind r2 g).
Proof. intros [-> | ->] Hf; [by left|]. destruct r2; simpl; auto using le_res_refl. Qed.

Lemma le_res_ok {A} (r1 r2 : presult A) : le_res r1 r2 -> r1 <> PFuel -> r2 = r1.
Proof. by intros [-> | ->]. Qed.

Ltac le_res_split :=
  repeat match goal with
  | |- le_res ?r ?r => apply le_res_refl
  | |- le_res (pbind _ _) (pbind _ _) => apply le_res_bind; [solve [auto using le_res_refl] | intros ? ?]
  | |- le_res (if ?b then _ else _) (if ?b then _ else _) => destruct b
  | |- le_res (match ?x with _ => _ end) (match ?x with _ => _ end) => destruct x
  | |- le_res _ _ => solve [auto]
  end.

Lemma parse_mono n : forall m, (n <= m)%nat ->
  (forall s, le_res (parse_value n s) (parse_value m s)) /\
  (forall s, le_res (parse_elems n s) (parse_elems m s)) /\
  (forall acc s, le_res (parse_fields n acc s) (parse_fields m acc s)).
Proof.
  induction n as [|n IH]; intros m Hm; [repeat split; intros; by left|].
  destruct m as [|m]; [lia|]. destruct (IH m ltac:(lia)) as (Hv & He & Hf).
  repeat split; intros; simpl; le_res_split.
Qed.

Lemma parse_value_mono n m s :
  (n <= m)%nat -> parse_value n s <> PFuel -> parse_value m s = parse_value n s.
Proof. intros Hm. apply le_res_ok, (parse_mono n m Hm). Qed.

(** ** Fuel: [json_fuel] is enough *)

(** [r] did not run out of fuel, and what it left is shorter than [s]. *)
Definition shorter {A} (s : string) (r : presult A) : Prop :=
  match r with POk _ r' => (String.length r' < String.length s)%nat | PFuel => False | _ => True end.

Lemma shorter_bind {A B} s (r : presult A) (f : A -> string -> presult B) :
  shorter s r -> (forall a r', (String.length r' < String.length s)%nat -> shorter s (f a r')) ->
  shorter s (pbind r f).
Proof. destruct r; simpl; auto. Qed.

Lemma shorter_le {A} s t (r : presult A) :
  (String.length s <= String.length t)%nat -> shorter s r -> shorter t r.
Proof. destruct r; simpl; auto with lia. Qed.

Lemma skip_ws_len s : (String.length (skip_ws s) <= String.length s)%nat.
Proof. induction s as [|c s IH]; simpl; [lia|]. destruct (is_ws c); simpl; lia. Qed.

Lemma peek_len c s r : peek c s = Some r -> (String.length r < String.length s)%nat.
Proof. destruct s as [|c' s]; simpl; [done|]. case_match; intros; simplify_eq; simpl; lia. Qed.

Lemma lit_len p s r : lit p s = Some r -> (String.length r <= String.length s)%nat.
Proof.
  revert s. induction p as [|c p IH]; intros s H.
  - simpl in H. injection H as <-. lia.
  - destruct s as [|c' s]; simpl in H; [done|]. destruct (Ascii.eqb c c'); [|done].
    apply IH in H. simpl. lia.
Qed.

Lemma read_int_len s a : (String.length (read_int s a).2 <= String.length s)%nat.
Proof. revert a. induction s as [|c s IH]; intros a; simpl; [lia|]. case_match; simpl; [rewrite IH|]; lia. Qed.

Ltac shorter_split :=
  repeat match goal with
  | |- shorter _ (pbind _ _) => apply shorter_bind; [ | intros ? ? ?]
  | |- shorter _ (if ?b then _ else _) => destruct b
  | |- shorter _ (match ?x with _ => _ end) => destruct x eqn:?
  | |- shorter _ (POk _ _) => simpl
  | |- shorter _ PErr => exact I
  | |- shorter _ PUnsup => exact I
  end.

Lemma parse_chars_shorter s : shorter s (parse_chars s).
Proof.
  remember (String.length s) as k eqn:Hk. revert s Hk.
  induction k as [k IH] using lt_wf_ind; intros [|c s] Hk; [exact I|].
  assert (Hrec : forall t u, (String.length t < k)%nat -> (String.length t < String.length u)%nat ->
                 shorter u (parse_chars t)).
  { intros t u Ht Hu. eapply shorter_le, (IH _ Ht _ eq_refl). lia. }
  simpl in Hk |- *. shorter_split; cbn [shorter String.length] in *; try lia; apply Hrec; simpl; lia.
Qed.

Lemma after_int_shorter v r s : (String.length r < String.length s)%nat -> shorter s (after_int v r).
Proof. intros. unfold after_int. shorter_split; simpl in *; lia. Qed.

Lemma parse_number_shorter s : shorter s (parse_number s).
Proof.
  unfold parse_number.
  assert (exists neg s1, (String.length s1 <= String.length s)%nat /\
    (match peek "-"%char s with Some s' => (true, s') | None => (false, s) end) = (neg, s1))
    as (neg & s1 & Hl & ->).
  { destruct (peek _ s) as [s'|] eqn:E; [exists true, s' | exists false, s]; split; auto.
    apply Nat.lt_le_incl. by eapply peek_len. }
  destruct s1 as [|c s2]; [exact I|]. simpl in Hl.
  destruct (Ascii.eqb _ _); [apply after_int_shorter; lia|].
  destruct (is_digit c) eqn:Hd; [|exact I].
  pose proof (read_int_len s2 (0 * 10 + (Z.of_nat (nat_of_ascii c) - 48))%Z).
  cbn [read_int]. rewrite Hd. destruct (read_int _ _) as [v r] eqn:E. simpl in *.
  apply after_int_shorter. lia.
Qed.

Lemma lit_value_shorter p v s t :
  (String.length s < String.length t)%nat -> shorter t (lit_value p v s).
Proof. intros. unfold lit_value. destruct (lit p s) eqn:E; simpl; [apply lit_len in E; lia|done]. Qed.

Lemma skip_ws_cons s c s1 :
  skip_ws s = String c s1 -> (String.length s1 < String.length s)%nat.
Proof. intros H. pose proof (skip_ws_len s) as L. rewrite H in L. simpl in L. lia. Qed.

Ltac len_facts :=
  repeat match goal with
  | H : skip_ws _ = String _ _ |- _ => apply skip_ws_cons in H
  | H : peek _ _ = Some _ |- _ => apply peek_len in H
  end.

(** With [2 * length s + 1] units of fuel a value is read to its end or
    rejected; lists and objects need one more. *)
Lemma parse_total n :
  (forall s, (2 * String.length s + 1 <= n)%nat -> shorter s (parse_value n s)) /\
  (forall s, (2 * String.length s + 2 <= n)%nat -> shorter s (parse_elems n s)) /\
  (forall acc s, (2 * String.length s + 2 <= n)%nat -> shorter s (parse_fields n acc s)).
Proof.
  induction n as [|n (Hv & He & Hf)]; [repeat split; intros; lia|].
  repeat split; intros; simpl.
  - destruct (skip_ws s) as [|c s1] eqn:E; [exact I|]. len_facts.
    repeat match goal with
    | |- shorter _ (if _ then _ else _) => case_match
    | |- shorter _ (lit_value _ _ _) => apply lit_value_shorter; lia
    | |- shorter _ (parse_number _) => eapply shorter_le, parse_number_shorter; simpl; lia
    | |- shorter _ (pbind (parse_chars _) _) =>
        apply shorter_bind; [eapply shorter_le, parse_chars_shorter; lia|intros; simpl; lia]
    | |- shorter _ (match peek _ (skip_ws ?t) with _ => _ end) =>
        pose proof (skip_ws_len t); destruct (peek _ _) eqn:?; len_facts
    | |- shorter _ (POk _ _) => simpl; lia
    | |- shorter _ (pbind _ _) =>
        apply shorter_bind; [eapply shorter_le; [|apply He || apply Hf]; lia|intros; simpl; lia]
    | |- shorter _ PErr => exact I
    end.
  - apply shorter_bind; [apply Hv; lia|]. intros v r Hr.
    destruct (skip_ws r) as [|c r'] eqn:E; [exact I|]. len_facts.
    destruct (Ascii.eqb c _); [|destruct (Ascii.eqb c _); [simpl; lia|exact I]].
    apply shorter_bind; [eapply shorter_le; [|apply He]; lia|intros; simpl; lia].
  - destruct (skip_ws s) as [|c s1] eqn:E; [exact I|]. len_facts.
    destruct (Ascii.eqb c _); [|exact I].
    apply shorter_bind; [eapply shorter_le, parse_chars_shorter; lia|]. intros k r Hr.
    destruct (skip_ws r) as [|c' r1] eqn:E1; [exact I|]. len_facts.
    destruct (Ascii.eqb c' _); [|exact I].
    apply shorter_bind; [eapply shorter_le; [|apply Hv]; lia|]. intros v r2 Hr2.
    destruct (skip_ws r2) as [|c'' r3] eqn:E2; [exact I|]. len_facts.
    destruct (Ascii.eqb c'' _); [eapply shorter_le; [|apply Hf]; lia|].
    destruct (Ascii.eqb c'' _); [simpl; lia|exact I].
Qed.

Lemma shorter_not_fuel {A} s (r : presult A) : shorter s r -> r <> PFuel.
Proof. by destruct r. Qed.

Lemma parse_fuel_enough s :
  parse_value (json_fuel s) s <> PFuel /\
  forall m, (json_fuel s <= m)%nat -> parse_value m s = parse_value (json_fuel s) s.
Proof.
  assert (Hne : parse_value (json_fuel s) s <> PFuel).
  { eapply shorter_not_fuel, (proj1 (parse_total _)). unfold json_fuel. lia. }
  split; [done|]. intros m Hm. by apply parse_value_mono.
Qed.

(** ** Round trip *)

Lemma sapp_assoc (a b c : string) : (a +:+ b) +:+ c = a +:+ b +:+ c.
Proof. induction a as [|x a IH]; [done|]. by rewrite !append_cons, IH. Qed.

Lemma sapp_nil (a : string) : a +:+ "" = a.
Proof. induction a as [|x a IH]; [done|]. by rewrite append_cons, IH. Qed.

(** Every code unit escaped by [QuoteJSONString] reads back as itself. *)
Lemma escape_char_parse c t :
  parse_chars (escape_char c +:+ t) = pbind (parse_chars t) (fun str r => POk (String c str) r).
Proof. destruct c as [[] [] [] [] [] [] [] []]; reflexivity. Qed.

Lemma parse_escape_string s rest :
  parse_chars (escape_string s +:+ String quote_char rest) = POk s rest.
Proof.
  induction s as [|c s IH]; [reflexivity|].
  simpl. by rewrite sapp_assoc, escape_char_parse, IH.
Qed.

Lemma quote_app s rest : quote s +:+ rest = String quote_char (escape_string s +:+ String quote_char rest).
Proof. unfold quote. rewrite append_cons, sapp_assoc. reflexivity. Qed.

(** Numbers end where the text after them cannot continue a number. *)
Definition delim (s : string) : bool :=
  match s with
  | EmptyString => true
  | String c _ => negb (is_digit c || Ascii.eqb c "."%char || Ascii.eqb c "e"%char || Ascii.eqb c "E"%char)
  end.

Lemma read_int_digit d u a :
  (0 <= d < 10)%Z -> read_int (String (digit_char d) u) a = read_int u (a * 10 + d)%Z.
Proof. intros Hd. by destruct (digit_cases d Hd) as [->|[->|[->|[->|[->|[->|[->|[->|[->| ->]]]]]]]]]. Qed.

Lemma read_int_stop rest a : delim rest = true -> read_int rest a = (a, rest).
Proof. destruct rest as [|c r]; simpl; [done|]. by destruct (is_digit c). Qed.

Lemma after_int_ok v rest :
  (Z.abs v <= MAX_SAFE_INTEGER)%Z -> delim rest = true -> after_int v rest = POk (JNum v) rest.
Proof.
  intros Hv Hd. unfold after_int. apply Z.leb_le in Hv. rewrite Hv.
  destruct rest as [|c r]; [done|]. simpl in Hd.
  destruct (Ascii.eqb c "."), (Ascii.eqb c "e"), (Ascii.eqb c "E"); simpl in *; by rewrite ?orb_true_r in Hd.
Qed.

Lemma size_bound p : (Zpos p < 10 ^ Z.of_nat (Pos.size_nat p))%Z.
Proof.
  induction p as [p IH|p IH|]; cbn [Pos.size_nat]; rewrite ?pow10_succ; [rewrite Pos2Z.inj_xI|rewrite Pos2Z.inj_xO|]; lia.
Qed.

(** The digits [dec_digits] writes for [0 < n] start with a nonzero digit
    and read back as [n]. *)
Lemma dec_digits_spec f n acc :
  (0 < n < 10 ^ Z.of_nat f)%Z ->
  (exists d u, dec_digits f n acc = String (digit_char d) u /\ (1 <= d <= 9)%Z) /\
  forall t, read_int (dec_digits f n acc +:+ t) 0 = read_int (acc +:+ t) n.
Proof.
  revert n acc. induction f as [|f IH]; intros n acc Hn; [simpl in Hn; lia|].
  rewrite pow10_succ in Hn. cbn [dec_digits].
  destruct (Z.ltb_spec n 10).
  - split; [exists n, acc; split; [done|lia]|]. intros t. by rewrite append_cons, read_int_digit by lia.
  - destruct (IH (n / 10)%Z (String (digit_char (n mod 10)) acc)) as [Hh Hr];
      [split; [apply Z.div_str_pos; lia|apply Z.div_lt_upper_bound; lia]|].
    split; [done|]. intros t. rewrite Hr, append_cons, read_int_digit by (apply Z.mod_pos_bound; lia).
    f_equal. pose proof (Z.div_mod n 10). lia.
Qed.

Lemma is_digit_digit d : (0 <= d < 10)%Z -> is_digit (digit_char d) = true.
Proof. intros Hd. by destruct (digit_cases d Hd) as [->|[->|[->|[->|[->|[->|[->|[->|[->| ->]]]]]]]]]. Qed.

Lemma digit_char_nonzero d : (1 <= d <= 9)%Z -> Ascii.eqb (digit_char d) "0"%char = false.
Proof.
  intros Hd. destruct (Ascii.eqb_spec (digit_char d) "0"%char) as [E|]; [|done].
  pose proof (char_digit_digit d ltac:(lia)) as H. rewrite E in H. vm_compute in H. simplify_eq. lia.
Qed.

(** A value that starts with a digit or a minus sign is read as a number. *)
Lemma parse_value_digit n c t : is_digit c = true -> parse_value (S n) (String c t) = parse_number (String c t).
Proof. destruct c as [[] [] [] [] [] [] [] []]; intros H; (discriminate || reflexivity). Qed.

Lemma parse_value_minus n t : parse_value (S n) (String "-" t) = parse_number (String "-" t).
Proof. reflexivity. Qed.

Lemma parse_number_pos c t :
  is_digit c = true -> Ascii.eqb c "0"%char = false ->
  parse_number (String c t) = let '(v, r) := read_int (String c t) 0 in after_int v r.
Proof. destruct c as [[] [] [] [] [] [] [] []]; intros H H0; (discriminate || reflexivity). Qed.

Lemma parse_number_neg c t :
  is_digit c = true -> Ascii.eqb c "0"%char = false ->
  parse_number (String "-" (String c t)) = let '(v, r) := read_int (String c t) 0 in after_int (- v)%Z r.
Proof. destruct c as [[] [] [] [] [] [] [] []]; intros H H0; (discriminate || reflexivity). Qed.

(** [Number::toString] of a safe integer reads back as itself. *)
Lemma parse_number_string n z rest :
  (Z.abs z <= MAX_SAFE_INTEGER)%Z -> delim rest = true ->
  parse_value (S n) (number_string z +:+ rest) = POk (JNum z) rest.
Proof.
  intros Hz Hd. unfold number_string. cbv zeta.
  assert (Hdig : forall m, (0 < m)%Z -> exists c u,
    dec_digits (S (Pos.size_nat (Z.to_pos m))) m "" = String c u /\
    is_digit c = true /\ Ascii.eqb c "0"%char = false /\
    read_int (String c u +:+ rest) 0 = (m, rest)).
  { intros m Hm. destruct (dec_digits_spec (S (Pos.size_nat (Z.to_pos m))) m "") as [(d & u & E & Hd') Hr].
    { split; [done|]. rewrite pow10_succ. pose proof (size_bound (Z.to_pos m)). rewrite Z2Pos.id in * by lia. lia. }
    exists (digit_char d), u. rewrite <- E, Hr. split_and!; [done|apply is_digit_digit; lia|by apply digit_char_nonzero|].
    by apply read_int_stop. }
  destruct (Z.ltb_spec z 0).
  - destruct (Hdig (- z)%Z ltac:(lia)) as (c & u & -> & Hc & Hc0 & Hr).
    change (("-" +:+ String c u) +:+ rest) with (String "-" (String c u +:+ rest)).
    rewrite parse_value_minus, append_cons, parse_number_neg, <- append_cons, Hr by done.
    rewrite Z.opp_involutive. apply after_int_ok; [lia|done].
  - destruct (Z.eqb_spec z 0) as [->|]; [apply after_int_ok; [lia|done]|].
    destruct (Hdig z ltac:(lia)) as (c & u & -> & Hc & Hc0 & Hr).
    rewrite append_cons, parse_value_digit, parse_number_pos, <- append_cons, Hr by done.
    apply after_int_ok; [lia|done].
Qed.

(** Values [JSON.stringify] then [JSON.parse] give back: numbers are safe
    integers and the keys of each object are distinct. *)
Fixpoint json_wf (v : json) : Prop :=
  match v with
  | JNum z => (Z.abs z <= MAX_SAFE_INTEGER)%Z
  | JArr l => (fix go (l : list json) : Prop :=
                 match l with [] => True | w :: l' => json_wf w /\ go l' end) l
  | JObj fs => NoDup (map fst fs) /\
      (fix go (fs : list (string * json)) : Prop :=
         match fs with [] => True | (_, w) :: fs' => json_wf w /\ go fs' end) fs
  | _ => True
  end.

Lemma json_wf_arr l : json_wf (JArr l) <-> Forall json_wf l.
Proof. simpl. induction l as [|w l IH]; [split; auto|]. rewrite Forall_cons, <- IH. done. Qed.

Lemma json_wf_obj fs : json_wf (JObj fs) <-> NoDup (map fst fs) /\ Forall (fun kv => json_wf kv.2) fs.
Proof.
  simpl. apply and_iff_compat_l. induction fs as [|[k w] fs IH]; [split; auto|].
  rewrite Forall_cons, <- IH. done.
Qed.

Fixpoint arr_tail (vs : list json) : string :=
  match vs with [] => "]" | w :: ws => "," +:+ stringify w +:+ arr_tail ws end.

Fixpoint obj_tail (fs : list (string * json)) : string :=
  match fs with
  | [] => "}"
  | (k, w) :: fs' => "," +:+ quote k +:+ ":" +:+ stringify w +:+ obj_tail fs'
  end.

Lemma stringify_arr v vs : stringify (JArr (v :: vs)) = "[" +:+ stringify v +:+ arr_tail vs.
Proof. reflexivity. Qed.

Lemma stringify_obj k v fs :
  stringify (JObj ((k, v) :: fs)) = "{" +:+ quote k +:+ ":" +:+ stringify v +:+ obj_tail fs.
Proof. reflexivity. Qed.

Lemma lit_app c X : String c "" +:+ X = String c X.
Proof. reflexivity. Qed.

Ltac norm_str :=
  repeat first [rewrite sapp_assoc | rewrite quote_app | rewrite lit_app].
Ltac norm_str_in H :=
  repeat first [rewrite sapp_assoc in H | rewrite quote_app in H | rewrite lit_app in H].

Lemma set_field_fresh k v acc : k ∉ map fst acc -> set_field k v acc = acc ++ [(k, v)].
Proof.
  induction acc as [|[k' w] acc IH]; [done|]. simpl. rewrite not_elem_of_cons. intros [Hk Hin].
  destruct (String.eqb_spec k k'); [done|]. by rewrite IH.
Qed.

Section Lift.
Context (n m : nat) (Hm : (n <= m)%nat).

Lemma value_lift s v r : parse_value n s = POk v r -> parse_value m s = POk v r.
Proof. intros H. destruct (proj1 (parse_mono n m Hm) s) as [E|E]; congruence. Qed.

Lemma elems_lift s l r : parse_elems n s = POk l r -> parse_elems m s = POk l r.
Proof. intros H. destruct (proj1 (proj2 (parse_mono n m Hm)) s) as [E|E]; congruence. Qed.

Lemma fields_lift acc s l r : parse_fields n acc s = POk l r -> parse_fields m acc s = POk l r.
Proof. intros H. destruct (proj2 (proj2 (parse_mono n m Hm)) acc s) as [E|E]; congruence. Qed.
End Lift.

(** [stringify v], followed by any text that ends a number, reads back as
    [wire v] with enough fuel. *)
Definition reads (v : json) : Prop :=
  forall rest, delim rest = true -> exists n, parse_value n (stringify v +:+ rest) = POk (wire v) rest.

Lemma elems_reads v vs rest :
  reads v -> Forall reads vs ->
  exists n, parse_elems n (stringify v +:+ arr_tail vs +:+ rest) = POk (wire v :: map wire vs) rest.
Proof.
  revert v. induction vs as [|w ws IH]; intros v Hv Hvs.
  - destruct (Hv (String "]" rest) eq_refl) as [n0 H0].
    exists (S n0). cbn [arr_tail]. rewrite lit_app. simpl. by rewrite H0.
  - apply Forall_cons in Hvs as [Hw Hws]. destruct (IH w Hw Hws) as [n1 H1].
    destruct (Hv (String "," (stringify w +:+ arr_tail ws +:+ rest)) eq_refl) as [n0 H0].
    exists (S (max n0 n1)). cbn [arr_tail]. norm_str. simpl.
    rewrite (value_lift n0 (max n0 n1) ltac:(lia) _ _ _ H0). simpl.
    by rewrite (elems_lift n1 (max n0 n1) ltac:(lia) _ _ _ H1).
Qed.

Lemma fields_reads k v fs acc rest :
  reads v -> Forall (fun kv => reads kv.2) fs -> NoDup (map fst acc ++ k :: map fst fs) ->
  exists n, parse_fields n acc (quote k +:+ ":" +:+ stringify v +:+ obj_tail fs +:+ rest)
            = POk (acc ++ (k, wire v) :: map (fun kv => (kv.1, wire kv.2)) fs) rest.
Proof.
  revert k v acc. induction fs as [|[k' w] fs IH]; intros k v acc Hv Hfs Hnd;
    (assert (Hk : k ∉ map fst acc) by (apply NoDup_app in Hnd as (_ & Hd & _); set_solver)).
  - destruct (Hv (String "}" rest) eq_refl) as [n0 H0].
    exists (S n0). cbn [obj_tail]. norm_str. simpl. rewrite parse_escape_string. simpl.
    rewrite H0. simpl. by rewrite set_field_fresh.
  - apply Forall_cons in Hfs as [Hw Hfs]. destruct (IH k' w (acc ++ [(k, wire v)]) Hw Hfs) as [n1 H1].
    { rewrite map_app, <- app_assoc. exact Hnd. }
    destruct (Hv (String "," (quote k' +:+ ":" +:+ stringify w +:+ obj_tail fs +:+ rest)) eq_refl)
      as [n0 H0].
    rewrite <- app_assoc in H1. cbn [app] in H1.
    exists (S (max n0 n1)). cbn [obj_tail]. norm_str. norm_str_in H0. norm_str_in H1.
    simpl. rewrite parse_escape_string. simpl.
    rewrite (value_lift n0 (max n0 n1) ltac:(lia) _ _ _ H0). simpl. rewrite set_field_fresh by done.
    exact (fields_lift n1 (max n0 n1) ltac:(lia) _ _ _ _ H1).
Qed.

Lemma number_string_head z : exists c t, number_string z = String c t /\ (is_digit c = true \/ c = "-"%char).
Proof.
  unfold number_string. cbv zeta. destruct (Z.ltb_spec z 0); [eauto|].
  destruct (Z.eqb_spec z 0); [eauto|].
  destruct (dec_digits_spec (S (Pos.size_nat (Z.to_pos z))) z "") as [(d & u & -> & Hd) _].
  { split; [lia|]. rewrite pow10_succ. pose proof (size_bound (Z.to_pos z)). rewrite Z2Pos.id in * by lia. lia. }
  exists (digit_char d), u. split; [done|]. left. apply is_digit_digit. lia.
Qed.

Lemma digit_start c X : is_digit c = true -> skip_ws (String c X) = String c X /\ peek "]" (String c X) = None.
Proof. destruct c as [[] [] [] [] [] [] [] []]; intros H; (discriminate || split; reflexivity). Qed.

(** No value text starts with whitespace or a closing bracket. *)
Lemma stringify_start v X :
  skip_ws (stringify v +:+ X) = stringify v +:+ X /\ peek "]" (stringify v +:+ X) = None.
Proof.
  destruct v as [| [] | z | s | ms | [|w l] | [|[k w] fs]]; try (split; reflexivity).
  - destruct (number_string_head z) as (c & t & E & [Hc| ->]); cbn [stringify]; rewrite E, append_cons;
      [by apply digit_start|split; reflexivity].
  - cbn [stringify]. destruct (Z.abs ms <=? MAX_TIME)%Z; split; reflexivity.
Qed.

Lemma parse_value_arr n X :
  peek "]" (skip_ws X) = None -> parse_value (S n) (String "[" X) = pbind (parse_elems n X) (fun l r => POk (JArr l) r).
Proof. intros H. simpl. by rewrite H. Qed.

Lemma json_wf_reads v : json_wf v -> reads v.
Proof.
  induction v as [| b | z | s | ms | l IH | fs IH] using json_ind'; intros Hwf rest Hd.
  - by exists 1%nat.
  - destruct b; by exists 1%nat.
  - exists 1%nat. by apply parse_number_string.
  - exists 1%nat. cbn [stringify wire]. rewrite quote_app. simpl. by rewrite parse_escape_string.
  - exists 1%nat. cbn [stringify wire]. destruct (Z.abs ms <=? MAX_TIME)%Z; [|done].
    rewrite quote_app. simpl. by rewrite parse_escape_string.
  - destruct l as [|v vs]; [by exists 1%nat|]. apply json_wf_arr in Hwf.
    assert (Hr : Forall reads (v :: vs)) by (rewrite Forall_forall in *; auto).
    apply Forall_cons in Hr as [Hv Hvs]. destruct (elems_reads v vs rest Hv Hvs) as [n H].
    exists (S n). rewrite stringify_arr, !sapp_assoc, lit_app, parse_value_arr, H; [done|].
    rewrite (proj1 (stringify_start _ _)). apply stringify_start.
  - destruct fs as [|[k v] fs]; [by exists 1%nat|]. apply json_wf_obj in Hwf as [Hnd Hwfs].
    assert (Hr : Forall (fun kv => reads kv.2) ((k, v) :: fs)) by (rewrite Forall_forall in *; auto).
    apply Forall_cons in Hr as [Hv Hfs]. destruct (fields_reads k v fs [] rest Hv Hfs Hnd) as [n H].
    exists (S n). rewrite stringify_obj. norm_str. norm_str_in H. simpl. by rewrite H.
Qed.

(** [JSON.parse(JSON.stringify(v))] is [wire v] for every value whose
    numbers are safe integers and whose objects have distinct keys. *)
Lemma parse_stringify v : json_wf v -> JSON_parse (stringify v) = Parsed (wire v).
Proof.
  intros Hwf. destruct (json_wf_reads v Hwf "" eq_refl) as [n H]. rewrite sapp_nil in H.
  unfold JSON_parse. destruct (parse_fuel_enough (stringify v)) as [_ Hmono].
  rewrite <- (Hmono (max n (json_fuel (stringify v))) ltac:(lia)),
    (value_lift n (max n (json_fuel (stringify v))) ltac:(lia) _ _ _ H).
  reflexivity.
Qed.


(** ** Fields across the wire *)

Lemma assoc_wire k fs : assoc k (map (fun kv => (kv.1, wire kv.2)) fs) = wire <$> assoc k fs.
Proof. induction fs as [|[k' w] fs IH]; simpl; [done|]. by destruct (String.eqb k' k). Qed.

(** Reading a field of the value a consumer parses reads the field of the
    published value, across the wire. *)
Lemma jget_wire k v : jget k (wire v) = wire <$> jget k v.
Proof.
  destruct v as [| | | |ms| |fs]; try done.
  - simpl. by destruct (Z.abs ms <=? MAX_TIME)%Z.
  - apply assoc_wire.
Qed.

Lemma wire_JStr_list l : map wire (JStr <$> l) = JStr <$> l.
Proof. induction l as [|x l IH]; [done|]. cbn. f_equal. exact IH. Qed.

Lemma json_wf_JStr_list l : json_wf (JArr (JStr <$> l)).
Proof. apply json_wf_arr, Forall_fmap, Forall_forall. done. Qed.

(** ** The text of a value read back *)

Lemma arr_tail_wire vs : Forall (fun w => stringify (wire w) = stringify w) vs ->
  arr_tail (map wire vs) = arr_tail vs.
Proof. induction 1 as [|w vs Hw _ IH]; [done|]. simpl. by rewrite Hw, IH. Qed.

Lemma obj_tail_wire fs : Forall (fun kv => stringify (wire kv.2) = stringify kv.2) fs ->
  obj_tail (map (fun kv => (kv.1, wire kv.2)) fs) = obj_tail fs.
Proof. induction 1 as [|[k w] fs Hw _ IH]; [done|]. simpl in *. by rewrite Hw, IH. Qed.

(** [JSON.stringify] writes a value and the value read back from its
    text alike: [res.json(JSON.parse(cached))] on a cache hit sends the
    text [res.json(result)] sent when the entry was filled. *)
Lemma stringify_wire v : stringify (wire v) = stringify v.
Proof.
  induction v as [| | | |ms|l IH|fs IH] using json_ind'; try done.
  - cbn [wire stringify]. by destruct (Z.abs ms <=? MAX_TIME)%Z.
  - destruct l as [|v vs]; [done|]. apply Forall_cons in IH as [Hv Hvs].
    change (wire (JArr (v :: vs))) with (JArr (wire v :: map wire vs)).
    by rewrite !stringify_arr, Hv, arr_tail_wire.
  - destruct fs as [|[k v] fs]; [done|]. apply Forall_cons in IH as [Hv Hfs].
    change (wire (JObj ((k, v) :: fs))) with (JObj ((k, wire v) :: map (fun kv => (kv.1, wire kv.2)) fs)).
    simpl in Hv. by rewrite !stringify_obj, Hv, obj_tail_wire.
Qed.

Lemma stringify_parse_stringify v :
  json_wf v -> JSON_parse (stringify v) = Parsed (wire v) /\ stringify (wire v) = stringify v.
Proof. intros Hwf. split; [by apply parse_stringify|apply stringify_wire]. Qed.
