(* ===== verification/Redis.v ===== *)
(** The Redis cache of the post service ([req.redisClient], an ioredis
    client): the commands [GET], [SETEX], [DEL] and [KEYS] that
    [post-controller.js] issues.

    - [glob_match] is Redis' [stringmatchlen] for the patterns [KEYS]
      takes: [*], [?] and [\] escapes (character classes [[...]] are not
      modelled; the only pattern the code passes is ['posts:*']).
    - [CacheStore] is the interface the controller is written against and
      [CacheStoreLaws] what it relies on: a read after a write, a read
      after a delete, and that [KEYS] lists exactly the present keys that
      match.  The controller's theorems are proved from these laws.
    - [RedisDb] is the implementation, a [gmap] from keys to (value, TTL in
      seconds); [redis_laws] discharges the laws.  Expiry and eviction
      ("entries may be silently evicted or expired at any time") are not
      tied to the TTL: they are [cache_del] steps the environment may take
      at any moment, so every invariant is proved against them. *)

From S2P Require Import Prelude.

(** ** Glob patterns *)

Fixpoint glob_match (p s : string) : bool :=
  match p with
  | EmptyString => match s with EmptyString => true | String _ _ => false end
  | String "*"%char p' =>
      (fix star (s : string) : bool :=
         glob_match p' s ||
         match s with EmptyString => false | String _ s' => star s' end) s
  | String "?"%char p' =>
      match s with EmptyString => false | String _ s' => glob_match p' s' end
  | String "\"%char (String c p') =>
      match s with
      | EmptyString => false
      | String c' s' => if Ascii.ascii_dec c c' then glob_match p' s' else false
      end
  | String c p' =>
      match s with
      | EmptyString => false
      | String c' s' => if Ascii.ascii_dec c c' then glob_match p' s' else false
      end
  end.

(** A pattern character that stands for itself. *)
Definition glob_plain (c : Ascii.ascii) : bool :=
  negb (Ascii.eqb c "*"%char || Ascii.eqb c "?"%char || Ascii.eqb c "\"%char).

Fixpoint glob_literal (p : string) : bool :=
  match p with
  | EmptyString => true
  | String c p' => glob_plain c && glob_literal p'
  end.

Lemma glob_match_star (s : string) : glob_match "*" s = true.
Proof. induction s as [|a s IH]; [reflexivity|exact IH]. Qed.

Lemma glob_match_plain c p s :
  glob_plain c = true ->
  glob_match (String c p) s =
  match s with
  | EmptyString => false
  | String c' s' => if Ascii.ascii_dec c c' then glob_match p s' else false
  end.
Proof.
  intros Hc. unfold glob_plain in Hc.
  destruct (Ascii.eqb_spec c "*"%char), (Ascii.eqb_spec c "?"%char),
    (Ascii.eqb_spec c "\"%char);
    subst; try done.
  destruct c as [[] [] [] [] [] [] [] []]; try reflexivity; done.
Qed.

(** [KEYS lit*] lists the keys that start with [lit]. *)
Lemma glob_match_prefix_star (lit s : string) :
  glob_literal lit = true ->
  glob_match (lit +:+ "*") s = String.prefix lit s.
Proof.
  revert s. induction lit as [|c lit IH]; intros s Hlit.
  - by rewrite glob_match_star; destruct s.
  - simpl in Hlit. apply andb_prop in Hlit as [Hc Hlit].
    change (String c lit +:+ "*") with (String c (lit +:+ "*")).
    rewrite glob_match_plain by done.
    destruct s as [|c' s]; [done|]. cbn [String.prefix].
    destruct (Ascii.ascii_dec c c'); [by apply IH|done].
Qed.

(** ** The interface *)

Class CacheStore (V C : Type) := {
  cache_get : string -> C -> option V;
  cache_setex : string -> Z -> V -> C -> C;
  cache_del : list string -> C -> C;
  cache_keys : string -> C -> list string;
}.

Class CacheStoreLaws (V C : Type) `{!CacheStore V C} := {
  cache_get_setex k k' t v c :
    cache_get k' (cache_setex k t v c) =
    if decide (k = k') then Some v else cache_get k' c;
  cache_get_del ks k c :
    cache_get k (cache_del ks c) = if decide (k ∈ ks) then None else cache_get k c;
  cache_keys_spec p k c :
    k ∈ cache_keys p c <-> is_Some (cache_get k c) /\ glob_match p k = true;
}.

Section Laws.
Context {V C : Type} `{CacheStoreLaws V C}.

Lemma cache_get_setex_eq k t v c : cache_get k (cache_setex k t v c) = Some v.
Proof. rewrite cache_get_setex. by case_decide. Qed.

Lemma cache_get_setex_ne k k' t v c :
  k <> k' -> cache_get k' (cache_setex k t v c) = cache_get k' c.
Proof. intros Hne. rewrite cache_get_setex. by case_decide. Qed.

Lemma cache_get_del_in ks k c : k ∈ ks -> cache_get k (cache_del ks c) = None.
Proof. intros Hk. rewrite cache_get_del. by case_decide. Qed.

Lemma cache_get_del_notin ks k c :
  k ∉ ks -> cache_get k (cache_del ks c) = cache_get k c.
Proof. intros Hk. rewrite cache_get_del. by case_decide. Qed.

(** Deleting the keys [KEYS p] returns leaves no matching key behind. *)
Lemma cache_del_keys_clears p k c :
  glob_match p k = true -> cache_get k (cache_del (cache_keys p c) c) = None.
Proof.
  intros Hp. rewrite cache_get_del. case_decide as Hin; [done|].
  destruct (cache_get k c) eqn:Hk; [|done].
  exfalso. apply Hin, cache_keys_spec. split; [by eexists|done].
Qed.

(** An empty [KEYS p] answer means no key matching [p] is present. *)
Lemma cache_keys_nil p k c :
  cache_keys p c = [] -> glob_match p k = true -> cache_get k c = None.
Proof.
  intros Hnil Hp. destruct (cache_get k c) eqn:Hk; [|done].
  assert (Hin : k ∈ cache_keys p c) by (apply cache_keys_spec; split; [by eexists|done]).
  rewrite Hnil in Hin. set_solver.
Qed.
End Laws.

#[export] Hint Resolve cache_get_setex_eq cache_get_del_in cache_del_keys_clears : sm.

(** ** The implementation *)

Record RedisDb (V : Type) := mkRedis { rd_entries : gmap string (V * Z) }.
Arguments mkRedis {V} _.
Arguments rd_entries {V} _.

Definition redis_empty {V} : RedisDb V := mkRedis ∅.

#[export] Instance redis_store {V} : CacheStore V (RedisDb V) := {
  cache_get k r := fst <$> rd_entries r !! k;
  cache_setex k t v r := mkRedis (<[k := (v, t)]> (rd_entries r));
  cache_del ks r := mkRedis (foldr delete (rd_entries r) ks);
  cache_keys p r := filter (fun k => glob_match p k = true) (fst <$> map_to_list (rd_entries r));
}.

Lemma foldr_delete_lookup {A} (ks : list string) (m : gmap string A) k :
  foldr delete m ks !! k = if decide (k ∈ ks) then None else m !! k.
Proof.
  induction ks as [|k' ks IH]; cbn [foldr].
  - rewrite decide_False; [done|set_solver].
  - rewrite lookup_delete, IH.
    repeat case_decide; set_solver.
Qed.

#[export] Instance redis_laws {V} : CacheStoreLaws V (RedisDb V).
Proof.
  split.
  - intros k k' t v [m]. simpl. rewrite lookup_insert. by case_decide.
  - intros ks k [m]. simpl. rewrite foldr_delete_lookup. by case_decide.
  - intros p k [m]. simpl.
    rewrite list_elem_of_filter, list_elem_of_fmap.
    split.
    + intros [Hp [[k' x] [-> Hx]]]. apply elem_of_map_to_list in Hx.
      simpl. rewrite Hx. split; [by eexists|done].
    + intros [[x Hx] Hp]. split; [done|].
      destruct (m !! k) as [[v t]|] eqn:Hm; [|done].
      exists (k, (v, t)). split; [done|]. by apply elem_of_map_to_list.
Qed.
