(* ===== verification/Broker.v ===== *)
(** RabbitMQ, as the services use it.

    - [Topic]: AMQP topic-exchange matching of a routing key against a
      binding key ([*] one word, [#] zero or more words).
    - [Mq]: the broker (exchanges, queues with their bindings and FIFO
      message lists, open channels) and the client state of
      [src/post-service/src/utils/rabbitmq.js]: the module variables
      [connection] and [channel], [connectToRabbitMQ] and [publishEvent].
      The broker's own failures ([broker_crash], [broker_restart]) are
      steps of the environment.
    - [Registry]: the consuming side.  The [consumeEvent] helpers of the
      search and media services are not under src/; they are modelled from
      the spec (a durable queue per consuming service, bound to the routing
      keys it subscribes to, messages taken in FIFO order). *)

From S2P Require Import Prelude Json.

Module Topic.

(** ['post.created'.split('.')]. *)
Definition words (s : string) : list string := split_on "."%char s.

(** A binding key's words against a routing key's words. *)
Fixpoint topic_match (pat key : list string) : bool :=
  match pat with
  | [] => match key with [] => true | _ :: _ => false end
  | w :: pat' =>
      if String.eqb w "#" then
        (fix hash (key : list string) : bool :=
           topic_match pat' key ||
           match key with [] => false | _ :: key' => hash key' end) key
      else
        match key with
        | [] => false
        | k :: key' => (String.eqb w "*" || String.eqb w k) && topic_match pat' key'
        end
  end.

Definition binding_matches (binding rk : string) : bool :=
  topic_match (words binding) (words rk).

(** A word of a binding key that is not a wildcard. *)
Definition plain_word (w : string) : bool :=
  negb (String.eqb w "#" || String.eqb w "*").

(** A binding key without wildcards matches exactly the routing key with
    the same words. *)
Lemma topic_match_plain (pat key : list string) :
  forallb plain_word pat = true -> topic_match pat key = true <-> key = pat.
Proof.
  revert key. induction pat as [|w pat IH]; intros key Hp; simpl in *.
  - destruct key; split; congruence.
  - apply andb_prop in Hp as [Hw Hp]. unfold plain_word in Hw.
    destruct (String.eqb_spec w "#"), (String.eqb_spec w "*"); simpl in Hw; try done.
    destruct key as [|k key]; [split; congruence|].
    rewrite andb_true_iff, IH by done. simpl.
    destruct (String.eqb_spec w k); simpl; split.
    + intros [_ ->]. congruence.
    + intros Heq. injection Heq as -> ->. done.
    + intros [? _]. done.
    + intros Heq. injection Heq. congruence.
Qed.

(** [#] alone matches every routing key. *)
Lemma topic_match_hash (key : list string) : topic_match ["#"] key = true.
Proof. induction key as [|k key IH]; [reflexivity|exact IH]. Qed.

End Topic.

Module Mq.
Import Topic.

Definition EXCHANGE_NAME : string := "facebook_events".

Record message := mkMessage {
  msg_exchange : string;
  msg_key : string;
  msg_body : json;
}.

Record queue := mkQueue {
  q_durable : bool;
  q_bindings : list (string * string);   (** (exchange, binding key) *)
  q_msgs : list message;                 (** oldest first *)
}.

Record broker := mkBroker {
  br_up : bool;
  br_exchanges : gmap string (string * bool);   (** name -> (type, durable) *)
  br_queues : gmap string queue;
  br_open : gset nat;                           (** open channels *)
  br_next : nat;                                (** next connection / channel id *)
}.

(** The module variables [connection] and [channel] of rabbitmq.js. *)
Record client := mkClient {
  cl_connection : option nat;
  cl_channel : option nat;
}.

Record mq := mkMq { mq_client : client; mq_broker : broker }.

Definition client_init : client := mkClient None None.

Definition set_queues (qs : gmap string queue) (b : broker) : broker :=
  mkBroker (br_up b) (br_exchanges b) qs (br_open b) (br_next b).
Definition set_open (o : gset nat) (b : broker) : broker :=
  mkBroker (br_up b) (br_exchanges b) (br_queues b) o (br_next b).

(** ** The broker *)

Definition queue_accepts (ex rk : string) (q : queue) : bool :=
  existsb (fun b => String.eqb b.1 ex && binding_matches b.2 rk) (q_bindings q).

Definition enqueue (m : message) (q : queue) : queue :=
  mkQueue (q_durable q) (q_bindings q) (q_msgs q ++ [m]).

(** A topic exchange puts one copy of the message at the tail of every
    queue with a matching binding. *)
Definition route (m : message) (qs : gmap string queue) : gmap string queue :=
  (fun q => if queue_accepts (msg_exchange m) (msg_key m) q then enqueue m q else q) <$> qs.

(** [channel.publish(ex, rk, content)]: throws on a closed channel; on an
    exchange that does not exist the broker closes the channel (404). *)
Definition channel_publish (ch : nat) (ex rk : string) (body : json) : Ex broker exn unit :=
  fun b =>
    if decide (ch ∈ br_open b) then
      match br_exchanges b !! ex with
      | Some _ => (inr tt, set_queues (route (mkMessage ex rk body) (br_queues b)) b)
      | None => (inr tt, set_open (br_open b ∖ {[ch]}) b)
      end
    else (inl ExnChannelClosed, b).

(** A durable exchange of the broker by that name. *)
Definition durable_exchange (b : broker) (ex : string) : bool :=
  match br_exchanges b !! ex with Some (_, true) => true | _ => false end.

(** The broker goes down: every connection and channel closes,
    non-durable exchanges disappear with the bindings from them, and so
    do the messages, which are published without the persistent flag;
    durable queues survive, empty. *)
Definition broker_crash (b : broker) : broker :=
  mkBroker false (filter (fun kv => kv.2.2 = true) (br_exchanges b))
    ((fun q => mkQueue (q_durable q) (filter (fun bd => durable_exchange b bd.1 = true) (q_bindings q)) []) <$>
       filter (fun kv => q_durable kv.2 = true) (br_queues b))
    ∅ (br_next b).

Definition broker_restart (b : broker) : broker :=
  mkBroker true (br_exchanges b) (br_queues b) (br_open b) (br_next b).

(** ** The client: rabbitmq.js *)

Definition lift_broker {A} (m : Ex broker exn A) : Ex mq exn A :=
  fun s => let '(r, b) := m (mq_broker s) in (r, mkMq (mq_client s) b).

Definition set_connection (c : option nat) : Ex mq exn unit :=
  ex_modify (fun s => mkMq (mkClient c (cl_channel (mq_client s))) (mq_broker s)).
Definition set_channel (c : option nat) : Ex mq exn unit :=
  ex_modify (fun s => mkMq (mkClient (cl_connection (mq_client s)) c) (mq_broker s)).

(** [amqp.connect(url)] and [connection.createChannel()]: a fresh id. *)
Definition amqp_open : Ex broker exn nat :=
  fun b =>
    if br_up b then
      (inr (br_next b),
        mkBroker true (br_exchanges b) (br_queues b) (br_open b ∪ {[br_next b]}) (S (br_next b)))
    else (inl ExnConnRefused, b).

(** [channel.assertExchange(name, type, { durable })]. *)
Definition assert_exchange (ch : nat) (name type : string) (durable : bool) : Ex broker exn unit :=
  fun b =>
    if decide (ch ∈ br_open b) then
      match br_exchanges b !! name with
      | Some (t, d) =>
          if String.eqb t type && Bool.eqb d durable then (inr tt, b)
          else (inl ExnPrecondition, set_open (br_open b ∖ {[ch]}) b)
      | None =>
          (inr tt, mkBroker (br_up b) (<[name := (type, durable)]> (br_exchanges b))
                     (br_queues b) (br_open b) (br_next b))
      end
    else (inl ExnChannelClosed, b).

(** [connectToRabbitMQ]: the errors are caught and logged, and the
    function then returns [undefined] ([None]). *)
Definition connectToRabbitMQ : Ex mq exn (option nat) :=
  (conn ← lift_broker amqp_open;
   set_connection (Some conn);;
   ch ← lift_broker amqp_open;
   set_channel (Some ch);;
   lift_broker (assert_exchange ch EXCHANGE_NAME "topic" false);;
   mret (Some ch))
  catch! (fun _ => mret None).

(** [publishEvent(routingKey, message)]. *)
Definition publishEvent (rk : string) (message : json) : Ex mq exn unit :=
  s ← ex_get;
  match cl_channel (mq_client s) with Some _ => mret None | None => connectToRabbitMQ end;;
  s' ← ex_get;
  match cl_channel (mq_client s') with
  | None => throw! ExnTypeError
  | Some ch => lift_broker (channel_publish ch EXCHANGE_NAME rk message)
  end.


(** ** Facts about publication *)

(** The exchange is absent (the client will declare it) or declared as the
    client declares it. *)
Definition exchange_ok (b : broker) : Prop :=
  br_exchanges b !! EXCHANGE_NAME = None \/
  br_exchanges b !! EXCHANGE_NAME = Some ("topic", false).

(** [publishEvent] will succeed: an open channel on a declared exchange,
    or no channel yet and a broker that accepts connections. *)
Definition publish_ready (s : mq) : Prop :=
  match cl_channel (mq_client s) with
  | Some ch => ch ∈ br_open (mq_broker s) /\ is_Some (br_exchanges (mq_broker s) !! EXCHANGE_NAME)
  | None => br_up (mq_broker s) = true /\ exchange_ok (mq_broker s)
  end.

(** The channel variable holds a channel the broker has closed. *)
Definition channel_dead (s : mq) : Prop :=
  exists ch, cl_channel (mq_client s) = Some ch /\ ch ∉ br_open (mq_broker s).

Lemma route_lookup m qs q :
  route m qs !! q =
  (fun x => if queue_accepts (msg_exchange m) (msg_key m) x then enqueue m x else x) <$> qs !! q.
Proof. unfold route. by rewrite lookup_fmap. Qed.

Lemma publishEvent_open s ch rk body :
  cl_channel (mq_client s) = Some ch -> ch ∈ br_open (mq_broker s) ->
  is_Some (br_exchanges (mq_broker s) !! EXCHANGE_NAME) ->
  publishEvent rk body s =
  (inr tt, mkMq (mq_client s)
             (set_queues (route (mkMessage EXCHANGE_NAME rk body) (br_queues (mq_broker s)))
                (mq_broker s))).
Proof.
  intros Hch Hopen [x Hx]. destruct s as [cl b]. simpl in *.
  unfold publishEvent, lift_broker, channel_publish. ex_simp. rewrite Hch.
  cbn [mq_client mq_broker]. rewrite Hch. cbn [mq_client mq_broker].
  rewrite decide_True by done. by rewrite Hx.
Qed.

(** A dead channel: the publication throws and changes nothing. *)
Lemma publishEvent_dead s rk body :
  channel_dead s -> publishEvent rk body s = (inl ExnChannelClosed, s).
Proof.
  intros [ch [Hch Hdead]]. destruct s as [cl b]. simpl in *.
  unfold publishEvent, lift_broker, channel_publish. ex_simp. rewrite Hch.
  cbn [mq_client mq_broker]. rewrite Hch. cbn [mq_client mq_broker].
  by rewrite decide_False.
Qed.

(** [publishEvent] will throw: the channel variable holds a closed
    channel, or there is none and the broker does not accept connections. *)
Definition publish_fails (s : mq) : Prop :=
  channel_dead s \/ (cl_channel (mq_client s) = None /\ br_up (mq_broker s) = false).

(** No channel and the broker down: the connection attempt fails silently
    and [channel.publish] is then called on [null]. *)
Lemma publishEvent_down s rk body :
  cl_channel (mq_client s) = None -> br_up (mq_broker s) = false ->
  publishEvent rk body s = (inl ExnTypeError, s).
Proof.
  intros Hch Hdown. destruct s as [[conn ch] b]. simpl in *. subst ch.
  unfold publishEvent, connectToRabbitMQ, lift_broker, amqp_open. ex_simp.
  by rewrite Hdown.
Qed.

(** No channel and the broker up: [publishEvent] connects first (one fresh
    connection, one fresh channel, the exchange declared) and then routes. *)
Lemma publishEvent_fails s rk body :
  publish_fails s -> exists e, publishEvent rk body s = (inl e, s).
Proof.
  intros [Hd|[Hch Hdown]]; eexists; [by apply publishEvent_dead|by apply publishEvent_down].
Qed.

Lemma publishEvent_connects s rk body :
  cl_channel (mq_client s) = None -> br_up (mq_broker s) = true ->
  exchange_ok (mq_broker s) ->
  let b := mq_broker s in
  let b' := mkBroker true (<[EXCHANGE_NAME := ("topic", false)]> (br_exchanges b))
              (br_queues b) (br_open b ∪ {[br_next b]} ∪ {[S (br_next b)]})
              (S (S (br_next b))) in
  publishEvent rk body s =
  (inr tt, mkMq (mkClient (Some (br_next b)) (Some (S (br_next b))))
             (set_queues (route (mkMessage EXCHANGE_NAME rk body) (br_queues b)) b')).
Proof.
  intros Hch Hup Hex. destruct s as [[conn ch] b]. simpl in *. subst ch.
  unfold publishEvent, connectToRabbitMQ, lift_broker, amqp_open, assert_exchange,
    channel_publish, set_connection, set_channel.
  ex_simp. rewrite Hup. simpl.
  rewrite decide_True by set_solver.
  destruct Hex as [Hex|Hex]; rewrite Hex; simpl.
  - rewrite decide_True by set_solver. by rewrite lookup_insert_eq.
  - rewrite decide_True by set_solver. rewrite Hex. f_equal. f_equal.
    unfold set_queues. f_equal. by rewrite insert_id.
Qed.
End Mq.

Module Registry.
Import Mq.

(** [assertQueue(name, { durable: true })] and [bindQueue(name,
    EXCHANGE_NAME, routingKey)]: one durable queue per consuming
    service, bound once per subscribed routing key. *)
Definition subscribe (qname rk : string) (b : broker) : broker :=
  let q := default (mkQueue true [] []) (br_queues b !! qname) in
  let q' := mkQueue (q_durable q) (q_bindings q ++ [(EXCHANGE_NAME, rk)]) (q_msgs q) in
  set_queues (<[qname := q']> (br_queues b)) b.

(** The broker hands the consumer the oldest message of its queue. *)
Definition deliver (qname : string) (b : broker) : option (message * broker) :=
  match br_queues b !! qname with
  | Some (mkQueue d bs (m :: ms)) => Some (m, set_queues (<[qname := mkQueue d bs ms]> (br_queues b)) b)
  | _ => None
  end.

End Registry.

(** The [startServer] functions of the three services' [index.js]. *)
Module PostIndex.
Import Mq.

Inductive Startup := Listening | Exited.

(** [src/post-service/src/index.js]: connect, then listen; an exception
    exits the process. *)
Definition startServer : Ex mq exn Startup :=
  (connectToRabbitMQ;; mret Listening) catch! (fun _ => mret Exited).

End PostIndex.

Module ConsumerIndex.
Import Mq Registry.

(** [src/search-service/src/index.js]: [consumeEvent('post.created', ...)]
    and [consumeEvent('post.deleted', ...)] on the search service's queue. *)
Definition search_startServer (b : broker) : broker :=
  subscribe "search-service" "post.deleted" (subscribe "search-service" "post.created" b).

(** [src/media-service/src/index.js]: [consumeEvent('post.deleted', ...)]. *)
Definition media_startServer (b : broker) : broker :=
  subscribe "media-service" "post.deleted" b.

End ConsumerIndex.

Module MqFacts.
Import Topic Mq Registry.

(** The broker together with the post service's client, under the
    operations of the client and the steps of the environment. *)
Inductive mq_step : mq -> mq -> Prop :=
| mq_publish rk body s : mq_step s (snd (publishEvent rk body s))
| mq_crash s : mq_step s (mkMq (mq_client s) (broker_crash (mq_broker s)))
| mq_restart s : mq_step s (mkMq (mq_client s) (broker_restart (mq_broker s)))
| mq_subscribe q rk s : mq_step s (mkMq (mq_client s) (subscribe q rk (mq_broker s)))
| mq_deliver q s m b' :
    deliver q (mq_broker s) = Some (m, b') -> mq_step s (mkMq (mq_client s) b').

Lemma deliver_open q b m b' : deliver q b = Some (m, b') -> br_open b' = br_open b.
Proof.
  unfold deliver. destruct (br_queues b !! q) as [[d bs [|m' ms]]|]; try done.
  intros H. by injection H as <- <-.
Qed.

Lemma mq_step_channel_dead s s' : mq_step s s' -> channel_dead s -> channel_dead s'.
Proof.
  intros Hstep Hdead. destruct Hstep as [rk body s|s|s|q rk s|q s m b' Hd].
  - by rewrite (publishEvent_dead s rk body Hdead).
  - destruct Hdead as [ch [Hch _]]. exists ch. simpl. split; [done|set_solver].
  - exact Hdead.
  - exact Hdead.
  - destruct Hdead as [ch [Hch Hn]]. exists ch. simpl. by rewrite (deliver_open _ _ _ _ Hd).
Qed.

Lemma publishEvent_ready s rk body :
  publish_ready s ->
  exists s', publishEvent rk body s = (inr tt, s') /\
    br_queues (mq_broker s') = route (mkMessage EXCHANGE_NAME rk body) (br_queues (mq_broker s)) /\
    publish_ready s'.
Proof.
  unfold publish_ready. destruct (cl_channel (mq_client s)) as [ch|] eqn:Hch.
  - intros [Hopen Hex]. eexists. rewrite (publishEvent_open s ch rk body) by done.
    split; [done|]. simpl. rewrite Hch. done.
  - intros [Hup Hex]. eexists. rewrite publishEvent_connects by done.
    split; [done|]. simpl. split; [done|]. split; [set_solver|].
    rewrite lookup_insert_eq. by eexists.
Qed.

Lemma route_enqueue m qs q x :
  qs !! q = Some x -> queue_accepts (msg_exchange m) (msg_key m) x = true ->
  route m qs !! q = Some (enqueue m x).
Proof. intros Hq Ha. by rewrite route_lookup, Hq; simpl; rewrite Ha. Qed.

Lemma route_skip m qs q x :
  qs !! q = Some x -> queue_accepts (msg_exchange m) (msg_key m) x = false ->
  route m qs !! q = Some x.
Proof. intros Hq Ha. by rewrite route_lookup, Hq; simpl; rewrite Ha. Qed.

Lemma queue_accepts_enqueue ex rk m x :
  queue_accepts ex rk (enqueue m x) = queue_accepts ex rk x.
Proof. done. Qed.

#[export] Hint Resolve route_enqueue route_skip mq_step_channel_dead : sm.

End MqFacts.

Module BrokerProps.
Import Topic Mq Registry MqFacts.

(** C17: a closed channel is never replaced.  [publishEvent] reconnects
    only when [channel] is [null]; once the broker has closed the channel
    the variable still holds it, so every later publication throws, through
    any sequence of publications, broker crashes and restarts, and
    deliveries: all events of the post service are lost from then on. *)
Theorem channel_dead_forever s s' :
  channel_dead s -> rtc mq_step s s' ->
  channel_dead s' /\ forall rk body, publishEvent rk body s' = (inl ExnChannelClosed, s').
Proof.
  intros Hd Hr. induction Hr as [s|s1 s2 s3 Hs _ IH].
  - split; [done|]. intros rk body. by apply publishEvent_dead.
  - apply IH. by eapply mq_step_channel_dead.
Qed.

(** C18: publications keep their order in every queue: two events
    published one after the other on a working client arrive at the tail
    of each queue bound to both routing keys, in publication order. *)
Theorem publish_fifo s rk1 b1 rk2 b2 qn x :
  publish_ready s -> br_queues (mq_broker s) !! qn = Some x ->
  queue_accepts EXCHANGE_NAME rk1 x = true -> queue_accepts EXCHANGE_NAME rk2 x = true ->
  let s1 := snd (publishEvent rk1 b1 s) in
  let s2 := snd (publishEvent rk2 b2 s1) in
  q_msgs <$> br_queues (mq_broker s2) !! qn =
    Some (q_msgs x ++ [mkMessage EXCHANGE_NAME rk1 b1; mkMessage EXCHANGE_NAME rk2 b2]).
Proof.
  intros Hr Hq H1 H2 s1 s2.
  destruct (publishEvent_ready s rk1 b1 Hr) as [t1 [Hp1 [Hq1 Hr1]]].
  destruct (publishEvent_ready t1 rk2 b2 Hr1) as [t2 [Hp2 [Hq2 _]]].
  subst s1 s2. rewrite Hp1. simpl. rewrite Hp2. simpl. rewrite Hq2, Hq1.
  rewrite (route_enqueue _ _ _ (enqueue (mkMessage EXCHANGE_NAME rk1 b1) x)).
  - simpl. by rewrite <- app_assoc.
  - by apply route_enqueue.
  - done.
Qed.

Lemma connect_failure_swallowed s :
  br_up (mq_broker s) = false -> connectToRabbitMQ s = (inr None, s).
Proof.
  intros Hdown. destruct s as [cl b]. simpl in Hdown.
  unfold connectToRabbitMQ, lift_broker, amqp_open. ex_simp. by rewrite Hdown.
Qed.

(** C19: the post service starts with a dead event path.
    [connectToRabbitMQ] catches the connection error and returns
    [undefined], so [startServer] listens although the broker is
    unreachable, whereas the spec requires the service to fail its
    startup. *)
Theorem startServer_ignores_broker_down s :
  br_up (mq_broker s) = false -> PostIndex.startServer s = (inr PostIndex.Listening, s).
Proof.
  intros Hdown. unfold PostIndex.startServer, ex_catch, mbind, ex_bind.
  by rewrite connect_failure_swallowed.
Qed.

(** C20: the connection is opened lazily and once: from no channel and a
    reachable broker, the first publication opens one connection and one
    channel and routes the event; the next publication reuses the channel
    and opens nothing. *)
Theorem publish_connects_once s rk1 b1 rk2 b2 :
  cl_channel (mq_client s) = None -> br_up (mq_broker s) = true -> exchange_ok (mq_broker s) ->
  let s1 := snd (publishEvent rk1 b1 s) in
  let s2 := snd (publishEvent rk2 b2 s1) in
  cl_channel (mq_client s1) = Some (S (br_next (mq_broker s))) /\
  br_next (mq_broker s1) = S (S (br_next (mq_broker s))) /\
  mq_client s2 = mq_client s1 /\ br_next (mq_broker s2) = br_next (mq_broker s1) /\
  br_queues (mq_broker s2) =
    route (mkMessage EXCHANGE_NAME rk2 b2)
      (route (mkMessage EXCHANGE_NAME rk1 b1) (br_queues (mq_broker s))).
Proof.
  intros Hch Hup Hex s1 s2. subst s1 s2.
  rewrite publishEvent_connects by done. simpl.
  rewrite (publishEvent_open _ (S (br_next (mq_broker s)))); simpl.
  - by repeat split.
  - done.
  - set_solver.
  - rewrite lookup_insert_eq. by eexists.
Qed.

(** ** Witnesses *)

Definition broker_up0 : broker := mkBroker true ∅ ∅ ∅ 0.

(** A durable queue [search] bound to [post.created] and [post.deleted]. *)
Definition broker_bound : broker :=
  subscribe "search" "post.deleted" (subscribe "search" "post.created" broker_up0).

(** The client's channel 1 was closed by a broker restart. *)
Definition mq_dead : mq := mkMq (mkClient (Some 0) (Some 1)) (set_open ∅ broker_bound).

Lemma channel_dead_forever_witness :
  let s' := mkMq (mq_client mq_dead) (broker_restart (mq_broker mq_dead)) in
  channel_dead s' /\ forall rk body, publishEvent rk body s' = (inl ExnChannelClosed, s').
Proof.
  apply (channel_dead_forever mq_dead); [exists 1; split; [reflexivity|set_solver]|].
  apply rtc_once, mq_restart.
Defined.

Lemma publish_fifo_witness :
  let s := mkMq client_init broker_bound in
  let s1 := snd (publishEvent "post.created" (JStr "c") s) in
  let s2 := snd (publishEvent "post.deleted" (JStr "d") s1) in
  q_msgs <$> br_queues (mq_broker s2) !! "search" =
    Some ([] ++ [mkMessage EXCHANGE_NAME "post.created" (JStr "c");
                 mkMessage EXCHANGE_NAME "post.deleted" (JStr "d")]).
Proof.
  apply (publish_fifo _ _ _ _ _ _ (mkQueue true [(EXCHANGE_NAME, "post.created");
                                               (EXCHANGE_NAME, "post.deleted")] []));
    [split; [reflexivity|by left]|reflexivity|reflexivity|reflexivity].
Defined.

Lemma startServer_ignores_broker_down_witness :
  PostIndex.startServer (mkMq client_init (broker_crash broker_bound)) =
  (inr PostIndex.Listening, mkMq client_init (broker_crash broker_bound)).
Proof. apply startServer_ignores_broker_down. reflexivity. Defined.

Lemma publish_connects_once_witness :
  let s := mkMq client_init broker_bound in
  let s1 := snd (publishEvent "post.created" (JStr "c") s) in
  let s2 := snd (publishEvent "post.deleted" (JStr "d") s1) in
  cl_channel (mq_client s1) = Some (S (br_next (mq_broker s))) /\
  br_next (mq_broker s1) = S (S (br_next (mq_broker s))) /\
  mq_client s2 = mq_client s1 /\ br_next (mq_broker s2) = br_next (mq_broker s1) /\
  br_queues (mq_broker s2) =
    route (mkMessage EXCHANGE_NAME "post.deleted" (JStr "d"))
      (route (mkMessage EXCHANGE_NAME "post.created" (JStr "c")) (br_queues (mq_broker s))).
Proof. apply publish_connects_once; [reflexivity|reflexivity|by left]. Defined.

End BrokerProps.
