(* ===== verification/PostStore.v ===== *)
(** The primary store of the post service: the Mongo collection behind
    [Post] ([require('../models/post-model')]).  The model file is not under
    src/; the fields are those [post-controller.js] reads and writes
    ([_id], [user], [content], [mediaIds], [createdAt] from the schema's
    timestamps).

    - [ObjectId]: ids are 24 lowercase hex digits.  The process's id
      generator is a counter [db_next] printed by [oid_of] (a real ObjectId
      mixes a timestamp, a random value and a counter; what the model keeps
      is that every generated id is fresh).  A route parameter is cast with
      [cast_oid]: a string that is not 24 hex digits is a [CastError], and
      the cast lowercases.
    - [PostDB]: the documents in insertion (natural) order, the id counter,
      the clock that stamps [createdAt], and whether the server is up.
    - The query operators the controller uses, each an [Ex PostDB exn]
      computation.  [sort({ createdAt: -1 })] is a stable insertion sort
      ([sort_desc]): ties keep the natural order. *)

From S2P Require Import Prelude Json.
From stdpp Require Import sorting.

Module ObjectId.

Definition hex_digit (x : N) : ascii :=
  match x with
  | 0 => "0" | 1 => "1" | 2 => "2" | 3 => "3" | 4 => "4" | 5 => "5"
  | 6 => "6" | 7 => "7" | 8 => "8" | 9 => "9" | 10 => "a" | 11 => "b"
  | 12 => "c" | 13 => "d" | 14 => "e" | _ => "f"
  end%char%N.

(** The [k] low hex digits of [n], most significant first. *)
Fixpoint hex_fixed (k : nat) (n : N) : string :=
  match k with
  | O => EmptyString
  | S k' => hex_fixed k' (n / 16) +:+ String (hex_digit (n mod 16)) EmptyString
  end.

Definition oid_of (n : N) : string := hex_fixed 24 n.

Definition is_hex (c : ascii) : bool :=
  let n := Ascii.nat_of_ascii c in
  (Nat.leb 48 n && Nat.leb n 57) || (Nat.leb 97 n && Nat.leb n 102) ||
  (Nat.leb 65 n && Nat.leb n 70).

Definition lower_hex (c : ascii) : ascii :=
  let n := Ascii.nat_of_ascii c in
  if Nat.leb 65 n && Nat.leb n 70 then Ascii.ascii_of_nat (n + 32) else c.

Fixpoint str_map (f : ascii -> ascii) (s : string) : string :=
  match s with
  | EmptyString => EmptyString
  | String c s' => String (f c) (str_map f s')
  end.

Definition is_oid (s : string) : bool :=
  Nat.eqb (String.length s) 24 && str_forall is_hex s.

(** Mongoose's cast of a string to an ObjectId, printed back. *)
Definition cast_oid (s : string) : option string :=
  if is_oid s then Some (str_map lower_hex s) else None.

End ObjectId.

Module Store.
Import ObjectId.

Record Post := mkPost {
  post_id : string;
  post_user : string;
  post_content : string;
  post_mediaIds : list string;
  post_createdAt : Z;
}.

Record PostDB := mkDB {
  db_posts : list Post;
  db_next : N;
  db_now : Z;
  db_up : bool;
}.

Definition set_posts (ps : list Post) (d : PostDB) : PostDB :=
  mkDB ps (db_next d) (db_now d) (db_up d).

(** Every operation first needs the server. *)
Definition mongo_check : Ex PostDB exn unit :=
  fun d => if db_up d then (inr tt, d) else (inl ExnMongo, d).

(** Mongoose's [String] cast of an array element of [mediaIds]. *)
Definition cast_string (j : json) : option string :=
  match j with
  | JStr s => Some s
  | JNum z => Some (pretty z)
  | JBool true => Some "true"
  | JBool false => Some "false"
  | _ => None
  end.

(** [new Post({ user, content, mediaIds })]: a fresh [_id]. *)
Definition new_post_id : Ex PostDB exn string :=
  fun d => (inr (oid_of (db_next d)), mkDB (db_posts d) (N.succ (db_next d)) (db_now d) (db_up d)).

(** [doc.save()]: the array cast (client-side validation, before the
    server is contacted), the unique [_id] index, the [createdAt]
    timestamp. *)
Definition save (id user content : string) (mediaIds : list json) : Ex PostDB exn Post :=
  match mapM cast_string mediaIds with
  | None => throw! ExnValidation
  | Some ms =>
      mongo_check;;
      d ← ex_get;
      if existsb (fun p => String.eqb (post_id p) id) (db_posts d) then throw! ExnDuplicateKey
      else
        let p := mkPost id user content ms (db_now d) in
        ex_put (set_posts (db_posts d ++ [p]) d);;
        mret p
  end.

(** [sort({ createdAt: -1 })], stable. *)
Fixpoint insert_desc (p : Post) (l : list Post) : list Post :=
  match l with
  | [] => [p]
  | q :: l' =>
      if Z.ltb (post_createdAt p) (post_createdAt q) then q :: insert_desc p l'
      else p :: q :: l'
  end.

Fixpoint sort_desc (l : list Post) : list Post :=
  match l with
  | [] => []
  | p :: l' => insert_desc p (sort_desc l')
  end.

(** [.skip(start).limit(limit)] on the sorted documents: a negative skip
    is rejected by the server, a negative limit returns at most its
    absolute value, and a zero limit means no limit. *)
Definition page_of (ps : list Post) (start limit : Z) : list Post :=
  let l := drop (Z.to_nat start) (sort_desc ps) in
  if Z.eqb limit 0 then l else take (Z.to_nat (Z.abs limit)) l.

Definition find_page (start limit : Z) : Ex PostDB exn (list Post) :=
  mongo_check;;
  if Z.ltb start 0 then throw! ExnBadValue
  else d ← ex_get; mret (page_of (db_posts d) start limit).

(** [countDocuments()]. *)
Definition count_documents : Ex PostDB exn Z :=
  mongo_check;; d ← ex_get; mret (Z.of_nat (length (db_posts d))).

Fixpoint find_post (oid : string) (ps : list Post) : option Post :=
  match ps with
  | [] => None
  | p :: ps' => if String.eqb (post_id p) oid then Some p else find_post oid ps'
  end.

Fixpoint remove_post (oid : string) (ps : list Post) : list Post :=
  match ps with
  | [] => []
  | p :: ps' => if String.eqb (post_id p) oid then ps' else p :: remove_post oid ps'
  end.

(** [findById(id)]. *)
Definition find_by_id (id : string) : Ex PostDB exn (option Post) :=
  match cast_oid id with
  | None => throw! ExnCast
  | Some oid => mongo_check;; d ← ex_get; mret (find_post oid (db_posts d))
  end.

(** The argument of [findByIdAndDelete] is cast to an ObjectId; an object
    is cast through its [_id] property, and its other properties are
    dropped. *)
Definition cast_id_arg (v : json) : option string :=
  match v with
  | JStr s => cast_oid s
  | JObj _ => match jget "_id" v with Some (JStr s) => cast_oid s | _ => None end
  | _ => None
  end.

(** [findByIdAndDelete(arg)]: [findOneAndDelete({ _id: cast(arg) })]. *)
Definition find_by_id_and_delete (arg : json) : Ex PostDB exn (option Post) :=
  match cast_id_arg arg with
  | None => throw! ExnCast
  | Some oid =>
      mongo_check;;
      d ← ex_get;
      match find_post oid (db_posts d) with
      | None => mret None
      | Some p => ex_put (set_posts (remove_post oid (db_posts d)) d);; mret (Some p)
      end
  end.

End Store.

Module StoreFacts.
Import ObjectId Store.

(** What a store operation can do: fail and change nothing, or succeed. *)
Lemma mongo_check_run d :
  mongo_check d = if db_up d then (inr tt, d) else (inl ExnMongo, d).
Proof. done. Qed.

Lemma save_effect id user content ms d r d' :
  save id user content ms d = (r, d') ->
  (exists e, r = inl e /\ d' = d) \/
  (exists ms', mapM cast_string ms = Some ms' /\ db_up d = true /\
     r = inr (mkPost id user content ms' (db_now d)) /\
     d' = set_posts (db_posts d ++ [mkPost id user content ms' (db_now d)]) d).
Proof.
  unfold save. destruct (mapM cast_string ms) as [ms'|] eqn:Hm.
  - unfold mbind, ex_bind, mongo_check, ex_get, ex_throw, ex_put, mret, ex_ret.
    destruct (db_up d) eqn:Hup; [|intros [= <- <-]; left; by eexists].
    destruct (existsb _ _); [intros [= <- <-]; left; by eexists|].
    intros [= <- <-]. right. by exists ms'.
  - intros [= <- <-]. left. by eexists.
Qed.

(** With the server up and the array castable, [save] stores the document
    under a fresh id. *)
Lemma save_ok id user content ms ms' d :
  mapM cast_string ms = Some ms' -> db_up d = true ->
  existsb (fun p => String.eqb (post_id p) id) (db_posts d) = false ->
  save id user content ms d =
  (inr (mkPost id user content ms' (db_now d)),
   set_posts (db_posts d ++ [mkPost id user content ms' (db_now d)]) d).
Proof.
  intros Hm Hup Hfresh. unfold save. rewrite Hm.
  unfold mbind, ex_bind, mongo_check, ex_get, ex_put, mret, ex_ret. simpl.
  by rewrite Hup, Hfresh.
Qed.

Lemma find_by_id_effect id d r d' :
  find_by_id id d = (r, d') -> d' = d.
Proof.
  unfold find_by_id. destruct (cast_oid id); [|by intros [= _ <-]].
  unfold mbind, ex_bind, mongo_check, ex_get, mret, ex_ret.
  destruct (db_up d); by intros [= _ <-].
Qed.

Lemma find_by_id_and_delete_effect arg d r d' :
  find_by_id_and_delete arg d = (r, d') ->
  (r = inr None /\ d' = d) \/ (exists e, r = inl e /\ d' = d) \/
  (exists oid p, cast_id_arg arg = Some oid /\ find_post oid (db_posts d) = Some p /\
     r = inr (Some p) /\ d' = set_posts (remove_post oid (db_posts d)) d).
Proof.
  unfold find_by_id_and_delete. destruct (cast_id_arg arg) as [oid|] eqn:Hc.
  - unfold mbind, ex_bind, mongo_check, ex_get, ex_put, mret, ex_ret.
    destruct (db_up d); [|intros [= <- <-]; right; left; by eexists].
    destruct (find_post oid (db_posts d)) as [p|] eqn:Hf.
    + intros [= <- <-]. right; right. by exists oid, p.
    + intros [= <- <-]. by left.
  - intros [= <- <-]. right; left. by eexists.
Qed.

Lemma find_post_some oid ps p : find_post oid ps = Some p -> post_id p = oid /\ p ∈ ps.
Proof.
  induction ps as [|p' ps IH]; simpl; [done|].
  destruct (String.eqb_spec (post_id p') oid) as [<-|]; [intros [= <-]; split; [done|apply list_elem_of_here]|].
  intros Hf. destruct (IH Hf). split; [done|by apply list_elem_of_further].
Qed.

(** [remove_post] keeps every post with another id. *)
Lemma remove_post_keep oid ps p : p ∈ ps -> post_id p <> oid -> p ∈ remove_post oid ps.
Proof.
  induction ps as [|p' ps IH]; simpl; [by intros ?%not_elem_of_nil|].
  intros [<-|Hin]%elem_of_cons Hne.
  - destruct (String.eqb_spec (post_id p) oid); [done|apply list_elem_of_here].
  - destruct (String.eqb (post_id p') oid); [done|]. by apply list_elem_of_further, IH.
Qed.

(** [remove_post] keeps nothing new. *)
Lemma remove_post_sub oid ps p : p ∈ remove_post oid ps -> p ∈ ps.
Proof.
  induction ps as [|p' ps IH]; simpl; [done|].
  destruct (String.eqb (post_id p') oid); [apply list_elem_of_further|].
  intros [<-|Hin]%elem_of_cons; [apply list_elem_of_here|by apply list_elem_of_further, IH].
Qed.

Lemma slen_app (s t : string) : String.length (s +:+ t) = (String.length s + String.length t)%nat.
Proof. induction s as [|c s IH]; [done|]. simpl. by rewrite IH. Qed.

Lemma str_map_app f (s t : string) : str_map f (s +:+ t) = str_map f s +:+ str_map f t.
Proof. induction s as [|c s IH]; [done|]. simpl. by rewrite IH. Qed.

Lemma hex_digit_ok x : is_hex (hex_digit x) = true /\ lower_hex (hex_digit x) = hex_digit x.
Proof.
  unfold hex_digit. destruct x as [|p]; [split; reflexivity|].
  repeat match goal with |- context [match ?p with _ => _ end] => destruct p end; split; reflexivity.
Qed.

Lemma hex_fixed_ok k n :
  String.length (hex_fixed k n) = k /\ str_forall is_hex (hex_fixed k n) = true /\
  str_map lower_hex (hex_fixed k n) = hex_fixed k n.
Proof.
  revert n. induction k as [|k IH]; intros n; [done|]. simpl.
  destruct (IH (n / 16)%N) as (Hl & Hh & Hm). destruct (hex_digit_ok (n mod 16)) as [Hd Hlow].
  rewrite slen_app, str_forall_app, str_map_app, Hl, Hh, Hm. simpl. rewrite Hd, Hlow. split; [lia|done].
Qed.

Lemma append_same_length (s1 s2 t1 t2 : string) :
  String.length s1 = String.length s2 -> s1 +:+ t1 = s2 +:+ t2 -> s1 = s2 /\ t1 = t2.
Proof.
  revert s2. induction s1 as [|c s1 IH]; intros [|c' s2] Hl E; try discriminate; [done|].
  injection Hl as Hl. injection E as -> E. destruct (IH s2 Hl E) as [-> ->]. done.
Qed.

Lemma hex_digit_inj x y : (x < 16)%N -> (y < 16)%N -> hex_digit x = hex_digit y -> x = y.
Proof.
  assert (Hall : forall n m, (n < 16)%nat -> (m < 16)%nat ->
            hex_digit (N.of_nat n) = hex_digit (N.of_nat m) -> n = m).
  { intros n m Hn Hm E.
    do 16 (destruct n as [|n]; [do 16 (destruct m as [|m]; [first [reflexivity|discriminate E]|]); lia|]).
    lia. }
  intros Hx Hy E. rewrite <- (N2Nat.id x), <- (N2Nat.id y) in E |- *. f_equal. apply Hall; [lia|lia|exact E].
Qed.

(** The [k] hex digits of [n] determine [n] modulo [16^k]. *)
Lemma hex_fixed_mod k n n' :
  hex_fixed k n = hex_fixed k n' -> (n mod 16 ^ N.of_nat k = n' mod 16 ^ N.of_nat k)%N.
Proof.
  revert n n'. induction k as [|k IH]; intros n n' E; [by rewrite !N.mod_1_r|].
  cbn [hex_fixed] in E. apply append_same_length in E as [E1 E2];
    [|by rewrite !(proj1 (hex_fixed_ok _ _))].
  injection E2 as Ed. apply hex_digit_inj in Ed; [|apply N.mod_lt; lia..].
  apply IH in E1. rewrite Nat2N.inj_succ, N.pow_succ_r'.
  assert (16 ^ N.of_nat k <> 0)%N by (apply N.pow_nonzero; lia).
  rewrite !N.mod_mul_r by lia. by rewrite E1, Ed.
Qed.

(** The ids the store issues are distinct as long as the counter stays
    below [16^24], the number of 24-digit hex strings. *)
Lemma oid_of_inj n n' : (n < 16 ^ 24)%N -> (n' < 16 ^ 24)%N -> oid_of n = oid_of n' -> n = n'.
Proof.
  intros Hn Hn' E. apply hex_fixed_mod in E. change (N.of_nat 24) with 24%N in E.
  by rewrite !N.mod_small in E.
Qed.

(** Every id the store issues casts to itself. *)
Lemma cast_oid_of n : cast_oid (oid_of n) = Some (oid_of n).
Proof.
  unfold cast_oid, is_oid, oid_of. destruct (hex_fixed_ok 24 n) as (Hl & Hh & Hm).
  by rewrite Hl, Hh, Hm.
Qed.

End StoreFacts.

Module StoreHits.
Import ObjectId Store.

Lemma find_by_id_and_delete_hit arg oid p d :
  cast_id_arg arg = Some oid -> db_up d = true -> find_post oid (db_posts d) = Some p ->
  find_by_id_and_delete arg d = (inr (Some p), set_posts (remove_post oid (db_posts d)) d).
Proof.
  intros Hc Hup Hf. unfold find_by_id_and_delete. rewrite Hc.
  unfold mbind, ex_bind, mongo_check, ex_get, ex_put, mret, ex_ret. simpl.
  by rewrite Hup, Hf.
Qed.

End StoreHits.

Module StoreSort.
Import Store.

(** [sort({ createdAt: -1 })]: newer first. *)
Definition newer_first (a b : Post) : Prop := (post_createdAt b <= post_createdAt a)%Z.

#[export] Instance newer_first_trans : Transitive newer_first.
Proof. intros a b c. unfold newer_first. lia. Qed.

Lemma insert_desc_perm p l : insert_desc p l ≡ₚ p :: l.
Proof.
  induction l as [|q l IH]; simpl; [done|].
  destruct (Z.ltb_spec (post_createdAt p) (post_createdAt q)); [|done].
  rewrite IH. apply perm_swap.
Qed.

Lemma sort_desc_perm l : sort_desc l ≡ₚ l.
Proof. induction l as [|p l IH]; simpl; [done|]. by rewrite insert_desc_perm, IH. Qed.

Lemma insert_desc_hd q p l :
  newer_first q p -> HdRel newer_first q l -> HdRel newer_first q (insert_desc p l).
Proof.
  intros Hqp Hl. destruct l as [|r l]; simpl; [by constructor|].
  destruct (Z.ltb _ _); constructor; [by inversion Hl|done].
Qed.

Lemma insert_desc_sorted p l : Sorted newer_first l -> Sorted newer_first (insert_desc p l).
Proof.
  induction l as [|q l IH]; simpl; intros Hs; [by repeat constructor|].
  inversion Hs as [|? ? Hl Hhd]; subst.
  destruct (Z.ltb_spec (post_createdAt p) (post_createdAt q)).
  - constructor; [by apply IH|]. apply insert_desc_hd; [unfold newer_first; lia|done].
  - constructor; [done|]. constructor. unfold newer_first. lia.
Qed.

Lemma sort_desc_sorted l : StronglySorted newer_first (sort_desc l).
Proof.
  apply Sorted_StronglySorted; [apply _|].
  induction l as [|p l IH]; simpl; [constructor|]. by apply insert_desc_sorted.
Qed.

(** A page of the listing ([sort({ createdAt: -1 }).skip(start)
    .limit(limit)]) is sorted newest first, holds only stored posts, and
    with [start >= 0] and [limit > 0] holds [min(limit, n - start)] of the
    [n] stored posts. *)
Theorem page_of_spec ps start limit :
  StronglySorted newer_first (page_of ps start limit) /\
  (forall p, p ∈ page_of ps start limit -> p ∈ ps) /\
  ((0 <= start)%Z -> (0 < limit)%Z ->
   length (page_of ps start limit) = Nat.min (Z.to_nat limit) (length ps - Z.to_nat start)).
Proof.
  pose proof (sort_desc_sorted ps) as Hs.
  rewrite <- (take_drop (Z.to_nat start) (sort_desc ps)) in Hs.
  apply StronglySorted_app_1_r in Hs.
  unfold page_of. split; [|split].
  - destruct (Z.eqb _ _); [done|].
    rewrite <- (take_drop (Z.to_nat (Z.abs limit)) (drop _ _)) in Hs.
    by apply StronglySorted_app_1_l in Hs.
  - intros p Hp. rewrite <- (sort_desc_perm ps).
    destruct (Z.eqb _ _); [by apply subseteq_drop in Hp|].
    by apply subseteq_take, subseteq_drop in Hp.
  - intros Hst Hl. destruct (Z.eqb_spec limit 0); [lia|].
    rewrite length_take, length_drop, (Permutation_length (sort_desc_perm ps)).
    by rewrite Z.abs_eq by lia.
Qed.

End StoreSort.
