(* ===== verification/PostService.v ===== *)
(** The post service's controller, [src/post-service/src/controllers/post-controller.js],
    with [validateCreatePost] from [src/post-service/src/utils/validation.js].

    The state [PState] is what the handlers reach: the Mongo collection
    ([ps_db]), the Redis cache ([ps_cache]) and whether Redis answers
    ([ps_redis_up]), and the RabbitMQ client with the broker ([ps_mq]).
    The section [Controller] is written against any cache [C] that
    satisfies [CacheStoreLaws] (the interface of [Redis]); the witnesses
    run it on [RedisDb].

    Each controller is its [try] block ([createPost_try], ...) under the
    [catch] that answers 500.  The responses are [Resp] values: a status
    and a body ([BMsg] for [{ success, message }], [BList] for the listing
    object, [BPost] for one post).  A cached value is the object the
    controller stringified; [JSON.parse] of the cached string gives it back
    ([body_of]).

    Bounds: [page] and [limit] are the integers [parseInt] returns ([None]
    for [NaN]); [(page - 1) * limit] is computed exactly, which agrees with
    JS doubles while its magnitude stays below 2^53. *)

From S2P Require Import Prelude Json Redis Broker PostStore.
From Stdlib Require Import Sorting.Sorted.
Import ObjectId Store StoreFacts StoreHits Mq MqFacts.

(** ** Data *)

Record ListResult := mkList {
  lr_posts : list Post;
  lr_currentPage : Z;
  lr_totalPages : Z;
  lr_totalPost : Z;
}.

(** What the controller stores in Redis. *)
Inductive CacheVal := CList (r : ListResult) | CPost (p : Post).

Inductive Body :=
| BMsg (success : bool) (message : string)
| BList (r : ListResult)
| BPost (p : Post).

Record Resp := mkResp { status : Z; body : Body }.

Definition body_of (v : CacheVal) : Body :=
  match v with CList r => BList r | CPost p => BPost p end.

Record PState (C : Type) := mkPS {
  ps_db : PostDB;
  ps_cache : C;
  ps_redis_up : bool;
  ps_mq : mq;
}.
Arguments mkPS {C} _ _ _ _.
Arguments ps_db {C} _.
Arguments ps_cache {C} _.
Arguments ps_redis_up {C} _.
Arguments ps_mq {C} _.

(** ** Keys and messages *)

Definition post_key (id : string) : string := "post:" +:+ id.

Definition posts_key (page limit : Z) : string :=
  "posts:" +:+ pretty page +:+ ":" +:+ pretty limit.

(** [setex(cachedPost, ...)] with [cachedPost === null]: ioredis sends a
    [null] argument as the empty string. *)
Definition js_null_key : string := "".

Definition dq : string := String (Ascii.ascii_of_nat 34) EmptyString.

(** Joi's label of a key: the key in double quotes. *)
Definition joi_label (k : string) : string := dq +:+ k +:+ dq.

(** [validateCreatePost(data)]: [joi.object({ content: joi.string().min(3)
    .max(5000).required(), mediaIds: joi.array() })]; the first error
    ([abortEarly]) in the order Joi checks: the type, the keys of the
    schema in order, then the unknown keys. *)
Definition validate_mediaIds (data : json) : option string :=
  match jget "mediaIds" data with
  | None | Some (JArr _) =>
      match filter (fun k => k <> "content" /\ k <> "mediaIds") (jkeys data) with
      | [] => None
      | k :: _ => Some (joi_label k +:+ " is not allowed")
      end
  | Some _ => Some (joi_label "mediaIds" +:+ " must be an array")
  end.

Definition validateCreatePost (data : json) : option string :=
  match data with
  | JObj _ =>
      match jget "content" data with
      | None => Some (joi_label "content" +:+ " is required")
      | Some (JStr c) =>
          if Nat.eqb (String.length c) 0 then
            Some (joi_label "content" +:+ " is not allowed to be empty")
          else if Nat.ltb (String.length c) 3 then
            Some (joi_label "content" +:+ " length must be at least 3 characters long")
          else if Nat.ltb 5000 (String.length c) then
            Some (joi_label "content" +:+
                  " length must be less than or equal to 5000 characters long")
          else validate_mediaIds data
      | Some _ => Some (joi_label "content" +:+ " must be a string")
      end
  | _ => Some (joi_label "value" +:+ " must be of type object")
  end.

(** The event payloads. *)
Definition created_payload (p : Post) : json :=
  JObj [("postId", JStr (post_id p)); ("userId", JStr (post_user p));
        ("content", JStr (post_content p)); ("createdAt", JDate (post_createdAt p))].

Definition deleted_payload (p : Post) (user : string) : json :=
  JObj [("postId", JStr (post_id p)); ("userId", JStr user);
        ("mediaIds", JArr (JStr <$> post_mediaIds p))].

(** The listing object [getAllPostController] builds from the store. *)
Definition list_result (ps : list Post) (page limit : Z) : ListResult :=
  let total := Z.of_nat (length ps) in
  mkList (page_of ps ((page - 1) * limit) limit) page (js_ceil_div total limit) total.

Section Controller.
Context {C : Type} `{CacheStoreLaws CacheVal C}.

Abbreviation PS := (PState C).

(** ** The services the controller awaits *)

(** An ioredis command: it rejects when the server does not answer. *)
Definition redis_cmd {A} (f : C -> A * C) : Ex PS exn A :=
  fun s =>
    if ps_redis_up s then
      let '(a, c) := f (ps_cache s) in (inr a, mkPS (ps_db s) c true (ps_mq s))
    else (inl ExnRedis, s).

Definition redis_get (k : string) : Ex PS exn (option CacheVal) :=
  redis_cmd (fun c => (cache_get k c, c)).
Definition redis_setex (k : string) (ttl : Z) (v : CacheVal) : Ex PS exn unit :=
  redis_cmd (fun c => (tt, cache_setex k ttl v c)).
Definition redis_del (ks : list string) : Ex PS exn unit :=
  redis_cmd (fun c => (tt, cache_del ks c)).
Definition redis_keys (p : string) : Ex PS exn (list string) :=
  redis_cmd (fun c => (cache_keys p c, c)).

Definition lift_db {A} (m : Ex PostDB exn A) : Ex PS exn A :=
  fun s => let '(r, d) := m (ps_db s) in (r, mkPS d (ps_cache s) (ps_redis_up s) (ps_mq s)).

Definition lift_mq {A} (m : Ex mq exn A) : Ex PS exn A :=
  fun s => let '(r, q) := m (ps_mq s) in (r, mkPS (ps_db s) (ps_cache s) (ps_redis_up s) q).

(** ** The controller *)

(** [invalidatePostCache(req, input)]. *)
Definition invalidatePostCache (input : string) : Ex PS exn unit :=
  redis_del [post_key input];;
  keys ← redis_keys "posts:*";
  match keys with
  | [] => mret tt
  | _ :: _ => redis_del keys
  end.

Definition createPost_try (user : string) (data : json) : Ex PS exn Resp :=
  match validateCreatePost data with
  | Some msg => mret (mkResp 400 (BMsg false msg))
  | None =>
      let content := default "" (jstring (jget "content" data)) in
      let mediaIds := match jget "mediaIds" data with Some (JArr l) => l | _ => [] end in
      id ← lift_db new_post_id;
      newPost ← lift_db (save id user content mediaIds);
      lift_mq (publishEvent "post.created" (created_payload newPost));;
      invalidatePostCache (post_id newPost);;
      mret (mkResp 201 (BMsg true "Post created successfully"))
  end.

Definition createPostController (user : string) (data : json) : Ex PS exn Resp :=
  createPost_try user data catch! (fun _ => mret (mkResp 500 (BMsg false "Error creating post"))).

Definition getAllPost_try (pageQ limitQ : option Z) : Ex PS exn Resp :=
  let page := js_or_default pageQ 1 in
  let limit := js_or_default limitQ 10 in
  let startIndex := ((page - 1) * limit)%Z in
  let cacheKey := posts_key page limit in
  cachedPosts ← redis_get cacheKey;
  match cachedPosts with
  | Some v => mret (mkResp 200 (body_of v))
  | None =>
      posts ← lift_db (find_page startIndex limit);
      totalNumOfPost ← lift_db count_documents;
      let result := mkList posts page (js_ceil_div totalNumOfPost limit) totalNumOfPost in
      redis_setex cacheKey 300 (CList result);;
      mret (mkResp 200 (BList result))
  end.

Definition getAllPostController (pageQ limitQ : option Z) : Ex PS exn Resp :=
  getAllPost_try pageQ limitQ
  catch! (fun _ => mret (mkResp 500 (BMsg false "Error fetching all post"))).

Definition getPost_try (postId : string) : Ex PS exn Resp :=
  let cachekey := post_key postId in
  cachedPost ← redis_get cachekey;
  match cachedPost with
  | Some v => mret (mkResp 200 (body_of v))
  | None =>
      singlePost ← lift_db (find_by_id postId);
      match singlePost with
      | None => mret (mkResp 404 (BMsg false "Post not found"))
      | Some p =>
          redis_setex js_null_key 3600 (CPost p);;
          mret (mkResp 200 (BPost p))
      end
  end.

Definition getPostController (postId : string) : Ex PS exn Resp :=
  getPost_try postId
  catch! (fun _ => mret (mkResp 500 (BMsg false "Error fetching post by ID"))).

Definition deletePost_try (user postId : string) : Ex PS exn Resp :=
  post ← lift_db (find_by_id_and_delete (JObj [("_id", JStr postId); ("user", JStr user)]));
  match post with
  | None => mret (mkResp 404 (BMsg false "Post not found"))
  | Some p =>
      lift_mq (publishEvent "post.deleted" (deleted_payload p user));;
      invalidatePostCache postId;;
      mret (mkResp 200 (BMsg true "Post deleted successfully"))
  end.

Definition deletePostController (user postId : string) : Ex PS exn Resp :=
  deletePost_try user postId
  catch! (fun _ => mret (mkResp 500 (BMsg false "Error deleting post by ID"))).

(** The listing without the cache: the reference [getAllPostController]
    is compared with. *)
Definition getAllPost_nocache (pageQ limitQ : option Z) : Ex PS exn Resp :=
  (let page := js_or_default pageQ 1 in
   let limit := js_or_default limitQ 10 in
   posts ← lift_db (find_page ((page - 1) * limit)%Z limit);
   totalNumOfPost ← lift_db count_documents;
   mret (mkResp 200 (BList (mkList posts page (js_ceil_div totalNumOfPost limit) totalNumOfPost))))
  catch! (fun _ => mret (mkResp 500 (BMsg false "Error fetching all post"))).

End Controller.

(** ** Facts about the services *)

(** Proofs step through a handler one awaited call at a time: the calls
    themselves are rewritten with the lemmas below, not unfolded. *)
Arguments redis_cmd : simpl never.
Arguments lift_db : simpl never.
Arguments lift_mq : simpl never.

Section Services.
Context {C : Type} `{CacheStoreLaws CacheVal C}.

Lemma redis_cmd_up {A} (f : C -> A * C) d c q :
  redis_cmd f (mkPS d c true q) = (inr (f c).1, mkPS d (f c).2 true q).
Proof. unfold redis_cmd. simpl. by destruct (f c). Qed.

Lemma redis_cmd_down {A} (f : C -> A * C) d c q :
  redis_cmd f (mkPS d c false q) = (inl ExnRedis, mkPS d c false q).
Proof. done. Qed.

Lemma lift_db_run {A} (m : Ex PostDB exn A) d (c : C) r q :
  lift_db m (mkPS d c r q) = ((m d).1, mkPS (m d).2 c r q).
Proof. unfold lift_db. simpl. by destruct (m d). Qed.

Lemma lift_mq_run {A} (m : Ex mq exn A) d (c : C) r q :
  lift_mq m (mkPS d c r q) = ((m q).1, mkPS d c r (m q).2).
Proof. unfold lift_mq. simpl. by destruct (m q). Qed.

Lemma find_page_up d start limit :
  db_up d = true -> (0 <= start)%Z ->
  find_page start limit d = (inr (page_of (db_posts d) start limit), d).
Proof.
  intros Hup Hs. unfold find_page, mongo_check. ex_simp. rewrite Hup. simpl.
  by destruct (Z.ltb_spec start 0); [lia|].
Qed.

Lemma find_page_neg d start limit :
  db_up d = true -> (start < 0)%Z -> find_page start limit d = (inl ExnBadValue, d).
Proof.
  intros Hup Hs. unfold find_page, mongo_check. ex_simp. rewrite Hup. simpl.
  by destruct (Z.ltb_spec start 0); [|lia].
Qed.

Lemma count_documents_up d :
  db_up d = true -> count_documents d = (inr (Z.of_nat (length (db_posts d))), d).
Proof. intros Hup. unfold count_documents, mongo_check. ex_simp. by rewrite Hup. Qed.

(** [post:<id>] and [posts:<page>:<limit>] never collide, and the listing
    key determines its page and limit. *)
Lemma posts_key_prefix page limit : String.prefix "posts:" (posts_key page limit) = true.
Proof. apply prefix_app. Qed.

Lemma pretty_Z_no_colon (z : Z) :
  str_forall (fun x => negb (Ascii.eqb x ":"%char)) (pretty z) = true.
Proof. apply str_forall_pretty_Z; [intros d; unfold pretty_N_char; by repeat case_match|done]. Qed.

Lemma posts_key_inj p l p' l' : posts_key p l = posts_key p' l' -> p = p' /\ l = l'.
Proof.
  unfold posts_key. intros Heq. apply append_inj_l in Heq.
  apply split_at_sep in Heq as [Hp Hl]; [|apply pretty_Z_no_colon..].
  split; by apply (inj pretty).
Qed.

Lemma null_key_not_posts page limit : js_null_key <> posts_key page limit.
Proof. done. Qed.

End Services.

#[export] Hint Rewrite @redis_cmd_up @redis_cmd_down @lift_db_run @lift_mq_run : sm_rw.
#[export] Hint Resolve posts_key_prefix null_key_not_posts : sm.

(** ** The cache after an invalidation *)

Section Invalidation.
Context {C : Type} `{CacheStoreLaws CacheVal C}.

(** The cache [invalidatePostCache id] leaves behind. *)
Definition invalidated (id : string) (c : C) : C :=
  let c1 := cache_del [post_key id] c in
  match cache_keys "posts:*" c1 with
  | [] => c1
  | ks => cache_del ks c1
  end.

Lemma glob_posts_star k : glob_match "posts:*" k = String.prefix "posts:" k.
Proof. apply (glob_match_prefix_star "posts:"). reflexivity. Qed.

Lemma invalidatePostCache_up d (c : C) q id :
  invalidatePostCache id (mkPS d c true q) = (inr tt, mkPS d (invalidated id c) true q).
Proof.
  unfold invalidatePostCache, invalidated, redis_del, redis_keys.
  ex_simp. destruct (cache_keys _ _); [done|]. by rewrite redis_cmd_up.
Qed.

Lemma invalidatePostCache_down d (c : C) q id :
  invalidatePostCache id (mkPS d c false q) = (inl ExnRedis, mkPS d c false q).
Proof. unfold invalidatePostCache, redis_del, mbind, ex_bind. by rewrite redis_cmd_down. Qed.

Lemma invalidated_posts id c k :
  String.prefix "posts:" k = true -> cache_get k (invalidated id c) = None.
Proof.
  intros Hk. rewrite <- glob_posts_star in Hk. unfold invalidated.
  destruct (cache_keys "posts:*" (cache_del [post_key id] c)) eqn:Hks.
  - by eapply cache_keys_nil.
  - rewrite <- Hks. by apply cache_del_keys_clears.
Qed.

Lemma invalidated_post_key id c : cache_get (post_key id) (invalidated id c) = None.
Proof.
  unfold invalidated. destruct (cache_keys _ _) as [|k ks] eqn:Hks.
  - apply cache_get_del_in. set_solver.
  - rewrite cache_get_del. case_decide; [done|]. apply cache_get_del_in. set_solver.
Qed.

Lemma invalidated_other id c k :
  k <> post_key id -> String.prefix "posts:" k = false ->
  cache_get k (invalidated id c) = cache_get k c.
Proof.
  intros Hne Hk. unfold invalidated.
  assert (Hc1 : cache_get k (cache_del [post_key id] c) = cache_get k c)
    by (apply cache_get_del_notin; set_solver).
  destruct (cache_keys _ _) as [|k' ks] eqn:Hks; [done|].
  rewrite cache_get_del_notin; [done|]. rewrite <- Hks.
  intros Hin. apply cache_keys_spec in Hin as [_ Hg].
  rewrite glob_posts_star in Hg. congruence.
Qed.

End Invalidation.

#[export] Hint Resolve invalidated_posts invalidated_post_key : sm.

(** ** The listing cache *)

Section Listing.
Context {C : Type} `{CacheStoreLaws CacheVal C}.

(** Every cached listing is the listing the store gives now. *)
Definition coherent (s : PState C) : Prop :=
  forall page limit v,
    cache_get (posts_key page limit) (ps_cache s) = Some v ->
    (0 <= (page - 1) * limit)%Z /\ v = CList (list_result (db_posts (ps_db s)) page limit).

Lemma getAllPost_try_up d (c : C) q pq lq :
  db_up d = true ->
  let page := js_or_default pq 1 in
  let limit := js_or_default lq 10 in
  let key := posts_key page limit in
  getAllPost_try pq lq (mkPS d c true q) =
  match cache_get key c with
  | Some v => (inr (mkResp 200 (body_of v)), mkPS d c true q)
  | None =>
      if Z.ltb ((page - 1) * limit) 0 then (inl ExnBadValue, mkPS d c true q)
      else (inr (mkResp 200 (BList (list_result (db_posts d) page limit))),
            mkPS d (cache_setex key 300 (CList (list_result (db_posts d) page limit)) c) true q)
  end.
Proof.
  intros Hup page limit key. unfold getAllPost_try, redis_get, redis_setex.
  ex_simp. fold page limit key.
  destruct (cache_get key c) as [v|]; [done|].
  destruct (Z.ltb_spec ((page - 1) * limit) 0) as [Hneg|Hpos].
  - rewrite lift_db_run, find_page_neg by done. done.
  - rewrite lift_db_run, find_page_up by done. simpl.
    rewrite lift_db_run, count_documents_up by done. simpl.
    by rewrite ?redis_cmd_up.
Qed.

Lemma getAllPost_try_db_down d (c : C) q pq lq :
  db_up d = false -> snd (getAllPost_try pq lq (mkPS d c true q)) = mkPS d c true q.
Proof.
  intros Hdown. unfold getAllPost_try, redis_get. ex_simp.
  destruct (cache_get _ c); [done|].
  rewrite lift_db_run. unfold find_page, mongo_check. ex_simp. by rewrite Hdown.
Qed.

Lemma getAllPost_nocache_up d (c : C) r q pq lq :
  db_up d = true ->
  let page := js_or_default pq 1 in
  let limit := js_or_default lq 10 in
  getAllPost_nocache pq lq (mkPS d c r q) =
  (inr (if Z.ltb ((page - 1) * limit) 0 then mkResp 500 (BMsg false "Error fetching all post")
        else mkResp 200 (BList (list_result (db_posts d) page limit))), mkPS d c r q).
Proof.
  intros Hup page limit. unfold getAllPost_nocache. ex_simp. fold page limit.
  destruct (Z.ltb_spec ((page - 1) * limit) 0).
  - rewrite lift_db_run, find_page_neg by done. done.
  - rewrite lift_db_run, find_page_up by done. simpl.
    rewrite lift_db_run, count_documents_up by done. done.
Qed.

(** An operation that keeps the posts and every listing key keeps the
    invariant; so does one that leaves no listing key at all. *)
Lemma coherent_frame (s s' : PState C) :
  coherent s -> db_posts (ps_db s') = db_posts (ps_db s) ->
  (forall p l, cache_get (posts_key p l) (ps_cache s') = cache_get (posts_key p l) (ps_cache s)) ->
  coherent s'.
Proof. intros Hc Hd Hk p l v. rewrite Hk, Hd. apply Hc. Qed.

Lemma coherent_cleared (s : PState C) :
  (forall k, String.prefix "posts:" k = true -> cache_get k (ps_cache s) = None) -> coherent s.
Proof. intros Hk p l v. by rewrite Hk by apply posts_key_prefix. Qed.

Lemma coherent_setex_listing d (c : C) r q page limit :
  coherent (mkPS d c r q) -> (0 <= (page - 1) * limit)%Z ->
  coherent (mkPS d (cache_setex (posts_key page limit) 300
                     (CList (list_result (db_posts d) page limit)) c) r q).
Proof.
  intros Hc Hpos p l v. simpl. rewrite cache_get_setex. case_decide as Heq.
  - apply posts_key_inj in Heq as [-> ->]. intros [= <-]. done.
  - apply (Hc p l v).
Qed.

Lemma list_result_append_ne ps p page limit :
  list_result ps page limit <> list_result (ps ++ [p]) page limit.
Proof. intros Heq. apply (f_equal lr_totalPost) in Heq. simpl in Heq. rewrite length_app in Heq. simpl in Heq. lia. Qed.

(** A post appended under a cached listing of a coherent state, the cache
    left as it was: the listing is stale. *)
Lemma append_stale (s s' : PState C) p page limit v :
  coherent s -> cache_get (posts_key page limit) (ps_cache s) = Some v ->
  ps_cache s' = ps_cache s -> db_posts (ps_db s') = db_posts (ps_db s) ++ [p] -> ~ coherent s'.
Proof.
  intros Hc Hg Hcs Hd Hc'. destruct (Hc _ _ _ Hg) as [_ ->]. rewrite <- Hcs in Hg.
  destruct (Hc' _ _ _ Hg) as [_ Heq]. rewrite Hd in Heq.
  apply (list_result_append_ne (db_posts (ps_db s)) p page limit). congruence.
Qed.

End Listing.

#[export] Hint Resolve coherent_cleared coherent_setex_listing : sm.

(** ** What each handler does to the state *)

Section Effects.
Context {C : Type} `{CacheStoreLaws CacheVal C}.

(** With Redis up and a working broker client, [createPostController]
    either changes neither the posts, the cache nor the broker client, or
    appends the new post, with the id the store issues next, leaves the
    cache invalidated for it, and routes its [post.created] event, the
    client staying ready; the id counter never goes back. *)
Lemma createPost_effect d (c : C) q user data :
  publish_ready q ->
  let s' := snd (createPostController user data (mkPS d c true q)) in
  (db_next d <= db_next (ps_db s'))%N /\
  ((db_posts (ps_db s') = db_posts d /\ ps_cache s' = c /\ ps_mq s' = q) \/
   (exists p, post_id p = oid_of (db_next d) /\ db_next (ps_db s') = N.succ (db_next d) /\
      db_posts (ps_db s') = db_posts d ++ [p] /\ ps_cache s' = invalidated (post_id p) c /\
      br_queues (mq_broker (ps_mq s')) =
        route (mkMessage EXCHANGE_NAME "post.created" (created_payload p)) (br_queues (mq_broker q)) /\
      publish_ready (ps_mq s'))).
Proof.
  intros Hready s'. subst s'.
  unfold createPostController, createPost_try, ex_catch.
  destruct (validateCreatePost data); [split; [simpl; lia|by left]|].
  unfold mbind, ex_bind. rewrite lift_db_run. cbn [fst snd new_post_id].
  rewrite lift_db_run.
  destruct (save _ _ _ _ _) as [r d'] eqn:Hs. cbn [fst snd].
  apply save_effect in Hs as [[e [-> ->]]|[ms' [_ [_ [-> ->]]]]]; [split; [simpl; lia|by left]|].
  cbn [db_now db_next db_posts db_up set_posts].
  destruct (publishEvent_ready q "post.created" (created_payload (mkPost (oid_of (db_next d))
    user (default "" (jstring (jget "content" data))) ms' (db_now d))) Hready) as [q' [Hp [Hqs Hr]]].
  rewrite lift_mq_run, Hp. cbn [fst snd].
  rewrite invalidatePostCache_up. split; [simpl; lia|]. right.
  exists (mkPost (oid_of (db_next d)) user (default "" (jstring (jget "content" data))) ms' (db_now d)).
  by repeat split.
Qed.

(** Likewise for [deletePostController]: nothing changes, or the post with
    the cast id goes, the cache is invalidated for the requested id, and
    its [post.deleted] event is routed; the id counter stays. *)
Lemma deletePost_effect d (c : C) q user id :
  publish_ready q ->
  let s' := snd (deletePostController user id (mkPS d c true q)) in
  db_next (ps_db s') = db_next d /\
  ((db_posts (ps_db s') = db_posts d /\ ps_cache s' = c /\ ps_mq s' = q) \/
   (exists oid p, find_post oid (db_posts d) = Some p /\
      db_posts (ps_db s') = remove_post oid (db_posts d) /\ ps_cache s' = invalidated id c /\
      br_queues (mq_broker (ps_mq s')) =
        route (mkMessage EXCHANGE_NAME "post.deleted" (deleted_payload p user)) (br_queues (mq_broker q)) /\
      publish_ready (ps_mq s'))).
Proof.
  intros Hready s'. subst s'.
  unfold deletePostController, deletePost_try, ex_catch, mbind, ex_bind.
  rewrite lift_db_run.
  destruct (find_by_id_and_delete _ d) as [r d'] eqn:Hf. cbn [fst snd].
  apply find_by_id_and_delete_effect in Hf
    as [[-> ->]|[[e [-> ->]]|[oid [p [_ [Hfp [-> ->]]]]]]]; [by split; [|left]|by split; [|left]|].
  cbn [db_posts set_posts].
  destruct (publishEvent_ready q "post.deleted" (deleted_payload p user) Hready) as [q' [Hp [Hqs Hr]]].
  rewrite lift_mq_run, Hp. cbn [fst snd].
  rewrite invalidatePostCache_up. split; [done|]. right. by exists oid, p.
Qed.

(** [getPostController] changes nothing but, on a miss that finds the
    post, the cache entry under [js_null_key]. *)
Lemma getPost_effect d (c : C) r q id :
  let s' := snd (getPostController id (mkPS d c r q)) in
  ps_db s' = d /\ ps_redis_up s' = r /\ ps_mq s' = q /\
  (ps_cache s' = c \/ exists p, ps_cache s' = cache_setex js_null_key 3600 (CPost p) c).
Proof.
  intros s'. subst s'.
  unfold getPostController, getPost_try, ex_catch, redis_get, mbind, ex_bind.
  destruct r; [rewrite redis_cmd_up|rewrite redis_cmd_down; cbn; by repeat split; left].
  cbn [fst snd].
  destruct (cache_get (post_key id) c); [by repeat split; left|].
  rewrite lift_db_run. destruct (find_by_id id d) as [[e|[p|]] d'] eqn:Hf;
    apply find_by_id_effect in Hf as ->; cbn; [by repeat split; left| |by repeat split; left].
  unfold redis_setex. rewrite redis_cmd_up. repeat split. right. by exists p.
Qed.

End Effects.

(** ** The post service as a transition system *)

Section Steps.
Context {C : Type} `{CacheStoreLaws CacheVal C}.

Definition set_db_up (b : bool) (d : PostDB) : PostDB :=
  mkDB (db_posts d) (db_next d) (db_now d) b.
Definition tick (d : PostDB) : PostDB :=
  mkDB (db_posts d) (db_next d) (Z.succ (db_now d)) (db_up d).

(** Requests, in any order, and the environment: Redis evicting or
    expiring keys, Redis, Mongo and the broker going down and up, the
    clock, consumers taking messages.  A write request is taken when Redis
    answers and the broker client can publish ([healthy]); [create_stale]
    shows what happens otherwise. *)
Definition healthy (s : PState C) : Prop :=
  ps_redis_up s = true /\ publish_ready (ps_mq s).

Inductive ps_step : PState C -> PState C -> Prop :=
| step_create user data s :
    healthy s -> ps_step s (snd (createPostController user data s))
| step_delete user id s :
    healthy s -> ps_step s (snd (deletePostController user id s))
| step_getAll pq lq s : ps_step s (snd (getAllPostController pq lq s))
| step_getPost id s : ps_step s (snd (getPostController id s))
| step_evict ks s :
    ps_step s (mkPS (ps_db s) (cache_del ks (ps_cache s)) (ps_redis_up s) (ps_mq s))
| step_redis b s : ps_step s (mkPS (ps_db s) (ps_cache s) b (ps_mq s))
| step_mongo b s : ps_step s (mkPS (set_db_up b (ps_db s)) (ps_cache s) (ps_redis_up s) (ps_mq s))
| step_tick s : ps_step s (mkPS (tick (ps_db s)) (ps_cache s) (ps_redis_up s) (ps_mq s))
| step_crash s :
    ps_step s (mkPS (ps_db s) (ps_cache s) (ps_redis_up s)
                 (mkMq (mq_client (ps_mq s)) (broker_crash (mq_broker (ps_mq s)))))
| step_restart s :
    ps_step s (mkPS (ps_db s) (ps_cache s) (ps_redis_up s)
                 (mkMq (mq_client (ps_mq s)) (broker_restart (mq_broker (ps_mq s)))))
| step_consume qn m b' s :
    Registry.deliver qn (mq_broker (ps_mq s)) = Some (m, b') ->
    ps_step s (mkPS (ps_db s) (ps_cache s) (ps_redis_up s) (mkMq (mq_client (ps_mq s)) b')).

Lemma getAll_preserves_coherent (s : PState C) pq lq :
  coherent s -> coherent (snd (getAllPostController pq lq s)).
Proof.
  destruct s as [d c [] q]; intros Hc.
  - unfold getAllPostController, ex_catch.
    destruct (db_up d) eqn:Hup.
    + rewrite getAllPost_try_up by done.
      destruct (cache_get _ c); [done|].
      destruct (Z.ltb_spec ((js_or_default pq 1 - 1) * js_or_default lq 10) 0); [done|].
      by apply coherent_setex_listing.
    + pose proof (getAllPost_try_db_down d c q pq lq Hup) as Hs.
      destruct (getAllPost_try pq lq _) as [[e|r] s'']; simpl in *; by subst.
  - unfold getAllPostController, getAllPost_try, ex_catch, redis_get, mbind, ex_bind.
    by rewrite redis_cmd_down.
Qed.

Lemma ps_step_coherent (s s' : PState C) : ps_step s s' -> coherent s -> coherent s'.
Proof.
  intros Hstep Hc. destruct Hstep as [user data s [Hr Hq]|user id s [Hr Hq]|pq lq s|id s
    |ks s|b s|b s|s|s|s|qn m b' s Hd].
  - destruct s as [d c r q]; simpl in Hr; subst r.
    destruct (createPost_effect d c q user data Hq) as [_ [[Hd [Hcache _]]|[p [_ [_ [Hd [Hcache _]]]]]]].
    + apply (coherent_frame _ _ Hc); by rewrite ?Hd, ?Hcache.
    + apply coherent_cleared. rewrite Hcache. intros k Hk. by apply invalidated_posts.
  - destruct s as [d c r q]; simpl in Hr; subst r.
    destruct (deletePost_effect d c q user id Hq) as [_ [[Hd [Hcache _]]|[oid [p [_ [Hd [Hcache _]]]]]]].
    + apply (coherent_frame _ _ Hc); by rewrite ?Hd, ?Hcache.
    + apply coherent_cleared. rewrite Hcache. intros k Hk. by apply invalidated_posts.
  - by apply getAll_preserves_coherent.
  - destruct s as [d c r q].
    destruct (getPost_effect d c r q id) as [Hd [_ [_ [Hcache|[p Hcache]]]]];
      apply (coherent_frame _ _ Hc); rewrite ?Hd; try done; intros p' l'; rewrite Hcache; try done.
    by apply cache_get_setex_ne.
  - intros p l v. simpl. rewrite cache_get_del. case_decide; [done|]. apply Hc.
  - exact Hc.
  - exact Hc.
  - exact Hc.
  - exact Hc.
  - exact Hc.
  - exact Hc.
Qed.

End Steps.

Section Validation.

(** ** Validation *)

(** The body Joi accepts, as a proposition. *)
Definition valid_create_body (data : json) : Prop :=
  (exists fs, data = JObj fs) /\
  (exists c, jget "content" data = Some (JStr c) /\
     3 <= String.length c <= 5000) /\
  (jget "mediaIds" data = None \/ exists l, jget "mediaIds" data = Some (JArr l)) /\
  Forall (fun k => k = "content" \/ k = "mediaIds") (jkeys data).

Lemma filter_unknown_nil (ks : list string) :
  filter (fun k => k <> "content" /\ k <> "mediaIds") ks = [] <->
  Forall (fun k => k = "content" \/ k = "mediaIds") ks.
Proof.
  induction ks as [|k ks IH]; [split; constructor|].
  rewrite filter_cons, Forall_cons. case_decide as Hk.
  - split; [done|]. intros [Hk' _]. exfalso. destruct Hk as [H1 H2]. by destruct Hk'.
  - rewrite IH. split; [intros H'; split; [|done]|intros [_ H']; done].
    destruct (decide (k = "content")); [by left|].
    destruct (decide (k = "mediaIds")); [by right|]. by destruct Hk.
Qed.

Lemma validate_mediaIds_ok (data : json) :
  validate_mediaIds data = None <->
  (jget "mediaIds" data = None \/ exists l, jget "mediaIds" data = Some (JArr l)) /\
  Forall (fun k => k = "content" \/ k = "mediaIds") (jkeys data).
Proof.
  unfold validate_mediaIds. rewrite <- filter_unknown_nil.
  destruct (jget "mediaIds" data) as [j|] eqn:Hj;
    [destruct j; try (split; [done|intros [[?|[? ?]] _]; congruence])|];
    (destruct (filter _ _); split; [intros _; split; [by eauto|done]|intros [_ ?]; done|done|];
     intros [_ ?]; done).
Qed.


(** C11: [validateCreatePost] accepts a body exactly when it is an object
    whose [content] is a string of 3 to 5000 characters, whose [mediaIds]
    is absent or an array, and which has no other key. *)
Theorem validateCreatePost_spec (data : json) :
  validateCreatePost data = None <-> valid_create_body data.
Proof.
  unfold valid_create_body. destruct data as [| | | | |l|fs];
    try (split; [done|intros [[? ?] _]; done]).
  unfold validateCreatePost. rewrite <- validate_mediaIds_ok.
  destruct (jget "content" (JObj fs)) as [[]|] eqn:Hc;
    try (split; [done|intros [_ [[c [? _]] _]]; congruence]).
  destruct (Nat.eqb_spec (String.length s) 0); [split; [done|]; intros [_ [[c [[= <-] ?]] _]]; lia|].
  destruct (Nat.ltb_spec (String.length s) 3); [split; [done|]; intros [_ [[c [[= <-] ?]] _]]; lia|].
  destruct (Nat.ltb_spec 5000 (String.length s)); [split; [done|]; intros [_ [[c [[= <-] ?]] _]]; lia|].
  split.
  - intros Hm. split; [by eexists|]. split; [|done]. exists s. split; [done|lia].
  - by intros [_ [_ Hm]].
Qed.

End Validation.

(** ** Creating a post *)

Section Create.
Context {C : Type} `{CacheStoreLaws CacheVal C}.

Definition created_resp : Resp := mkResp 201 (BMsg true "Post created successfully").

Lemma validate_content (data : json) :
  validateCreatePost data = None ->
  exists c, jget "content" data = Some (JStr c) /\ 3 <= String.length c <= 5000.
Proof. intros Hv. apply validateCreatePost_spec in Hv as [_ [Hc _]]. exact Hc. Qed.

(** A valid body on a store that takes it: the post is saved with the
    next id and the clock, and the handler goes on to publish. *)
Lemma createPost_try_saved d (c : C) r q user data ms :
  db_up d = true -> valid_create_body data ->
  mapM cast_string (match jget "mediaIds" data with Some (JArr l) => l | _ => [] end) = Some ms ->
  existsb (fun p => String.eqb (post_id p) (oid_of (db_next d))) (db_posts d) = false ->
  let p := mkPost (oid_of (db_next d)) user (default "" (jstring (jget "content" data))) ms (db_now d) in
  createPost_try user data (mkPS d c r q) =
  (lift_mq (publishEvent "post.created" (created_payload p));;
   invalidatePostCache (post_id p);; mret created_resp)
    (mkPS (mkDB (db_posts d ++ [p]) (N.succ (db_next d)) (db_now d) (db_up d)) c r q).
Proof.
  intros Hup Hv Hms Hfresh p. apply validateCreatePost_spec in Hv.
  unfold createPost_try. rewrite Hv. unfold mbind, ex_bind. rewrite lift_db_run. cbn [fst snd new_post_id].
  rewrite lift_db_run, (save_ok _ _ _ _ ms) by done. reflexivity.
Qed.

(** A 201 from a healthy state: the post is stored, the cache is
    invalidated for it and the event is on its way. *)
Lemma createPost_201 d (c : C) q user data :
  publish_ready q ->
  fst (createPostController user data (mkPS d c true q)) = inr created_resp ->
  exists p q',
    snd (createPostController user data (mkPS d c true q)) =
      mkPS (mkDB (db_posts d ++ [p]) (N.succ (db_next d)) (db_now d) (db_up d))
        (invalidated (post_id p) c) true q' /\
    post_user p = user /\ jstring (jget "content" data) = Some (post_content p) /\
    db_up d = true.
Proof.
  intros Hready.
  unfold createPostController, createPost_try, ex_catch.
  destruct (validateCreatePost data) eqn:Hv; [done|].
  destruct (validate_content data Hv) as [content [Hc _]].
  unfold mbind, ex_bind. rewrite lift_db_run. cbn [fst snd new_post_id].
  rewrite lift_db_run.
  destruct (save _ _ _ _ _) as [r d'] eqn:Hs. cbn [fst snd].
  apply save_effect in Hs as [[e [-> ->]]|[ms' [_ [Hup [-> ->]]]]]; [done|].
  cbn [db_now db_next db_posts db_up set_posts].
  destruct (publishEvent_ready q "post.created" (created_payload (mkPost (oid_of (db_next d))
    user (default "" (jstring (jget "content" data))) ms' (db_now d))) Hready) as [q' [Hp _]].
  rewrite lift_mq_run, Hp. cbn [fst snd].
  rewrite invalidatePostCache_up. intros _.
  eexists _, q'. split; [done|]. rewrite Hc. simpl. by repeat split.
Qed.

(** C3: read your writes.  After [createPostController] answers 201, the
    next listing request is served from the store that holds the new post,
    whatever the cache held before. *)
Theorem read_your_writes (s : PState C) user data pq lq :
  healthy s ->
  fst (createPostController user data s) = inr created_resp ->
  let s' := snd (createPostController user data s) in
  let page := js_or_default pq 1 in
  let limit := js_or_default lq 10 in
  exists p,
    post_user p = user /\ jstring (jget "content" data) = Some (post_content p) /\
    db_posts (ps_db s') = db_posts (ps_db s) ++ [p] /\
    ((0 <= (page - 1) * limit)%Z ->
     fst (getAllPostController pq lq s') =
     inr (mkResp 200 (BList (list_result (db_posts (ps_db s) ++ [p]) page limit)))).
Proof.
  destruct s as [d c r q]. intros [Hr Hq] H201 s' page limit. simpl in Hr. subst r.
  destruct (createPost_201 d c q user data Hq H201) as [p [q' [Hs [Hu [Hc Hup]]]]].
  exists p. subst s'. rewrite Hs. simpl. repeat split; try done.
  intros Hpos. unfold getAllPostController, ex_catch.
  rewrite getAllPost_try_up by done. fold page limit.
  rewrite invalidated_posts by apply posts_key_prefix.
  by destruct (Z.ltb_spec ((page - 1) * limit) 0); [lia|].
Qed.

End Create.

(** ** The properties of the controller *)

Section Properties.
Context {C : Type} `{CacheStoreLaws CacheVal C}.

(** C1: the listing cache agrees with the store as long as every write
    is taken while Redis answers and the broker client can publish.  From
    a coherent state, every state reached by such writes ([createPost],
    [deletePost], each taken only in a [healthy] state), by reads at any
    time and by the environment (evictions, Redis, Mongo and broker outages
    and recoveries, broker crashes, the clock, consumers) is coherent.
    A write outside [healthy] breaks it: C4 (the publication throws) and
    C38 (Redis down) show how. *)
Theorem coherent_reachable (s0 s : PState C) :
  coherent s0 -> rtc ps_step s0 s -> coherent s.
Proof. intros Hc Hr. induction Hr; eauto using ps_step_coherent. Qed.

(** C2: cache transparency.  On a coherent state with Redis and Mongo up,
    [getAllPostController] answers exactly what the same controller without
    the cache ([getAllPost_nocache]) answers. *)
Theorem getAll_cache_transparent (s : PState C) pq lq :
  coherent s -> ps_redis_up s = true -> db_up (ps_db s) = true ->
  fst (getAllPostController pq lq s) = fst (getAllPost_nocache pq lq s).
Proof.
  destruct s as [d c r q]. simpl. intros Hc -> Hup.
  unfold getAllPostController, ex_catch.
  rewrite getAllPost_try_up, getAllPost_nocache_up by done.
  destruct (cache_get _ c) as [v|] eqn:Hv.
  - destruct (Hc _ _ _ Hv) as [Hpos ->]. simpl.
    by destruct (Z.ltb_spec ((js_or_default pq 1 - 1) * js_or_default lq 10) 0); [lia|].
  - by destruct (Z.ltb _ 0).
Qed.

(** C5: [invalidatePostCache id] with Redis up returns normally, deletes
    [post:<id>] and every key that starts with [posts:], keeps every
    other key, and touches neither the store nor the broker. *)
Theorem invalidatePostCache_spec (s : PState C) id :
  ps_redis_up s = true ->
  let r := invalidatePostCache id s in
  fst r = inr tt /\ ps_db (snd r) = ps_db s /\ ps_mq (snd r) = ps_mq s /\
  cache_get (post_key id) (ps_cache (snd r)) = None /\
  (forall k, String.prefix "posts:" k = true -> cache_get k (ps_cache (snd r)) = None) /\
  (forall k, k <> post_key id -> String.prefix "posts:" k = false ->
     cache_get k (ps_cache (snd r)) = cache_get k (ps_cache s)).
Proof.
  destruct s as [d c b q]. simpl. intros ->.
  rewrite invalidatePostCache_up. simpl.
  repeat split; eauto using invalidated_post_key, invalidated_posts, invalidated_other.
Qed.


(** No cache key of the single-post shape [post:<id>]. *)
Definition no_post_entries (s : PState C) : Prop :=
  forall k, String.prefix "post:" k = true -> cache_get k (ps_cache s) = None.

Lemma invalidated_none id (c : C) k :
  cache_get k c = None -> cache_get k (invalidated id c) = None.
Proof.
  intros Hk. unfold invalidated.
  destruct (cache_keys _ _); rewrite !cache_get_del; repeat case_decide; done.
Qed.

Lemma posts_key_not_post p l : String.prefix "post:" (posts_key p l) = false.
Proof. reflexivity. Qed.

Lemma getAll_cache_effect (s : PState C) pq lq :
  ps_cache (snd (getAllPostController pq lq s)) = ps_cache s \/
  exists v, ps_cache (snd (getAllPostController pq lq s)) =
    cache_setex (posts_key (js_or_default pq 1) (js_or_default lq 10)) 300 v (ps_cache s).
Proof.
  destruct s as [d c [] q].
  - unfold getAllPostController, ex_catch.
    destruct (db_up d) eqn:Hup.
    + rewrite getAllPost_try_up by done.
      destruct (cache_get _ c); [by left|].
      destruct (Z.ltb _ 0); [by left|]. right. by eexists.
    + pose proof (getAllPost_try_db_down d c q pq lq Hup) as Hs. left.
      destruct (getAllPost_try pq lq _) as [[e|r] s'']; simpl in *; by subst.
  - left. unfold getAllPostController, getAllPost_try, ex_catch, redis_get, mbind, ex_bind.
    by rewrite redis_cmd_down.
Qed.

Lemma ps_step_no_post_entries (s s' : PState C) :
  ps_step s s' -> no_post_entries s -> no_post_entries s'.
Proof.
  intros Hstep Hn k Hk. specialize (Hn k Hk).
  destruct Hstep as [user data s [Hr Hq]|user id s [Hr Hq]|pq lq s|id s
    |ks s|b s|b s|s|s|s|qn m b' s Hd]; try exact Hn.
  - destruct s as [d c r q]; simpl in Hr; subst r.
    destruct (createPost_effect d c q user data Hq) as [_ [[_ [-> _]]|[p [_ [_ [_ [-> _]]]]]]];
      [done|by apply invalidated_none].
  - destruct s as [d c r q]; simpl in Hr; subst r.
    destruct (deletePost_effect d c q user id Hq) as [_ [[_ [-> _]]|[oid [p [_ [_ [-> _]]]]]]];
      [done|by apply invalidated_none].
  - destruct (getAll_cache_effect s pq lq) as [->|[v ->]]; [done|].
    rewrite cache_get_setex_ne; [done|]. intros <-. by rewrite posts_key_not_post in Hk.
  - destruct s as [d c r q].
    destruct (getPost_effect d c r q id) as [_ [_ [_ [->|[p ->]]]]]; [done|].
    rewrite cache_get_setex_ne; [done|]. intros <-. done.
  - simpl. rewrite cache_get_del. by case_decide.
Qed.

(** C6: the single-post cache never hits.  [getPostController] stores the
    post under its variable [cachedPost], which is [null] on a miss, not
    under [cachekey]: from a cache with no [post:<id>] key, no reachable
    state has one, so every [getPost] goes to the store. *)
Theorem getPost_cache_never_hits (s0 s : PState C) id :
  no_post_entries s0 -> rtc ps_step s0 s -> cache_get (post_key id) (ps_cache s) = None.
Proof.
  intros Hn Hr. induction Hr as [s|s1 s2 s3 Hs _ IH]; [|apply IH; by eapply ps_step_no_post_entries].
  apply Hn, prefix_app.
Qed.

(** C7: [deletePostController] does not check the owner.  The filter
    [{ _id: postId, user: userId }] is passed to [findByIdAndDelete], which
    casts it to its [_id] alone: a user deletes a post of another user. *)
Theorem deletePost_ignores_owner (s : PState C) user id p :
  healthy s -> db_up (ps_db s) = true -> cast_oid id = Some (post_id p) ->
  find_post (post_id p) (db_posts (ps_db s)) = Some p -> post_user p <> user ->
  fst (deletePostController user id s) = inr (mkResp 200 (BMsg true "Post deleted successfully")) /\
  db_posts (ps_db (snd (deletePostController user id s))) =
    remove_post (post_id p) (db_posts (ps_db s)).
Proof.
  destruct s as [d c r q]. intros [Hr Hq] Hup Hid Hf _. simpl in *. subst r.
  unfold deletePostController, deletePost_try, ex_catch, mbind, ex_bind.
  rewrite lift_db_run, (find_by_id_and_delete_hit _ (post_id p) p) by (simpl; done).
  cbn [fst snd db_posts set_posts].
  destruct (publishEvent_ready q "post.deleted" (deleted_payload p user) Hq) as [q' [Hp _]].
  rewrite lift_mq_run, Hp. cbn [fst snd]. by rewrite invalidatePostCache_up.
Qed.

(** C8: on a healthy state, a valid body whose [mediaIds] cast and a fresh
    id, [createPostController] answers 201, appends the post stamped with
    the clock, and routes one [post.created] event with the post's fields to
    every queue bound to it. *)
Theorem createPost_success (s : PState C) user data ms :
  healthy s -> db_up (ps_db s) = true -> valid_create_body data ->
  mapM cast_string (match jget "mediaIds" data with Some (JArr l) => l | _ => [] end) = Some ms ->
  existsb (fun p => String.eqb (post_id p) (oid_of (db_next (ps_db s)))) (db_posts (ps_db s)) = false ->
  let p := mkPost (oid_of (db_next (ps_db s))) user (default "" (jstring (jget "content" data)))
             ms (db_now (ps_db s)) in
  fst (createPostController user data s) = inr created_resp /\
  db_posts (ps_db (snd (createPostController user data s))) = db_posts (ps_db s) ++ [p] /\
  br_queues (mq_broker (ps_mq (snd (createPostController user data s)))) =
    route (mkMessage EXCHANGE_NAME "post.created" (created_payload p)) (br_queues (mq_broker (ps_mq s))).
Proof.
  destruct s as [d c r q]. intros [Hr Hq] Hup Hv Hms Hfresh p. simpl in *. subst r.
  apply validateCreatePost_spec in Hv.
  unfold createPostController, createPost_try, ex_catch. rewrite Hv.
  unfold mbind, ex_bind. rewrite lift_db_run. cbn [fst snd new_post_id].
  rewrite lift_db_run, (save_ok _ _ _ _ ms) by done. cbn [fst snd db_now db_next db_posts db_up set_posts].
  subst p. destruct (publishEvent_ready q "post.created" (created_payload (mkPost (oid_of (db_next d))
    user (default "" (jstring (jget "content" data))) ms (db_now d))) Hq) as [q' [Hp [Hqs _]]].
  rewrite lift_mq_run, Hp. cbn [fst snd]. by rewrite invalidatePostCache_up.
Qed.

(** C4: a lost event leaves the listings stale.  [createPostController]
    publishes before it invalidates.  When the publication throws (the
    channel variable holds a channel the broker closed, or there is none
    and the broker refuses connections), the handler answers 500 although
    the post is saved, the cache is left as it was, every listing cached
    before is served afterwards without the new post, and the listing
    cache no longer agrees with the store. *)
Theorem create_stale_listing (s : PState C) user data ms pq lq v :
  ps_redis_up s = true -> publish_fails (ps_mq s) -> db_up (ps_db s) = true -> valid_create_body data ->
  mapM cast_string (match jget "mediaIds" data with Some (JArr l) => l | _ => [] end) = Some ms ->
  existsb (fun p => String.eqb (post_id p) (oid_of (db_next (ps_db s)))) (db_posts (ps_db s)) = false ->
  coherent s -> cache_get (posts_key (js_or_default pq 1) (js_or_default lq 10)) (ps_cache s) = Some v ->
  let p := mkPost (oid_of (db_next (ps_db s))) user (default "" (jstring (jget "content" data)))
             ms (db_now (ps_db s)) in
  let s' := snd (createPostController user data s) in
  fst (createPostController user data s) = inr (mkResp 500 (BMsg false "Error creating post")) /\
  db_posts (ps_db s') = db_posts (ps_db s) ++ [p] /\ ps_cache s' = ps_cache s /\
  fst (getAllPostController pq lq s') =
    inr (mkResp 200 (BList (list_result (db_posts (ps_db s)) (js_or_default pq 1) (js_or_default lq 10)))) /\
  ~ coherent s'.
Proof.
  destruct s as [d c r q]. intros Hr Hfail Hup Hv Hms Hfresh Hc Hg p s'. simpl in Hr, Hfail, Hup, Hfresh, Hc, Hg, p. subst r.
  assert (Hs : createPostController user data (mkPS d c true q) =
    (inr (mkResp 500 (BMsg false "Error creating post")),
     mkPS (mkDB (db_posts d ++ [p]) (N.succ (db_next d)) (db_now d) (db_up d)) c true q)).
  { unfold createPostController, ex_catch. rewrite (createPost_try_saved d c true q user data ms) by done. fold p.
    destruct (publishEvent_fails q "post.created" (created_payload p) Hfail) as [e He].
    unfold mbind, ex_bind. by rewrite lift_mq_run, He. }
  subst s'. rewrite Hs. cbn [fst snd ps_db ps_cache db_posts]. repeat split; try done.
  - destruct (Hc _ _ _ Hg) as [Hpos ->]. unfold getAllPostController, ex_catch.
    rewrite getAllPost_try_up by done. by rewrite Hg.
  - apply (append_stale (mkPS d c true q) _ p _ _ v Hc Hg); done.
Qed.

(** C10: the page a listing request is served.  On a cache miss with
    Redis and Mongo up, a non-negative offset and a positive limit,
    [getAllPostController] answers, and caches under
    [posts:<page>:<limit>], the posts of the store sorted newest first
    ([createdAt] descending), from position [(page - 1) * limit] on, at
    most [limit] of them, with the page number, the total [n] and the page
    count [ceil(n / limit)]. *)
Theorem getAllPost_page (s : PState C) pq lq :
  let page := js_or_default pq 1 in
  let limit := js_or_default lq 10 in
  ps_redis_up s = true -> db_up (ps_db s) = true ->
  cache_get (posts_key page limit) (ps_cache s) = None ->
  (0 <= (page - 1) * limit)%Z -> (0 < limit)%Z ->
  let n := Z.of_nat (length (db_posts (ps_db s))) in
  exists sorted r,
    fst (getAllPostController pq lq s) = inr (mkResp 200 (BList r)) /\
    cache_get (posts_key page limit) (ps_cache (snd (getAllPostController pq lq s))) = Some (CList r) /\
    sorted ≡ₚ db_posts (ps_db s) /\ StronglySorted StoreSort.newer_first sorted /\
    lr_posts r = take (Z.to_nat limit) (drop (Z.to_nat ((page - 1) * limit)) sorted) /\
    lr_currentPage r = page /\ lr_totalPost r = n /\
    (limit * (lr_totalPages r - 1) < n <= limit * lr_totalPages r)%Z.
Proof.
  destruct s as [d c rup q]. intros page limit Hr Hup Hmiss Hpos Hl n. simpl in *. subst rup.
  unfold getAllPostController, ex_catch. rewrite getAllPost_try_up by done. fold page limit.
  rewrite Hmiss. destruct (Z.ltb_spec ((page - 1) * limit) 0); [lia|].
  exists (sort_desc (db_posts d)), (list_result (db_posts d) page limit). cbn [fst snd ps_cache].
  rewrite cache_get_setex, decide_True by done.
  split; [done|split; [done|split; [apply StoreSort.sort_desc_perm|split; [apply StoreSort.sort_desc_sorted|]]]].
  unfold list_result, page_of. cbn [lr_posts lr_currentPage lr_totalPost lr_totalPages].
  destruct (Z.eqb_spec limit 0); [lia|]. rewrite Z.abs_eq by lia.
  split; [done|split; [done|split; [done|]]]. by apply js_ceil_div_spec.
Qed.

(** C38: a write during a Redis outage.  [createPostController] first
    awaits Redis in [invalidatePostCache], after it has saved the post and
    published [post.created]: with Redis down it answers 500 although the
    post is stored and its event routed, the cache keeps every listing,
    and once Redis answers again a listing cached before is served without
    the new post, the listing cache disagreeing with the store. *)
Theorem create_during_redis_outage (s : PState C) user data ms pq lq v :
  ps_redis_up s = false -> publish_ready (ps_mq s) -> db_up (ps_db s) = true -> valid_create_body data ->
  mapM cast_string (match jget "mediaIds" data with Some (JArr l) => l | _ => [] end) = Some ms ->
  existsb (fun p => String.eqb (post_id p) (oid_of (db_next (ps_db s)))) (db_posts (ps_db s)) = false ->
  coherent s -> cache_get (posts_key (js_or_default pq 1) (js_or_default lq 10)) (ps_cache s) = Some v ->
  let p := mkPost (oid_of (db_next (ps_db s))) user (default "" (jstring (jget "content" data)))
             ms (db_now (ps_db s)) in
  let s' := snd (createPostController user data s) in
  let back := mkPS (ps_db s') (ps_cache s') true (ps_mq s') in
  fst (createPostController user data s) = inr (mkResp 500 (BMsg false "Error creating post")) /\
  db_posts (ps_db s') = db_posts (ps_db s) ++ [p] /\
  br_queues (mq_broker (ps_mq s')) =
    route (mkMessage EXCHANGE_NAME "post.created" (created_payload p)) (br_queues (mq_broker (ps_mq s))) /\
  ps_cache s' = ps_cache s /\
  fst (getAllPostController pq lq back) =
    inr (mkResp 200 (BList (list_result (db_posts (ps_db s)) (js_or_default pq 1) (js_or_default lq 10)))) /\
  ~ coherent back.
Proof.
  destruct s as [d c r q]. intros Hr Hq Hup Hv Hms Hfresh Hc Hg p s' back. simpl in Hr, Hq, Hup, Hfresh, Hc, Hg, p. subst r.
  destruct (publishEvent_ready q "post.created" (created_payload p) Hq) as [q' [Hp [Hqs _]]].
  assert (Hs : createPostController user data (mkPS d c false q) =
    (inr (mkResp 500 (BMsg false "Error creating post")),
     mkPS (mkDB (db_posts d ++ [p]) (N.succ (db_next d)) (db_now d) (db_up d)) c false q')).
  { unfold createPostController, ex_catch. rewrite (createPost_try_saved d c false q user data ms) by done. fold p.
    unfold mbind, ex_bind. rewrite lift_mq_run, Hp. cbn [fst snd]. by rewrite invalidatePostCache_down. }
  subst back s'. rewrite Hs. cbn [fst snd ps_db ps_cache ps_mq db_posts]. repeat split; try done.
  - destruct (Hc _ _ _ Hg) as [Hpos ->]. unfold getAllPostController, ex_catch.
    rewrite getAllPost_try_up by done. by rewrite Hg.
  - apply (append_stale (mkPS d c false q) _ p _ _ v Hc Hg); done.
Qed.

(** C9: a Redis outage fails the reads.  The spec asks that cache errors
    fall through to the store; the controller awaits [redis.get] inside its
    [try], so both read endpoints answer 500. *)
Theorem reads_fail_without_redis (s : PState C) pq lq id :
  ps_redis_up s = false ->
  fst (getAllPostController pq lq s) = inr (mkResp 500 (BMsg false "Error fetching all post")) /\
  fst (getPostController id s) = inr (mkResp 500 (BMsg false "Error fetching post by ID")).
Proof.
  destruct s as [d c r q]. simpl. intros ->.
  unfold getAllPostController, getAllPost_try, getPostController, getPost_try, ex_catch,
    redis_get, mbind, ex_bind.
  by rewrite !redis_cmd_down.
Qed.

End Properties.

(** ** Concrete runs on the Redis implementation *)

Module Runs.

Abbreviation RS := (PState (RedisDb CacheVal)).

Definition broker0 : broker := mkBroker true ∅ ∅ ∅ 0.
Definition db0 : PostDB := mkDB [] 0 1000 true.
Definition st0 : RS := mkPS db0 redis_empty true (mkMq client_init broker0).
Definition body_hello : json := JObj [("content", JStr "hello world")].
Definition body_second : json := JObj [("content", JStr "second post")].

(** One post created, then the first page listed (and cached). *)
Definition st1 : RS := snd (createPostController "u1" body_hello st0).
Definition st2 : RS := snd (getAllPostController None None st1).

Definition post1 : Post := mkPost (oid_of 0) "u1" "hello world" [] 1000.

(** The broker restarted under the client: the channel variable still
    holds channel 1, which is closed. *)
Definition st_dead : RS :=
  mkPS (ps_db st2) (ps_cache st2) true
    (mkMq (mq_client (ps_mq st2)) (set_open ∅ (mq_broker (ps_mq st2)))).

Lemma coherent_empty d r q : coherent (mkPS d (redis_empty : RedisDb CacheVal) r q).
Proof. intros p l v. simpl. by rewrite lookup_empty. Qed.

Lemma no_post_entries_empty d r q : no_post_entries (mkPS d (redis_empty : RedisDb CacheVal) r q).
Proof. intros k _. simpl. by rewrite lookup_empty. Qed.

Lemma healthy_st0 : healthy st0.
Proof. split; [reflexivity|]. split; [reflexivity|by left]. Qed.

Lemma healthy_st1 : healthy st1.
Proof. split; [reflexivity|]. vm_compute. split; [set_solver|by eexists]. Qed.

Lemma st1_step : ps_step st0 st1.
Proof. apply step_create, healthy_st0. Qed.

Lemma coherent_st2 : coherent st2.
Proof.
  apply (ps_step_coherent st1); [apply step_getAll|].
  apply (ps_step_coherent st0); [apply st1_step|apply coherent_empty].
Qed.

Lemma coherent_st_dead : coherent st_dead.
Proof. apply (coherent_frame st2); [apply coherent_st2|done|done]. Qed.

Definition st_down : RS := mkPS (ps_db st2) (ps_cache st2) false (ps_mq st2).

Lemma valid_body_second : valid_create_body body_second.
Proof.
  split; [by eexists|]. split; [exists "second post"; split; [reflexivity|simpl; lia]|].
  split; [by left|]. repeat constructor.
Qed.

Lemma create_stale_listing_witness :
  let p := mkPost (oid_of (db_next (ps_db st_dead))) "u1"
             (default "" (jstring (jget "content" body_second))) [] (db_now (ps_db st_dead)) in
  let s' := snd (createPostController "u1" body_second st_dead) in
  fst (createPostController "u1" body_second st_dead) = inr (mkResp 500 (BMsg false "Error creating post")) /\
  db_posts (ps_db s') = db_posts (ps_db st_dead) ++ [p] /\ ps_cache s' = ps_cache st_dead /\
  fst (getAllPostController None None s') =
    inr (mkResp 200 (BList (list_result (db_posts (ps_db st_dead)) (js_or_default None 1) (js_or_default None 10)))) /\
  ~ coherent s'.
Proof.
  apply (create_stale_listing st_dead "u1" body_second [] None None (CList (list_result [post1] 1 10)));
    [reflexivity| |reflexivity|apply valid_body_second|reflexivity|vm_compute; reflexivity
    |apply coherent_st_dead|vm_compute; reflexivity].
  left. exists 1%nat. split; [reflexivity|set_solver].
Defined.

Lemma getAllPost_page_witness :
  let page := js_or_default None 1 in
  let limit := js_or_default None 10 in
  let n := Z.of_nat (length (db_posts (ps_db st1))) in
  exists sorted r,
    fst (getAllPostController None None st1) = inr (mkResp 200 (BList r)) /\
    cache_get (posts_key page limit) (ps_cache (snd (getAllPostController None None st1))) = Some (CList r) /\
    sorted ≡ₚ db_posts (ps_db st1) /\ StronglySorted StoreSort.newer_first sorted /\
    lr_posts r = take (Z.to_nat limit) (drop (Z.to_nat ((page - 1) * limit)) sorted) /\
    lr_currentPage r = page /\ lr_totalPost r = n /\
    (limit * (lr_totalPages r - 1) < n <= limit * lr_totalPages r)%Z.
Proof.
  apply (getAllPost_page st1 None None); [reflexivity|reflexivity|vm_compute; reflexivity|simpl; lia|simpl; lia].
Defined.

Lemma create_during_redis_outage_witness :
  let p := mkPost (oid_of (db_next (ps_db st_down))) "u1"
             (default "" (jstring (jget "content" body_second))) [] (db_now (ps_db st_down)) in
  let s' := snd (createPostController "u1" body_second st_down) in
  let back := mkPS (ps_db s') (ps_cache s') true (ps_mq s') in
  fst (createPostController "u1" body_second st_down) = inr (mkResp 500 (BMsg false "Error creating post")) /\
  db_posts (ps_db s') = db_posts (ps_db st_down) ++ [p] /\
  br_queues (mq_broker (ps_mq s')) =
    route (mkMessage EXCHANGE_NAME "post.created" (created_payload p)) (br_queues (mq_broker (ps_mq st_down))) /\
  ps_cache s' = ps_cache st_down /\
  fst (getAllPostController None None back) =
    inr (mkResp 200 (BList (list_result (db_posts (ps_db st_down)) (js_or_default None 1) (js_or_default None 10)))) /\
  ~ coherent back.
Proof.
  apply (create_during_redis_outage st_down "u1" body_second [] None None (CList (list_result [post1] 1 10)));
    [reflexivity| |reflexivity|apply valid_body_second|reflexivity|vm_compute; reflexivity
    | |vm_compute; reflexivity].
  - vm_compute. split; [set_solver|by eexists].
  - apply (coherent_frame st2); [apply coherent_st2|done|done].
Defined.

Lemma coherent_reachable_witness : coherent st2.
Proof.
  apply (coherent_reachable st0 st2); [apply coherent_empty|].
  eapply rtc_l; [apply st1_step|]. apply rtc_once, step_getAll.
Defined.

Lemma getAll_cache_transparent_witness :
  fst (getAllPostController None None st2) = fst (getAllPost_nocache None None st2).
Proof. apply getAll_cache_transparent; [apply coherent_st2|reflexivity|reflexivity]. Defined.

Lemma read_your_writes_witness :
  let s' := snd (createPostController "u1" body_hello st0) in
  exists p,
    post_user p = "u1" /\ jstring (jget "content" body_hello) = Some (post_content p) /\
    db_posts (ps_db s') = db_posts (ps_db st0) ++ [p] /\
    ((0 <= (js_or_default None 1 - 1) * js_or_default None 10)%Z ->
     fst (getAllPostController None None s') =
     inr (mkResp 200 (BList (list_result (db_posts (ps_db st0) ++ [p])
                                (js_or_default None 1) (js_or_default None 10))))).
Proof. apply read_your_writes; [apply healthy_st0|vm_compute; reflexivity]. Defined.

Lemma invalidatePostCache_spec_witness :
  let r := invalidatePostCache (oid_of 0) st2 in
  fst r = inr tt /\ ps_db (snd r) = ps_db st2 /\ ps_mq (snd r) = ps_mq st2 /\
  cache_get (post_key (oid_of 0)) (ps_cache (snd r)) = None /\
  (forall k, String.prefix "posts:" k = true -> cache_get k (ps_cache (snd r)) = None) /\
  (forall k, k <> post_key (oid_of 0) -> String.prefix "posts:" k = false ->
     cache_get k (ps_cache (snd r)) = cache_get k (ps_cache st2)).
Proof. apply invalidatePostCache_spec. reflexivity. Defined.

Lemma getPost_cache_never_hits_witness :
  cache_get (post_key (oid_of 0)) (ps_cache (snd (getPostController (oid_of 0) st1))) = None.
Proof.
  apply (getPost_cache_never_hits st0); [apply no_post_entries_empty|].
  eapply rtc_l; [apply st1_step|]. apply rtc_once, step_getPost.
Defined.

Lemma deletePost_ignores_owner_witness :
  fst (deletePostController "u2" (oid_of 0) st1) =
    inr (mkResp 200 (BMsg true "Post deleted successfully")) /\
  db_posts (ps_db (snd (deletePostController "u2" (oid_of 0) st1))) =
    remove_post (post_id post1) (db_posts (ps_db st1)).
Proof.
  apply deletePost_ignores_owner;
    [apply healthy_st1|reflexivity|reflexivity|vm_compute; reflexivity|discriminate].
Defined.

Lemma createPost_success_witness :
  let p := mkPost (oid_of (db_next (ps_db st0))) "u1"
             (default "" (jstring (jget "content" body_hello))) [] (db_now (ps_db st0)) in
  fst (createPostController "u1" body_hello st0) = inr created_resp /\
  db_posts (ps_db (snd (createPostController "u1" body_hello st0))) = db_posts (ps_db st0) ++ [p] /\
  br_queues (mq_broker (ps_mq (snd (createPostController "u1" body_hello st0)))) =
    route (mkMessage EXCHANGE_NAME "post.created" (created_payload p))
      (br_queues (mq_broker (ps_mq st0))).
Proof.
  apply createPost_success; [apply healthy_st0|reflexivity| |reflexivity|reflexivity].
  split; [by eexists|]. split; [exists "hello world"; split; [reflexivity|simpl; lia]|].
  split; [by left|]. repeat constructor.
Defined.

Lemma reads_fail_without_redis_witness :
  let s := mkPS db0 (redis_empty : RedisDb CacheVal) false (mkMq client_init broker0) in
  fst (getAllPostController None None s) = inr (mkResp 500 (BMsg false "Error fetching all post")) /\
  fst (getPostController (oid_of 0) s) = inr (mkResp 500 (BMsg false "Error fetching post by ID")).
Proof. apply reads_fail_without_redis. reflexivity. Defined.

End Runs.
