(* ===== verification/Interleave.v ===== *)
(** Interleaved requests of the post service.

    Node.js runs one handler at a time between [await]s: each awaited call
    to Mongo, Redis or the broker is one atomic step on the shared
    services, and another request may run between two of them.  A
    [Thread] is a handler cut at its awaits: [TStep f k] is one atomic
    step ([f] its effect on the state, [k] what runs next, both from the
    state it starts in), [TDone r] the handler's outcome.  Threads are a
    monad ([≫=] of stdpp), and [atomic m] makes one awaited call of an
    [Ex] computation a step.

    [getAllPost_thread] and [createPost_thread] are [getAllPostController]
    and [createPostController] written with one [atomic] per [await] of
    [post-controller.js]; [run_thread] runs a thread alone, and the
    refinement theorem shows it gives back the handler.  [interleave] runs
    two threads on one state along a schedule.

    Theorems: run alone, each thread is its handler; and, from any state
    where the services work and the requested listing is not cached, the
    interleaving [race] of a listing read with a create (the read's store
    queries before the create, its cache write after) answers 201 to the
    create and leaves the cache with a listing that lacks the new post. *)

From S2P Require Import Prelude Json Redis Broker PostStore PostService.
Import ObjectId Store StoreFacts Mq MqFacts.

Section Threads.
Context {S E : Type}.

Inductive Thread (A : Type) : Type :=
| TDone (r : E + A)
| TStep (f : S -> S) (k : S -> Thread A).
Arguments TDone {A} r. Arguments TStep {A} f k.

#[export] Instance thread_ret : MRet Thread := fun A a => TDone (inr a).

Fixpoint thread_bind {A B} (f : A -> Thread B) (t : Thread A) : Thread B :=
  match t with
  | TDone (inl e) => TDone (inl e)
  | TDone (inr a) => f a
  | TStep g k => TStep g (fun s => thread_bind f (k s))
  end.
#[export] Instance thread_mbind : MBind Thread := @thread_bind.

(** [try { .. } catch (e) { h(e) }] around a thread. *)
Fixpoint thread_catch {A} (t : Thread A) (h : E -> Thread A) : Thread A :=
  match t with
  | TDone (inl e) => h e
  | TDone (inr a) => TDone (inr a)
  | TStep g k => TStep g (fun s => thread_catch (k s) h)
  end.

(** One awaited call. *)
Definition atomic {A} (m : Ex S E A) : Thread A :=
  TStep (fun s => snd (m s)) (fun s => TDone (fst (m s))).

(** A thread run alone, to its end. *)
Fixpoint run_thread {A} (t : Thread A) (s : S) : (E + A) * S :=
  match t with
  | TDone r => (r, s)
  | TStep f k => run_thread (k s) (f s)
  end.

(** Two threads on one state: [true] runs a step of the first, [false] a
    step of the second; a finished thread's turn is skipped. *)
Fixpoint interleave {A B} (sched : list bool) (t1 : Thread A) (t2 : Thread B) (s : S)
    : Thread A * Thread B * S :=
  match sched with
  | [] => (t1, t2, s)
  | true :: sched' =>
      match t1 with
      | TStep f k => interleave sched' (k s) t2 (f s)
      | TDone _ => interleave sched' t1 t2 s
      end
  | false :: sched' =>
      match t2 with
      | TStep f k => interleave sched' t1 (k s) (f s)
      | TDone _ => interleave sched' t1 t2 s
      end
  end.

(** [run_thread] maps the thread operations to those of [Ex]. *)
Lemma run_atomic {A} (m : Ex S E A) s : run_thread (atomic m) s = m s.
Proof. unfold atomic. simpl. by destruct (m s). Qed.

Lemma run_bind {A B} (t : Thread A) (f : A -> Thread B) s :
  run_thread (t ≫= f) s = ((fun s' => run_thread t s') ≫= (fun a => run_thread (f a))) s.
Proof.
  revert s. induction t as [[e|a]|g k IH]; intros s; [done|done|]. apply IH.
Qed.

Lemma run_catch {A} (t : Thread A) h s :
  run_thread (thread_catch t h) s = ((fun s' => run_thread t s') catch! (fun e => run_thread (h e))) s.
Proof.
  revert s. induction t as [[e|a]|g k IH]; intros s; [done|done|]. apply IH.
Qed.
End Threads.
Arguments Thread : clear implicits.
Arguments TDone {S E A} r. Arguments TStep {S E A} f k.

(** ** Refinement: a thread run alone is an [Ex] computation *)

Section Refines.
Context {S E : Type}.

Definition refines {A} (t : Thread S E A) (m : Ex S E A) : Prop := forall s, run_thread t s = m s.

Lemma refines_atomic {A} (m : Ex S E A) : refines (atomic m) m.
Proof. intros s. apply run_atomic. Qed.

Lemma refines_ret {A} (a : A) : refines (mret a) (mret a).
Proof. intros s. reflexivity. Qed.

Lemma refines_bind {A B} (t : Thread S E A) m (f : A -> Thread S E B) g :
  refines t m -> (forall a, refines (f a) (g a)) -> refines (t ≫= f) (m ≫= g).
Proof.
  intros Ht Hf s. rewrite run_bind. unfold mbind, ex_bind. cbv beta. rewrite Ht.
  destruct (m s) as [[e|a] s']; [done|apply Hf].
Qed.

Lemma refines_catch {A} (t : Thread S E A) m h h' :
  refines t m -> (forall e, refines (h e) (h' e)) -> refines (thread_catch t h) (m catch! h').
Proof.
  intros Ht Hh s. rewrite run_catch. unfold ex_catch. cbv beta. rewrite Ht.
  destruct (m s) as [[e|a] s']; [apply Hh|done].
Qed.

(** One await around two calls with no await between them. *)
Lemma refines_atomic_bind {A B C} (m : Ex S E A) (f : A -> Ex S E B) (g : B -> Thread S E C) g' :
  (forall b, refines (g b) (g' b)) -> refines (atomic (m ≫= f) ≫= g) (m ≫= (fun a => f a ≫= g')).
Proof.
  intros Hg s. rewrite run_bind. unfold mbind, ex_bind. cbv beta. rewrite run_atomic. cbv beta.
  destruct (m s) as [[e|a] s']; [done|]. destruct (f a s') as [[e|b] s'']; [done|apply Hg].
Qed.
End Refines.

Ltac refine_split :=
  repeat match goal with
  | |- refines (thread_catch _ _) (_ catch! _) => apply refines_catch; intros
  | |- refines (atomic (_ ≫= _) ≫= _) (_ ≫= _) => apply refines_atomic_bind; intros
  | |- refines (_ ≫= _) (_ ≫= _) => apply refines_bind; intros
  | |- refines (atomic _) _ => apply refines_atomic
  | |- refines (mret _) (mret _) => apply refines_ret
  | |- refines (match ?x with _ => _ end) (match ?x with _ => _ end) => destruct x
  | |- refines (let _ := _ in _) _ => cbv zeta
  | |- refines _ (let _ := _ in _) => cbv zeta
  end.

Section PostThreads.
Context {C : Type} `{CacheStoreLaws CacheVal C}.
Abbreviation PT := (Thread (PState C) exn).

(** [invalidatePostCache]: three awaits. *)
Definition invalidate_thread (input : string) : PT unit :=
  atomic (redis_del [post_key input]);;
  keys ← atomic (redis_keys "posts:*");
  match keys with
  | [] => mret tt
  | _ :: _ => atomic (redis_del keys)
  end.

(** [createPostController]: [new Post(..)] is synchronous, so the id and
    [save] are one await; then [publishEvent] and the invalidation. *)
Definition createPost_thread (user : string) (data : json) : PT Resp :=
  thread_catch
    (match validateCreatePost data with
     | Some msg => mret (mkResp 400 (BMsg false msg))
     | None =>
         let content := default "" (jstring (jget "content" data)) in
         let mediaIds := match jget "mediaIds" data with Some (JArr l) => l | _ => [] end in
         newPost ← atomic (id ← lift_db new_post_id; lift_db (save id user content mediaIds));
         atomic (lift_mq (publishEvent "post.created" (created_payload newPost)));;
         invalidate_thread (post_id newPost);;
         mret (mkResp 201 (BMsg true "Post created successfully"))
     end)
    (fun _ => mret (mkResp 500 (BMsg false "Error creating post"))).

(** [getAllPostController]: [get], [find], [countDocuments], [setex]. *)
Definition getAllPost_thread (pageQ limitQ : option Z) : PT Resp :=
  thread_catch
    (let page := js_or_default pageQ 1 in
     let limit := js_or_default limitQ 10 in
     let startIndex := ((page - 1) * limit)%Z in
     let cacheKey := posts_key page limit in
     cachedPosts ← atomic (redis_get cacheKey);
     match cachedPosts with
     | Some v => mret (mkResp 200 (body_of v))
     | None =>
         posts ← atomic (lift_db (find_page startIndex limit));
         totalNumOfPost ← atomic (lift_db count_documents);
         let result := mkList posts page (js_ceil_div totalNumOfPost limit) totalNumOfPost in
         atomic (redis_setex cacheKey 300 (CList result));;
         mret (mkResp 200 (BList result))
     end)
    (fun _ => mret (mkResp 500 (BMsg false "Error fetching all post"))).

Lemma invalidate_thread_refines input : refines (invalidate_thread input) (invalidatePostCache input).
Proof. unfold invalidate_thread, invalidatePostCache. refine_split. Qed.

(** Cut at their awaits and run alone, the listing and the create
    are [getAllPostController] and [createPostController]: the threads
    the interleavings below run are the handlers of [PostService]. *)
Theorem post_threads_refine :
  (forall pq lq s, run_thread (getAllPost_thread pq lq) s = getAllPostController pq lq s) /\
  (forall user data s, run_thread (createPost_thread user data) s = createPostController user data s).
Proof.
  split.
  - intros pq lq. change (refines (getAllPost_thread pq lq) (getAllPostController pq lq)).
    unfold getAllPost_thread, getAllPostController, getAllPost_try. refine_split.
  - intros user data. change (refines (createPost_thread user data) (createPostController user data)).
    unfold createPost_thread, createPostController, createPost_try. refine_split.
    apply invalidate_thread_refines.
Qed.

Lemma interleave_t {A B} sched f k (t2 : PT B) s : interleave (A:=A) (true :: sched) (TStep f k) t2 s = interleave sched (k s) t2 (f s).
Proof. reflexivity. Qed.

Lemma interleave_f {A B} sched (t1 : PT A) f k s : interleave (B:=B) (false :: sched) t1 (TStep f k) s = interleave sched t1 (k s) (f s).
Proof. reflexivity. Qed.

Lemma interleave_f_done {A B} sched (t1 : PT A) r s : interleave (B:=B) (false :: sched) t1 (TDone r) s = interleave sched t1 (TDone r) s.
Proof. reflexivity. Qed.

Lemma redis_get_up k d (c : C) q : redis_get k (mkPS d c true q) = (inr (cache_get k c), mkPS d c true q).
Proof. unfold redis_get. by rewrite redis_cmd_up. Qed.

Lemma redis_keys_up pat d (c : C) q : redis_keys pat (mkPS d c true q) = (inr (cache_keys pat c), mkPS d c true q).
Proof. unfold redis_keys. by rewrite redis_cmd_up. Qed.

Lemma redis_del_up ks d (c : C) q : redis_del ks (mkPS d c true q) = (inr tt, mkPS d (cache_del ks c) true q).
Proof. unfold redis_del. by rewrite redis_cmd_up. Qed.

Lemma redis_setex_up k t v d (c : C) q :
  redis_setex k t v (mkPS d c true q) = (inr tt, mkPS d (cache_setex k t v c) true q).
Proof. unfold redis_setex. by rewrite redis_cmd_up. Qed.

(** The first await of [createPostController]: the id and the save. *)
Lemma create_save_run d (c : C) q user content mediaIds ms :
  db_up d = true -> mapM cast_string mediaIds = Some ms ->
  existsb (fun p => String.eqb (post_id p) (oid_of (db_next d))) (db_posts d) = false ->
  (id ← lift_db new_post_id; lift_db (save id user content mediaIds)) (mkPS d c true q) =
  (inr (mkPost (oid_of (db_next d)) user content ms (db_now d)),
   mkPS (mkDB (db_posts d ++ [mkPost (oid_of (db_next d)) user content ms (db_now d)]) (N.succ (db_next d))
           (db_now d) (db_up d)) c true q).
Proof.
  intros Hup Hms Hfresh. unfold mbind, ex_bind. rewrite lift_db_run. cbn [fst snd new_post_id].
  by rewrite lift_db_run, (save_ok _ _ _ _ ms).
Qed.

(** A listing cached over a store that has since grown is served and
    breaks coherence. *)
Lemma cached_stale_listing d1 (c1 : C) q1 pq lq old p :
  let page := js_or_default pq 1 in
  let limit := js_or_default lq 10 in
  db_up d1 = true -> db_posts d1 = old ++ [p] ->
  let s' := mkPS d1 (cache_setex (posts_key page limit) 300 (CList (list_result old page limit)) c1) true q1 in
  fst (getAllPostController pq lq s') = inr (mkResp 200 (BList (list_result old page limit))) /\ ~ coherent s'.
Proof.
  intros page limit Hup Hd s'. subst s'.
  assert (Hg : cache_get (posts_key page limit)
                 (cache_setex (posts_key page limit) 300 (CList (list_result old page limit)) c1) =
               Some (CList (list_result old page limit))) by (by rewrite cache_get_setex, decide_True).
  split.
  - unfold getAllPostController, ex_catch. rewrite getAllPost_try_up by done. fold page limit. by rewrite Hg.
  - intros Hc. destruct (Hc _ _ _ Hg) as [_ Heq]. simpl in Heq. rewrite Hd in Heq.
    apply (list_result_append_ne old p page limit). congruence.
Qed.

Ltac thread_norm := cbn [fst snd thread_catch thread_bind atomic mbind thread_mbind mret thread_ret].

(** The race: the reader misses the cache and reads the store (three
    awaits), the writer runs to its end (saves, publishes and invalidates,
    at most five awaits), then the reader caches what it read. *)
Definition race : list bool := [true; true; true; false; false; false; false; false; true].

(** C40: read-your-writes fails under interleaving.  From any state with
    Redis, Mongo and the broker client working and the requested listing
    not cached, when a listing read misses the cache and reads the store
    before a valid create saves, publishes and invalidates, the create
    answers 201 and the read answers, and then caches, the page of the
    store before the create: every later listing request is served that
    page without the new post while the store holds it (until the key
    expires), and the listing cache disagrees with the store, although the
    invalidation ran before the 201. *)
Theorem interleaved_stale_listing (s : PState C) user data ms pq lq :
  let page := js_or_default pq 1 in
  let limit := js_or_default lq 10 in
  ps_redis_up s = true -> db_up (ps_db s) = true -> publish_ready (ps_mq s) ->
  cache_get (posts_key page limit) (ps_cache s) = None -> (0 <= (page - 1) * limit)%Z ->
  valid_create_body data ->
  mapM cast_string (match jget "mediaIds" data with Some (JArr l) => l | _ => [] end) = Some ms ->
  existsb (fun p => String.eqb (post_id p) (oid_of (db_next (ps_db s)))) (db_posts (ps_db s)) = false ->
  let p := mkPost (oid_of (db_next (ps_db s))) user (default "" (jstring (jget "content" data)))
             ms (db_now (ps_db s)) in
  let '(r, w, s') := interleave race (getAllPost_thread pq lq) (createPost_thread user data) s in
  r = TDone (inr (mkResp 200 (BList (list_result (db_posts (ps_db s)) page limit)))) /\
  w = TDone (inr created_resp) /\
  db_posts (ps_db s') = db_posts (ps_db s) ++ [p] /\
  fst (getAllPostController pq lq s') =
    inr (mkResp 200 (BList (list_result (db_posts (ps_db s)) page limit))) /\
  ~ coherent s'.
Proof.
  destruct s as [d c rup q]. intros page limit Hr Hup Hq Hmiss Hpos Hv Hms Hfresh p.
  simpl in Hr, Hup, Hq, Hmiss, Hfresh, p. subst rup.
  destruct (publishEvent_ready q "post.created" (created_payload p) Hq) as [q' [Hp [Hqs Hr']]].
  pose proof Hv as Hv'. apply validateCreatePost_spec in Hv'.
  unfold race, getAllPost_thread, createPost_thread. rewrite Hv'. fold page limit.
  thread_norm.
  rewrite interleave_t, redis_get_up, Hmiss. thread_norm.
  rewrite interleave_t. cbv beta. rewrite lift_db_run, find_page_up by done. thread_norm.
  rewrite interleave_t. cbv beta. rewrite lift_db_run, count_documents_up by done. thread_norm.
  rewrite interleave_f. cbv beta. rewrite (create_save_run d c q user _ _ ms) by done.
  thread_norm. fold p.
  rewrite interleave_f. cbv beta. rewrite lift_mq_run, Hp. thread_norm.
  unfold invalidate_thread. thread_norm.
  rewrite interleave_f. cbv beta. rewrite redis_del_up. thread_norm.
  rewrite interleave_f. cbv beta. rewrite redis_keys_up. thread_norm.
  destruct (cache_keys "posts:*" (cache_del [post_key (post_id p)] c)) as [|k ks] eqn:Hk; thread_norm.
  - rewrite interleave_f_done, interleave_t. cbv beta. rewrite redis_setex_up. thread_norm.
    cbn [interleave].
    destruct (cached_stale_listing (mkDB (db_posts d ++ [p]) (N.succ (db_next d)) (db_now d) (db_up d))
      (cache_del [post_key (post_id p)] c) q' pq lq (db_posts d) p) as [H1 H2]; [done|done|].
    by repeat split.
  - rewrite interleave_f. cbv beta. rewrite redis_del_up. thread_norm.
    rewrite interleave_t. cbv beta. rewrite redis_setex_up. thread_norm. cbn [interleave].
    destruct (cached_stale_listing (mkDB (db_posts d ++ [p]) (N.succ (db_next d)) (db_now d) (db_up d))
      (cache_del (k :: ks) (cache_del [post_key (post_id p)] c)) q' pq lq (db_posts d) p) as [H1 H2]; [done|done|].
    by repeat split.
Qed.

End PostThreads.

(** ** A listing read racing a create *)

Module InterleaveRuns.
Import PostService.Runs.

Lemma interleaved_stale_listing_witness :
  let p := mkPost (oid_of (db_next (ps_db st1))) "u1" (default "" (jstring (jget "content" body_second)))
             [] (db_now (ps_db st1)) in
  let '(r, w, s') := interleave race (getAllPost_thread None None) (createPost_thread "u1" body_second) st1 in
  r = TDone (inr (mkResp 200 (BList (list_result (db_posts (ps_db st1)) (js_or_default None 1) (js_or_default None 10))))) /\
  w = TDone (inr created_resp) /\
  db_posts (ps_db s') = db_posts (ps_db st1) ++ [p] /\
  fst (getAllPostController None None s') =
    inr (mkResp 200 (BList (list_result (db_posts (ps_db st1)) (js_or_default None 1) (js_or_default None 10)))) /\
  ~ coherent s'.
Proof.
  apply (interleaved_stale_listing st1 "u1" body_second [] None None);
    [reflexivity|reflexivity|apply healthy_st1|vm_compute; reflexivity|simpl; lia|apply valid_body_second
    |reflexivity|vm_compute; reflexivity].
Defined.

End InterleaveRuns.
