(* ===== verification/SearchService.v ===== *)
(** The search projector: [src/search-service/src/event-handlers/search-event-handler.js]
    over the [SearchPost] collection of [src/search-service/src/models/search-post-model.js],
    and the query of [src/search-service/src/controllers/search-post-controller.js].

    - [SearchDB]: the collection keyed by [postId] (the schema declares it
      [unique: true], so a second document with the same [postId] is an
      E11000 error), the clock that stamps [updatedAt] ([timestamps:
      true]; [createdAt] comes from the event), and whether Mongo is up.
    - [handlePostCreated], [handlePostDeleted]: the handlers, errors
      caught and logged, as in the source.  A required [String] field is
      cast as Mongoose casts it (a number or a boolean by [String(v)]) and
      is missing when the payload lacks it, it does not cast, or it is the
      empty string; the [postId] condition of the deletion is cast alike; the
      [Date] field [createdAt] is cast from a [Date], a number or its ISO
      string ([req_date], with [Iso.parse_iso]), the last being how it
      arrives over the broker.
    - [searchPostController]: [$text] search with [textScore], sorted by
      score, limited to 10.  The text index is modelled without stemming
      and stop words: a document matches when one of its lowercase
      alphanumeric words is a word of the query, and its score is the
      number of such words. *)

From S2P Require Import Prelude Json Iso.

Module Search.

Record SearchPost := mkSearchPost {
  sp_postId : string;
  sp_userId : string;
  sp_content : string;
  sp_createdAt : Z;
  sp_updatedAt : Z;
}.

Record SearchDB := mkSDB {
  sdb_index : gmap string SearchPost;
  sdb_now : Z;
  sdb_up : bool;
}.

Definition set_index (ix : gmap string SearchPost) (d : SearchDB) : SearchDB :=
  mkSDB ix (sdb_now d) (sdb_up d).

Definition smongo_check : Ex SearchDB exn unit :=
  fun d => if sdb_up d then (inr tt, d) else (inl ExnMongo, d).

(** Mongoose's cast to [String]: a string as it is, a number or a
    boolean by [String(v)]; anything else fails to cast. *)
Definition cast_to_string (j : json) : option string :=
  match j with
  | JStr s => Some s
  | JNum z => Some (pretty z)
  | JBool b => Some (if b then "true" else "false")
  | _ => None
  end.

(** A [{ type: String, required: true }] field: missing, uncastable or
    the empty string fails validation. *)
Definition req_string (j : option json) : option string :=
  match j ≫= cast_to_string with
  | Some s => if String.eqb s "" then None else Some s
  | None => None
  end.

(** A query condition on a [String] path, cast the same way; a missing
    value ([undefined], sent as [null]) matches only documents without
    the field, of which the collection, whose [postId] is required, has
    none, and a value that does not cast is a [CastError]. *)
Definition filter_string (j : option json) : option string := j ≫= cast_to_string.

(** A [{ type: Date, required: true }] field, cast as Mongoose casts a
    date: a [Date] or a number of milliseconds within the range of a JS
    date, a string by [Date.parse] (here its [toISOString] format). *)
Definition req_date (j : option json) : option Z :=
  match j with
  | Some (JDate ms) => if Z.leb (Z.abs ms) MAX_TIME then Some ms else None
  | Some (JNum z) => if Z.leb (Z.abs z) MAX_TIME then Some z else None
  | Some (JStr s) => parse_iso s
  | _ => None
  end.

(** [new SearchPost({ postId, userId, content, createdAt }).save()]. *)
Definition save_search (event : json) : Ex SearchDB exn unit :=
  match req_string (jget "postId" event), req_string (jget "userId" event),
        req_string (jget "content" event), req_date (jget "createdAt" event) with
  | Some pid, Some uid, Some content, Some t =>
      smongo_check;;
      d ← ex_get;
      match sdb_index d !! pid with
      | Some _ => throw! ExnDuplicateKey
      | None => ex_put (set_index (<[pid := mkSearchPost pid uid content t (sdb_now d)]> (sdb_index d)) d)
      end
  | _, _, _, _ => throw! ExnValidation
  end.

Definition handlePostCreated (event : json) : Ex SearchDB exn unit :=
  save_search event catch! (fun _ => mret tt).

(** [SearchPost.findOneAndDelete({ postId: event.postId })]: the
    condition cast to a string; a payload without a castable [postId]
    deletes nothing. *)
Definition find_one_and_delete (event : json) : Ex SearchDB exn unit :=
  smongo_check;;
  match filter_string (jget "postId" event) with
  | Some pid => ex_modify (fun d => set_index (delete pid (sdb_index d)) d)
  | None => mret tt
  end.

Definition handlePostDeleted (event : json) : Ex SearchDB exn unit :=
  find_one_and_delete event catch! (fun _ => mret tt).

(** ** The query *)

Definition is_alnum (c : ascii) : bool :=
  let n := Ascii.nat_of_ascii c in
  (Nat.leb 48 n && Nat.leb n 57) || (Nat.leb 97 n && Nat.leb n 122) ||
  (Nat.leb 65 n && Nat.leb n 90).

Definition lower (c : ascii) : ascii :=
  let n := Ascii.nat_of_ascii c in
  if Nat.leb 65 n && Nat.leb n 90 then Ascii.ascii_of_nat (n + 32) else c.

(** The lowercase alphanumeric words of a text, in order. *)
Fixpoint tokens_go (s : string) (cur : string) : list string :=
  match s with
  | EmptyString => match cur with EmptyString => [] | _ => [cur] end
  | String c s' =>
      if is_alnum c then tokens_go s' (cur +:+ String (lower c) EmptyString)
      else match cur with
           | EmptyString => tokens_go s' EmptyString
           | _ => cur :: tokens_go s' EmptyString
           end
  end.

Definition tokens (s : string) : list string := tokens_go s EmptyString.

Definition text_score (query : list string) (content : string) : nat :=
  length (filter (fun w => w ∈ query) (tokens content)).

Fixpoint insert_by_score (x : nat * SearchPost) (l : list (nat * SearchPost)) :=
  match l with
  | [] => [x]
  | y :: l' => if Nat.ltb x.1 y.1 then y :: insert_by_score x l' else x :: y :: l'
  end.

Definition search_results (d : SearchDB) (q : string) : list SearchPost :=
  let ws := tokens q in
  let scored := (fun p => (text_score ws (sp_content p), p)) <$> (map_to_list (sdb_index d)).*2 in
  snd <$> take 10 (foldr insert_by_score [] (filter (fun x => 0 < x.1)%nat scored)).

Inductive SearchResp := SRes (posts : list SearchPost) | SErr (status : Z) (message : string).

(** [searchPostController]: a missing [query] makes Mongo reject the
    [$text] operator. *)
Definition searchPostController (query : option string) : Ex SearchDB exn SearchResp :=
  (smongo_check;;
   match query with
   | None => throw! ExnBadValue
   | Some q => d ← ex_get; mret (SRes (search_results d q))
   end)
  catch! (fun _ => mret (SErr 500 "Error while searching post")).

End Search.

Module SearchFacts.
Import Search.

(** The fields of a [post.created] payload the handler can store. *)
Definition created_fields (event : json) : option (string * string * string * Z) :=
  match req_string (jget "postId" event), req_string (jget "userId" event),
        req_string (jget "content" event), req_date (jget "createdAt" event) with
  | Some pid, Some uid, Some content, Some t => Some (pid, uid, content, t)
  | _, _, _, _ => None
  end.

(** [handlePostCreated] changes nothing, or inserts one entry under a
    [postId] that had none. *)
Lemma save_search_effect event d :
  snd (save_search event d) = d \/
  exists pid uid content t,
    created_fields event = Some (pid, uid, content, t) /\ sdb_up d = true /\
    sdb_index d !! pid = None /\
    snd (save_search event d) =
      set_index (<[pid := mkSearchPost pid uid content t (sdb_now d)]> (sdb_index d)) d.
Proof.
  unfold save_search, created_fields.
  destruct (req_string (jget "postId" event)) as [pid|]; [|by left].
  destruct (req_string (jget "userId" event)) as [uid|]; [|by left].
  destruct (req_string (jget "content" event)) as [content|]; [|by left].
  destruct (req_date (jget "createdAt" event)) as [t|]; [|by left].
  unfold smongo_check, mbind, ex_bind, ex_get, ex_put, ex_throw. simpl.
  destruct (sdb_up d) eqn:Hup; [|by left].
  destruct (sdb_index d !! pid) eqn:Hpid; [by left|]. right. by exists pid, uid, content, t.
Qed.

Lemma save_search_insert event d pid uid content t :
  created_fields event = Some (pid, uid, content, t) -> sdb_up d = true ->
  sdb_index d !! pid = None ->
  snd (save_search event d) =
    set_index (<[pid := mkSearchPost pid uid content t (sdb_now d)]> (sdb_index d)) d.
Proof.
  unfold created_fields, save_search. intros Hf Hup Hnone.
  destruct (req_string (jget "postId" event)), (req_string (jget "userId" event)),
    (req_string (jget "content" event)), (req_date (jget "createdAt" event)); try discriminate.
  injection Hf as -> -> -> ->.
  unfold smongo_check, mbind, ex_bind, ex_get, ex_put. simpl. by rewrite Hup, Hnone.
Qed.

Lemma handlePostCreated_state event d :
  snd (handlePostCreated event d) = snd (save_search event d).
Proof. unfold handlePostCreated, ex_catch. by destruct (save_search event d) as [[]]. Qed.

Lemma handlePostDeleted_state event d :
  snd (handlePostDeleted event d) =
  match Search.filter_string (jget "postId" event) with
  | Some pid => if sdb_up d then set_index (delete pid (sdb_index d)) d else d
  | None => d
  end.
Proof.
  unfold handlePostDeleted, find_one_and_delete, smongo_check, ex_catch, mbind, ex_bind.
  destruct (sdb_up d), (Search.filter_string (jget "postId" event)); done.
Qed.

(** Both handlers catch every error: the consumer never sees one. *)
Lemma handlers_total event d :
  fst (handlePostCreated event d) = inr tt /\ fst (handlePostDeleted event d) = inr tt.
Proof.
  unfold handlePostCreated, handlePostDeleted, ex_catch.
  split; [by destruct (save_search event d) as [[?|[]] ?]|].
  by destruct (find_one_and_delete event d) as [[?|[]] ?].
Qed.

Lemma set_index_twice ix ix' d : set_index ix' (set_index ix d) = set_index ix' d.
Proof. done. Qed.

Lemma insert_by_score_elem x y l : y ∈ insert_by_score x l <-> y = x \/ y ∈ l.
Proof.
  induction l as [|z l IH]; simpl.
  - rewrite list_elem_of_singleton. split; [by left|].
    intros [->|Hy]; [done|by apply not_elem_of_nil in Hy].
  - destruct (Nat.ltb _ _); rewrite !elem_of_cons; [rewrite IH|]; tauto.
Qed.

Lemma foldr_insert_by_score_elem y l : y ∈ foldr insert_by_score [] l <-> y ∈ l.
Proof.
  induction l as [|x l IH]; simpl; [done|].
  rewrite insert_by_score_elem, IH, elem_of_cons. done.
Qed.

End SearchFacts.

Module SearchProps.
Import Search SearchFacts.

(** The payloads the post service publishes, as the search service reads
    them. *)
Definition created_event (pid uid content : string) (t : Z) : json :=
  JObj [("postId", JStr pid); ("userId", JStr uid); ("content", JStr content);
        ("createdAt", JDate t)].

Definition deleted_event (pid uid : string) (ms : list json) : json :=
  JObj [("postId", JStr pid); ("userId", JStr uid); ("mediaIds", JArr ms)].

Lemma req_string_nonempty s : s <> "" -> req_string (Some (JStr s)) = Some s.
Proof. intros Hs. unfold req_string. cbn [mbind option_bind cast_to_string]. by destruct (String.eqb_spec s ""). Qed.

Lemma created_event_fields pid uid content t :
  pid <> "" -> uid <> "" -> content <> "" -> (Z.abs t <= MAX_TIME)%Z ->
  created_fields (created_event pid uid content t) = Some (pid, uid, content, t).
Proof.
  intros Hp Hu Hc Ht. unfold created_fields.
  change (jget "postId" (created_event pid uid content t)) with (Some (JStr pid)).
  change (jget "userId" (created_event pid uid content t)) with (Some (JStr uid)).
  change (jget "content" (created_event pid uid content t)) with (Some (JStr content)).
  change (jget "createdAt" (created_event pid uid content t)) with (Some (JDate t)).
  rewrite !req_string_nonempty by done. cbn [req_date]. by rewrite (proj2 (Z.leb_le _ _) Ht).
Qed.

(** C12: a duplicated [post.created] delivery is harmless: handling the
    same event twice leaves the index (and the whole search store) as
    handling it once. *)
Theorem handlePostCreated_idempotent event d :
  let d1 := snd (handlePostCreated event d) in
  snd (handlePostCreated event d1) = d1.
Proof.
  intros d1. subst d1. rewrite !handlePostCreated_state.
  destruct (save_search_effect event d) as [Hs|[pid [uid [content [t [Hf [Hup [Hnone ->]]]]]]]];
    [by rewrite !Hs|].
  destruct (save_search_effect event
    (set_index (<[pid := mkSearchPost pid uid content t (sdb_now d)]> (sdb_index d)) d))
    as [Hs|[pid' [uid' [content' [t' [Hf' [_ [Hnone' _]]]]]]]]; [exact Hs|].
  rewrite Hf in Hf'. injection Hf' as <- <- <- <-.
  simpl in Hnone'. by rewrite lookup_insert_eq in Hnone'.
Qed.

(** C13: the [post.deleted] handler is idempotent: handling the same
    event twice leaves the index as handling it once, whether Mongo is up
    or not, and an event whose [postId] casts to an id the index does not
    hold changes nothing; the handler catches every error, so the consumer
    never sees one. *)
Theorem handlePostDeleted_idempotent event d :
  let d1 := snd (handlePostDeleted event d) in
  snd (handlePostDeleted event d1) = d1 /\
  (forall pid, Search.filter_string (jget "postId" event) = Some pid -> sdb_index d !! pid = None -> d1 = d).
Proof.
  intros d1. subst d1. rewrite !handlePostDeleted_state.
  destruct (Search.filter_string (jget "postId" event)) as [pid|]; [|done].
  destruct (sdb_up d) eqn:Hup; [|rewrite Hup; split; [done|intros; done]].
  simpl. rewrite Hup. split.
  - by rewrite delete_delete_eq.
  - intros pid' [= <-] Hnone. destruct d as [ix now up]. simpl in *. by rewrite delete_id.
Qed.

(** C14: the index entry of a post goes [absent -> indexed -> absent ->
    indexed] under [post.created], [post.deleted], [post.created]; the
    deletion gives back exactly the index before the creation. *)
Theorem index_lifecycle d pid uid content t ms :
  sdb_up d = true -> pid <> "" -> uid <> "" -> content <> "" -> (Z.abs t <= MAX_TIME)%Z ->
  sdb_index d !! pid = None ->
  let d1 := snd (handlePostCreated (created_event pid uid content t) d) in
  let d2 := snd (handlePostDeleted (deleted_event pid uid ms) d1) in
  let d3 := snd (handlePostCreated (created_event pid uid content t) d2) in
  sdb_index d1 !! pid = Some (mkSearchPost pid uid content t (sdb_now d)) /\
  sdb_index d2 = sdb_index d /\
  sdb_index d3 !! pid = Some (mkSearchPost pid uid content t (sdb_now d)).
Proof.
  intros Hup Hp Hu Hc Ht Hnone d1 d2 d3.
  pose proof (created_event_fields pid uid content t Hp Hu Hc Ht) as Hf.
  assert (Hd1 : d1 = set_index (<[pid := mkSearchPost pid uid content t (sdb_now d)]> (sdb_index d)) d)
    by (subst d1; rewrite handlePostCreated_state; by apply save_search_insert).
  assert (Hd2 : d2 = set_index (sdb_index d) d).
  { subst d2. rewrite handlePostDeleted_state, Hd1. simpl. rewrite Hup.
    unfold set_index. simpl. by rewrite delete_insert_id. }
  split; [rewrite Hd1; apply lookup_insert_eq|]. split; [by rewrite Hd2|].
  subst d3. rewrite handlePostCreated_state, Hd2, (save_search_insert _ _ pid uid content t);
    [apply lookup_insert_eq|done|done|done].
Qed.

(** C15: a search answers at most 10 entries, each an entry of the index
    that shares a word with the query. *)
Theorem search_results_sound d q :
  (length (search_results d q) <= 10)%nat /\
  forall x, x ∈ search_results d q ->
    (exists k, sdb_index d !! k = Some x) /\ (0 < text_score (tokens q) (sp_content x))%nat.
Proof.
  unfold search_results. split.
  - rewrite length_fmap, length_take. lia.
  - intros x Hx. apply list_elem_of_fmap in Hx as [[n p] [-> Hy]].
    apply subseteq_take, foldr_insert_by_score_elem, list_elem_of_filter in Hy as [Hpos Hy].
    apply list_elem_of_fmap in Hy as [p' [Heq Hp']]. injection Heq as -> ->. simpl in *.
    apply list_elem_of_fmap in Hp' as [[k p''] [-> Hkv]].
    apply elem_of_map_to_list in Hkv. split; [by exists k|done].
Qed.

(** A search store with nothing indexed. *)
Definition sdb0 : SearchDB := mkSDB ∅ 5000 true.

(** The spec's scenario.  After [post.created] for [p1] with body
    ["hello world"], the query ["hello"] finds exactly that entry; after
    [post.deleted] for [p1] it finds nothing. *)
Example search_scenario :
  let d1 := snd (handlePostCreated (created_event "p1" "u1" "hello world" 1000) sdb0) in
  let d2 := snd (handlePostDeleted (deleted_event "p1" "u1" []) d1) in
  fst (searchPostController (Some "hello") d1) =
    inr (SRes [mkSearchPost "p1" "u1" "hello world" 1000 5000]) /\
  fst (searchPostController (Some "hello") d2) = inr (SRes []).
Proof. vm_compute. split; reflexivity. Qed.

Lemma index_lifecycle_witness :
  let d1 := snd (handlePostCreated (created_event "p1" "u1" "hello world" 1000) sdb0) in
  let d2 := snd (handlePostDeleted (deleted_event "p1" "u1" []) d1) in
  let d3 := snd (handlePostCreated (created_event "p1" "u1" "hello world" 1000) d2) in
  sdb_index d1 !! "p1" = Some (mkSearchPost "p1" "u1" "hello world" 1000 (sdb_now sdb0)) /\
  sdb_index d2 = sdb_index sdb0 /\
  sdb_index d3 !! "p1" = Some (mkSearchPost "p1" "u1" "hello world" 1000 (sdb_now sdb0)).
Proof. apply index_lifecycle; try reflexivity; discriminate. Defined.

Lemma handlePostDeleted_idempotent_witness :
  let ev := deleted_event "p1" "u1" [] in
  let d1 := snd (handlePostDeleted ev sdb0) in
  snd (handlePostDeleted ev d1) = d1 /\
  (forall pid, Search.filter_string (jget "postId" ev) = Some pid -> sdb_index sdb0 !! pid = None -> d1 = sdb0).
Proof. apply handlePostDeleted_idempotent. Defined.

Lemma search_results_sound_witness :
  let d := snd (handlePostCreated (created_event "p1" "u1" "hello world" 1000) sdb0) in
  (length (search_results d "hello") <= 10)%nat /\
  forall x, x ∈ search_results d "hello" ->
    (exists k, sdb_index d !! k = Some x) /\ (0 < text_score (tokens "hello") (sp_content x))%nat.
Proof. apply search_results_sound. Defined.

End SearchProps.
