(* ===== verification/Gateway.v ===== *)
(** The api-gateway's authentication middleware,
    [src/api-gateway/src/middleware/auth-middleware.js] ([validateToken]).

    The signature check [jwt.verify(token, JWT_SECRET, cb)] belongs to the
    jsonwebtoken library: the section takes it as a parameter [verify]
    ([None] for the callback's [err], [Some user] for the decoded payload),
    so every theorem holds for any verifier. *)

From S2P Require Import Prelude.

Module Gateway.

Inductive GwResult (User : Type) :=
| GwReject (status : Z) (message : string)
| GwNext (user : User).
Arguments GwReject {User} _ _.
Arguments GwNext {User} _.

(** [authHeader && authHeader.split(' ')[1]]: a missing or empty header
    gives a falsy value, and so does a missing or empty second word. *)
Definition bearer_token (authHeader : option string) : option string :=
  match authHeader with
  | None => None
  | Some h =>
      if String.eqb h "" then None
      else match nth_error (split_on " "%char h) 1 with
           | Some t => if String.eqb t "" then None else Some t
           | None => None
           end
  end.

Section Middleware.
Context {User : Type} (verify : string -> option User).

Definition validateToken (authHeader : option string) : GwResult User :=
  match bearer_token authHeader with
  | None => GwReject 401 "Authentication required"
  | Some token =>
      match verify token with
      | None => GwReject 429 "Invalid token!"
      | Some user => GwNext user
      end
  end.

(** C21: the gateway lets a request through exactly when the second word
    of its [Authorization] header is a non-empty token the verifier
    accepts; a token the verifier rejects is answered with 429 (Too Many
    Requests), not with an authentication error. *)
Theorem validateToken_spec (h : option string) :
  (forall u, validateToken h = GwNext u <->
     exists t, bearer_token h = Some t /\ verify t = Some u) /\
  (forall t, bearer_token h = Some t -> verify t = None ->
     validateToken h = GwReject 429 "Invalid token!").
Proof.
  unfold validateToken. split.
  - intros u. destruct (bearer_token h) as [t|].
    + destruct (verify t) as [u'|] eqn:Hv; split.
      * intros [= <-]. by exists t.
      * intros [t' [[= <-] Hv']]. congruence.
      * done.
      * intros [t' [[= <-] Hv']]. congruence.
    + split; [done|]. by intros [t [? _]].
  - intros t -> Hv. by rewrite Hv.
Qed.

Lemma bearer_token_spec h t :
  bearer_token (Some h) = Some t <->
  h <> "" /\ nth_error (split_on " "%char h) 1 = Some t /\ t <> "".
Proof.
  unfold bearer_token. destruct (String.eqb_spec h ""); [split; [done|]; tauto|].
  destruct (nth_error _ 1) as [t'|]; [|split; [done|intros [_ [? _]]; done]].
  destruct (String.eqb_spec t' ""); split; try done.
  - intros [_ [[= ->] ?]]. done.
  - intros [= ->]. done.
  - by intros [_ [[= ->] _]].
Qed.

End Middleware.

(** A verifier that accepts one token. *)
Definition verify_demo (t : string) : option string :=
  if String.eqb t "good" then Some "u1" else None.

Lemma validateToken_spec_witness :
  (forall u, validateToken verify_demo (Some "Bearer good") = GwNext u <->
     exists t, bearer_token (Some "Bearer good") = Some t /\ verify_demo t = Some u) /\
  (forall t, bearer_token (Some "Bearer good") = Some t -> verify_demo t = None ->
     validateToken verify_demo (Some "Bearer good") = GwReject 429 "Invalid token!").
Proof. apply validateToken_spec. Defined.

End Gateway.
