(* ===== verification/Routes.v ===== *)
(** The HTTP routing of the post and search services: the mounts of
    [src/post-service/src/index.js] (lines 33-40) and
    [src/search-service/src/index.js] (lines 37-44), and the routers
    [routes/post-routes.js] and [routes/search-post-routes.js].

    An Express router tries its routes in the order they were declared
    and runs the first whose method and path match ([dispatch]); a path
    pattern is a list of literal segments and parameters ([':postId']),
    and a parameter matches one non-empty segment.  A request no route
    takes falls through to Express's final 404 ([NotFound]).  Paths are
    lists of decoded segments: URL decoding and trailing slashes are not
    modelled.

    Both routers start with [router.use(authenticateRequest)]; that
    middleware ([middleware/auth-middleware.js] of each service) is not
    under src/.  It is modelled from its use: the user is the
    [x-user-id] header the gateway sets, and a request without it is
    refused with 401 before any route runs ([Unauth]).

    The theorem compares the post router with a reference written by
    cases on the request: the route table, in its order, is that
    reference, and [/all-post] is never taken for a post id. *)

From S2P Require Import Prelude Json Redis PostStore PostService SearchService.

Module Routes.

Inductive Method := GET | POST | DELETE | PUT | PATCH.

#[export] Instance method_eq_dec : EqDecision Method.
Proof. solve_decision. Defined.

Inductive Seg := Lit (s : string) | Param.

(** The parameters of a path the pattern matches, in order. *)
Fixpoint match_path (pat : list Seg) (path : list string) : option (list string) :=
  match pat, path with
  | [], [] => Some []
  | Lit s :: pat', x :: path' => if String.eqb s x then match_path pat' path' else None
  | Param :: pat', x :: path' =>
      if String.eqb x "" then None else (x ::.) <$> match_path pat' path'
  | _, _ => None
  end.

(** A request as the routers see it. *)
Record HttpReq := mkHttp {
  hr_method : Method;
  hr_path : list string;          (** the segments of [req.path] *)
  hr_user : option string;        (** the [x-user-id] header *)
  hr_body : json;
  hr_query : string -> option string;
}.

Inductive Out (R : Type) := Unauth | NotFound | Answer (r : R).
Arguments Unauth {R}. Arguments NotFound {R}. Arguments Answer {R} _.

Section Router.
Context {S R : Type}.

(** [router.METHOD(pattern, handler)]: the handler gets the user
    [authenticateRequest] set, the request and the path's parameters. *)
Record Route := mkRoute {
  rt_method : Method;
  rt_pattern : list Seg;
  rt_handler : string -> HttpReq -> list string -> Ex S exn R;
}.

(** The first route that matches. *)
Fixpoint dispatch (routes : list Route) (m : Method) (path : list string)
    : option (string -> HttpReq -> Ex S exn R) :=
  match routes with
  | [] => None
  | rt :: routes' =>
      if decide (rt_method rt = m) then
        match match_path (rt_pattern rt) path with
        | Some ps => Some (fun u q => rt_handler rt u q ps)
        | None => dispatch routes' m path
        end
      else dispatch routes' m path
  end.

(** [router.use(authenticateRequest)] and then the routes. *)
Definition run_router (routes : list Route) (q : HttpReq) : Ex S exn (Out R) :=
  match hr_user q with
  | None => mret Unauth
  | Some u =>
      match dispatch routes (hr_method q) (hr_path q) with
      | Some h => r ← h u q; mret (Answer r)
      | None => mret NotFound
      end
  end.

(** The rest of a path under a mount point. *)
Fixpoint strip_segments (prefix path : list string) : option (list string) :=
  match prefix, path with
  | [], _ => Some path
  | p :: prefix', x :: path' => if String.eqb p x then strip_segments prefix' path' else None
  | _ :: _, [] => None
  end.

(** [app.use(prefix, (req, res, next) => { req.redisClient = ..; next() },
    routes)]: a path under the prefix goes to the router without it. *)
Definition mount (prefix : list string) (routes : list Route) (q : HttpReq) : Ex S exn (Out R) :=
  match strip_segments prefix (hr_path q) with
  | Some rest => run_router routes (mkHttp (hr_method q) rest (hr_user q) (hr_body q) (hr_query q))
  | None => mret NotFound
  end.
End Router.
Arguments Route : clear implicits.

(** ** The post service *)

Section PostRoutes.
Context {C : Type} `{CacheStoreLaws CacheVal C}.
(** [parseInt] on a query string ([None] for [NaN]); [parseInt(undefined)]
    is [NaN]. *)
Context (parseInt : string -> option Z).

Definition param0 (ps : list string) : string := default "" (head ps).

(** [routes/post-routes.js], lines 15-18, in their order. *)
Definition postRoutes : list (Route (PState C) Resp) := [
  mkRoute POST [Lit "create-post"] (fun u q _ => createPostController u (hr_body q));
  mkRoute GET [Lit "all-post"]
    (fun _ q _ => getAllPostController (hr_query q "page" ≫= parseInt) (hr_query q "limit" ≫= parseInt));
  mkRoute GET [Param] (fun _ _ ps => getPostController (param0 ps));
  mkRoute DELETE [Param] (fun u _ ps => deletePostController u (param0 ps))
].

(** [index.js], lines 33-40. *)
Definition postApp : HttpReq -> Ex (PState C) exn (Out Resp) := mount ["api"; "post"] postRoutes.

(** What the router should do, by cases on the method and the path:
    [/all-post] is the listing, any other single segment a post id. *)
Definition post_route_ref (m : Method) (path : list string)
    : option (string -> HttpReq -> Ex (PState C) exn Resp) :=
  match m, path with
  | POST, [x] => if String.eqb x "create-post" then Some (fun u q => createPostController u (hr_body q)) else None
  | GET, [x] =>
      if String.eqb x "all-post" then
        Some (fun _ q => getAllPostController (hr_query q "page" ≫= parseInt) (hr_query q "limit" ≫= parseInt))
      else if String.eqb x "" then None
      else Some (fun _ _ => getPostController x)
  | DELETE, [x] => if String.eqb x "" then None else Some (fun u _ => deletePostController u x)
  | _, _ => None
  end.

End PostRoutes.

(** ** The search service *)

(** [routes/search-post-routes.js], line 12. *)
Definition searchRoutes : list (Route Search.SearchDB Search.SearchResp) := [
  mkRoute GET [Lit "posts"] (fun _ q _ => Search.searchPostController (hr_query q "query"))
].

(** [search-service/src/index.js], lines 37-44. *)
Definition searchApp : HttpReq -> Ex Search.SearchDB exn (Out Search.SearchResp) :=
  mount ["api"; "search"] searchRoutes.

(** ** Routing *)

(** C39: the post router is its reference.  On every method and path,
    the first route that matches in the file's order is the one the
    reference picks: [GET /all-post] is the listing and never a lookup of
    the id ["all-post"], [POST] goes to [/create-post] only, and any other
    non-empty single segment is a post id for [GET] and [DELETE]. *)
Theorem postRoutes_ref {C} `{CacheStoreLaws CacheVal C} parseInt m path :
  dispatch (postRoutes parseInt) m path = post_route_ref parseInt m path.
Proof.
  destruct m, path as [|x [|y path]]; try reflexivity; simpl;
    repeat (case_match; simplify_eq/=; try reflexivity); try done.
Qed.

End Routes.

Module RoutesRuns.
Import Routes.

Lemma postRoutes_ref_witness :
  dispatch (postRoutes (C := RedisDb CacheVal) (fun _ => None)) GET ["all-post"]
  = post_route_ref (C := RedisDb CacheVal) (fun _ => None) GET ["all-post"].
Proof. apply postRoutes_ref. Defined.

End RoutesRuns.
