(* ===== verification/AuthService.v ===== *)
(** The auth service: [src/auth-service/src/controllers/auth-controller.js]
    and its router [routes/auth-service-route.js].

    The collaborators of the controller are not under src/:
    - the [User] model (a password hash set on save, [comparePassword]);
    - the [RefreshToken] model ([token], [user], [expiresAt]);
    - [generateTokens];
    - the Joi schemas of [utils/validation].
    The section [Auth] takes the password hash ([hash]) and the two
    validators as parameters.  [generateTokens] is modelled from its use:
    it returns an access token and a fresh refresh token, and stores the
    refresh token for the user with an expiry seven days ahead.  Fresh
    values come from the counter [adb_next] (the real tokens are random
    bytes).

    The store is [AuthDB]: users and refresh tokens in insertion order,
    the counter, the clock, and whether Mongo is up.  The refresh token of
    a refresh or logout body reaches [findOne] / [findOneAndDelete]
    unchecked, so the file models how Mongoose casts such a filter value
    ([cast_str_query]).

    Theorems:
    - every handler other than registration only grows the store
      ([only_grows]), and registration keeps users unique;
    - the invariant [auth_inv] holds on every reachable state;
    - refresh tokens are single use, and logout revokes;
    - an operator object as token yields another user's session;
    - the outcomes of login. *)

From S2P Require Import Prelude Json.

Module Auth.

Record User := mkUser {
  u_id : string;
  u_username : string;
  u_email : string;
  u_password : string;   (** the stored hash *)
}.

Record RefreshToken := mkRT {
  rt_id : string;
  rt_token : string;
  rt_user : string;
  rt_expiresAt : Z;
}.

Record AuthDB := mkADB {
  adb_users : list User;
  adb_tokens : list RefreshToken;
  adb_next : N;
  adb_now : Z;
  adb_up : bool;
}.

Inductive AuthBody :=
| AMsg (success : bool) (message : string)
| ATokens (accessToken refreshToken : string)
| ALogin (accessToken refreshToken userId : string).

Record AuthResp := mkAResp { a_status : Z; a_body : AuthBody }.

Definition REFRESH_TTL : Z := 7 * 24 * 60 * 60 * 1000.

(** *** Mongoose's cast of [{ token: v }] on the String path [token]

    [v] comes from the request body unchecked.  A scalar is cast to a
    string ([String(v)]; [null] matches a missing field, and [token] is
    required, so it matches nothing); an array becomes [$in]; an object
    whose keys are all query operators is a conjunction of them; any other
    object is a [CastError].  The operators modelled are [$eq], [$ne],
    [$in], [$nin] and [$exists]; the others ([$gt], [$regex], ...) are
    treated as cast errors, which only narrows what a filter can match.
    A parsed JSON body holds no [Date], so [JDate] never reaches the cast. *)
Inductive StrOp :=
| OpEq (v : option string)
| OpNe (v : option string)
| OpIn (l : list (option string))
| OpNin (l : list (option string))
| OpExists (b : bool).

Definition cast_scalar (v : json) : option (option string) :=
  match v with
  | JNull => Some None
  | JStr s => Some (Some s)
  | JNum z => Some (Some (pretty z))
  | JBool b => Some (Some (if b then "true" else "false"))
  | _ => None
  end.

Definition cast_list (v : json) : option (list (option string)) :=
  match v with
  | JArr l => mapM cast_scalar l
  | _ => (fun x => [x]) <$> cast_scalar v
  end.

Definition cast_op (k : string) (v : json) : option StrOp :=
  if String.eqb k "$eq" then OpEq <$> cast_scalar v
  else if String.eqb k "$ne" then OpNe <$> cast_scalar v
  else if String.eqb k "$in" then OpIn <$> cast_list v
  else if String.eqb k "$nin" then OpNin <$> cast_list v
  else if String.eqb k "$exists" then
    match v with JBool b => Some (OpExists b) | _ => None end
  else None.

Definition cast_str_query (v : json) : option (list StrOp) :=
  match v with
  | JObj [] => None
  | JObj fs => mapM (fun '(k, x) => cast_op k x) fs
  | JArr l => (fun xs => [OpIn xs]) <$> mapM cast_scalar l
  | _ => (fun x => [OpEq x]) <$> cast_scalar v
  end.

(** Whether a stored token (a string: the field is required) satisfies
    an operator, and the whole filter. *)
Definition op_holds (t : string) (op : StrOp) : bool :=
  match op with
  | OpEq v => bool_decide (v = Some t)
  | OpNe v => bool_decide (v <> Some t)
  | OpIn l => bool_decide (Some t ∈ l)
  | OpNin l => bool_decide (Some t ∉ l)
  | OpExists b => b
  end.

Definition query_holds (q : list StrOp) (t : string) : bool := forallb (op_holds t) q.

Section Auth.
Context (hash : string -> string)
        (validateRegistration validateLogin : json -> option string).

Definition amongo : Ex AuthDB exn unit :=
  fun d => if adb_up d then (inr tt, d) else (inl ExnMongo, d).

Definition fresh : Ex AuthDB exn string :=
  fun d => (inr (pretty (adb_next d)),
            mkADB (adb_users d) (adb_tokens d) (N.succ (adb_next d)) (adb_now d) (adb_up d)).

Definition set_users (us : list User) (d : AuthDB) : AuthDB :=
  mkADB us (adb_tokens d) (adb_next d) (adb_now d) (adb_up d).
Definition set_tokens (ts : list RefreshToken) (d : AuthDB) : AuthDB :=
  mkADB (adb_users d) ts (adb_next d) (adb_now d) (adb_up d).

(** [User.findOne(filter)]: the first user that satisfies it. *)
Definition find_user (f : User -> bool) : Ex AuthDB exn (option User) :=
  amongo;; d ← ex_get; mret (List.find f (adb_users d)).

(** [new User({ username, email, password }).save()]. *)
Definition save_user (username email password : string) : Ex AuthDB exn User :=
  id ← fresh;
  amongo;;
  d ← ex_get;
  let u := mkUser ("user" +:+ id) username email (hash password) in
  ex_put (set_users (adb_users d ++ [u]) d);;
  mret u.

(** [generateTokens(user)]. *)
Definition generateTokens (u : User) : Ex AuthDB exn (string * string) :=
  a ← fresh;
  r ← fresh;
  amongo;;
  d ← ex_get;
  let t := mkRT ("rt" +:+ r) ("refresh" +:+ r) (u_id u) (adb_now d + REFRESH_TTL) in
  ex_put (set_tokens (adb_tokens d ++ [t]) d);;
  mret ("access" +:+ a, rt_token t).

(** [RefreshToken.findOne({ token: v })]: the first token the cast filter
    accepts; a value Mongoose cannot cast throws. *)
Definition find_token (v : json) : Ex AuthDB exn (option RefreshToken) :=
  amongo;;
  match cast_str_query v with
  | None => throw! ExnCast
  | Some q => d ← ex_get; mret (List.find (fun t => query_holds q (rt_token t)) (adb_tokens d))
  end.

(** [RefreshToken.deleteOne({ _id })]. *)
Definition delete_token_id (id : string) : Ex AuthDB exn unit :=
  amongo;;
  ex_modify (fun d => set_tokens (filter (fun t => rt_id t <> id) (adb_tokens d)) d).

(** [RefreshToken.findOneAndDelete({ token: v })]. *)
Definition find_and_delete_token (v : json) : Ex AuthDB exn (option RefreshToken) :=
  t ← find_token v;
  match t with
  | None => mret None
  | Some t => delete_token_id (rt_id t);; mret (Some t)
  end.

Definition err500 (msg : string) : exn -> Ex AuthDB exn AuthResp :=
  fun _ => mret (mkAResp 500 (AMsg false msg)).

Definition str_field (k : string) (body : json) : string :=
  default "" (jstring (jget k body)).

Definition registerUserController (body : json) : Ex AuthDB exn AuthResp :=
  (match validateRegistration body with
   | Some msg => mret (mkAResp 400 (AMsg false msg))
   | None =>
       let username := str_field "username" body in
       let email := str_field "email" body in
       let password := str_field "password" body in
       existing ← find_user (fun u => String.eqb (u_username u) username ||
                                      String.eqb (u_email u) email);
       match existing with
       | Some _ => mret (mkAResp 400 (AMsg false "User already exists"))
       | None =>
           user ← save_user username email password;
           '(accessToken, refreshToken) ← generateTokens user;
           mret (mkAResp 201 (ATokens accessToken refreshToken))
       end
   end) catch! err500 "Internal server error".

Definition loginUserController (body : json) : Ex AuthDB exn AuthResp :=
  (match validateLogin body with
   | Some msg => mret (mkAResp 400 (AMsg false msg))
   | None =>
       let email := str_field "email" body in
       let password := str_field "password" body in
       user ← find_user (fun u => String.eqb (u_email u) email);
       match user with
       | None => mret (mkAResp 400 (AMsg false "Inavlid credentials"))
       | Some u =>
           if String.eqb (hash password) (u_password u) then
             '(accessToken, refreshToken) ← generateTokens u;
             mret (mkAResp 200 (ALogin accessToken refreshToken (u_id u)))
           else mret (mkAResp 400 (AMsg false "Inavlid password"))
       end
   end) catch! err500 "Internal server error".

(** [const { refreshToken } = req.body; if (!refreshToken)]: the value
    is missing when it is [undefined] or falsy ([null], [false], [0],
    [""]); any other JSON value, objects and arrays included, goes into
    the filter as it is. *)
Definition body_token (body : json) : option json :=
  match jget "refreshToken" body with
  | None | Some JNull | Some (JBool false) => None
  | Some (JNum z) => if Z.eqb z 0 then None else Some (JNum z)
  | Some (JStr t) => if String.eqb t "" then None else Some (JStr t)
  | Some v => Some v
  end.

Definition refreshTokenController (body : json) : Ex AuthDB exn AuthResp :=
  (match body_token body with
   | None => mret (mkAResp 400 (AMsg false "Refresh token missing"))
   | Some refreshToken =>
       storedToken ← find_token refreshToken;
       match storedToken with
       | None => mret (mkAResp 400 (AMsg false "Invalid refresh token"))
       | Some t =>
           d ← ex_get;
           if Z.ltb (rt_expiresAt t) (adb_now d) then
             mret (mkAResp 401 (AMsg false "Invalid or expired refresh token"))
           else
             user ← find_user (fun u => String.eqb (u_id u) (rt_user t));
             match user with
             | None => mret (mkAResp 401 (AMsg false "User not found"))
             | Some u =>
                 '(newAccessToken, newRefreshToken) ← generateTokens u;
                 delete_token_id (rt_id t);;
                 mret (mkAResp 200 (ATokens newAccessToken newRefreshToken))
             end
       end
   end) catch! err500 "Refresh token error occurred".

Definition logoutUserController (body : json) : Ex AuthDB exn AuthResp :=
  (match body_token body with
   | None => mret (mkAResp 400 (AMsg false "Refresh token missing"))
   | Some refreshToken =>
       storedToken ← find_and_delete_token refreshToken;
       match storedToken with
       | None => mret (mkAResp 400 (AMsg false "Invalid refresh token"))
       | Some _ => mret (mkAResp 200 (AMsg true "Logged out successfully!"))
       end
   end) catch! err500 "Error while logging out".

End Auth.

Arguments set_users _ _ /.
Arguments set_tokens _ _ /.

(** [routes/auth-service-route.js]: the four POST routes. *)
Inductive AuthReq :=
| PostRegister (body : json)
| PostLogin (body : json)
| PostRefresh (body : json)
| PostLogout (body : json).

Definition authRouter (hash : string -> string) (validateRegistration validateLogin : json -> option string)
    (r : AuthReq) : Ex AuthDB exn AuthResp :=
  match r with
  | PostRegister b => registerUserController hash validateRegistration b
  | PostLogin b => loginUserController hash validateLogin b
  | PostRefresh b => refreshTokenController b
  | PostLogout b => logoutUserController b
  end.

(** The auth service in its environment: requests handled one at a time,
    the clock moving forward, Mongo going down and coming back. *)
Inductive auth_step hash vr vl : AuthDB -> AuthDB -> Prop :=
| astep_req r d : auth_step hash vr vl d (snd (authRouter hash vr vl r d))
| astep_tick dt d : (0 <= dt)%Z ->
    auth_step hash vr vl d (mkADB (adb_users d) (adb_tokens d) (adb_next d) (adb_now d + dt) (adb_up d))
| astep_mongo b d :
    auth_step hash vr vl d (mkADB (adb_users d) (adb_tokens d) (adb_next d) (adb_now d) b).

(** The refresh tokens the service issued: the [n]-th fresh value gives
    the document id [rt<n>] and the token [refresh<n>], and [n] is below
    the counter. *)
Definition issued (n : N) (t : RefreshToken) : Prop :=
  rt_id t = "rt" +:+ pretty n /\ rt_token t = "refresh" +:+ pretty n.

Definition tokens_wf (d : AuthDB) : Prop :=
  Forall (fun t => exists n, (n < adb_next d)%N /\ issued n t) (adb_tokens d).

(** No two users share an email or a username. *)
Definition users_unique (d : AuthDB) : Prop :=
  NoDup (u_email <$> adb_users d) /\ NoDup (u_username <$> adb_users d).

Definition auth_inv (d : AuthDB) : Prop := tokens_wf d /\ users_unique d.

(** What a handler other than registration may do to the store: the
    users, clock and connection stay, the counter grows, and every token
    it keeps is old or freshly issued. *)
Definition grows (d d' : AuthDB) : Prop :=
  adb_users d' = adb_users d /\ adb_now d' = adb_now d /\ adb_up d' = adb_up d /\
  (adb_next d <= adb_next d')%N /\
  forall t, t ∈ adb_tokens d' -> t ∈ adb_tokens d \/
    exists n, (adb_next d <= n < adb_next d')%N /\ issued n t.

Abbreviation only_grows := (ex_mono (E:=exn) grows).

(** ** The store primitives and the handlers that only grow the store *)

#[export] Instance grows_preorder : PreOrder grows.
Proof.
  split.
  - intros d. repeat split; [lia|]. intros t Ht. by left.
  - intros d1 d2 d3 (Hu1 & Hn1 & Hp1 & Hx1 & Ht1) (Hu2 & Hn2 & Hp2 & Hx2 & Ht2).
    repeat split; try congruence; [lia|]. intros t Ht.
    destruct (Ht2 t Ht) as [Ht'|[n [Hn Hi]]].
    + destruct (Ht1 t Ht') as [?|[n [Hn Hi]]]; [by left|right; exists n; split; [lia|done]].
    + right. exists n. split; [lia|done].
Qed.

Lemma amongo_run d : amongo d = (if adb_up d then inr tt else inl ExnMongo, d).
Proof. unfold amongo. by destruct (adb_up d). Qed.

Lemma find_user_run f d :
  find_user f d = (if adb_up d then inr (List.find f (adb_users d)) else inl ExnMongo, d).
Proof. destruct d as [us ts n now []]; reflexivity. Qed.

(** [generateTokens] draws two fresh values [n] (access) and [n+1]
    (refresh) and, when Mongo is up, stores the token [n+1]. *)
Lemma generateTokens_run u d :
  let n := adb_next d in
  generateTokens u d =
    if adb_up d then
      (inr ("access" +:+ pretty n, "refresh" +:+ pretty (N.succ n)),
       mkADB (adb_users d)
         (adb_tokens d ++ [mkRT ("rt" +:+ pretty (N.succ n)) ("refresh" +:+ pretty (N.succ n))
                              (u_id u) (adb_now d + REFRESH_TTL)])
         (N.succ (N.succ n)) (adb_now d) true)
    else (inl ExnMongo, mkADB (adb_users d) (adb_tokens d) (N.succ (N.succ n)) (adb_now d) false).
Proof. destruct d as [us ts n now []]; reflexivity. Qed.

Lemma delete_token_id_run id d :
  delete_token_id id d =
    if adb_up d then (inr tt, set_tokens (filter (fun t => rt_id t <> id) (adb_tokens d)) d)
    else (inl ExnMongo, d).
Proof. destruct d as [us ts n now []]; reflexivity. Qed.

Lemma find_token_run v d :
  find_token v d =
    (if adb_up d then
       match cast_str_query v with
       | None => inl ExnCast
       | Some q => inr (List.find (fun t => query_holds q (rt_token t)) (adb_tokens d))
       end
     else inl ExnMongo, d).
Proof.
  destruct d as [us ts n now []]; [|reflexivity].
  unfold find_token. ex_simp. by destruct (cast_str_query v).
Qed.

Lemma find_user_grows f : only_grows (find_user f).
Proof. apply (ex_mono_same grows). intros d. by rewrite find_user_run. Qed.

Lemma find_token_grows v : only_grows (find_token v).
Proof. apply (ex_mono_same grows). intros d. by rewrite find_token_run. Qed.

Lemma delete_token_id_grows id : only_grows (delete_token_id id).
Proof.
  intros d. rewrite delete_token_id_run. destruct (adb_up d); [|reflexivity].
  unfold grows; cbn. repeat split; [lia|]. intros t Ht. left. by apply list_elem_of_filter in Ht as [_ ?].
Qed.

Lemma generateTokens_grows u : only_grows (generateTokens u).
Proof.
  intros d. rewrite generateTokens_run. unfold grows.
  destruct (adb_up d) eqn:Hup; cbn; (repeat split; [lia|]).
  - intros t [Ht| ->%list_elem_of_singleton]%elem_of_app; [by left|right].
    exists (N.succ (adb_next d)). split; [lia|done].
  - intros t Ht. by left.
Qed.

Create HintDb auth discriminated.
#[export] Hint Resolve find_user_grows find_token_grows
  delete_token_id_grows generateTokens_grows : auth.

(** Take a handler apart along its binds, [catch] and branches, and close
    the leaves with the primitives' lemmas. *)
Ltac grows_tac := unfold err500; ex_mono_split; eauto with auth.

Lemma find_and_delete_token_grows v : only_grows (find_and_delete_token v).
Proof. unfold find_and_delete_token. grows_tac. Qed.
#[export] Hint Resolve find_and_delete_token_grows : auth.

Lemma loginUserController_grows hash vl b : only_grows (loginUserController hash vl b).
Proof. unfold loginUserController. grows_tac. Qed.

Lemma refreshTokenController_grows b : only_grows (refreshTokenController b).
Proof. unfold refreshTokenController. grows_tac. Qed.

Lemma logoutUserController_grows b : only_grows (logoutUserController b).
Proof. unfold logoutUserController. grows_tac. Qed.

Lemma grows_inv d d' : auth_inv d -> grows d d' -> auth_inv d'.
Proof.
  intros [Hwf [He Hu]] (Hus & _ & _ & Hn & Ht). unfold auth_inv, tokens_wf, users_unique.
  rewrite Hus. split; [|done]. apply Forall_forall. intros t Hin.
  destruct (Ht t Hin) as [Hold|[n [Hn' Hi]]]; [|exists n; split; [lia|done]].
  apply Forall_forall with (x := t) in Hwf as [n [? ?]]; [|done]. exists n. split; [lia|done].
Qed.

(** ** Registration *)

Lemma save_user_run hash x y p d :
  save_user hash x y p d =
    let n := adb_next d in
    let u := mkUser ("user" +:+ pretty n) x y (hash p) in
    if adb_up d then (inr u, mkADB (adb_users d ++ [u]) (adb_tokens d) (N.succ n) (adb_now d) true)
    else (inl ExnMongo, mkADB (adb_users d) (adb_tokens d) (N.succ n) (adb_now d) false).
Proof. destruct d as [us ts n now []]; reflexivity. Qed.

(** A user no one matches on username or email keeps both unique. *)
Lemma nodup_snoc {A} (f : User -> A) (us : list User) u :
  NoDup (f <$> us) -> (forall u', u' ∈ us -> f u' <> f u) -> NoDup (f <$> us ++ [u]).
Proof.
  intros Hnd Hne. rewrite fmap_app. apply NoDup_app. split; [done|]. split; [|apply NoDup_singleton].
  intros x (u' & -> & Hin)%list_elem_of_fmap Hx%list_elem_of_singleton. by apply (Hne u').
Qed.

Lemma users_unique_snoc d ts n now up u :
  users_unique d ->
  List.find (fun u' => String.eqb (u_username u') (u_username u) ||
                       String.eqb (u_email u') (u_email u)) (adb_users d) = None ->
  users_unique (mkADB (adb_users d ++ [u]) ts n now up).
Proof.
  intros [He Hu] Hf. pose proof (find_none _ _ Hf) as Hn.
  split; simpl; apply nodup_snoc; try done; intros u' Hin%list_elem_of_In Heq;
    specialize (Hn u' Hin); apply orb_false_iff in Hn as [H1 H2];
    [apply String.eqb_neq in H2|apply String.eqb_neq in H1]; done.
Qed.

(** Registration appends a user only when no user has the username or the
    email, and otherwise only grows the store. *)
Lemma registerUserController_inv hash vr b d :
  auth_inv d -> auth_inv (snd (registerUserController hash vr b d)).
Proof.
  intros Hinv. unfold registerUserController. destruct (vr b) as [msg|]; [done|]. cbv zeta.
  destruct (adb_up d) eqn:Hup; [|unfold ex_catch, mbind, ex_bind; by rewrite find_user_run, Hup].
  erewrite ex_catch_bind_inr by (rewrite find_user_run, Hup; reflexivity).
  destruct (List.find _ (adb_users d)) eqn:Hf; [done|].
  erewrite ex_catch_bind_inr by (rewrite save_user_run, Hup; reflexivity).
  eapply grows_inv; [|apply (ex_mono_catch grows); grows_tac].
  destruct Hinv as [Hwf Hu]. split; [|by apply users_unique_snoc].
  eapply Forall_impl; [apply Hwf|]. intros t [n' [? ?]]. exists n'. split; [simpl; lia|done].
Qed.

Lemma auth_step_inv hash vr vl d d' : auth_step hash vr vl d d' -> auth_inv d -> auth_inv d'.
Proof.
  intros [[b|b|b|b] d0|dt d0 _|up d0] Hinv; simpl.
  - by apply registerUserController_inv.
  - eapply grows_inv; [done|apply loginUserController_grows].
  - eapply grows_inv; [done|apply refreshTokenController_grows].
  - eapply grows_inv; [done|apply logoutUserController_grows].
  - exact Hinv.
  - exact Hinv.
Qed.

(** ** Refreshing *)

(** A refresh answered 200 found an unexpired token [t0] through the cast
    filter and its user [u], issued the refresh token [n+1], and deleted
    every token with [t0]'s document id. *)
Lemma refreshTokenController_200 b d a r :
  fst (refreshTokenController b d) = inr (mkAResp 200 (ATokens a r)) ->
  exists v q t0 u,
    body_token b = Some v /\ cast_str_query v = Some q /\ adb_up d = true /\
    List.find (fun t => query_holds q (rt_token t)) (adb_tokens d) = Some t0 /\
    List.find (fun u => String.eqb (u_id u) (rt_user t0)) (adb_users d) = Some u /\
    (adb_now d <= rt_expiresAt t0)%Z /\
    r = "refresh" +:+ pretty (N.succ (adb_next d)) /\
    snd (refreshTokenController b d) =
      mkADB (adb_users d)
        (filter (fun t => rt_id t <> rt_id t0)
           (adb_tokens d ++ [mkRT ("rt" +:+ pretty (N.succ (adb_next d))) r (u_id u)
                               (adb_now d + REFRESH_TTL)]))
        (N.succ (N.succ (adb_next d))) (adb_now d) true.
Proof.
  destruct d as [us ts n now up]. unfold refreshTokenController, find_token, find_user,
    delete_token_id, generateTokens, fresh, amongo.
  destruct (body_token b) as [v|]; [|ex_simp; congruence].
  destruct up; [|ex_simp; congruence].
  destruct (cast_str_query v) as [q|] eqn:Hq; ex_simp; [|congruence].
  destruct (List.find _ ts) as [t0|] eqn:Ht; simpl; [|congruence].
  destruct (Z.ltb_spec (rt_expiresAt t0) now); simpl; [congruence|].
  destruct (List.find _ us) as [u|] eqn:Hu; simpl; [|congruence].
  intros [= <- <-]. by exists v, q, t0, u.
Qed.

Lemma issued_inj n n' t t' : issued n t -> issued n' t' -> rt_token t = rt_token t' -> n = n'.
Proof. intros [_ H1] [_ H2] E. rewrite H1, H2 in E. by apply append_inj_l, (inj pretty) in E. Qed.

(** Two stored tokens with the same string are the same document. *)
Lemma tokens_wf_same_id d t t' :
  tokens_wf d -> t ∈ adb_tokens d -> t' ∈ adb_tokens d -> rt_token t = rt_token t' -> rt_id t = rt_id t'.
Proof.
  intros Hwf Ht Ht' E.
  destruct (proj1 (Forall_forall _ _) Hwf t Ht) as [n [_ Hn]].
  destruct (proj1 (Forall_forall _ _) Hwf t' Ht') as [n' [_ Hn']].
  pose proof (issued_inj _ _ _ _ Hn Hn' E) as <-. by rewrite (proj1 Hn), (proj1 Hn').
Qed.

(** The body [{ refreshToken: "<tok>" }] with a non-empty string. *)
Definition token_body (tok : string) : json := JObj [("refreshToken", JStr tok)].

Lemma token_body_query tok v q :
  body_token (token_body tok) = Some v -> cast_str_query v = Some q ->
  forall s, query_holds q s = bool_decide (s = tok).
Proof.
  unfold body_token, token_body. simpl. destruct (String.eqb tok ""); [done|].
  intros [= <-] [= <-] s. simpl. rewrite andb_true_r. apply bool_decide_ext. naive_solver.
Qed.

(** A refresh whose filter matches no stored token is answered 400 and
    changes nothing. *)
Lemma refresh_unknown b d v q :
  adb_up d = true -> body_token b = Some v -> cast_str_query v = Some q ->
  List.find (fun t => query_holds q (rt_token t)) (adb_tokens d) = None ->
  refreshTokenController b d = (inr (mkAResp 400 (AMsg false "Invalid refresh token")), d).
Proof.
  destruct d as [us ts n now up]. simpl. intros -> Hb Hq Hf.
  unfold refreshTokenController, find_token, amongo. rewrite Hb. ex_simp. rewrite Hq. simpl. by rewrite Hf.
Qed.

Lemma issued_below d t : tokens_wf d -> t ∈ adb_tokens d -> exists n, (n < adb_next d)%N /\ issued n t.
Proof. intros Hwf Ht. exact (proj1 (Forall_forall _ _) Hwf t Ht). Qed.

(** A logout answered 200 found a token [t0] through the cast filter and
    deleted every token with [t0]'s document id. *)
Lemma logoutUserController_200 b d m :
  fst (logoutUserController b d) = inr (mkAResp 200 m) ->
  exists v q t0,
    body_token b = Some v /\ cast_str_query v = Some q /\ adb_up d = true /\
    List.find (fun t => query_holds q (rt_token t)) (adb_tokens d) = Some t0 /\
    snd (logoutUserController b d) =
      mkADB (adb_users d) (filter (fun t => rt_id t <> rt_id t0) (adb_tokens d))
        (adb_next d) (adb_now d) true.
Proof.
  destruct d as [us ts n now up]. unfold logoutUserController, find_and_delete_token, find_token,
    delete_token_id, amongo.
  destruct (body_token b) as [v|]; [|ex_simp; congruence].
  destruct up; [|ex_simp; congruence].
  destruct (cast_str_query v) as [q|] eqn:Hq; ex_simp; [|congruence].
  destruct (List.find _ ts) as [t0|] eqn:Ht; simpl; [|congruence].
  intros _. by exists v, q, t0.
Qed.

(** The filter [{ $ne: null }] accepts every stored token. *)
Definition ne_null_body : json := JObj [("refreshToken", JObj [("$ne", JNull)])].

Lemma ne_null_query : cast_str_query (JObj [("$ne", JNull)]) = Some [OpNe None].
Proof. reflexivity. Qed.

Lemma ne_null_holds s : query_holds [OpNe None] s = true.
Proof. reflexivity. Qed.

(** ** Properties of the auth service *)

(** C22: the auth store's invariant.  On every state reachable from a
    well-formed one by requests to the four routes, clock ticks and Mongo
    outages, every stored refresh token is one the service issued (its
    document id and token string carry the same fresh number, below the
    counter), and no two users share an email or a username. *)
Theorem auth_inv_reachable hash vr vl d0 d :
  auth_inv d0 -> rtc (auth_step hash vr vl) d0 d -> auth_inv d.
Proof. intros H0 Hr. induction Hr; eauto using auth_step_inv. Qed.

(** C23: refresh tokens are single use.  After [refreshTokenController]
    answers 200 to [{ refreshToken: tok }], the same request is answered
    400 "Invalid refresh token" and changes nothing: the old document is
    deleted and the token issued in its place is a different string. *)
Theorem refresh_single_use tok d a r :
  tokens_wf d ->
  fst (refreshTokenController (token_body tok) d) = inr (mkAResp 200 (ATokens a r)) ->
  let d' := snd (refreshTokenController (token_body tok) d) in
  refreshTokenController (token_body tok) d' =
    (inr (mkAResp 400 (AMsg false "Invalid refresh token")), d').
Proof.
  intros Hwf H200 d'.
  destruct (refreshTokenController_200 _ _ _ _ H200) as (v & q & t0 & u & Hb & Hq & _ & Ht0 & _ & _ & Hr & Hd).
  subst d'. rewrite Hd. apply (refresh_unknown _ _ v q); [done..|].
  pose proof (token_body_query _ _ _ Hb Hq) as Hqs.
  apply find_some_elem in Ht0 as [Hin0 Htok0]. rewrite Hqs in Htok0. apply bool_decide_eq_true in Htok0.
  destruct (issued_below d t0 Hwf Hin0) as [n0 [Hlt [_ Hn0]]].
  apply find_none_forall. intros t Ht. rewrite Hqs. apply bool_decide_eq_false. intros Htok.
  simpl in Ht. apply list_elem_of_filter in Ht as [Hid Ht].
  apply elem_of_app in Ht as [Ht| ->%list_elem_of_singleton].
  - apply Hid, (tokens_wf_same_id d); congruence.
  - simpl in Htok. rewrite Hr, <- Htok0, Hn0 in Htok.
    apply append_inj_l, (inj pretty) in Htok. lia.
Qed.

(** C24: logout revokes.  After [logoutUserController] answers 200 to
    [{ refreshToken: tok }], refreshing with [tok] is answered 400 and
    changes nothing. *)
Theorem logout_revokes tok d m :
  tokens_wf d ->
  fst (logoutUserController (token_body tok) d) = inr (mkAResp 200 m) ->
  let d' := snd (logoutUserController (token_body tok) d) in
  refreshTokenController (token_body tok) d' =
    (inr (mkAResp 400 (AMsg false "Invalid refresh token")), d').
Proof.
  intros Hwf H200 d'.
  destruct (logoutUserController_200 _ _ _ H200) as (v & q & t0 & Hb & Hq & _ & Ht0 & Hd).
  subst d'. rewrite Hd. apply (refresh_unknown _ _ v q); [done..|].
  pose proof (token_body_query _ _ _ Hb Hq) as Hqs.
  apply find_some_elem in Ht0 as [Hin0 Htok0]. rewrite Hqs in Htok0. apply bool_decide_eq_true in Htok0.
  apply find_none_forall. intros t Ht. rewrite Hqs. apply bool_decide_eq_false. intros Htok.
  simpl in Ht. apply list_elem_of_filter in Ht as [Hid Ht].
  apply Hid, (tokens_wf_same_id d); congruence.
Qed.

(** C25: the refresh endpoint takes a query operator for a token.  The
    body [{ refreshToken: { $ne: null } }] is truthy, is passed to
    [RefreshToken.findOne] unchecked, and matches the first stored token:
    a client that holds no token obtains a fresh access and refresh token
    for the user of that token, stored under that user. *)
Theorem refresh_operator_injection d t0 ts u :
  tokens_wf d -> adb_up d = true -> adb_tokens d = t0 :: ts -> (adb_now d <= rt_expiresAt t0)%Z ->
  List.find (fun u => String.eqb (u_id u) (rt_user t0)) (adb_users d) = Some u ->
  let r := refreshTokenController ne_null_body d in
  fst r = inr (mkAResp 200 (ATokens ("access" +:+ pretty (adb_next d))
                                    ("refresh" +:+ pretty (N.succ (adb_next d))))) /\
  exists t, t ∈ adb_tokens (snd r) /\ rt_token t = "refresh" +:+ pretty (N.succ (adb_next d)) /\
            rt_user t = u_id u.
Proof.
  intros Hwf Hup Hts Hexp Hu r. subst r.
  destruct (issued_below d t0 Hwf) as [n0 [Hlt [Hid0 _]]]; [rewrite Hts; apply list_elem_of_here|].
  destruct d as [us ts' n now up]. simpl in *. subst up ts'.
  unfold refreshTokenController, find_token, find_user, delete_token_id, generateTokens, fresh, amongo.
  ex_simp.
  destruct (Z.ltb_spec (rt_expiresAt t0) now); [lia|]. simpl. rewrite Hu. simpl.
  split; [done|].
  exists (mkRT ("rt" +:+ pretty (N.succ n)) ("refresh" +:+ pretty (N.succ n)) (u_id u) (now + REFRESH_TTL)).
  split; [|done]. apply list_elem_of_filter. split.
  - simpl. rewrite Hid0. intros Hid. apply append_inj_l, (inj pretty) in Hid. lia.
  - apply list_elem_of_further, elem_of_app. right. by apply list_elem_of_singleton.
Qed.

(** C26: the three outcomes of a valid login with Mongo up.  An unknown
    email is answered 400 "Inavlid credentials", a known email with a
    wrong password 400 "Inavlid password" (the two messages tell a client
    which emails are registered), both without touching the store; the
    right password is answered 200 with a fresh access and refresh token
    and the user's id, and the refresh token is stored. *)
Theorem login_outcomes hash vl b d :
  vl b = None -> adb_up d = true ->
  let email := str_field "email" b in
  let password := str_field "password" b in
  let found := List.find (fun u => String.eqb (u_email u) email) (adb_users d) in
  (found = None ->
     loginUserController hash vl b d = (inr (mkAResp 400 (AMsg false "Inavlid credentials")), d)) /\
  (forall u, found = Some u -> hash password <> u_password u ->
     loginUserController hash vl b d = (inr (mkAResp 400 (AMsg false "Inavlid password")), d)) /\
  (forall u, found = Some u -> hash password = u_password u ->
     fst (loginUserController hash vl b d) =
       inr (mkAResp 200 (ALogin ("access" +:+ pretty (adb_next d))
                               ("refresh" +:+ pretty (N.succ (adb_next d))) (u_id u))) /\
     snd (loginUserController hash vl b d) = snd (generateTokens u d)).
Proof.
  destruct d as [us ts n now up]. intros Hv Hup email password found. simpl in Hup. subst up.
  unfold loginUserController, find_user, amongo. rewrite Hv. ex_simp. fold email password found.
  split; [|split].
  - intros Hf. by rewrite Hf.
  - intros usr Hf Hne. rewrite Hf. simpl. by destruct (String.eqb_spec (hash password) (u_password usr)).
  - intros usr Hf Heq. rewrite Hf. simpl. rewrite Heq, String.eqb_refl. unfold generateTokens. ex_simp. done.
Qed.

End Auth.

(** ** Concrete runs: one registered user *)

Module AuthRuns.
Import Auth.

Definition hash_id (s : string) : string := s.
Definition accept (_ : json) : option string := None.
Definition adb0 : AuthDB := mkADB [] [] 0 0 true.
Definition reg_alice : json :=
  JObj [("username", JStr "alice"); ("email", JStr "a@x"); ("password", JStr "pw")].
Definition login_alice : json := JObj [("email", JStr "a@x"); ("password", JStr "pw")].

(** After registration: user [user0] and the refresh token [refresh2]. *)
Definition adbA : AuthDB := snd (registerUserController hash_id accept reg_alice adb0).
Definition alice : User := mkUser "user0" "alice" "a@x" "pw".
Definition rt_alice : RefreshToken := mkRT "rt2" "refresh2" "user0" REFRESH_TTL.

Lemma adbA_eq : adbA = mkADB [alice] [rt_alice] 3 0 true.
Proof. reflexivity. Qed.

Lemma auth_inv_adb0 : auth_inv adb0.
Proof. split; [constructor|split; constructor]. Qed.

Lemma tokens_wf_adbA : tokens_wf adbA.
Proof.
  rewrite adbA_eq. unfold tokens_wf. simpl. constructor; [|constructor].
  exists 2%N. split; [lia|split; reflexivity].
Qed.

Lemma auth_inv_reachable_witness :
  auth_inv (snd (refreshTokenController (token_body "refresh2") adbA)).
Proof.
  apply (auth_inv_reachable hash_id accept accept adb0); [apply auth_inv_adb0|].
  eapply rtc_l; [apply (astep_req _ _ _ (PostRegister reg_alice))|].
  apply rtc_once, (astep_req _ _ _ (PostRefresh (token_body "refresh2"))).
Defined.

Lemma refresh_single_use_witness :
  let d' := snd (refreshTokenController (token_body "refresh2") adbA) in
  refreshTokenController (token_body "refresh2") d' =
    (inr (mkAResp 400 (AMsg false "Invalid refresh token")), d').
Proof.
  apply (refresh_single_use "refresh2" adbA "access3" "refresh4");
    [apply tokens_wf_adbA|vm_compute; reflexivity].
Defined.

Lemma logout_revokes_witness :
  let d' := snd (logoutUserController (token_body "refresh2") adbA) in
  refreshTokenController (token_body "refresh2") d' =
    (inr (mkAResp 400 (AMsg false "Invalid refresh token")), d').
Proof.
  apply (logout_revokes "refresh2" adbA (AMsg true "Logged out successfully!"));
    [apply tokens_wf_adbA|vm_compute; reflexivity].
Defined.

Lemma refresh_operator_injection_witness :
  let r := refreshTokenController ne_null_body adbA in
  fst r = inr (mkAResp 200 (ATokens ("access" +:+ pretty (adb_next adbA))
                                    ("refresh" +:+ pretty (N.succ (adb_next adbA))))) /\
  exists t, t ∈ adb_tokens (snd r) /\ rt_token t = "refresh" +:+ pretty (N.succ (adb_next adbA)) /\
            rt_user t = u_id alice.
Proof.
  apply (refresh_operator_injection adbA rt_alice []);
    [apply tokens_wf_adbA|reflexivity|reflexivity|rewrite adbA_eq; cbv; discriminate|reflexivity].
Defined.

Lemma login_outcomes_witness :
  let email := str_field "email" login_alice in
  let password := str_field "password" login_alice in
  let found := List.find (fun u => String.eqb (u_email u) email) (adb_users adbA) in
  (found = None ->
     loginUserController hash_id accept login_alice adbA =
       (inr (mkAResp 400 (AMsg false "Inavlid credentials")), adbA)) /\
  (forall u, found = Some u -> hash_id password <> u_password u ->
     loginUserController hash_id accept login_alice adbA =
       (inr (mkAResp 400 (AMsg false "Inavlid password")), adbA)) /\
  (forall u, found = Some u -> hash_id password = u_password u ->
     fst (loginUserController hash_id accept login_alice adbA) =
       inr (mkAResp 200 (ALogin ("access" +:+ pretty (adb_next adbA))
                               ("refresh" +:+ pretty (N.succ (adb_next adbA))) (u_id u))) /\
     snd (loginUserController hash_id accept login_alice adbA) = snd (generateTokens u adbA)).
Proof. apply login_outcomes; reflexivity. Defined.

End AuthRuns.
