(* ===== verification/AuthIndex.v ===== *)
(** The auth service's request pipeline, [src/auth-service/src/index.js]:
    the two rate limiters in front of the router of [AuthService.v].

    Both limiters count requests per client IP in the service's Redis
    ([redisClient], line 20):
    - [rateLimiter] (rate-limiter-flexible's [RateLimiterRedis], lines
      36-54) runs on every request, with 10 points per second under the
      key ["middelware:" + ip];
    - [sensitiveEndpointsLimits] (express-rate-limit over rate-limit-redis'
      [RedisStore], lines 57-75) runs on [/api/auth/register] only, with
      50 requests per 15 minutes under ["rl:" + ip].
    The libraries are not under src/.  Both stores run one fixed-window
    script per request ([incr_window]): a key that is missing or expired
    restarts at 1 with an expiry one window ahead ([SET .. NX EX] then
    [INCRBY] / [INCR] then [PEXPIRE] when the key has no TTL); a live key
    is incremented and keeps its expiry.  The limit is checked after the
    increment, so a refused request still counts.

    [RLStore] is that Redis: the counters with their absolute expiry in
    milliseconds, the server's clock, and whether the server answers.  An
    unreachable Redis makes both stores reject.  [rateLimiter]'s [.catch]
    answers 429 to any rejection.  express-rate-limit passes a store error
    to [next(err)], the service's error handler; it is modelled as the
    thrown exception ([inl]), since that handler is not under src/.

    Theorems: the router never answers 429, so a 429 comes from a limiter;
    and the fixed-window bound of each limiter over the whole pipeline:
    within any interval of one window's length, at most [2 * points - 1]
    requests of one IP get past it (19 a second, 99 registrations in 15
    minutes), and the per-second bound is reached. *)

From S2P Require Import Prelude Json AuthService.

Module AuthIndex.
Import Auth.

(** ** The limiters' Redis *)

Record RLStore := mkRL {
  rl_keys : gmap string (nat * Z);   (** counter, expiry (ms, absolute) *)
  rl_now : Z;
  rl_up : bool;
}.

(** The options a limiter is created with. *)
Record WindowLimiter := mkLimiter {
  lim_prefix : string;
  lim_points : nat;
  lim_window : Z;   (** ms *)
}.

(** [new RateLimiterRedis({ keyPrefix: 'middelware', points: 10,
    duration: 1 })]: the key is [keyPrefix + ':' + key], the duration is in
    seconds. *)
Definition rateLimiter : WindowLimiter := mkLimiter "middelware:" 10 1000.

(** [rateLimit({ windowMs: 15 * 60 * 1000, max: 50, store: new
    RedisStore(..) })]: [RedisStore]'s default prefix is ["rl:"], the key
    is [req.ip]. *)
Definition sensitiveEndpointsLimits : WindowLimiter := mkLimiter "rl:" 50 (15 * 60 * 1000).

(** The entry of [k] if it has not expired. *)
Definition live_entry (k : string) (s : RLStore) : option (nat * Z) :=
  match rl_keys s !! k with
  | Some (n, e) => if bool_decide (rl_now s < e)%Z then Some (n, e) else None
  | None => None
  end.

(** The fixed-window increment both stores run: the new count of [k]. *)
Definition incr_window (k : string) (w : Z) : Ex RLStore exn nat := fun s =>
  if rl_up s then
    let ne := match live_entry k s with
              | Some (n, e) => (S n, e)
              | None => (1%nat, (rl_now s + w)%Z)
              end in
    (inr ne.1, mkRL (<[k := ne]> (rl_keys s)) (rl_now s) true)
  else (inl ExnRedis, s).

(** [limiter.consume(key)] / [store.increment(key)]: the request may pass
    when the count after the increment is at most the limit. *)
Definition consume (l : WindowLimiter) (key : string) : Ex RLStore exn bool :=
  n ← incr_window (lim_prefix l +:+ key) (lim_window l);
  mret (bool_decide (n <= lim_points l)%nat).

(** ** The fixed-window counter *)

(** The count and expiry [incr_window] writes. *)
Definition window_next (k : string) (w : Z) (s : RLStore) : nat * Z :=
  match live_entry k s with
  | Some (n, e) => (S n, e)
  | None => (1%nat, (rl_now s + w)%Z)
  end.

Lemma incr_window_up k w s :
  rl_up s = true ->
  incr_window k w s =
    (inr (window_next k w s).1, mkRL (<[k := window_next k w s]> (rl_keys s)) (rl_now s) true).
Proof. unfold incr_window. by intros ->. Qed.

Lemma incr_window_down k w s : rl_up s = false -> incr_window k w s = (inl ExnRedis, s).
Proof. unfold incr_window. by intros ->. Qed.

Lemma incr_window_frame k k' w s :
  k' <> k ->
  rl_keys (snd (incr_window k' w s)) !! k = rl_keys s !! k /\
  rl_now (snd (incr_window k' w s)) = rl_now s.
Proof.
  intros Hne. unfold incr_window. destruct (rl_up s); simpl; [|done].
  by rewrite lookup_insert_ne.
Qed.

Section Window.
Context (p : nat) (w : Z) (k : string) (a : Z).
Hypotheses (Hp : (1 <= p)%nat) (Hw : (0 < w)%Z).

(** The entry of [k] in the store a limiter builds: a count of at least
    one, and an expiry at most one window ahead of the clock. *)
Definition win_wf (s : RLStore) : Prop :=
  forall n e, rl_keys s !! k = Some (n, e) -> (1 <= n)%nat /\ (e <= rl_now s + w)%Z.

(** [h] requests passed at times in [[a, a + w)].  A window that opened
    before [a] let through at most its count but its opener; a window
    that opened at [a] or later, at most its count and [p - 1] more of the
    window before it. *)
Definition win_inv (h : nat) (s : RLStore) : Prop :=
  win_wf s /\
  match rl_keys s !! k with
  | Some (n, e) =>
      if bool_decide (a < e)%Z then
        if bool_decide (e - w < a)%Z then (h + 1 <= Nat.min n p)%nat
        else (h + 1 <= p + Nat.min n p)%nat
      else h = 0%nat
  | None => h = 0%nat
  end.

Lemma win_inv_init s : win_wf s -> win_inv 0 s.
Proof.
  intros Hwf. split; [done|]. destruct (rl_keys s !! k) as [[n e]|] eqn:Hk; [|done].
  destruct (Hwf n e Hk) as [Hn _]. repeat case_bool_decide; lia.
Qed.

Lemma win_inv_bound h s : win_inv h s -> (h + 1 <= 2 * p)%nat.
Proof.
  intros [_ Hi]. destruct (rl_keys s !! k) as [[n e]|]; [|lia].
  repeat case_bool_decide; lia.
Qed.

Lemma win_inv_le h h' s : win_inv h s -> (h' <= h)%nat -> win_inv h' s.
Proof.
  intros [Hwf Hi] Hle. split; [done|]. destruct (rl_keys s !! k) as [[n e]|]; [|lia].
  repeat case_bool_decide; lia.
Qed.

(** Requests under other keys leave [k] alone. *)
Lemma win_inv_frame h s s' :
  rl_keys s' !! k = rl_keys s !! k -> (rl_now s <= rl_now s')%Z -> win_inv h s -> win_inv h s'.
Proof.
  intros Hk Hnow [Hwf Hi]. split; [|by rewrite Hk].
  intros n e He. rewrite Hk in He. destruct (Hwf n e He). lia.
Qed.

(** The increment of [k] at a time before the end of the interval: the
    request counts when it is in the interval and passes. *)
Lemma win_inv_incr h s :
  win_inv h s -> rl_up s = true -> (rl_now s < a + w)%Z ->
  let n := (window_next k w s).1 in
  win_inv (h + if bool_decide (a <= rl_now s)%Z && bool_decide (n <= p)%nat then 1 else 0)
    (mkRL (<[k := window_next k w s]> (rl_keys s)) (rl_now s) true).
Proof.
  intros [Hwf Hi] Hup Ht n. unfold n, window_next, live_entry in *.
  split.
  - intros n' e'. simpl. rewrite lookup_insert_eq.
    destruct (rl_keys s !! k) as [[m e]|] eqn:Hk;
      [destruct (Hwf m e Hk); destruct (bool_decide (rl_now s < e)%Z) eqn:Hb;
       [apply bool_decide_eq_true in Hb|]|]; intros [= <- <-]; lia.
  - simpl. rewrite lookup_insert_eq. clear n.
    destruct (rl_keys s !! k) as [[m e]|] eqn:Hk; cbn [fst snd];
      [destruct (Hwf m e Hk); destruct (bool_decide (rl_now s < e)%Z) eqn:Hb;
       [apply bool_decide_eq_true in Hb|apply bool_decide_eq_false in Hb]; cbn [fst snd]|];
      repeat case_bool_decide; cbn [andb] in *; lia.
Qed.
End Window.

(** ** The app *)

Record AppState := mkApp { app_rl : RLStore; app_db : AuthDB }.

Definition lift_rl {A} (m : Ex RLStore exn A) : Ex AppState exn A :=
  fun s => let '(r, x) := m (app_rl s) in (r, mkApp x (app_db s)).

Definition lift_adb {A} (m : Ex AuthDB exn A) : Ex AppState exn A :=
  fun s => let '(r, d) := m (app_db s) in (r, mkApp (app_rl s) d).

(** A request: the client's address ([req.ip]) and the route it asks. *)
Record AppReq := mkReq { req_ip : string; req_route : AuthReq }.

(** [app.use('/api/auth/register', sensitiveEndpointsLimits)]: of the
    router's paths, only the registration is under that prefix. *)
Definition is_register (r : AuthReq) : bool :=
  match r with PostRegister _ => true | _ => false end.

Definition too_many : AuthResp := mkAResp 429 (AMsg false "Too many requests!").

(** Lines 43-54: [consume(req.ip).then(() => next()).catch(() => 429)];
    the [.catch] takes the limit and a Redis error alike. *)
Definition rate_limit_mw (ip : string) (next : Ex AppState exn AuthResp) : Ex AppState exn AuthResp :=
  pass ← (lift_rl (consume rateLimiter ip) catch! (fun _ => mret false));
  if (pass : bool) then next else mret too_many.

(** Lines 57-72: [totalHits > max] calls the [handler], which answers
    429; a store error goes to [next(err)]. *)
Definition sensitive_mw (ip : string) (next : Ex AppState exn AuthResp) : Ex AppState exn AuthResp :=
  pass ← lift_rl (consume sensitiveEndpointsLimits ip);
  if (pass : bool) then next else mret too_many.

(** Lines 75-78: the registration limiter on its path, then the router. *)
Definition auth_routes (hash : string -> string) (vr vl : json -> option string)
    (q : AppReq) : Ex AppState exn AuthResp :=
  let route := lift_adb (authRouter hash vr vl (req_route q)) in
  if is_register (req_route q) then sensitive_mw (req_ip q) route else route.

(** Lines 43-78, in the order of the [app.use] calls. *)
Definition authApp (hash : string -> string) (vr vl : json -> option string)
    (q : AppReq) : Ex AppState exn AuthResp :=
  rate_limit_mw (req_ip q) (auth_routes hash vr vl q).

(** The wall clock at a request, read by Redis and by the controllers. *)
Definition set_now (t : Z) (s : AppState) : AppState :=
  mkApp (mkRL (rl_keys (app_rl s)) t (rl_up (app_rl s)))
        (mkADB (adb_users (app_db s)) (adb_tokens (app_db s)) (adb_next (app_db s)) t (adb_up (app_db s))).

(** Requests served one after another, each at its time. *)
Fixpoint run_app hash vr vl (reqs : list (Z * AppReq)) (s : AppState)
    : list (exn + AuthResp) * AppState :=
  match reqs with
  | [] => ([], s)
  | (t, q) :: rest =>
      let '(r, s1) := authApp hash vr vl q (set_now t s) in
      let '(rs, s2) := run_app hash vr vl rest s1 in
      (r :: rs, s2)
  end.

(** A response other than the limiters' 429 (an error passed to the
    error handler counts as served). *)
Definition served (r : exn + AuthResp) : bool :=
  match r with inr resp => negb (Z.eqb (a_status resp) 429) | inl _ => true end.

(** The requests at times in [[.., t_end)], each no earlier than the one
    before and than the store's clock. *)
Fixpoint chrono (now : Z) (ts : list Z) (t_end : Z) : Prop :=
  match ts with
  | [] => True
  | t :: ts' => (now <= t < t_end)%Z /\ chrono t ts' t_end
  end.

(** The served responses to the requests [sel] picks. *)
Fixpoint count_served (sel : Z -> AppReq -> bool) (reqs : list (Z * AppReq))
    (rs : list (exn + AuthResp)) : nat :=
  match reqs, rs with
  | (t, q) :: reqs', r :: rs' => ((if sel t q && served r then 1 else 0) + count_served sel reqs' rs')%nat
  | _, _ => 0%nat
  end.

(** ** The pipeline's steps *)

Section Pipeline.
Context (hash : string -> string) (vr vl : json -> option string).

Lemma lift_adb_rl {A} (m : Ex AuthDB exn A) s : app_rl (snd (lift_adb m s)) = app_rl s.
Proof. unfold lift_adb. by destruct (m (app_db s)). Qed.

Lemma rate_limit_mw_run ip next s :
  let k := lim_prefix rateLimiter +:+ ip in
  let s1 := mkApp (mkRL (<[k := window_next k 1000 (app_rl s)]> (rl_keys (app_rl s)))
                        (rl_now (app_rl s)) true) (app_db s) in
  rate_limit_mw ip next s =
    if rl_up (app_rl s) then
      if bool_decide ((window_next k 1000 (app_rl s)).1 <= 10)%nat then next s1 else (inr too_many, s1)
    else (inr too_many, s).
Proof.
  intros k s1. unfold rate_limit_mw, consume, lift_rl, ex_catch, mbind, ex_bind.
  destruct (rl_up (app_rl s)) eqn:Hup.
  - rewrite incr_window_up by done. cbn. by destruct (bool_decide _).
  - rewrite incr_window_down by done. by destruct s.
Qed.

Lemma sensitive_mw_run ip next s :
  let k := lim_prefix sensitiveEndpointsLimits +:+ ip in
  let s1 := mkApp (mkRL (<[k := window_next k (15 * 60 * 1000) (app_rl s)]> (rl_keys (app_rl s)))
                        (rl_now (app_rl s)) true) (app_db s) in
  sensitive_mw ip next s =
    if rl_up (app_rl s) then
      if bool_decide ((window_next k (15 * 60 * 1000) (app_rl s)).1 <= 50)%nat then next s1
      else (inr too_many, s1)
    else (inl ExnRedis, s).
Proof.
  intros k s1. unfold sensitive_mw, consume, lift_rl, mbind, ex_bind.
  destruct (rl_up (app_rl s)) eqn:Hup.
  - rewrite incr_window_up by done. cbn. by destruct (bool_decide _).
  - rewrite incr_window_down by done. by destruct s.
Qed.

Lemma limiter_keys_ne ip ip' :
  lim_prefix rateLimiter +:+ ip <> lim_prefix sensitiveEndpointsLimits +:+ ip'.
Proof. simpl. intros H. inversion H. Qed.

Lemma limiter_key_inj l ip ip' : lim_prefix l +:+ ip = lim_prefix l +:+ ip' -> ip = ip'.
Proof. apply append_inj_l. Qed.

(** A request's increment of its own key, seen from the key [k] of a
    window invariant: counted when it is [k] and the request passes. *)
Lemma win_inv_step p w k a h s ip (pass : bool) :
  (1 <= p)%nat -> (0 < w)%Z ->
  win_inv p w k a h s -> rl_up s = true -> (rl_now s < a + w)%Z ->
  (pass = true -> k = ip -> (window_next k w s).1 <= p)%nat ->
  win_inv p w k a (h + if bool_decide (k = ip) && bool_decide (a <= rl_now s)%Z && pass then 1 else 0)
    (mkRL (<[ip := window_next ip w s]> (rl_keys s)) (rl_now s) true).
Proof.
  intros Hp Hw Hi Hup Ht Hpass. destruct (decide (k = ip)) as [<-|Hne].
  - pose proof (win_inv_incr p w k a Hp Hw h s Hi Hup Ht) as Hn. cbv zeta in Hn.
    eapply win_inv_le; [auto..|exact Hn|].
    rewrite bool_decide_eq_true_2 by done.
    destruct pass; [rewrite (bool_decide_eq_true_2 (_ <= p)%nat) by auto|];
      destruct (bool_decide (a <= _)%Z); simpl; lia.
  - rewrite bool_decide_eq_false_2 by done. simpl. rewrite Nat.add_0_r.
    apply (win_inv_frame p w k a Hp h s); [|done|done]. simpl. by rewrite lookup_insert_ne.
Qed.

Lemma limiter_key_eq l ip ip' :
  bool_decide (lim_prefix l +:+ ip = lim_prefix l +:+ ip') = bool_decide (ip' = ip).
Proof.
  apply bool_decide_ext. split; [intros H; symmetry; by eapply limiter_key_inj|by intros ->].
Qed.

Lemma auth_routes_frame q s k :
  k <> lim_prefix sensitiveEndpointsLimits +:+ req_ip q ->
  rl_keys (app_rl (snd (auth_routes hash vr vl q s))) !! k = rl_keys (app_rl s) !! k /\
  rl_now (app_rl (snd (auth_routes hash vr vl q s))) = rl_now (app_rl s).
Proof.
  intros Hk. unfold auth_routes. cbv zeta. destruct (is_register _); [|by rewrite lift_adb_rl].
  rewrite sensitive_mw_run. destruct (rl_up (app_rl s)); [|done].
  destruct (bool_decide _); [rewrite lift_adb_rl|]; simpl; by rewrite lookup_insert_ne.
Qed.

Lemma authApp_now q s : rl_now (app_rl (snd (authApp hash vr vl q s))) = rl_now (app_rl s).
Proof.
  unfold authApp. rewrite rate_limit_mw_run. cbv zeta.
  destruct (rl_up (app_rl s)); [|done]. destruct (bool_decide _); [|done].
  rewrite (proj2 (auth_routes_frame _ _ (lim_prefix rateLimiter +:+ req_ip q) (limiter_keys_ne _ _))).
  done.
Qed.

(** One request, seen from the per-second counter of [ip]. *)
Lemma authApp_general_step ip a h q s :
  win_inv 10 1000 (lim_prefix rateLimiter +:+ ip) a h (app_rl s) ->
  (rl_now (app_rl s) < a + 1000)%Z ->
  win_inv 10 1000 (lim_prefix rateLimiter +:+ ip) a
    (h + if bool_decide (req_ip q = ip) && bool_decide (a <= rl_now (app_rl s))%Z
              && served (fst (authApp hash vr vl q s)) then 1 else 0)
    (app_rl (snd (authApp hash vr vl q s))).
Proof.
  intros Hi Ht. unfold authApp. rewrite rate_limit_mw_run. cbv zeta.
  destruct (rl_up (app_rl s)) eqn:Hup; [|by rewrite andb_false_r, Nat.add_0_r].
  rewrite <- (limiter_key_eq rateLimiter).
  destruct (bool_decide (_ <= 10)%nat) eqn:Hb.
  - apply bool_decide_eq_true in Hb.
    match goal with |- win_inv _ _ _ _ _ (app_rl (snd (auth_routes _ _ _ q ?s1))) =>
      destruct (auth_routes_frame q s1 (lim_prefix rateLimiter +:+ ip) (limiter_keys_ne _ _)) as [Hk Hn];
      apply (win_inv_frame 10 1000 _ a ltac:(lia) _ (app_rl s1)); [exact Hk|lia|]
    end.
    apply (win_inv_step 10 1000 _ a h (app_rl s) (lim_prefix rateLimiter +:+ req_ip q)); try lia; auto.
    intros _ ->. exact Hb.
  - pose proof (win_inv_step 10 1000 _ a h (app_rl s) (lim_prefix rateLimiter +:+ req_ip q) false
                  ltac:(lia) ltac:(lia) Hi Hup Ht ltac:(done)) as H.
    by rewrite andb_false_r in H |- *.
Qed.

(** One request, seen from the registration counter of [ip]: only a
    registration that got past the per-second limiter reaches it. *)
Lemma authApp_register_step ip a h q s :
  win_inv 50 (15 * 60 * 1000) (lim_prefix sensitiveEndpointsLimits +:+ ip) a h (app_rl s) ->
  (rl_now (app_rl s) < a + 15 * 60 * 1000)%Z ->
  win_inv 50 (15 * 60 * 1000) (lim_prefix sensitiveEndpointsLimits +:+ ip) a
    (h + if bool_decide (req_ip q = ip) && is_register (req_route q)
              && bool_decide (a <= rl_now (app_rl s))%Z
              && served (fst (authApp hash vr vl q s)) then 1 else 0)
    (app_rl (snd (authApp hash vr vl q s))).
Proof.
  intros Hi Ht. unfold authApp. rewrite rate_limit_mw_run. cbv zeta.
  destruct (rl_up (app_rl s)) eqn:Hup; [|by rewrite andb_false_r, Nat.add_0_r].
  set (k := lim_prefix sensitiveEndpointsLimits +:+ ip).
  match goal with |- context [auth_routes _ _ _ q ?x] => set (s1 := x) end.
  assert (Hi1 : win_inv 50 (15 * 60 * 1000) k a h (app_rl s1)).
  { apply (win_inv_frame 50 _ k a ltac:(lia) h (app_rl s)); [|simpl; lia|done].
    simpl. rewrite lookup_insert_ne; [done|]. apply limiter_keys_ne. }
  destruct (bool_decide (_ <= 10)%nat); [|by rewrite andb_false_r, Nat.add_0_r].
  unfold auth_routes. cbv zeta. destruct (is_register (req_route q)) eqn:Hreg;
    [|rewrite andb_false_r; simpl; rewrite Nat.add_0_r, lift_adb_rl; done].
  rewrite sensitive_mw_run. cbv zeta. simpl (rl_up (app_rl s1)). cbn iota.
  rewrite andb_true_r, <- (limiter_key_eq sensitiveEndpointsLimits).
  change (rl_now (app_rl s)) with (rl_now (app_rl s1)).
  destruct (bool_decide (_ <= 50)%nat) eqn:Hb.
  - apply bool_decide_eq_true in Hb. rewrite lift_adb_rl.
    apply (win_inv_step 50 _ k a h (app_rl s1)); try lia; auto. intros _ ->. exact Hb.
  - pose proof (win_inv_step 50 (15 * 60 * 1000) k a h (app_rl s1) (lim_prefix sensitiveEndpointsLimits +:+ req_ip q)
                  false ltac:(lia) ltac:(lia) Hi1 eq_refl Ht ltac:(done)) as H.
    by rewrite andb_false_r in H |- *.
Qed.

(** The router's controllers never answer 429: a 429 of the auth service
    comes from a limiter. *)
Lemma authRouter_not_429 r :
  ex_post (fun resp => a_status resp <> 429%Z) (authRouter hash vr vl r).
Proof.
  destruct r; simpl; unfold registerUserController, loginUserController,
    refreshTokenController, logoutUserController, err500; ex_post_split; simpl; lia.
Qed.

(** Counting along a run: a per-request property of the counter that
    survives the clock moving forward survives the run. *)
Lemma run_app_count (P : nat -> RLStore -> Prop) (sel : Z -> AppReq -> bool) t_end :
  (forall h x, P h x -> forall t, (rl_now x <= t)%Z -> P h (mkRL (rl_keys x) t (rl_up x))) ->
  (forall h q s, P h (app_rl s) -> (rl_now (app_rl s) < t_end)%Z ->
     P (h + if sel (rl_now (app_rl s)) q && served (fst (authApp hash vr vl q s)) then 1 else 0)
       (app_rl (snd (authApp hash vr vl q s)))) ->
  forall reqs s h, P h (app_rl s) -> chrono (rl_now (app_rl s)) (map fst reqs) t_end ->
  P (h + count_served sel reqs (fst (run_app hash vr vl reqs s)))
    (app_rl (snd (run_app hash vr vl reqs s))).
Proof.
  intros Htime Hstep reqs. induction reqs as [|[t q] reqs IH]; intros s h HP Hc;
    [by rewrite Nat.add_0_r|].
  destruct Hc as [[Hle Hlt] Hc]. simpl.
  pose proof (Hstep h q (set_now t s) (Htime h _ HP t Hle) Hlt) as H1.
  pose proof (authApp_now q (set_now t s)) as Hn. simpl in H1, Hn.
  destruct (authApp hash vr vl q (set_now t s)) as [r s1]. simpl in *.
  rewrite <- Hn in Hc. specialize (IH s1 _ H1 Hc).
  destruct (run_app hash vr vl reqs s1) as [rs s2]. simpl in *. by rewrite Nat.add_assoc.
Qed.

Lemma win_inv_time p w k a (Hp : (1 <= p)%nat) h x :
  win_inv p w k a h x -> forall t, (rl_now x <= t)%Z -> win_inv p w k a h (mkRL (rl_keys x) t (rl_up x)).
Proof. intros Hi t Ht. by apply (win_inv_frame p w k a Hp h x). Qed.

End Pipeline.

(** ** The limits *)

(** C35: the per-second limit over the whole pipeline.  Whatever the
    requests of other clients interleaved with them, at most 19 requests
    of one IP at times in an interval [[a, a + 1000)] ms are answered by
    something other than the limiters' 429: [rateLimiter]'s fixed window
    lets 10 through and restarts at the first request after it expires,
    so an interval can hold the end of one window (its opener excluded)
    and the start of the next.  The store's entry for the IP must be one
    the limiter wrote (count at least 1, expiry at most one window
    ahead). *)
Theorem rate_limit_window hash vr vl ip a reqs s :
  win_wf 1000 (lim_prefix rateLimiter +:+ ip) (app_rl s) ->
  chrono (rl_now (app_rl s)) (map fst reqs) (a + 1000) ->
  (count_served (fun t q => bool_decide (req_ip q = ip) && bool_decide (a <= t)%Z) reqs
     (fst (run_app hash vr vl reqs s)) <= 19)%nat.
Proof.
  intros Hwf Hc.
  pose proof (run_app_count hash vr vl (win_inv 10 1000 (lim_prefix rateLimiter +:+ ip) a)
    (fun t q => bool_decide (req_ip q = ip) && bool_decide (a <= t)%Z) _
    (win_inv_time 10 1000 _ a ltac:(lia)) (fun h q s => authApp_general_step hash vr vl ip a h q s)
    reqs s 0 (win_inv_init 10 1000 _ a ltac:(lia) _ Hwf) Hc) as H.
  apply win_inv_bound in H; lia.
Qed.

(** C16: the registration limit.  At most 99 registrations of one IP at
    times in an interval of 15 minutes are answered by something other
    than a 429, with the same fixed-window reason; a registration refused
    by the per-second limiter does not count against this limit. *)
Theorem register_limit_window hash vr vl ip a reqs s :
  win_wf (15 * 60 * 1000) (lim_prefix sensitiveEndpointsLimits +:+ ip) (app_rl s) ->
  chrono (rl_now (app_rl s)) (map fst reqs) (a + 15 * 60 * 1000) ->
  (count_served (fun t q => bool_decide (req_ip q = ip) && is_register (req_route q)
                            && bool_decide (a <= t)%Z) reqs
     (fst (run_app hash vr vl reqs s)) <= 99)%nat.
Proof.
  intros Hwf Hc.
  pose proof (run_app_count hash vr vl
    (win_inv 50 (15 * 60 * 1000) (lim_prefix sensitiveEndpointsLimits +:+ ip) a)
    (fun t q => bool_decide (req_ip q = ip) && is_register (req_route q) && bool_decide (a <= t)%Z) _
    (win_inv_time 50 _ _ a ltac:(lia)) (fun h q s => authApp_register_step hash vr vl ip a h q s)
    reqs s 0 (win_inv_init 50 _ _ a ltac:(lia) _ Hwf) Hc) as H.
  apply win_inv_bound in H; lia.
Qed.

(** C37: with the limiters' Redis unreachable, every request is answered
    429 "Too many requests!" and nothing else happens: [consume] rejects,
    and the middleware's [.catch] does not tell a store error from an
    exceeded limit, so login, refresh and logout are all refused. *)
Theorem redis_down_locks_out hash vr vl q s :
  rl_up (app_rl s) = false -> authApp hash vr vl q s = (inr too_many, s).
Proof. intros Hdown. unfold authApp. rewrite rate_limit_mw_run. by rewrite Hdown. Qed.


End AuthIndex.

(** ** Concrete runs *)

Module AuthIndexRuns.
Import Auth AuthIndex AuthRuns.

Definition app0 : AppState := mkApp (mkRL ∅ 0 true) adb0.
Definition login_from (ip : string) : AppReq := mkReq ip (PostLogin login_alice).

(** One login at 0 ms, nine at 999 ms, eleven at 1000 ms, all from one
    address. *)
Definition burst : list (Z * AppReq) :=
  (0%Z, login_from "10.0.0.1") :: repeat (999%Z, login_from "10.0.0.1") 9
    ++ repeat (1000%Z, login_from "10.0.0.1") 11.

Lemma win_wf_empty w k t up : win_wf w k (mkRL ∅ t up).
Proof. intros n e. simpl. by rewrite lookup_empty. Qed.

(** The bound of [rate_limit_window] is reached: of one login at 0 ms,
    nine at 999 ms and eleven at 1000 ms, nineteen within two milliseconds
    are served (the first window's last nine and the second's ten), and
    the last is refused. *)
Lemma rate_limit_window_witness :
  let rs := fst (run_app hash_id accept accept burst app0) in
  count_served (fun t q => bool_decide (req_ip q = "10.0.0.1") && bool_decide (999 <= t)%Z) burst rs = 19%nat /\
  last rs = Some (inr too_many) /\
  (count_served (fun t q => bool_decide (req_ip q = "10.0.0.1") && bool_decide (999 <= t)%Z) burst rs <= 19)%nat.
Proof.
  split; [vm_compute; reflexivity|split; [vm_compute; reflexivity|]].
  apply (rate_limit_window hash_id accept accept "10.0.0.1" 999 burst app0);
    [apply win_wf_empty|simpl; lia].
Defined.

Definition register_from (ip : string) : AppReq := mkReq ip (PostRegister reg_alice).

Lemma register_limit_window_witness :
  (count_served (fun t q => bool_decide (req_ip q = "10.0.0.1") && is_register (req_route q)
                            && bool_decide (0 <= t)%Z)
     [(0%Z, register_from "10.0.0.1"); (5%Z, register_from "10.0.0.1")]
     (fst (run_app hash_id accept accept
             [(0%Z, register_from "10.0.0.1"); (5%Z, register_from "10.0.0.1")] app0)) <= 99)%nat.
Proof.
  apply (register_limit_window hash_id accept accept "10.0.0.1" 0); [apply win_wf_empty|simpl; lia].
Defined.

Lemma redis_down_locks_out_witness :
  authApp hash_id accept accept (login_from "10.0.0.1") (mkApp (mkRL ∅ 0 false) adbA)
  = (inr too_many, mkApp (mkRL ∅ 0 false) adbA).
Proof. apply redis_down_locks_out. reflexivity. Defined.

End AuthIndexRuns.
