(* ===== verification/MediaService.v ===== *)
(** The media service.

    - [src/media-service/src/routes/media-routes.js]: [POST /upload] runs
      [authenticateRequest], then multer's [.single('file')] with
      [fileSize: 3 * 1024 * 1024] in memory, then [uploadMediaController];
      [GET /get] runs [authenticateRequest], then [getAllMediaController].
    - [src/media-service/src/controllers/media-controller.js]: the two
      controllers.
    - The lifecycle projector [handlePostDeleted]
      ([eventHandlers/media-event-handlers.js], not under src/) is
      modelled from spec §4.6: for each media reference of a
      [post.deleted] event whose document exists, one delete call to the
      storage and the deletion of the document; a reference without a
      document is skipped; a failure is logged per reference.

    Collaborators that are not under src/ are modelled from their use:
    - [authenticateRequest]: the user id the gateway forwards, or a 401;
    - [uploadMediaToCloudinary]: stores an asset under a fresh public id
      when the storage is up;
    - the [Media] model.
    Response bodies leave out the [stack] field of the upload errors: it
    is the V8 stack trace of the error, text of the runtime that no state
    of the program determines.
    The state [MState] holds the media collection (with Mongo's up flag and
    the id counter) and the storage (its assets, a log of delete calls,
    its up flag and counter). *)

From S2P Require Import Prelude Json PostStore.
Import ObjectId.

Module Media.

Record MediaDoc := mkMedia {
  m_id : string;
  m_publicId : string;
  m_originalName : string;
  m_mimeType : string;
  m_url : string;
  m_userId : string;
}.

Record MState := mkMS {
  ms_media : list MediaDoc;
  ms_next : N;
  ms_up : bool;
  ms_assets : list string;      (** public ids held by the storage *)
  ms_destroyed : list string;   (** the delete calls issued, oldest first *)
  ms_cloud_next : N;
  ms_cloud_up : bool;
}.

(** A file part of a multipart body: its form field, the client's file
    name, its type and its size in bytes. *)
Record FilePart := mkFile {
  f_field : string;
  f_originalname : string;
  f_mimetype : string;
  f_size : Z;
}.

(** The body of an upload request as multer sees it. *)
Inductive UploadBody :=
| NotMultipart                    (** multer passes it through untouched *)
| Malformed (message : string)    (** busboy fails to parse the form *)
| Multipart (files : list FilePart).

Inductive MulterError := LIMIT_FILE_SIZE | LIMIT_UNEXPECTED_FILE.

Definition multer_message (e : MulterError) : string :=
  match e with
  | LIMIT_FILE_SIZE => "File too large"
  | LIMIT_UNEXPECTED_FILE => "Unexpected field"
  end.

Inductive MBody :=
| MMsg (success : bool) (message : string)
| MUploadErr (message : string) (error : string)
| MUploaded (mediaId url : string)
| MList (allMedia : list MediaDoc)
| MAuthRequired.

Record MResp := mkMResp { mr_status : Z; mr_body : MBody }.

Definition FILE_SIZE_LIMIT : Z := 3 * 1024 * 1024.

(** ** multer [.single('file')] *)

(** The outcome of the upload middleware: a multer error, another error,
    or the file it put in [req.file] (none for a body without file). *)
Inductive MulterResult :=
| MulterErr (e : MulterError)
| OtherErr (message : string)
| MulterOk (file : option FilePart).

(** Parts are read in order: a part in another field than [file], or a
    second part, is [LIMIT_UNEXPECTED_FILE]; a part larger than the
    limit is [LIMIT_FILE_SIZE]. *)
Fixpoint multer_parts (seen : option FilePart) (fs : list FilePart) : MulterResult :=
  match fs with
  | [] => MulterOk seen
  | f :: fs' =>
      if negb (String.eqb (f_field f) "file") then MulterErr LIMIT_UNEXPECTED_FILE
      else match seen with
           | Some _ => MulterErr LIMIT_UNEXPECTED_FILE
           | None =>
               if Z.ltb FILE_SIZE_LIMIT (f_size f) then MulterErr LIMIT_FILE_SIZE
               else multer_parts (Some f) fs'
           end
  end.

Definition multer_single (b : UploadBody) : MulterResult :=
  match b with
  | NotMultipart => MulterOk None
  | Malformed msg => OtherErr msg
  | Multipart fs => multer_parts None fs
  end.

(** ** The storage and the collection *)

Definition set_media (l : list MediaDoc) (s : MState) : MState :=
  mkMS l (ms_next s) (ms_up s) (ms_assets s) (ms_destroyed s) (ms_cloud_next s) (ms_cloud_up s).
Definition set_cloud (assets destroyed : list string) (n : N) (s : MState) : MState :=
  mkMS (ms_media s) (ms_next s) (ms_up s) assets destroyed n (ms_cloud_up s).
Arguments set_media _ _ /.
Arguments set_cloud _ _ _ _ /.

(** [uploadMediaToCloudinary(file)]: [{ public_id, secure_url }]. *)
Definition upload_to_cloud (f : FilePart) : Ex MState exn (string * string) :=
  fun s =>
    if ms_cloud_up s then
      let pid := "media" +:+ pretty (ms_cloud_next s) in
      (inr (pid, "https://res.cloudinary.com/" +:+ pid),
       set_cloud (ms_assets s ++ [pid]) (ms_destroyed s) (N.succ (ms_cloud_next s)) s)
    else (inl ExnConnRefused, s).

(** [cloudinary.uploader.destroy(publicId)]: an absent asset answers
    [not found], which is not an error. *)
Definition destroy_in_cloud (pid : string) : Ex MState exn unit :=
  fun s =>
    if ms_cloud_up s then
      (inr tt, set_cloud (filter (fun a => a <> pid) (ms_assets s))
                 (ms_destroyed s ++ [pid]) (ms_cloud_next s) s)
    else (inl ExnConnRefused, s).

Definition mmongo : Ex MState exn unit :=
  fun s => if ms_up s then (inr tt, s) else (inl ExnMongo, s).

(** [new Media({...})] draws its [_id]; [save()] appends it. *)
Definition new_media_id : Ex MState exn string :=
  fun s => (inr (oid_of (ms_next s)),
            mkMS (ms_media s) (N.succ (ms_next s)) (ms_up s) (ms_assets s)
              (ms_destroyed s) (ms_cloud_next s) (ms_cloud_up s)).

Definition save_media (m : MediaDoc) : Ex MState exn unit :=
  mmongo;; ex_modify (fun s => set_media (ms_media s ++ [m]) s).

Definition find_media (id : string) : Ex MState exn (option MediaDoc) :=
  mmongo;; s ← ex_get; mret (List.find (fun m => String.eqb (m_id m) id) (ms_media s)).

Definition delete_media (id : string) : Ex MState exn unit :=
  mmongo;; ex_modify (fun s => set_media (filter (fun m => m_id m <> id) (ms_media s)) s).

(** ** The controllers *)

Definition uploadMediaController (userId : string) (file : option FilePart) : Ex MState exn MResp :=
  (match file with
   | None => mret (mkMResp 400 (MMsg false "No file found. Please add a file and try again!"))
   | Some f =>
       '(public_id, secure_url) ← upload_to_cloud f;
       id ← new_media_id;
       let m := mkMedia id public_id (f_originalname f) (f_mimetype f) secure_url userId in
       save_media m;;
       mret (mkMResp 201 (MUploaded id secure_url))
   end) catch! (fun _ => mret (mkMResp 500 (MMsg false "Error creating media"))).

Definition getAllMediaController : Ex MState exn MResp :=
  (mmongo;; s ← ex_get; mret (mkMResp 200 (MList (ms_media s))))
  catch! (fun _ => mret (mkMResp 500 (MMsg false "Error fetching all media"))).

(** ** The router *)

Inductive MediaReq :=
| MUpload (user : option string) (body : UploadBody)
| MGet (user : option string).

(** The inline middleware of [POST /upload] in front of the controller. *)
Definition upload_route (userId : string) (b : UploadBody) : Ex MState exn MResp :=
  match multer_single b with
  | MulterErr e => mret (mkMResp 400 (MUploadErr "Multer error while uploading" (multer_message e)))
  | OtherErr msg => mret (mkMResp 500 (MUploadErr "Unknown error occurred while uploading" msg))
  | MulterOk None => mret (mkMResp 400 (MMsg false "No file found"))
  | MulterOk (Some f) => uploadMediaController userId (Some f)
  end.

Definition mediaRouter (r : MediaReq) : Ex MState exn MResp :=
  match r with
  | MUpload None _ | MGet None => mret (mkMResp 401 MAuthRequired)
  | MUpload (Some u) b => upload_route u b
  | MGet (Some _) => getAllMediaController
  end.

(** ** The lifecycle projector (spec §4.6) *)

(** One reference: skip it when no document has that id, otherwise one
    delete call to the storage, then the document's deletion. *)
Definition delete_reference (ref : json) : Ex MState exn unit :=
  match ref with
  | JStr id =>
      match cast_oid id with
      | None => throw! ExnCast
      | Some oid =>
          m ← find_media oid;
          match m with
          | None => mret tt
          | Some m => destroy_in_cloud (m_publicId m);; delete_media (m_id m)
          end
      end
  | _ => throw! ExnCast
  end.

(** Each reference in order; a failure is logged and the next one is
    tried. *)
Fixpoint delete_references (refs : list json) : Ex MState exn unit :=
  match refs with
  | [] => mret tt
  | r :: rs => (delete_reference r catch! (fun _ => mret tt));; delete_references rs
  end.

Definition handlePostDeleted (event : json) : Ex MState exn unit :=
  match jget "mediaIds" event with
  | Some (JArr refs) => delete_references refs
  | _ => mret tt
  end.

(** ** multer *)

Definition part_ok (f : FilePart) : Prop :=
  f_field f = "file" /\ (f_size f <= FILE_SIZE_LIMIT)%Z.

Lemma multer_parts_seen g fs f :
  multer_parts (Some g) fs = MulterOk (Some f) <-> fs = [] /\ g = f.
Proof.
  destruct fs as [|f0 fs]; simpl.
  - split; [intros [= ->]; done|intros [_ ->]; done].
  - destruct (negb _); split; try done; by intros [? _].
Qed.

(** multer hands the controller a file exactly when the body has one part,
    in the field [file], of at most 3 MiB. *)
Lemma multer_parts_ok fs f : multer_parts None fs = MulterOk (Some f) <-> fs = [f] /\ part_ok f.
Proof.
  unfold part_ok. destruct fs as [|f0 fs]; simpl; [split; [done|by intros [? _]]|].
  destruct (String.eqb_spec (f_field f0) "file") as [Hf|Hf]; simpl;
    [|split; [done|intros [[= ->] [? _]]; done]].
  destruct (Z.ltb_spec FILE_SIZE_LIMIT (f_size f0)); [split; [done|intros [[= ->] [_ ?]]; lia]|].
  rewrite multer_parts_seen. split.
  - intros [-> ->]. split; [done|split; [done|lia]].
  - intros [[= -> ->] _]. done.
Qed.

(** ** Uploads *)

(** A valid part: the storage keeps the asset under a fresh public id,
    then the document is saved; a storage failure changes nothing, a Mongo
    failure after the upload leaves the asset in the storage. *)
Lemma upload_route_run u f s :
  part_ok f ->
  let pid := "media" +:+ pretty (ms_cloud_next s) in
  let url := "https://res.cloudinary.com/" +:+ pid in
  let s1 := mkMS (ms_media s) (N.succ (ms_next s)) (ms_up s) (ms_assets s ++ [pid])
              (ms_destroyed s) (N.succ (ms_cloud_next s)) true in
  upload_route u (Multipart [f]) s =
    if ms_cloud_up s then
      if ms_up s then
        (inr (mkMResp 201 (MUploaded (oid_of (ms_next s)) url)),
         set_media (ms_media s ++ [mkMedia (oid_of (ms_next s)) pid (f_originalname f)
                                     (f_mimetype f) url u]) s1)
      else (inr (mkMResp 500 (MMsg false "Error creating media")), s1)
    else (inr (mkMResp 500 (MMsg false "Error creating media")), s).
Proof.
  intros Hok pid url s1. unfold upload_route, multer_single.
  rewrite (proj2 (multer_parts_ok [f] f) (conj eq_refl Hok)).
  destruct s as [ms n up as_ ds cn [] ]; [|reflexivity]. destruct up; reflexivity.
Qed.

(** C27: the upload limit.  With Mongo and the storage up, an
    authenticated upload is answered 201 exactly when its body is one
    part, in the field [file], of at most [3 * 1024 * 1024] bytes: a part
    of exactly 3 MiB is accepted, one byte more is [LIMIT_FILE_SIZE]. *)
Theorem upload_accepted_iff u fs s :
  ms_up s = true -> ms_cloud_up s = true ->
  (exists b, fst (mediaRouter (MUpload (Some u) (Multipart fs)) s) = inr (mkMResp 201 b)) <->
  (exists f, fs = [f] /\ part_ok f).
Proof.
  intros Hup Hcl. split.
  - simpl. unfold upload_route, multer_single.
    destruct (multer_parts None fs) as [e|msg|[f|]] eqn:Hm; simpl; try (intros [b [=]]; lia).
    intros _. exists f. by apply multer_parts_ok.
  - intros [f [-> Hok]]. simpl. rewrite (upload_route_run u f s Hok), Hup, Hcl. by eexists.
Qed.

(** C28: an upload whose document cannot be saved leaves its asset in the
    storage.  The controller uploads to the storage before it saves the
    [Media] document and does not undo the upload when [save()] fails: the
    client gets 500 "Error creating media", no document is added, and the
    storage holds one more asset. *)
Theorem upload_orphans_asset u f s :
  part_ok f -> ms_cloud_up s = true -> ms_up s = false ->
  let r := mediaRouter (MUpload (Some u) (Multipart [f])) s in
  fst r = inr (mkMResp 500 (MMsg false "Error creating media")) /\
  ms_media (snd r) = ms_media s /\
  ms_assets (snd r) = ms_assets s ++ ["media" +:+ pretty (ms_cloud_next s)].
Proof. intros Hok Hcl Hup r. subst r. simpl. rewrite (upload_route_run u f s Hok), Hcl, Hup. done. Qed.

(** ** The lifecycle projector *)

Definition ref_oid (r : json) : option string :=
  match r with JStr id => cast_oid id | _ => None end.

Definition media_of (s : MState) (oid : string) : option MediaDoc :=
  List.find (fun m => String.eqb (m_id m) oid) (ms_media s).

Lemma delete_reference_run s r :
  ms_up s = true -> ms_cloud_up s = true ->
  delete_reference r s =
    match ref_oid r with
    | None => (inl ExnCast, s)
    | Some oid =>
        match media_of s oid with
        | None => (inr tt, s)
        | Some m =>
            (inr tt, mkMS (filter (fun m' => m_id m' <> m_id m) (ms_media s)) (ms_next s) true
                       (filter (fun a => a <> m_publicId m) (ms_assets s))
                       (ms_destroyed s ++ [m_publicId m]) (ms_cloud_next s) true)
        end
    end.
Proof.
  destruct s as [ms n up as_ ds cn cl]; simpl; intros -> ->.
  destruct r as [| | |id| | |]; try reflexivity. simpl. destruct (cast_oid id) as [oid|]; [|reflexivity].
  unfold find_media, media_of, mmongo. ex_simp. destruct (List.find _ ms); reflexivity.
Qed.

(** With Mongo or the storage down, a reference changes nothing. *)
Lemma delete_reference_idle s r :
  ms_up s = false \/ ms_cloud_up s = false -> snd (delete_reference r s) = s.
Proof.
  destruct s as [ms n up as_ ds cn cl]; simpl; intros Hdown.
  destruct r as [| | |id| | |]; try reflexivity. simpl. destruct (cast_oid id) as [oid|]; [|reflexivity].
  unfold find_media, mmongo, destroy_in_cloud. ex_simp.
  destruct up; [|reflexivity]. simpl.
  destruct (List.find (fun m => String.eqb (m_id m) oid) ms); [|reflexivity].
  destruct Hdown as [?| ->]; [done|reflexivity].
Qed.

Lemma delete_references_cons r rs s :
  delete_references (r :: rs) s = delete_references rs (snd (delete_reference r s)).
Proof. simpl. unfold mbind at 1, ex_bind at 1. by rewrite ex_catch_unit. Qed.

Lemma delete_references_result refs s : fst (delete_references refs s) = inr tt.
Proof. revert s. induction refs as [|r rs IH]; intros s; [done|]. by rewrite delete_references_cons. Qed.

(** References that each change nothing leave the state as it is. *)
Lemma delete_references_idle refs s :
  (forall r, r ∈ refs -> snd (delete_reference r s) = s) -> delete_references refs s = (inr tt, s).
Proof.
  induction refs as [|r rs IH]; intros Hidle; [done|].
  rewrite delete_references_cons, (Hidle r) by apply list_elem_of_here.
  apply IH. intros r' Hr'. apply Hidle. by apply list_elem_of_further.
Qed.

(** The projector only removes documents and keeps the services' flags. *)
Definition media_shrinks (s s' : MState) : Prop :=
  (forall m, m ∈ ms_media s' -> m ∈ ms_media s) /\ ms_up s' = ms_up s /\ ms_cloud_up s' = ms_cloud_up s.

#[export] Instance media_shrinks_preorder : PreOrder media_shrinks.
Proof.
  split; [by intros s; repeat split|].
  intros s1 s2 s3 (H1 & U1 & C1) (H2 & U2 & C2). repeat split; [|congruence|congruence].
  intros m Hm. by apply H1, H2.
Qed.

Lemma delete_reference_shrinks r : ex_mono media_shrinks (delete_reference r).
Proof.
  intros s. destruct (ms_up s) eqn:Hup; [destruct (ms_cloud_up s) eqn:Hcl|];
    try (rewrite delete_reference_idle by auto; reflexivity).
  rewrite delete_reference_run by done.
  destruct (ref_oid r); [|reflexivity]. destruct (media_of s s0); [|reflexivity].
  repeat split; [|done|done]. intros m' Hm'%list_elem_of_filter. apply Hm'.
Qed.

Lemma delete_references_shrinks refs : ex_mono media_shrinks (delete_references refs).
Proof. induction refs as [|r rs IH]; simpl; ex_mono_split; auto using delete_reference_shrinks. Qed.

Lemma media_of_shrinks s s' oid : media_shrinks s s' -> media_of s oid = None -> media_of s' oid = None.
Proof.
  intros [Hsub _] Hn. apply find_none_forall. intros m Hm.
  apply (find_none _ _ Hn). by apply list_elem_of_In, Hsub.
Qed.

(** After a reference is handled with both services up, no document has
    its id. *)
Lemma delete_reference_clears s r oid :
  ms_up s = true -> ms_cloud_up s = true -> ref_oid r = Some oid ->
  media_of (snd (delete_reference r s)) oid = None.
Proof.
  intros Hup Hcl Ho. rewrite delete_reference_run, Ho by done.
  destruct (media_of s oid) as [m|] eqn:Hm; [|done].
  apply find_some_elem in Hm as [_ Hid%String.eqb_eq].
  apply find_none_forall. intros m' [Hne _]%list_elem_of_filter. simpl in Hne.
  apply String.eqb_neq. congruence.
Qed.

Lemma delete_references_clears refs s r oid :
  ms_up s = true -> ms_cloud_up s = true -> r ∈ refs -> ref_oid r = Some oid ->
  media_of (snd (delete_references refs s)) oid = None.
Proof.
  revert s. induction refs as [|r0 rs IH]; intros s Hup Hcl Hr Ho; [by apply not_elem_of_nil in Hr|].
  rewrite delete_references_cons.
  destruct (delete_reference_shrinks r0 s) as (_ & Hup' & Hcl').
  apply elem_of_cons in Hr as [->|Hr].
  - eapply media_of_shrinks; [apply delete_references_shrinks|]. by apply delete_reference_clears.
  - apply IH; [congruence|congruence|done|done].
Qed.

(** One reference with both services up: its documents go, and one
    delete call is issued for the asset of the first of them, if any. *)
Lemma delete_reference_step s r o :
  ms_up s = true -> ms_cloud_up s = true -> ref_oid r = Some o ->
  let s' := snd (delete_reference r s) in
  ms_media s' = filter (fun m => m_id m <> o) (ms_media s) /\
  ms_destroyed s' = ms_destroyed s ++ option_list (m_publicId <$> media_of s o) /\
  ms_up s' = true /\ ms_cloud_up s' = true.
Proof.
  intros Hup Hcl Ho s'. subst s'. rewrite delete_reference_run, Ho by done.
  destruct (media_of s o) as [m|] eqn:Hm; simpl.
  - apply find_some_elem in Hm as [_ <-%String.eqb_eq]. done.
  - rewrite app_nil_r, filter_all_id; [done|]. intros m Hin.
    apply String.eqb_neq, (find_none _ _ Hm). by apply list_elem_of_In.
Qed.

Lemma media_of_filter_ne (l : list MediaDoc) o o' :
  o' <> o -> List.find (fun m => String.eqb (m_id m) o') (filter (fun m => m_id m <> o) l) =
             List.find (fun m => String.eqb (m_id m) o') l.
Proof.
  intros Hne. induction l as [|m l IH]; [done|]. rewrite filter_cons. simpl.
  case_decide as Hid; simpl; [by rewrite IH|].
  assert (m_id m = o) as -> by (destruct (decide (m_id m = o)); tauto).
  rewrite IH. destruct (String.eqb_spec o o'); congruence.
Qed.

Lemma delete_references_effect refs oids s :
  ms_up s = true -> ms_cloud_up s = true -> mapM ref_oid refs = Some oids -> NoDup oids ->
  let s' := snd (delete_references refs s) in
  ms_media s' = filter (fun m => m_id m ∉ oids) (ms_media s) /\
  ms_destroyed s' = ms_destroyed s ++ omap (fun o => m_publicId <$> media_of s o) oids.
Proof.
  revert s oids. induction refs as [|r rs IH]; intros s oids Hup Hcl Hm Hnd s'; subst s'.
  - injection Hm as <-. simpl. rewrite app_nil_r, filter_all_id; [done|]. intros ? _. apply not_elem_of_nil.
  - simpl in Hm. destruct (ref_oid r) as [o|] eqn:Ho; [|done].
    destruct (mapM ref_oid rs) as [os|] eqn:Hos; [|done]. injection Hm as <-.
    apply NoDup_cons in Hnd as [Hno Hnd].
    rewrite delete_references_cons.
    destruct (delete_reference_step s r o Hup Hcl Ho) as (Hms & Hds & Hup' & Hcl').
    destruct (IH _ os Hup' Hcl' eq_refl Hnd) as [Hms'' Hds'']. split.
    + rewrite Hms'', Hms, list_filter_filter. apply list_filter_iff. intros m.
      rewrite not_elem_of_cons. tauto.
    + rewrite Hds'', Hds, <- app_assoc. f_equal.
      replace (omap _ os) with (omap (fun o' => m_publicId <$> media_of s o') os).
      * simpl. by destruct (media_of s o).
      * apply list_omap_ext, Forall_Forall2_diag, Forall_forall. intros o' Ho'.
        unfold media_of. rewrite Hms, media_of_filter_ne; [done|]. intros ->. done.
Qed.

(** The media projector is idempotent.  Handling a [post.deleted]
    event a second time, right after the first, changes nothing and
    returns normally: every reference either has no document left, or the
    service that failed the first time fails again before any change. *)
Theorem media_deleted_idempotent e s :
  handlePostDeleted e (snd (handlePostDeleted e s)) = (inr tt, snd (handlePostDeleted e s)).
Proof.
  unfold handlePostDeleted. destruct (jget "mediaIds" e) as [[| | | | |refs|]|]; try reflexivity.
  apply delete_references_idle. intros r Hr.
  destruct (delete_references_shrinks refs s) as (_ & Hup' & Hcl').
  destruct (ms_up s) eqn:Hup; [destruct (ms_cloud_up s) eqn:Hcl|];
    try solve [apply delete_reference_idle; rewrite ?Hup', ?Hcl'; auto].
  rewrite delete_reference_run by congruence.
  destruct (ref_oid r) as [o|] eqn:Ho; [|done].
  by rewrite (delete_references_clears refs s r o).
Qed.

(** What the media projector deletes.  With Mongo and the storage
    up and distinct, well-formed ids in [mediaIds], handling [post.deleted]
    removes exactly the documents those ids name, and issues one delete
    call per referenced document, in the order of the references. *)
Theorem media_deleted_effect e refs oids s :
  jget "mediaIds" e = Some (JArr refs) ->
  ms_up s = true -> ms_cloud_up s = true -> mapM ref_oid refs = Some oids -> NoDup oids ->
  let s' := snd (handlePostDeleted e s) in
  ms_media s' = filter (fun m => m_id m ∉ oids) (ms_media s) /\
  ms_destroyed s' = ms_destroyed s ++ omap (fun o => m_publicId <$> media_of s o) oids.
Proof. intros He. unfold handlePostDeleted. rewrite He. apply delete_references_effect. Qed.

End Media.

(** ** Concrete runs *)

Module MediaRuns.
Import Media.

Definition ms0 : MState := mkMS [] 0 true [] [] 0 true.
Definition png (name : string) (size : Z) : FilePart := mkFile "file" name "image/png" size.
Definition upload (u : string) (f : FilePart) (s : MState) : MState :=
  snd (mediaRouter (MUpload (Some u) (Multipart [f])) s).

(** Two images uploaded by [u1]: documents [oid_of 0] and [oid_of 1],
    assets [media0] and [media1]. *)
Definition msB : MState := upload "u1" (png "b.png" 2000) (upload "u1" (png "a.png" 1000) ms0).

Definition deleted_p1 : json :=
  JObj [("postId", JStr "p1"); ("userId", JStr "u1");
        ("mediaIds", JArr [JStr (oid_of 0); JStr (oid_of 1)])].

(** One byte over the limit is refused by multer. *)
Lemma upload_one_byte_over :
  fst (mediaRouter (MUpload (Some "u1") (Multipart [png "big.png" (FILE_SIZE_LIMIT + 1)])) ms0) =
    inr (mkMResp 400 (MUploadErr "Multer error while uploading" "File too large")).
Proof. reflexivity. Qed.

(** The media scenario of spec §8.  After a post with media
    references [m1], [m2] is deleted, the projector issues exactly one
    delete call per reference and removes both documents; a repeated
    delivery of the same event issues no further call and no error. *)
Example media_scenario :
  let s1 := snd (handlePostDeleted deleted_p1 msB) in
  ms_destroyed s1 = ["media0"; "media1"] /\ ms_media s1 = [] /\ ms_assets s1 = [] /\
  handlePostDeleted deleted_p1 s1 = (inr tt, s1).
Proof. vm_compute. repeat split. Qed.

Lemma upload_accepted_iff_witness :
  (exists b, fst (mediaRouter (MUpload (Some "u1") (Multipart [png "max.png" FILE_SIZE_LIMIT])) ms0) =
               inr (mkMResp 201 b)) <->
  (exists f, [png "max.png" FILE_SIZE_LIMIT] = [f] /\ part_ok f).
Proof. apply upload_accepted_iff; reflexivity. Defined.

Lemma upload_orphans_asset_witness :
  let s := mkMS [] 0 false [] [] 0 true in
  let r := mediaRouter (MUpload (Some "u1") (Multipart [png "a.png" 1000])) s in
  fst r = inr (mkMResp 500 (MMsg false "Error creating media")) /\
  ms_media (snd r) = ms_media s /\
  ms_assets (snd r) = ms_assets s ++ ["media" +:+ pretty (ms_cloud_next s)].
Proof. apply upload_orphans_asset; [split; [reflexivity|vm_compute; discriminate]|reflexivity|reflexivity]. Defined.

Lemma media_deleted_effect_witness :
  let s' := snd (handlePostDeleted deleted_p1 msB) in
  ms_media s' = filter (fun m => m_id m ∉ [oid_of 0; oid_of 1]) (ms_media msB) /\
  ms_destroyed s' = ms_destroyed msB ++ omap (fun o => m_publicId <$> media_of msB o) [oid_of 0; oid_of 1].
Proof.
  apply (media_deleted_effect deleted_p1 [JStr (oid_of 0); JStr (oid_of 1)]);
    [reflexivity|reflexivity|reflexivity|reflexivity|].
  apply (bool_decide_unpack _). vm_compute. reflexivity.
Defined.

End MediaRuns.
