(* ===== verification/Apps.v ===== *)
(** The services' Express apps: the middleware chains of
    [src/post-service/src/index.js] (lines 20-42),
    [src/search-service/src/index.js] (lines 22-46) and
    [src/media-service/src/index.js] (lines 13-33).

    Each app runs [helmet()], [cors()], [express.json()], a logging
    middleware, its router under a mount point, and [errorHandler].
    Helmet, cors and the logger only set headers or write logs: they pass
    every request on unchanged and are not modelled further.
    [express.json()] (body-parser's [json] in its default strict mode,
    Express 4) is [express_json]:
    - a request whose [Content-Type] is not [application/json], or whose
      body is empty, reaches the router with [req.body = {}];
    - otherwise the first character that is not whitespace must be [{] or
      [[], and the text must parse ([JsonCodec.JSON_parse]); the router
      gets the parsed value;
    - a body that fails either test is a parse error with status 400,
      which [errorHandler] (not under src/) answers before any route runs
      ([BadBody]).
    A request is the text the client sent ([RawReq]); [serve] is the app
    on it.  [mediaApp] adds the multipart view multer has of an upload
    ([MediaRaw]) and the two routes of [routes/media-routes.js].

    Theorems: [express.json()] hands the router [wire v] for a body that
    is [JSON.stringify] of an object or array [v]; and through the post
    service's whole app, a create request whose body is [JSON.stringify]
    of an object runs [createPostController] on it, while a body
    [express.json()] rejects is answered 400 and changes nothing. *)

From S2P Require Import Prelude Json Iso JsonCodec Redis PostStore PostService SearchService MediaService Routes.
Import Routes.

(** A request as the client sends it. *)
Record RawReq := mkRaw {
  raw_method : Method;
  raw_path : list string;
  raw_user : option string;           (** the [x-user-id] header *)
  raw_type : option string;           (** the media type of [Content-Type] *)
  raw_body : string;                  (** the body text, empty when there is none *)
  raw_query : string -> option string;
}.

Inductive BodyOut := BodyJson (j : json) | BodyError | BodyUnsupported.

(** body-parser's [firstchar]: the first character after JSON whitespace. *)
Definition first_char (s : string) : option ascii :=
  match skip_ws s with String c _ => Some c | EmptyString => None end.

(** [express.json()]: what [req.body] is when the router runs. *)
Definition express_json (ty : option string) (body : string) : BodyOut :=
  if negb (bool_decide (ty = Some "application/json")) then BodyJson (JObj [])
  else if String.eqb body "" then BodyJson (JObj [])
  else match first_char body with
       | Some c =>
           if Ascii.eqb c "{"%char || Ascii.eqb c "["%char then
             match JSON_parse body with
             | Parsed v => BodyJson v
             | SyntaxError => BodyError
             | Unsupported => BodyUnsupported
             end
           else BodyError
       | None => BodyError
       end.

(** What the app answers: the parse error's 400, a body outside the
    model, or what the routes answer. *)
Inductive AppOut (R : Type) := BadBody | UnsupBody | Routed (o : Out R).
Arguments BadBody {R}. Arguments UnsupBody {R}. Arguments Routed {R} o.

Section Serve.
Context {S R : Type}.

(** The app: [express.json()], then the mounted router; helmet, cors and
    the logger pass the request on. *)
Definition serve (app : HttpReq -> Ex S exn (Out R)) (q : RawReq) : Ex S exn (AppOut R) :=
  match express_json (raw_type q) (raw_body q) with
  | BodyJson j => o ← app (mkHttp (raw_method q) (raw_path q) (raw_user q) j (raw_query q)); mret (Routed o)
  | BodyError => mret BadBody
  | BodyUnsupported => mret UnsupBody
  end.
End Serve.

(** [post-service/src/index.js], lines 20-42. *)
Definition postServer {C} `{CacheStoreLaws CacheVal C} (parseInt : string -> option Z)
    : RawReq -> Ex (PState C) exn (AppOut Resp) :=
  serve (postApp parseInt).

(** [search-service/src/index.js], lines 22-46. *)
Definition searchServer : RawReq -> Ex Search.SearchDB exn (AppOut Search.SearchResp) :=
  serve searchApp.

(** ** The media service *)

(** An upload request: the text [express.json()] reads and the form
    multer reads. *)
Record MediaRaw := mkMediaRaw { mraw_req : RawReq; mraw_form : Media.UploadBody }.

(** [routes/media-routes.js]: [POST /upload] and [GET /get], each with its
    own [authenticateRequest]; any other path is Express's 404. *)
Definition media_route (m : Method) (path : list string) (user : option string) (form : Media.UploadBody)
    : option Media.MediaReq :=
  match m, path with
  | POST, [x] => if String.eqb x "upload" then Some (Media.MUpload user form) else None
  | GET, [x] => if String.eqb x "get" then Some (Media.MGet user) else None
  | _, _ => None
  end.

(** [media-service/src/index.js], lines 13-33: [app.use('/api/media',
    mediaRoutes)] behind the same middleware. *)
Definition mediaApp (q : HttpReq) (form : Media.UploadBody) : Ex Media.MState exn (Out Media.MResp) :=
  match strip_segments ["api"; "media"] (hr_path q) with
  | Some rest =>
      match media_route (hr_method q) rest (hr_user q) form with
      | Some r => o ← Media.mediaRouter r; mret (Answer o)
      | None => mret NotFound
      end
  | None => mret NotFound
  end.

Definition mediaServer (q : MediaRaw) : Ex Media.MState exn (AppOut Media.MResp) :=
  serve (fun h => mediaApp h (mraw_form q)) (mraw_req q).

(** ** [express.json()] on the text of [JSON.stringify] *)

Lemma stringify_obj_head fs : exists t, stringify (JObj fs) = String "{" t.
Proof. destruct fs as [|[k w] fs]; eexists; reflexivity. Qed.

Lemma stringify_arr_head l : exists t, stringify (JArr l) = String "[" t.
Proof. destruct l; eexists; reflexivity. Qed.

(** The body [JSON.stringify(v)] of an object or array [v] reaches the
    router as [wire v]. *)
Lemma express_json_stringify v :
  json_wf v -> (exists fs, v = JObj fs) \/ (exists l, v = JArr l) ->
  express_json (Some "application/json") (stringify v) = BodyJson (wire v).
Proof.
  intros Hwf Hv. unfold express_json. rewrite bool_decide_true by done. simpl negb. cbv iota.
  assert (exists c t, stringify v = String c t /\ (Ascii.eqb c "{"%char || Ascii.eqb c "["%char) = true)
    as (c & t & Hs & Hc).
  { destruct Hv as [[fs ->]|[l ->]];
      [destruct (stringify_obj_head fs) as [t Ht]|destruct (stringify_arr_head l) as [t Ht]];
      rewrite Ht; by eexists _, t. }
  rewrite (parse_stringify v Hwf), Hs. unfold first_char.
  assert (Hws : skip_ws (String c t) = String c t).
  { apply orb_true_iff in Hc as [Hc|Hc]; apply Ascii.eqb_eq in Hc as ->; reflexivity. }
  by rewrite Hws, Hc.
Qed.

(** A body [express.json()] rejects is answered 400 and runs no route. *)
Lemma serve_rejects {S R} (app : HttpReq -> Ex S exn (Out R)) q s :
  express_json (raw_type q) (raw_body q) = BodyError -> serve app q s = (inr BadBody, s).
Proof. intros H. unfold serve. by rewrite H. Qed.

Lemma express_json_strict body :
  body <> "" -> first_char body <> Some "{"%char -> first_char body <> Some "["%char ->
  express_json (Some "application/json") body = BodyError.
Proof.
  intros Hb H1 H2. unfold express_json. rewrite bool_decide_true by done. simpl negb. cbv iota.
  destruct (String.eqb_spec body ""); [done|].
  destruct (first_char body) as [c|]; [|done].
  destruct (Ascii.eqb_spec c "{"%char) as [->|]; [done|].
  destruct (Ascii.eqb_spec c "["%char) as [->|]; done.
Qed.

(** ** The post service's app end to end *)

(** The mount and the router send a create request to the controller. *)
Lemma postApp_create {C} `{CacheStoreLaws CacheVal C} parseInt u j q :
  postApp parseInt (mkHttp POST ["api"; "post"; "create-post"] (Some u) j q) =
    (r ← createPostController u j; mret (Answer r)).
Proof. reflexivity. Qed.

Module AppsRuns.
Import PostService.Runs.

Definition hello_fields : list (string * json) := [("content", JStr "hello world")].

Definition create_req (body : string) : RawReq :=
  mkRaw POST ["api"; "post"; "create-post"] (Some "u1") (Some "application/json") body (fun _ => None).

Example json_type_ignored : express_json (Some "text/plain") "not json" = BodyJson (JObj []).
Proof. reflexivity. Qed.

Example strict_rejects_scalar : express_json (Some "application/json") " 42" = BodyError.
Proof. vm_compute. reflexivity. Qed.

Example malformed_rejected : express_json (Some "application/json") "{content: 1}" = BodyError.
Proof. vm_compute. reflexivity. Qed.

(** The text a client sends for [{ content: "hello world" }] creates the
    post through the whole app. *)
Example create_over_http :
  fst (postServer (fun _ => None) (create_req (stringify (JObj hello_fields))) st0) =
    inr (Routed (Answer (mkResp 201 (BMsg true "Post created successfully")))).
Proof. vm_compute. reflexivity. Qed.

(** An upload reaches the media controller through the media app; the
    same path with [GET] is Express's 404. *)
Example upload_over_http :
  match fst (mediaServer (mkMediaRaw (mkRaw POST ["api"; "media"; "upload"] (Some "u1")
                                         (Some "multipart/form-data") "" (fun _ => None))
                            (Media.Multipart [MediaRuns.png "cat.png" 1000])) MediaRuns.ms0) with
  | inr (Routed (Answer r)) => Media.mr_status r = 201%Z
  | _ => False
  end.
Proof. vm_compute. reflexivity. Qed.

Example upload_path_get_not_found :
  fst (mediaServer (mkMediaRaw (mkRaw GET ["api"; "media"; "upload"] (Some "u1") None "" (fun _ => None))
                     Media.NotMultipart) MediaRuns.ms0) = inr (Routed NotFound).
Proof. reflexivity. Qed.

Example search_over_http :
  fst (searchServer (mkRaw GET ["api"; "search"; "posts"] (Some "u1") None "" (fun k => if String.eqb k "query" then Some "hello" else None))
         SearchProps.sdb0) = inr (Routed (Answer (Search.SRes []))).
Proof. vm_compute. reflexivity. Qed.

End AppsRuns.
