(* ===== verification/Wire.v ===== *)
(** The events on the wire: what the consumers of [post.created] and
    [post.deleted] receive.

    [publishEvent] ([src/post-service/src/utils/rabbitmq.js], lines
    27-31) sends [Buffer.from(JSON.stringify(message))]; the consumers'
    [consumeEvent] (not under src/; spec §4.3) parse the content with
    [JSON.parse] and hand the value to the handler registered for the
    routing key.  [consumeEvent] here is that parse of the published
    value's text ([JsonCodec.stringify], [JsonCodec.JSON_parse]); [search_dispatch]
    and [media_dispatch] are the two consumers' handler tables, and
    [System] steps the services with them.

    The event schemas of spec §6 ("Event payload"), in the post service's
    field names, are values of [ty], a small type of JSON types, and
    [has_ty] checks a parsed value against one (listed fields present with
    their types; further fields allowed, as Mongoose ignores them).

    Theorems: every event the post service publishes parses, at the
    consumer, into a value of its routing key's schema, a post's
    [createdAt] arriving as its ISO string; and a [post.created] handled
    across the wire indexes the post with the creation time the post
    service stored, through [JSON.stringify], [JSON.parse] and Mongoose's
    cast of the ISO string back to a [Date]. *)

From S2P Require Import Prelude Json Iso JsonCodec Broker PostStore PostService SearchService MediaService.
Import Mq Store.

(** [JSON.parse(msg.content.toString())] of the text [publishEvent] wrote. *)
Definition consumeEvent (m : message) : option json :=
  match JSON_parse (stringify (msg_body m)) with Parsed v => Some v | _ => None end.

(** The handlers each consumer registers, by routing key; a message whose
    content does not parse is dropped. *)
Definition search_dispatch (m : message) : Ex Search.SearchDB exn unit :=
  match consumeEvent m with
  | Some ev =>
      if String.eqb (msg_key m) "post.created" then Search.handlePostCreated ev
      else if String.eqb (msg_key m) "post.deleted" then Search.handlePostDeleted ev
      else mret tt
  | None => mret tt
  end.

Definition media_dispatch (m : message) : Ex Media.MState exn unit :=
  match consumeEvent m with
  | Some ev => if String.eqb (msg_key m) "post.deleted" then Media.handlePostDeleted ev else mret tt
  | None => mret tt
  end.

(** ** Event schemas *)

#[local] Set Warnings "-register-all".
Inductive ty : Type :=
| TString
| TDate                     (** a [Date] as [JSON.stringify] writes it *)
| TArray (t : ty)
| TObject (fields : list (string * ty)).

Fixpoint has_ty (v : json) (t : ty) : bool :=
  match t with
  | TString => match v with JStr _ => true | _ => false end
  | TDate => match v with JStr s => match parse_iso s with Some _ => true | None => false end | _ => false end
  | TArray t' => match v with JArr l => forallb (fun x => has_ty x t') l | _ => false end
  | TObject fs =>
      (fix go (fs : list (string * ty)) : bool :=
         match fs with
         | [] => true
         | (k, t') :: fs' => match jget k v with Some x => has_ty x t' | None => false end && go fs'
         end) fs
  end.

(** Spec §6: [content.created -> {contentId, authorId, body, createdAt}],
    [content.deleted -> {contentId, authorId, mediaRefs: [string]}]. *)
Definition created_ty : ty :=
  TObject [("postId", TString); ("userId", TString); ("content", TString); ("createdAt", TDate)].

Definition deleted_ty : ty :=
  TObject [("postId", TString); ("userId", TString); ("mediaIds", TArray TString)].

Definition event_schema (rk : string) : option ty :=
  if String.eqb rk "post.created" then Some created_ty
  else if String.eqb rk "post.deleted" then Some deleted_ty
  else None.

(** The consumer parses the message into a value of its key's schema. *)
Definition well_typed (m : message) : bool :=
  match event_schema (msg_key m), consumeEvent m with
  | Some t, Some v => has_ty v t
  | _, _ => false
  end.

(** ** The payloads across the wire *)

Lemma consume_wf m : json_wf (msg_body m) -> consumeEvent m = Some (wire (msg_body m)).
Proof. intros Hwf. unfold consumeEvent. by rewrite parse_stringify. Qed.

Lemma created_payload_wf p : json_wf (created_payload p).
Proof. split; [|done]. apply NoDup_ListNoDup. repeat constructor; simpl; intuition discriminate. Qed.

Lemma deleted_payload_wf p user : json_wf (deleted_payload p user).
Proof.
  apply json_wf_obj. split.
  - apply NoDup_ListNoDup. repeat constructor; simpl; intuition discriminate.
  - repeat constructor. apply json_wf_JStr_list.
Qed.

Lemma wire_created p :
  (Z.abs (post_createdAt p) <= MAX_TIME)%Z ->
  wire (created_payload p) =
    JObj [("postId", JStr (post_id p)); ("userId", JStr (post_user p));
          ("content", JStr (post_content p)); ("createdAt", JStr (toISOString (post_createdAt p)))].
Proof. intros Ht. cbn. by rewrite (proj2 (Z.leb_le _ _) Ht). Qed.

Lemma wire_deleted p user : wire (deleted_payload p user) = deleted_payload p user.
Proof. unfold deleted_payload. simpl. repeat f_equal. apply wire_JStr_list. Qed.

(** The fields of a [post.created] event as the search handler reads them
    after the wire: the ISO string of [createdAt] casts back to it. *)
Lemma created_fields_wire p :
  post_id p <> "" -> post_user p <> "" -> post_content p <> "" ->
  (Z.abs (post_createdAt p) <= MAX_TIME)%Z ->
  SearchFacts.created_fields (wire (created_payload p)) =
    Some (post_id p, post_user p, post_content p, post_createdAt p).
Proof.
  intros Hi Hu Hc Ht. rewrite wire_created by done. unfold SearchFacts.created_fields. cbn [jget assoc String.eqb Ascii.eqb Bool.eqb].
  rewrite !SearchProps.req_string_nonempty by done. cbn [Search.req_date]. by rewrite parse_iso_toISOString.
Qed.

(** C36: every event the post service publishes is, at the consumer, a
    value of the schema its routing key names: [post.created] carries the
    post's id, author and content as strings and its creation time as an
    ISO date string that parses back, [post.deleted] the id, the user and
    the media ids as an array of strings; this holds of every post whose
    creation time is a valid JS date. *)
Theorem published_events_typed p user :
  (Z.abs (post_createdAt p) <= MAX_TIME)%Z ->
  well_typed (mkMessage EXCHANGE_NAME "post.created" (created_payload p)) = true /\
  well_typed (mkMessage EXCHANGE_NAME "post.deleted" (deleted_payload p user)) = true.
Proof.
  intros Ht. unfold well_typed.
  rewrite !consume_wf by (apply created_payload_wf || apply deleted_payload_wf).
  cbn [msg_body msg_key]. rewrite wire_created, wire_deleted by done.
  remember (toISOString (post_createdAt p)) as iso eqn:Hiso. simpl.
  rewrite Hiso, parse_iso_toISOString by done. split; [done|].
  clear. induction (post_mediaIds p) as [|x l IH]; [done|]. exact IH.
Qed.

(** C29: [post.created] across the wire.  The post service publishes the
    post it saved; the search consumer parses the text, and its handler
    stores an entry with the post's id, author, content and creation time:
    [JSON.stringify] writes the [Date] as its ISO string, and the model's
    [Date] cast of that string gives back the same instant. *)
Theorem post_created_over_wire p d :
  Search.sdb_up d = true -> post_id p <> "" -> post_user p <> "" -> post_content p <> "" ->
  (Z.abs (post_createdAt p) <= MAX_TIME)%Z -> Search.sdb_index d !! post_id p = None ->
  Search.sdb_index (snd (search_dispatch (mkMessage EXCHANGE_NAME "post.created" (created_payload p)) d)) =
    <[post_id p := Search.mkSearchPost (post_id p) (post_user p) (post_content p) (post_createdAt p)
                     (Search.sdb_now d)]> (Search.sdb_index d).
Proof.
  intros Hup Hi Hu Hc Ht Hnone. unfold search_dispatch.
  rewrite consume_wf by apply created_payload_wf. cbn [msg_key msg_body String.eqb Ascii.eqb Bool.eqb].
  rewrite SearchFacts.handlePostCreated_state, (SearchFacts.save_search_insert _ _ (post_id p) (post_user p)
    (post_content p) (post_createdAt p)); [done| |done|done].
  by apply created_fields_wire.
Qed.

Module WireWitnesses.

Definition post_p1 : Post := mkPost "p1" "u1" "hello world" ["m1"] 1700000000000.

Lemma published_events_typed_witness :
  well_typed (mkMessage EXCHANGE_NAME "post.created" (created_payload post_p1)) = true /\
  well_typed (mkMessage EXCHANGE_NAME "post.deleted" (deleted_payload post_p1 "u1")) = true.
Proof. apply published_events_typed. unfold post_p1, MAX_TIME. simpl. lia. Defined.

Lemma post_created_over_wire_witness :
  Search.sdb_index (snd (search_dispatch (mkMessage EXCHANGE_NAME "post.created" (created_payload post_p1))
                           SearchProps.sdb0)) =
    <["p1" := Search.mkSearchPost "p1" "u1" "hello world" 1700000000000 (Search.sdb_now SearchProps.sdb0)]>
      (Search.sdb_index SearchProps.sdb0).
Proof.
  apply (post_created_over_wire post_p1 SearchProps.sdb0); try reflexivity; discriminate.
Defined.

End WireWitnesses.
