(* ===== verification/System.v ===== *)
(** The services together: the post service (its store, cache and broker
    client), the broker, the search service's index and the media
    service, as one state stepped by requests, the environment and the
    two consumers.

    The consumers' [consumeEvent] (not under src/) is modelled from spec
    §4.3: each consuming service has one durable queue bound to its
    routing keys ([ConsumerIndex]), and the broker hands the oldest
    message, parsed from the JSON text [publishEvent] wrote
    ([Wire.consumeEvent]), to the handler registered for its routing key
    ([Wire.search_dispatch], [Wire.media_dispatch]):
    - search: [post.created] -> [handlePostCreated],
      [post.deleted] -> [handlePostDeleted];
    - media: [post.deleted] -> [handlePostDeleted].
    The invariant records that every queued payload is well formed for
    the codec ([json_wf]), so what a consumer parses is the payload with
    its dates as ISO strings.
    A message is acknowledged when the handler returns, and every handler
    catches its own errors, so a delivered message is never redelivered.

    [sys_step] is the system without faults of the broker or of the
    search store at delivery.  [sys_fault] adds them:
    - a broker crash, which drops queued messages ([publishEvent]
      publishes without [persistent: true]);
    - a delivery to the search handler while the search store is down.

    Theorems: the reads of the post service change only its cache; the
    invariant [search_inv] (every indexed post is live or has its
    deletion queued) holds on every state [sys_step] reaches; a [stale]
    entry (its post gone, no deletion queued for it, its id not to be
    issued again) stays stale through every step of [sys_fault], so a
    deletion lost to a broker crash or to a delivery during a search store
    outage is never repaired; deleting a post makes the media service
    reclaim exactly its media, also the media of another user that the
    post cites.  [SysRuns] holds the witnesses on the started system. *)

From S2P Require Import Prelude Json Iso JsonCodec Redis Broker PostStore PostService SearchService MediaService Wire.
Import Topic Mq MqFacts Registry ObjectId Store StoreFacts StoreHits.

Section System.
Context {C : Type} `{CacheStoreLaws CacheVal C}.

Record Sys := mkSys {
  sys_ps : PState C;
  sys_search : Search.SearchDB;
  sys_media : Media.MState;
}.

Definition sys_broker (S : Sys) : broker := mq_broker (ps_mq (sys_ps S)).

Definition with_ps (S : Sys) (s : PState C) : Sys := mkSys s (sys_search S) (sys_media S).

Definition with_broker (s : PState C) (b : broker) : PState C :=
  mkPS (ps_db s) (ps_cache s) (ps_redis_up s) (mkMq (mq_client (ps_mq s)) b).

(** The messages waiting in a service's queue, oldest first. *)
Definition queue_of (qn : string) (b : broker) : list message :=
  default [] (q_msgs <$> br_queues b !! qn).

Definition set_sdb_up (b : bool) (d : Search.SearchDB) : Search.SearchDB :=
  Search.mkSDB (Search.sdb_index d) (Search.sdb_now d) b.

Definition set_media_up (mongo cloud : bool) (s : Media.MState) : Media.MState :=
  Media.mkMS (Media.ms_media s) (Media.ms_next s) mongo (Media.ms_assets s)
    (Media.ms_destroyed s) (Media.ms_cloud_next s) cloud.

Inductive sys_step : Sys -> Sys -> Prop :=
| sys_create user data S :
    healthy (sys_ps S) -> sys_step S (with_ps S (snd (createPostController user data (sys_ps S))))
| sys_delete user id S :
    healthy (sys_ps S) -> sys_step S (with_ps S (snd (deletePostController user id (sys_ps S))))
| sys_getAll pq lq S : sys_step S (with_ps S (snd (getAllPostController pq lq (sys_ps S))))
| sys_getPost id S : sys_step S (with_ps S (snd (getPostController id (sys_ps S))))
| sys_evict ks S :
    sys_step S (with_ps S (mkPS (ps_db (sys_ps S)) (cache_del ks (ps_cache (sys_ps S)))
                              (ps_redis_up (sys_ps S)) (ps_mq (sys_ps S))))
| sys_redis b S :
    sys_step S (with_ps S (mkPS (ps_db (sys_ps S)) (ps_cache (sys_ps S)) b (ps_mq (sys_ps S))))
| sys_mongo b S :
    sys_step S (with_ps S (mkPS (set_db_up b (ps_db (sys_ps S))) (ps_cache (sys_ps S))
                              (ps_redis_up (sys_ps S)) (ps_mq (sys_ps S))))
| sys_tick S :
    sys_step S (with_ps S (mkPS (tick (ps_db (sys_ps S))) (ps_cache (sys_ps S))
                              (ps_redis_up (sys_ps S)) (ps_mq (sys_ps S))))
| sys_search_deliver S m b' :
    Search.sdb_up (sys_search S) = true ->
    deliver "search-service" (sys_broker S) = Some (m, b') ->
    sys_step S (mkSys (with_broker (sys_ps S) b') (snd (search_dispatch m (sys_search S))) (sys_media S))
| sys_media_deliver S m b' :
    deliver "media-service" (sys_broker S) = Some (m, b') ->
    sys_step S (mkSys (with_broker (sys_ps S) b') (sys_search S) (snd (media_dispatch m (sys_media S))))
| sys_media_req r S :
    sys_step S (mkSys (sys_ps S) (sys_search S) (snd (Media.mediaRouter r (sys_media S))))
| sys_search_mongo b S :
    sys_step S (mkSys (sys_ps S) (set_sdb_up b (sys_search S)) (sys_media S))
| sys_media_env mongo cloud S :
    sys_step S (mkSys (sys_ps S) (sys_search S) (set_media_up mongo cloud (sys_media S))).

(** One message taken by each consumer, when its queue has one. *)
Definition search_next (S : Sys) : Sys :=
  match deliver "search-service" (sys_broker S) with
  | Some (m, b') => mkSys (with_broker (sys_ps S) b') (snd (search_dispatch m (sys_search S))) (sys_media S)
  | None => S
  end.

Definition media_next (S : Sys) : Sys :=
  match deliver "media-service" (sys_broker S) with
  | Some (m, b') => mkSys (with_broker (sys_ps S) b') (sys_search S) (snd (media_dispatch m (sys_media S)))
  | None => S
  end.

Inductive sys_fault : Sys -> Sys -> Prop :=
| fault_step S S' : sys_step S S' -> sys_fault S S'
| fault_crash S :
    sys_fault S (with_ps S (with_broker (sys_ps S) (broker_crash (sys_broker S))))
| fault_restart S :
    sys_fault S (with_ps S (with_broker (sys_ps S) (broker_restart (sys_broker S))))
| fault_search_deliver_down S m b' :
    deliver "search-service" (sys_broker S) = Some (m, b') ->
    sys_fault S (mkSys (with_broker (sys_ps S) b') (snd (search_dispatch m (sys_search S))) (sys_media S)).

Lemma search_next_step S :
  Search.sdb_up (sys_search S) = true -> is_Some (deliver "search-service" (sys_broker S)) ->
  sys_step S (search_next S).
Proof.
  intros Hup [[m b'] Hd]. unfold search_next. rewrite Hd. by apply sys_search_deliver.
Qed.

Lemma search_next_fault S :
  is_Some (deliver "search-service" (sys_broker S)) -> sys_fault S (search_next S).
Proof. intros [[m b'] Hd]. unfold search_next. rewrite Hd. by apply fault_search_deliver_down. Qed.

Lemma media_next_step S : is_Some (deliver "media-service" (sys_broker S)) -> sys_step S (media_next S).
Proof. intros [[m b'] Hd]. unfold media_next. rewrite Hd. by apply sys_media_deliver. Qed.

End System.

(** ** The reads change only the cache *)

Section Reads.
Context {C : Type} `{CacheStoreLaws CacheVal C}.

Definition cache_only (s s' : PState C) : Prop :=
  ps_db s' = ps_db s /\ ps_redis_up s' = ps_redis_up s /\ ps_mq s' = ps_mq s.

#[export] Instance cache_only_preorder : PreOrder cache_only.
Proof.
  split; [by intros s; repeat split|].
  intros s1 s2 s3 (? & ? & ?) (? & ? & ?). repeat split; congruence.
Qed.

Lemma redis_cmd_cache_only {A} (f : C -> A * C) : ex_mono cache_only (redis_cmd f).
Proof.
  intros [d c [] q]; [|reflexivity]. unfold redis_cmd. simpl.
  destruct (f c). by repeat split.
Qed.

Lemma lift_db_cache_only {A} (m : Ex PostDB exn A) :
  (forall d, snd (m d) = d) -> ex_mono cache_only (lift_db m).
Proof. intros Hm [d c r q]. unfold lift_db. simpl. specialize (Hm d). destruct (m d). simpl in *. subst. by repeat split. Qed.

Lemma find_page_state start limit d : snd (find_page start limit d) = d.
Proof. unfold find_page, mongo_check. ex_simp. destruct (db_up d); [|done]. simpl. by destruct (Z.ltb start 0). Qed.

Lemma count_documents_state d : snd (count_documents d) = d.
Proof. unfold count_documents, mongo_check. ex_simp. by destruct (db_up d). Qed.

Lemma getAllPostController_cache_only pq lq : ex_mono cache_only (getAllPostController pq lq).
Proof.
  unfold getAllPostController, getAllPost_try, redis_get, redis_setex. ex_mono_split;
    eauto using redis_cmd_cache_only, lift_db_cache_only, find_page_state, count_documents_state.
Qed.

Lemma getPostController_cache_only id : ex_mono cache_only (getPostController id).
Proof.
  intros [d c r q]. destruct (getPost_effect d c r q id) as (Hd & Hr & Hq & _). by repeat split.
Qed.

End Reads.

(** ** The search index follows the posts *)

Section SearchConsistency.
Context {C : Type} `{CacheStoreLaws CacheVal C}.
Implicit Types w : @Sys C.

(** The search service's queue. *)
Definition sq w : list message := queue_of "search-service" (sys_broker w).

Definition is_msg (k pid : string) (m : message) : Prop :=
  msg_key m = k /\ jget "postId" (msg_body m) = Some (JStr pid).

(** The shape of the events [post-controller.js] publishes. *)
Definition wf_msg (m : message) : Prop :=
  (msg_key m = "post.created" \/ msg_key m = "post.deleted") /\ json_wf (msg_body m) /\
  exists pid, jget "postId" (msg_body m) = Some (JStr pid).

Definition del_in (l : list message) (pid : string) : Prop :=
  exists m, m ∈ l /\ is_msg "post.deleted" pid m.

Definition live w (pid : string) : Prop :=
  exists p, p ∈ db_posts (ps_db (sys_ps w)) /\ post_id p = pid.

(** The search queue exists and is bound to both routing keys. *)
Definition search_bound (b : broker) : Prop :=
  exists q, br_queues b !! "search-service" = Some q /\
    queue_accepts EXCHANGE_NAME "post.created" q = true /\
    queue_accepts EXCHANGE_NAME "post.deleted" q = true.

(** Spec §3: every index entry is a live post, or its deletion is on its
    way; and every [post.created] waiting in the queue is for a live post,
    or its deletion follows it in the queue. *)
Definition search_inv w : Prop :=
  search_bound (sys_broker w) /\ Forall wf_msg (sq w) /\
  (forall pid, is_Some (Search.sdb_index (sys_search w) !! pid) -> live w pid \/ del_in (sq w) pid) /\
  (forall i m pid, sq w !! i = Some m -> is_msg "post.created" pid m ->
     live w pid \/ del_in (drop (Datatypes.S i) (sq w)) pid).

Lemma del_in_app_l l l' pid : del_in l pid -> del_in (l ++ l') pid.
Proof. intros [m [Hm Hd]]. exists m. split; [apply elem_of_app; by left|done]. Qed.

Lemma del_in_app_r l l' pid : del_in l' pid -> del_in (l ++ l') pid.
Proof. intros [m [Hm Hd]]. exists m. split; [apply elem_of_app; by right|done]. Qed.

Lemma del_in_cons l m pid : del_in (m :: l) pid -> ~ is_msg "post.deleted" pid m -> del_in l pid.
Proof. intros [m' [[->|Hm]%elem_of_cons Hd]] Hn; [done|]. by exists m'. Qed.

(** A step that leaves the index alone and appends at most one message to
    the search queue keeps the invariant, when the posts it removes have
    their deletion appended and the post of an appended creation is live. *)
Lemma search_inv_append w w' (om : option message) :
  search_inv w -> Search.sdb_index (sys_search w') = Search.sdb_index (sys_search w) ->
  search_bound (sys_broker w') -> sq w' = sq w ++ option_list om ->
  (forall m, om = Some m -> wf_msg m) ->
  (forall pid, live w pid -> live w' pid \/ exists m, om = Some m /\ is_msg "post.deleted" pid m) ->
  (forall m pid, om = Some m -> is_msg "post.created" pid m -> live w' pid) ->
  search_inv w'.
Proof.
  intros (_ & Hwf & I1 & I2) Hix Hb Hq Hwfm Hlive Hnew. unfold search_inv. rewrite Hq.
  assert (forall pid, live w pid -> live w' pid \/ del_in (option_list om) pid) as Hlive'.
  { intros pid Hl. destruct (Hlive pid Hl) as [?|[m [-> ?]]]; [by left|right].
    exists m. split; [apply list_elem_of_here|done]. }
  split; [done|]. split.
  { apply Forall_app. split; [done|]. destruct om; constructor; [by apply Hwfm|constructor]. }
  split.
  - intros pid Hpid. rewrite Hix in Hpid. destruct (I1 pid Hpid) as [Hl|Hd].
    + destruct (Hlive' pid Hl) as [?|?]; [by left|right; by apply del_in_app_r].
    + right. by apply del_in_app_l.
  - intros i m pid Hi Hc. destruct (decide (i < length (sq w))%nat) as [Hlt|Hge].
    + rewrite lookup_app_l in Hi by done. rewrite drop_app_le by lia.
      destruct (I2 i m pid Hi Hc) as [Hl|Hd]; [|right; by apply del_in_app_l].
      destruct (Hlive' pid Hl) as [?|?]; [by left|right; by apply del_in_app_r].
    + rewrite lookup_app_r in Hi by lia. left.
      destruct om as [m'|]; simpl in Hi; [|by rewrite ?lookup_nil in Hi].
      destruct (i - length (sq w))%nat; simpl in Hi; [|by rewrite ?lookup_nil in Hi].
      injection Hi as ->. by apply (Hnew m).
Qed.

(** A routed event of either key lands at the tail of the search queue. *)
Lemma route_search b b' m :
  search_bound b -> msg_exchange m = EXCHANGE_NAME ->
  (msg_key m = "post.created" \/ msg_key m = "post.deleted") ->
  br_queues b' = route m (br_queues b) ->
  queue_of "search-service" b' = queue_of "search-service" b ++ [m] /\ search_bound b'.
Proof.
  intros (q & Hq & Hc & Hd) Hex Hk Hb'. unfold queue_of. rewrite Hb'.
  assert (queue_accepts (msg_exchange m) (msg_key m) q = true) as Ha by (rewrite Hex; by destruct Hk as [-> | ->]).
  rewrite (route_enqueue _ _ _ _ Hq Ha), Hq. split; [done|].
  exists (enqueue m q). by rewrite Hb', (route_enqueue _ _ _ _ Hq Ha).
Qed.

(** Delivery takes the head of one queue and leaves the others. *)
Lemma deliver_spec qn b m b' :
  deliver qn b = Some (m, b') ->
  exists d bs ms, br_queues b !! qn = Some (mkQueue d bs (m :: ms)) /\
    br_queues b' = <[qn := mkQueue d bs ms]> (br_queues b).
Proof.
  unfold deliver. destruct (br_queues b !! qn) as [[d bs [|m' ms]]|] eqn:Hq; try done.
  intros [= <- <-]. by exists d, bs, ms.
Qed.

Lemma deliver_search b m b' :
  search_bound b -> deliver "search-service" b = Some (m, b') ->
  queue_of "search-service" b = m :: queue_of "search-service" b' /\ search_bound b'.
Proof.
  intros (q & Hq & Hc & Hd) Hdel. destruct (deliver_spec _ _ _ _ Hdel) as (d & bs & ms & Hq' & Hb').
  rewrite Hq in Hq'. injection Hq' as ->. unfold queue_of. rewrite Hb', lookup_insert_eq, Hq.
  split; [done|]. exists (mkQueue d bs ms). by rewrite Hb', lookup_insert_eq.
Qed.

Lemma deliver_other qn qn' b m b' :
  qn <> qn' -> deliver qn b = Some (m, b') ->
  br_queues b' !! qn' = br_queues b !! qn'.
Proof.
  intros Hne Hdel. destruct (deliver_spec _ _ _ _ Hdel) as (d & bs & ms & _ & ->).
  by rewrite lookup_insert_ne.
Qed.

(** A delivery from the search queue keeps the invariant when the handler
    only keeps entries that are not the message's deletion, or adds the
    entry of the message's creation. *)
Lemma search_inv_pop w w' m :
  search_inv w -> sq w = m :: sq w' -> search_bound (sys_broker w') ->
  db_posts (ps_db (sys_ps w')) = db_posts (ps_db (sys_ps w)) ->
  (forall pid, is_Some (Search.sdb_index (sys_search w') !! pid) ->
     (is_Some (Search.sdb_index (sys_search w) !! pid) /\ ~ is_msg "post.deleted" pid m) \/
     is_msg "post.created" pid m) ->
  search_inv w'.
Proof.
  intros (_ & Hwf & I1 & I2) Hq Hb Hdb Hix. unfold live in *. rewrite Hq in Hwf, I1, I2.
  unfold search_inv, live. rewrite Hdb. split; [done|]. split; [by apply Forall_inv_tail in Hwf|]. split.
  - intros pid Hpid. destruct (Hix pid Hpid) as [[Hold Hn]|Hc].
    + destruct (I1 pid Hold) as [?|Hd]; [by left|right]. by apply (del_in_cons _ m).
    + exact (I2 0%nat m pid eq_refl Hc).
  - intros i m' pid Hi Hc. exact (I2 (Datatypes.S i) m' pid Hi Hc).
Qed.

Lemma created_fields_pid e pid p u c t :
  jget "postId" e = Some (JStr pid) -> SearchFacts.created_fields e = Some (p, u, c, t) -> p = pid.
Proof.
  unfold SearchFacts.created_fields. intros ->. cbn [Search.req_string mbind option_bind Search.cast_to_string].
  destruct (String.eqb pid ""); [done|].
  destruct (Search.req_string (jget "userId" e)), (Search.req_string (jget "content" e)),
    (Search.req_date (jget "createdAt" e)); congruence.
Qed.

(** What one delivery does to the index: an entry it keeps was there and
    is not the message's deletion; an entry it adds is the message's
    creation. *)
Lemma search_dispatch_index m d pid :
  wf_msg m -> Search.sdb_up d = true ->
  is_Some (Search.sdb_index (snd (search_dispatch m d)) !! pid) ->
  (is_Some (Search.sdb_index d !! pid) /\ ~ is_msg "post.deleted" pid m) \/ is_msg "post.created" pid m.
Proof.
  intros [[Hk|Hk] [Hwf [p Hp]]] Hup Hq; unfold search_dispatch in Hq;
    rewrite consume_wf, Hk in Hq by done; simpl in Hq;
    (assert (Hw : jget "postId" (wire (msg_body m)) = Some (JStr p)) by by rewrite jget_wire, Hp).
  - rewrite SearchFacts.handlePostCreated_state in Hq.
    destruct (SearchFacts.save_search_effect (wire (msg_body m)) d) as [He|(p' & u & c & t & Hf & _ & _ & He)];
      rewrite He in Hq; [left; split; [done|]; intros [Hk' _]; congruence|].
    pose proof (created_fields_pid _ _ _ _ _ _ Hw Hf) as ->. simpl in Hq.
    destruct (decide (pid = p)) as [->|Hne]; [by right|left].
    rewrite lookup_insert_ne in Hq by congruence. split; [done|]. intros [Hk' _]. congruence.
  - rewrite SearchFacts.handlePostDeleted_state, Hw, Hup in Hq. simpl in Hq.
    destruct (decide (pid = p)) as [->|Hne]; [by rewrite lookup_delete_eq in Hq; destruct Hq|].
    rewrite lookup_delete_ne in Hq by congruence. left. split; [done|]. intros [_ Hj]. congruence.
Qed.

(** A step that touches neither the posts, the index nor the search
    queue keeps the invariant. *)
Lemma search_inv_frame w w' :
  search_inv w ->
  Search.sdb_index (sys_search w') = Search.sdb_index (sys_search w) ->
  br_queues (sys_broker w') !! "search-service" = br_queues (sys_broker w) !! "search-service" ->
  db_posts (ps_db (sys_ps w')) = db_posts (ps_db (sys_ps w)) ->
  search_inv w'.
Proof.
  intros Hinv Hix Hq Hdb. pose proof Hinv as (Hb & _).
  apply (search_inv_append w w' None); try done.
  - destruct Hb as (q & Hq' & ?). exists q. by rewrite Hq.
  - unfold sq, queue_of. by rewrite Hq, app_nil_r.
  - intros pid (p & Hp & ?). left. exists p. by rewrite Hdb.
Qed.

Lemma live_app w w' p pid :
  db_posts (ps_db (sys_ps w')) = db_posts (ps_db (sys_ps w)) ++ [p] -> live w pid -> live w' pid.
Proof. intros Hdb (p0 & Hp0 & ?). exists p0. rewrite Hdb. split; [apply elem_of_app; by left|done]. Qed.

Lemma sys_create_search_inv w user data :
  healthy (sys_ps w) -> search_inv w ->
  search_inv (with_ps w (snd (createPostController user data (sys_ps w)))).
Proof.
  destruct w as [[d c r q] sd md]. intros [Hr Hq] Hinv. simpl in Hr, Hq. subst r.
  destruct (createPost_effect d c q user data Hq) as [_ [(Hd & _ & Hmq)|(p & _ & _ & Hd & _ & Hqs & _)]].
  - apply (search_inv_frame (mkSys (mkPS d c true q) sd md)); [done|done| |done].
    unfold sys_broker. simpl. by rewrite Hmq.
  - pose proof Hinv as (Hb & _).
    destruct (route_search _ _ (mkMessage EXCHANGE_NAME "post.created" (created_payload p))
      Hb eq_refl (or_introl eq_refl) Hqs) as [Hsq Hb'].
    apply (search_inv_append (mkSys (mkPS d c true q) sd md) _ (Some (mkMessage EXCHANGE_NAME "post.created" (created_payload p))));
      try done.
    + intros m [= <-]. split; [by left|]. split; [apply created_payload_wf|by eexists].
    + intros pid Hl. left. by apply (live_app (mkSys (mkPS d c true q) sd md) _ p).
    + intros m pid [= <-] [_ Hj]. simpl in Hj. injection Hj as <-.
      exists p. unfold sys_ps, with_ps. rewrite Hd. split; [apply elem_of_app; right; apply list_elem_of_here|done].
Qed.

Lemma sys_delete_search_inv w user id :
  healthy (sys_ps w) -> search_inv w ->
  search_inv (with_ps w (snd (deletePostController user id (sys_ps w)))).
Proof.
  destruct w as [[d c r q] sd md]. intros [Hr Hq] Hinv. simpl in Hr, Hq. subst r.
  destruct (deletePost_effect d c q user id Hq) as [_ [(Hd & _ & Hmq)|(oid & p & Hfp & Hd & _ & Hqs & _)]].
  - apply (search_inv_frame (mkSys (mkPS d c true q) sd md)); [done|done| |done].
    unfold sys_broker. simpl. by rewrite Hmq.
  - pose proof Hinv as (Hb & _). destruct (find_post_some _ _ _ Hfp) as [Hid _].
    destruct (route_search _ _ (mkMessage EXCHANGE_NAME "post.deleted" (deleted_payload p user))
      Hb eq_refl (or_intror eq_refl) Hqs) as [Hsq Hb'].
    apply (search_inv_append (mkSys (mkPS d c true q) sd md) _ (Some (mkMessage EXCHANGE_NAME "post.deleted" (deleted_payload p user))));
      try done.
    + intros m [= <-]. split; [by right|]. split; [apply deleted_payload_wf|by eexists].
    + intros pid (p0 & Hp0 & <-). destruct (decide (post_id p0 = oid)) as [Heq|Hne].
      * right. eexists. split; [done|]. split; [done|]. simpl. by rewrite Hid, Heq.
      * left. exists p0. unfold sys_ps, with_ps. rewrite Hd. split; [by apply remove_post_keep|done].
    + intros m pid [= <-] [Hk _]. done.
Qed.

Lemma sys_step_search_inv w w' : sys_step w w' -> search_inv w -> search_inv w'.
Proof.
  intros Hs Hinv.
  destruct Hs as [user data w Hh|user id w Hh|pq lq w|id w|ks w|b w|b w|w|w m b' Hup Hd|w m b' Hd|r w|b w|mo cl w].
  - by apply sys_create_search_inv.
  - by apply sys_delete_search_inv.
  - destruct (getAllPostController_cache_only pq lq (sys_ps w)) as (Hdb & _ & Hmq).
    apply (search_inv_frame w); [done|done| |by rewrite <- Hdb].
    unfold sys_broker. simpl. by rewrite Hmq.
  - destruct (getPostController_cache_only id (sys_ps w)) as (Hdb & _ & Hmq).
    apply (search_inv_frame w); [done|done| |by rewrite <- Hdb].
    unfold sys_broker. simpl. by rewrite Hmq.
  - by apply (search_inv_frame w).
  - by apply (search_inv_frame w).
  - by apply (search_inv_frame w).
  - by apply (search_inv_frame w).
  - pose proof Hinv as (Hb & Hwf & _).
    destruct (deliver_search _ _ _ Hb Hd) as [Hsq Hb'].
    apply (search_inv_pop w _ m); [done|done|done|done|].
    intros pid Hpid. apply (search_dispatch_index m (sys_search w)); [|done|done].
    unfold sq in Hwf. rewrite Hsq in Hwf. by apply Forall_inv in Hwf.
  - apply (search_inv_frame w); [done|done| |done].
    apply (deliver_other "media-service" _ _ m); [done|exact Hd].
  - by apply (search_inv_frame w).
  - by apply (search_inv_frame w).
  - by apply (search_inv_frame w).
Qed.

(** C30: the search index follows the posts (spec §3) in the system
    without faults.  From a state where the search queue is bound to both
    routing keys and the invariant holds (an empty index and queue, say),
    on every state reachable by [sys_step] (post writes taken only while
    Redis answers and the broker client can publish, reads at any time,
    each service's environment, the media consumer, and deliveries to the
    search consumer only while its store is up, the broker never
    crashing), every index entry is a live post or has its [post.deleted]
    waiting in the search queue; once that queue is drained, the index
    holds live posts only.  The faults break it: C32 (a broker crash) and
    C33 (a delivery while the search store is down). *)
Theorem search_index_sound w0 w :
  search_inv w0 -> rtc sys_step w0 w ->
  (forall pid, is_Some (Search.sdb_index (sys_search w) !! pid) -> live w pid \/ del_in (sq w) pid) /\
  (sq w = [] -> forall pid, is_Some (Search.sdb_index (sys_search w) !! pid) -> live w pid).
Proof.
  intros H0 Hr. assert (search_inv w) as (_ & _ & I1 & _).
  { induction Hr; eauto using sys_step_search_inv. }
  split; [done|]. intros Hnil pid Hpid. destruct (I1 pid Hpid) as [?|(m & Hm & _)]; [done|].
  rewrite Hnil in Hm. by apply not_elem_of_nil in Hm.
Qed.

End SearchConsistency.

(** ** A deletion, once lost, is lost for good *)

Section LostDeletions.
Context {C : Type} `{CacheStoreLaws CacheVal C}.
Implicit Types w : @Sys C.

(** The post store's id counter. *)
Definition sys_next w : N := db_next (ps_db (sys_ps w)).

(** [pid] is not an id the post store will issue while its counter stays
    below [16^24]: the store issues [oid_of] of its counter, which only
    grows. *)
Definition fresh_id w (pid : string) : Prop :=
  forall k, (sys_next w <= k < 16 ^ 24)%N -> oid_of k <> pid.

(** A stale index entry: the index holds [pid], no post has that id, no
    [post.deleted] for it waits in the search queue, whose messages are
    the events the post service publishes, and no post will get the id. *)
Definition stale w (pid : string) : Prop :=
  is_Some (Search.sdb_index (sys_search w) !! pid) /\ ~ live w pid /\ ~ del_in (sq w) pid /\
  Forall wf_msg (sq w) /\ fresh_id w pid.

Lemma queue_of_route qn b b' m :
  br_queues b' = route m (br_queues b) ->
  queue_of qn b' = queue_of qn b \/ queue_of qn b' = queue_of qn b ++ [m].
Proof.
  intros Hb. unfold queue_of. rewrite Hb, route_lookup.
  destruct (br_queues b !! qn) as [x|]; [|by left]. simpl.
  destruct (queue_accepts _ _ x); [by right|by left].
Qed.

Lemma deliver_queue_of qn b m b' :
  deliver qn b = Some (m, b') -> queue_of qn b = m :: queue_of qn b'.
Proof.
  intros Hd. destruct (deliver_spec _ _ _ _ Hd) as (d & bs & ms & Hq & Hb').
  unfold queue_of. by rewrite Hb', lookup_insert_eq, Hq.
Qed.

(** A crash drops every queued message. *)
Lemma queue_of_crash qn b : queue_of qn (broker_crash b) = [].
Proof.
  unfold queue_of, broker_crash. simpl. rewrite lookup_fmap.
  by destruct (filter _ (br_queues b) !! qn).
Qed.

Lemma search_dispatch_down m d :
  Search.sdb_up d = false -> snd (search_dispatch m d) = d.
Proof.
  intros Hdown. unfold search_dispatch. destruct (consumeEvent m) as [ev|]; [|done].
  destruct (String.eqb _ "post.created").
  - rewrite SearchFacts.handlePostCreated_state.
    destruct (SearchFacts.save_search_effect ev d) as [He|(? & ? & ? & ? & _ & Hup & _)]; [done|congruence].
  - destruct (String.eqb _ "post.deleted"); [|done].
    rewrite SearchFacts.handlePostDeleted_state, Hdown. by destruct (Search.filter_string _).
Qed.

(** A delivery keeps every entry but the one its [post.deleted] names,
    whether the search store is up or not. *)
Lemma search_dispatch_keeps m d pid :
  wf_msg m -> is_Some (Search.sdb_index d !! pid) -> ~ is_msg "post.deleted" pid m ->
  is_Some (Search.sdb_index (snd (search_dispatch m d)) !! pid).
Proof.
  intros [[Hk|Hk] [Hwf [p Hp]]] Hix Hn; unfold search_dispatch;
    rewrite consume_wf, Hk by done; simpl;
    (assert (Hw : jget "postId" (wire (msg_body m)) = Some (JStr p)) by by rewrite jget_wire, Hp).
  - rewrite SearchFacts.handlePostCreated_state.
    destruct (SearchFacts.save_search_effect (wire (msg_body m)) d) as [->|(p' & u & c & t & _ & _ & _ & ->)];
      [done|]. simpl. destruct (decide (pid = p')) as [->|Hne]; [rewrite lookup_insert_eq; by eexists|].
    by rewrite lookup_insert_ne by congruence.
  - rewrite SearchFacts.handlePostDeleted_state, Hw. simpl. destruct (Search.sdb_up d); [|done].
    simpl. rewrite lookup_delete_ne; [done|]. intros ->. by apply Hn.
Qed.

Lemma stale_frame w w' pid :
  stale w pid -> Search.sdb_index (sys_search w') = Search.sdb_index (sys_search w) ->
  ps_db (sys_ps w') = ps_db (sys_ps w) -> sq w' = sq w -> stale w' pid.
Proof. unfold stale, live, fresh_id, sys_next. intros Hs -> -> ->. exact Hs. Qed.

(** A step that keeps the index and the id counter, removes no live post
    but may add one of another id, and appends to the search queue at
    most one well-formed message that is not [pid]'s deletion. *)
Lemma stale_append w w' pid (om : option message) :
  stale w pid -> Search.sdb_index (sys_search w') = Search.sdb_index (sys_search w) ->
  (sys_next w <= sys_next w')%N ->
  (forall p, p ∈ db_posts (ps_db (sys_ps w')) -> p ∈ db_posts (ps_db (sys_ps w)) \/ post_id p <> pid) ->
  sq w' = sq w ++ option_list om ->
  (forall m, om = Some m -> wf_msg m /\ ~ is_msg "post.deleted" pid m) ->
  stale w' pid.
Proof.
  intros (Hix & Hl & Hd & Hwf & Hf) Hix' Hnext Hposts Hq Hm. unfold stale. rewrite Hix', Hq.
  split; [done|]. split; [|split; [|split]].
  - intros (p & Hp & <-). destruct (Hposts p Hp) as [Hp'|]; [|done]. apply Hl. by exists p.
  - intros (m & [Hm'|Hm']%elem_of_app & Hdm); [apply Hd; by exists m|].
    destruct om as [m'|]; simpl in Hm'; [|by apply not_elem_of_nil in Hm'].
    apply list_elem_of_singleton in Hm' as ->. by apply (Hm m').
  - apply Forall_app. split; [done|]. destruct om as [m'|]; constructor; [by apply (Hm m')|constructor].
  - intros k Hk. apply Hf. lia.
Qed.

Lemma stale_pop w w' m pid :
  stale w pid -> sq w = m :: sq w' ->
  Search.sdb_index (sys_search w') = Search.sdb_index (snd (search_dispatch m (sys_search w))) ->
  ps_db (sys_ps w') = ps_db (sys_ps w) -> stale w' pid.
Proof.
  intros (Hix & Hl & Hd & Hwf & Hf) Hq Hix' Hdb. rewrite Hq in Hd, Hwf.
  apply Forall_cons in Hwf as [Hm Hwf]. unfold stale, live, fresh_id, sys_next in *. rewrite Hix', Hdb.
  split; [apply search_dispatch_keeps; [done|done|]; intros Hdm; apply Hd; exists m; split; [apply list_elem_of_here|done]|].
  split; [done|]. split; [|done]. intros (m' & Hm' & Hdm). apply Hd. exists m'. split; [by apply list_elem_of_further|done].
Qed.

Lemma created_msg_ok p pid :
  wf_msg (mkMessage EXCHANGE_NAME "post.created" (created_payload p)) /\
  ~ is_msg "post.deleted" pid (mkMessage EXCHANGE_NAME "post.created" (created_payload p)).
Proof.
  split; [split; [by left|split; [apply created_payload_wf|by eexists]]|]. by intros [Hk _].
Qed.

Lemma stale_create w w' pid user data :
  healthy (sys_ps w) -> stale w pid -> w' = with_ps w (snd (createPostController user data (sys_ps w))) ->
  (sys_next w' <= 16 ^ 24)%N -> stale w' pid.
Proof.
  destruct w as [[d c r q] sd md]. intros [Hr Hq] Hs -> Hb. simpl in Hr, Hq. subst r.
  pose proof Hs as (_ & _ & _ & _ & Hf). unfold sys_next in *.
  destruct (createPost_effect d c q user data Hq) as [Hnext [(Hd & _ & Hmq)|(p & Hid & Hn & Hd & _ & Hqs & _)]].
  - apply (stale_append _ _ pid None Hs); try done.
    + intros p0. cbn [sys_ps with_ps]. rewrite Hd. by left.
    + unfold sq, sys_broker. cbn [sys_ps with_ps]. rewrite Hmq. by rewrite app_nil_r.
  - simpl in Hb, Hn. rewrite Hn in Hb.
    assert (Hne : post_id p <> pid) by (rewrite Hid; apply Hf; unfold sys_next; cbn [sys_ps ps_db]; lia).
    destruct (queue_of_route "search-service" _ _ _ Hqs) as [Hsq|Hsq];
      [apply (stale_append _ _ pid None Hs)|apply (stale_append _ _ pid (Some (mkMessage EXCHANGE_NAME "post.created" (created_payload p))) Hs)];
      try done; try (intros p0; cbn [sys_ps with_ps]; rewrite Hd; intros [? | ->%list_elem_of_singleton]%elem_of_app; [by left|by right]).
    + unfold sq, sys_broker. cbn [sys_ps with_ps]. rewrite Hsq. by rewrite app_nil_r.
    + intros m [= <-]. apply created_msg_ok.
Qed.

Lemma stale_delete w w' pid user id :
  healthy (sys_ps w) -> stale w pid -> w' = with_ps w (snd (deletePostController user id (sys_ps w))) ->
  stale w' pid.
Proof.
  destruct w as [[d c r q] sd md]. intros [Hr Hq] Hs ->. simpl in Hr, Hq. subst r.
  pose proof Hs as (_ & Hl & _ & _ & _). unfold sys_next in *.
  destruct (deletePost_effect d c q user id Hq) as [Hnext [(Hd & _ & Hmq)|(oid & p & Hfp & Hd & _ & Hqs & _)]].
  - apply (stale_append _ _ pid None Hs); try done.
    + unfold sys_next. simpl. lia.
    + intros p0. cbn [sys_ps with_ps]. rewrite Hd. by left.
    + unfold sq, sys_broker. cbn [sys_ps with_ps]. rewrite Hmq. by rewrite app_nil_r.
  - destruct (find_post_some _ _ _ Hfp) as [_ Hp].
    assert (Hne : post_id p <> pid) by (intros Heq; apply Hl; by exists p).
    destruct (queue_of_route "search-service" _ _ _ Hqs) as [Hsq|Hsq];
      [apply (stale_append _ _ pid None Hs)|apply (stale_append _ _ pid (Some (mkMessage EXCHANGE_NAME "post.deleted" (deleted_payload p user))) Hs)];
      try done; try (unfold sys_next; simpl; lia); try (intros p0; cbn [sys_ps with_ps]; rewrite Hd; intros ?%remove_post_sub; by left).
    + unfold sq, sys_broker. cbn [sys_ps with_ps]. rewrite Hsq. by rewrite app_nil_r.
    + intros m [= <-]. split; [split; [by right|split; [apply deleted_payload_wf|by eexists]]|].
      intros [_ Hj]. simpl in Hj. congruence.
Qed.

(** The id counter never goes back. *)
Lemma sys_fault_next w w' : sys_fault w w' -> (sys_next w <= sys_next w')%N.
Proof.
  unfold sys_next. intros Hs. destruct Hs as [w w' Hs| | |]; [|simpl; lia..].
  destruct Hs as [user data [[d c r q] sd md] [Hr Hq]|user id [[d c r q] sd md] [Hr Hq]|pq lq w|id w|ks w|b w|b w|w
    |w m b' Hup Hd|w m b' Hd|r w|b w|mo cl w]; simpl; try lia.
  - simpl in Hr. subst r. apply (createPost_effect d c q user data Hq).
  - simpl in Hr. subst r. destruct (deletePost_effect d c q user id Hq) as [-> _]. lia.
  - destruct (getAllPostController_cache_only pq lq (sys_ps w)) as (-> & _). lia.
  - destruct (getPostController_cache_only id (sys_ps w)) as (-> & _). lia.
Qed.

Lemma stale_search_deliver w m b' pid :
  stale w pid -> deliver "search-service" (sys_broker w) = Some (m, b') ->
  stale (mkSys (with_broker (sys_ps w) b') (snd (search_dispatch m (sys_search w))) (sys_media w)) pid.
Proof. intros Hs Hd. apply (stale_pop w _ m); [done|by apply deliver_queue_of|done|done]. Qed.

(** Every step of the system, faults included, keeps an entry stale
    while the counter stays below [16^24]. *)
Lemma stale_fault w w' pid :
  sys_fault w w' -> stale w pid -> (sys_next w' <= 16 ^ 24)%N -> stale w' pid.
Proof.
  intros Hs Hst Hb. destruct Hs as [w w' Hs|w|w|w m b' Hd].
  - destruct Hs as [user data w Hh|user id w Hh|pq lq w|id w|ks w|b w|b w|w
      |w m b' Hup Hd|w m b' Hd|r w|b w|mo cl w];
      try (apply (stale_frame w); [done|done|done|done]).
    + by apply (stale_create w _ pid user data).
    + by apply (stale_delete w _ pid user id).
    + destruct (getAllPostController_cache_only pq lq (sys_ps w)) as (Hdb & _ & Hmq).
      apply (stale_frame w); [done|done|done|]. unfold sq, sys_broker. cbn [sys_ps with_ps]. by rewrite Hmq.
    + destruct (getPostController_cache_only id (sys_ps w)) as (Hdb & _ & Hmq).
      apply (stale_frame w); [done|done|done|]. unfold sq, sys_broker. cbn [sys_ps with_ps]. by rewrite Hmq.
    + apply (stale_append _ _ pid None Hst); try done; [intros p0; by left|by rewrite app_nil_r].
    + apply (stale_append _ _ pid None Hst); try done; [intros p0; by left|by rewrite app_nil_r].
    + by apply stale_search_deliver.
    + apply (stale_frame w); [done|done|done|]. unfold sq, queue_of, sys_broker. cbn [sys_ps with_broker ps_mq mq_broker].
      by rewrite (deliver_other "media-service" "search-service" (sys_broker w) m b').
  - destruct Hst as (Hix & Hl & _ & _ & Hf). unfold stale, sq, sys_broker. cbn [sys_ps with_ps with_broker mq_broker ps_mq].
    rewrite queue_of_crash. split; [done|]. split; [done|]. split; [by intros (m & ?%not_elem_of_nil & _)|].
    split; [constructor|done].
  - by apply (stale_frame w).
  - by apply stale_search_deliver.
Qed.

Lemma rtc_sys_next w w' : rtc sys_fault w w' -> (sys_next w <= sys_next w')%N.
Proof. induction 1 as [|x y z Hxy _ IH]; [reflexivity|]. etrans; [by apply sys_fault_next|done]. Qed.

Lemma stale_reachable w w' pid :
  stale w pid -> rtc sys_fault w w' -> (sys_next w' <= 16 ^ 24)%N -> stale w' pid.
Proof.
  intros Hs Hr. revert Hs. induction Hr as [w|w1 w2 w3 H12 H23 IH]; intros Hs Hb; [done|].
  apply IH; [|done]. apply (stale_fault w1); [done|done|]. etrans; [apply rtc_sys_next, H23|exact Hb].
Qed.

(** C32: a broker crash loses a pending deletion for good.
    [publishEvent] publishes without [persistent: true], so a crash
    empties the durable search queue.  Take any state whose index holds
    an entry for a post that no longer exists, whose [post.deleted] waits
    in the search queue, and whose id the store will not issue again:
    right after the crash the deletion is gone, and every state reached
    afterwards, by requests, consumers, the environment and further faults
    (crashes, restarts, deliveries while the search store is down), still
    has the entry and no post with that id, as long as the store has
    issued fewer than [16^24] ids. *)
Theorem crash_loses_deletion w pid w' :
  is_Some (Search.sdb_index (sys_search w) !! pid) -> ~ live w pid -> del_in (sq w) pid -> fresh_id w pid ->
  let wc := with_ps w (with_broker (sys_ps w) (broker_crash (sys_broker w))) in
  rtc sys_fault wc w' -> (sys_next w' <= 16 ^ 24)%N ->
  sys_fault w wc /\ sq wc = [] /\
  is_Some (Search.sdb_index (sys_search w') !! pid) /\ ~ live w' pid.
Proof.
  intros Hix Hl _ Hf wc Hr Hb.
  assert (Hq : sq wc = []) by apply queue_of_crash.
  assert (Hs : stale wc pid).
  { split; [exact Hix|]. split; [exact Hl|]. rewrite Hq.
    split; [by intros (m & ?%not_elem_of_nil & _)|]. split; [constructor|exact Hf]. }
  destruct (stale_reachable wc w' pid Hs Hr Hb) as (Hix' & Hl' & _).
  split; [apply fault_crash|done].
Qed.

(** C33: a deletion delivered while the search store is down is lost for
    good.  [handlePostDeleted] catches the Mongo error and the message is
    acknowledged anyway, where spec §4.3 asks for a redelivery.  For any
    delivery of a [post.deleted] for [pid] from the search queue while the
    store is down, the index is unchanged and the message is gone; when
    the post no longer exists, no other deletion of it waits and its id
    will not be issued again, every state reached afterwards (the store
    back up, requests, consumers, faults) still has the entry and no post
    with that id, as long as the store has issued fewer than [16^24] ids. *)
Theorem search_down_loses_deletion w m b' pid w' :
  deliver "search-service" (sys_broker w) = Some (m, b') -> Search.sdb_up (sys_search w) = false ->
  is_msg "post.deleted" pid m -> is_Some (Search.sdb_index (sys_search w) !! pid) -> ~ live w pid ->
  fresh_id w pid ->
  let wd := mkSys (with_broker (sys_ps w) b') (snd (search_dispatch m (sys_search w))) (sys_media w) in
  Forall wf_msg (sq wd) -> ~ del_in (sq wd) pid ->
  rtc sys_fault wd w' -> (sys_next w' <= 16 ^ 24)%N ->
  sys_fault w wd /\ sys_search wd = sys_search w /\ sq w = m :: sq wd /\
  is_Some (Search.sdb_index (sys_search w') !! pid) /\ ~ live w' pid.
Proof.
  intros Hd Hdown _ Hix Hl Hf wd Hwf Hdel Hr Hb.
  assert (Hsd : sys_search wd = sys_search w) by (apply search_dispatch_down, Hdown).
  assert (Hs : stale wd pid).
  { split; [by rewrite Hsd|]. split; [exact Hl|]. split; [exact Hdel|]. split; [exact Hwf|exact Hf]. }
  destruct (stale_reachable wd w' pid Hs Hr Hb) as (Hix' & Hl' & _).
  split; [by apply fault_search_deliver_down|]. split; [done|]. split; [by apply deliver_queue_of|done].
Qed.

End LostDeletions.

(** ** Deleting a post reclaims its media *)

Section MediaPipeline.
Context {C : Type} `{CacheStoreLaws CacheVal C}.

(** A delete that finds its post: the post goes, the cache is invalidated
    and the [post.deleted] event is routed. *)
Lemma deletePost_hit (s : PState C) user id oid p :
  healthy s -> db_up (ps_db s) = true -> cast_oid id = Some oid ->
  find_post oid (db_posts (ps_db s)) = Some p ->
  exists q', deletePostController user id s =
      (inr (mkResp 200 (BMsg true "Post deleted successfully")),
       mkPS (set_posts (remove_post oid (db_posts (ps_db s))) (ps_db s)) (invalidated id (ps_cache s)) true q') /\
    br_queues (mq_broker q') =
      route (mkMessage EXCHANGE_NAME "post.deleted" (deleted_payload p user)) (br_queues (mq_broker (ps_mq s))).
Proof.
  destruct s as [d c r q]. intros [Hr Hq] Hup Hid Hf. simpl in *. subst r.
  unfold deletePostController, deletePost_try, ex_catch, mbind, ex_bind.
  rewrite lift_db_run, (find_by_id_and_delete_hit _ oid p) by (simpl; done).
  cbn [fst snd db_posts set_posts].
  destruct (publishEvent_ready q "post.deleted" (deleted_payload p user) Hq) as [q' [Hp [Hqs _]]].
  rewrite lift_mq_run, Hp. cbn [fst snd]. rewrite invalidatePostCache_up. by exists q'.
Qed.

(** The media queue exists, is bound to [post.deleted] and is empty. *)
Definition media_idle (b : broker) : Prop :=
  exists q, br_queues b !! "media-service" = Some q /\
    queue_accepts EXCHANGE_NAME "post.deleted" q = true /\ q_msgs q = [].

Lemma mapM_ref_oid (ids : list string) : mapM Media.ref_oid (JStr <$> ids) = mapM cast_oid ids.
Proof.
  induction ids as [|i ids IH]; [done|]. simpl.
  change (list_fmap string json JStr ids) with (JStr <$> ids). by rewrite IH.
Qed.

(** The media pipeline after a deletion, the proof of C31. *)
Lemma delete_post_media (w : Sys) user id oid p oids :
  healthy (sys_ps w) -> db_up (ps_db (sys_ps w)) = true -> cast_oid id = Some oid ->
  find_post oid (db_posts (ps_db (sys_ps w))) = Some p -> media_idle (sys_broker w) ->
  Media.ms_up (sys_media w) = true -> Media.ms_cloud_up (sys_media w) = true ->
  mapM cast_oid (post_mediaIds p) = Some oids -> NoDup oids ->
  let w' := media_next (with_ps w (snd (deletePostController user id (sys_ps w)))) in
  Media.ms_media (sys_media w') = filter (fun m => Media.m_id m ∉ oids) (Media.ms_media (sys_media w)) /\
  Media.ms_destroyed (sys_media w') =
    Media.ms_destroyed (sys_media w) ++ omap (fun o => Media.m_publicId <$> Media.media_of (sys_media w) o) oids.
Proof.
  intros Hh Hup Hid Hf (mq & Hmq & Hacc & Hnil) Hmu Hcu Hoids Hnd w'.
  destruct (deletePost_hit _ user id oid p Hh Hup Hid Hf) as (q' & Hs & Hqs).
  unfold sys_broker in Hmq.
  assert (deliver "media-service" (mq_broker q') =
          Some (mkMessage EXCHANGE_NAME "post.deleted" (deleted_payload p user),
                set_queues (<["media-service" := mkQueue (q_durable mq) (q_bindings mq) []]> (br_queues (mq_broker q')))
                  (mq_broker q'))) as Hd.
  { unfold deliver. rewrite Hqs, (route_enqueue (mkMessage EXCHANGE_NAME "post.deleted" (deleted_payload p user)) _ _ _ Hmq Hacc).
    unfold enqueue. by rewrite Hnil. }
  subst w'. unfold media_next, sys_broker, with_ps. simpl. rewrite Hs. simpl. rewrite Hd. simpl.
  unfold media_dispatch. rewrite consume_wf by apply deleted_payload_wf. cbn [msg_body].
  rewrite wire_deleted. cbn [msg_key String.eqb Ascii.eqb Bool.eqb].
  apply Media.media_deleted_effect with (refs := JStr <$> post_mediaIds p); try done.
  by rewrite mapM_ref_oid.
Qed.

(** C31: deleting a post reclaims its media (spec §4.6, end to end).
    When [deletePostController] deletes a post whose [mediaIds] are
    distinct well-formed ids, and the media service takes the event from
    its otherwise empty queue with Mongo and the storage up, exactly the
    documents those ids name are removed and one storage delete is issued
    per document, in the order of the post's [mediaIds]. *)
Theorem delete_post_reclaims_media (w : Sys) user id oid p oids :
  healthy (sys_ps w) -> db_up (ps_db (sys_ps w)) = true -> cast_oid id = Some oid ->
  find_post oid (db_posts (ps_db (sys_ps w))) = Some p -> media_idle (sys_broker w) ->
  Media.ms_up (sys_media w) = true -> Media.ms_cloud_up (sys_media w) = true ->
  mapM cast_oid (post_mediaIds p) = Some oids -> NoDup oids ->
  let w' := media_next (with_ps w (snd (deletePostController user id (sys_ps w)))) in
  Media.ms_media (sys_media w') = filter (fun m => Media.m_id m ∉ oids) (Media.ms_media (sys_media w)) /\
  Media.ms_destroyed (sys_media w') =
    Media.ms_destroyed (sys_media w) ++ omap (fun o => Media.m_publicId <$> Media.media_of (sys_media w) o) oids.
Proof. apply delete_post_media. Qed.

(** The media queue exists, takes [post.deleted] but not [post.created],
    and is empty. *)
Definition media_quiet (b : broker) : Prop :=
  exists q, br_queues b !! "media-service" = Some q /\
    queue_accepts EXCHANGE_NAME "post.deleted" q = true /\
    queue_accepts EXCHANGE_NAME "post.created" q = false /\ q_msgs q = [].

Lemma find_post_fresh id ps p :
  existsb (fun p => String.eqb (post_id p) id) ps = false -> post_id p = id ->
  find_post id (ps ++ [p]) = Some p.
Proof.
  intros Hf Hid. induction ps as [|p' ps IH]; simpl in *.
  - by rewrite Hid, String.eqb_refl.
  - apply orb_false_iff in Hf as [-> Hf]. by apply IH.
Qed.

(** C34: a user's media is deleted through another user's post.
    [createPostController] stores whatever ids [mediaIds] holds without
    checking that they name the requester's media, and the media
    projector deletes every document a deleted post names.  From any state
    with a working post service, an idle media consumer and a media
    document [md] of a user other than [u2], when [u2] creates a post
    citing [md]'s id and deletes it, both requests succeed and the media
    service removes [md] and issues the storage delete of its asset. *)
Theorem foreign_media_deleted (w : Sys) u2 content md :
  healthy (sys_ps w) -> db_up (ps_db (sys_ps w)) = true ->
  existsb (fun p => String.eqb (post_id p) (oid_of (db_next (ps_db (sys_ps w))))) (db_posts (ps_db (sys_ps w))) = false ->
  3 <= String.length content <= 5000 -> media_quiet (sys_broker w) ->
  Media.ms_up (sys_media w) = true -> Media.ms_cloud_up (sys_media w) = true ->
  Media.media_of (sys_media w) (Media.m_id md) = Some md -> Media.m_userId md <> u2 ->
  cast_oid (Media.m_id md) = Some (Media.m_id md) ->
  let body := JObj [("content", JStr content); ("mediaIds", JArr [JStr (Media.m_id md)])] in
  let pid := oid_of (db_next (ps_db (sys_ps w))) in
  let w1 := with_ps w (snd (createPostController u2 body (sys_ps w))) in
  let w2 := media_next (with_ps w1 (snd (deletePostController u2 pid (sys_ps w1)))) in
  fst (createPostController u2 body (sys_ps w)) = inr created_resp /\
  fst (deletePostController u2 pid (sys_ps w1)) = inr (mkResp 200 (BMsg true "Post deleted successfully")) /\
  Media.ms_media (sys_media w2) = filter (fun m => Media.m_id m <> Media.m_id md) (Media.ms_media (sys_media w)) /\
  Media.ms_destroyed (sys_media w2) = Media.ms_destroyed (sys_media w) ++ [Media.m_publicId md].
Proof.
  destruct w as [[d c r q] sd msd]. intros [Hr Hq] Hup Hfresh Hlen (mq & Hmq & Hdel & Hcre & Hnil) Hmu Hcu Hmd _ Hcast
    body pid w1 w2. simpl in Hr, Hq, Hup, Hfresh, Hmq. subst r.
  set (p := mkPost (oid_of (db_next d)) u2 (default "" (jstring (jget "content" body))) [Media.m_id md] (db_now d)).
  destruct (publishEvent_ready q "post.created" (created_payload p) Hq) as [q1 [Hp [Hqs1 Hr1]]].
  assert (Hv : valid_create_body body).
  { split; [by eexists|]. split; [exists content; split; [reflexivity|exact Hlen]|]. split; [right; by eexists|].
    simpl. constructor; [by left|]. constructor; [by right|]. constructor. }
  assert (Hc : createPostController u2 body (mkPS d c true q) =
    (inr created_resp, mkPS (mkDB (db_posts d ++ [p]) (N.succ (db_next d)) (db_now d) (db_up d))
                              (invalidated pid c) true q1)).
  { unfold createPostController, ex_catch. rewrite (createPost_try_saved d c true q u2 body [Media.m_id md]) by done.
    fold p. unfold mbind, ex_bind. rewrite lift_mq_run, Hp. cbn [fst snd]. by rewrite invalidatePostCache_up. }
  assert (Hmq1 : br_queues (mq_broker q1) !! "media-service" = Some mq)
    by (rewrite Hqs1; by apply route_skip).
  assert (Hf : find_post pid (db_posts d ++ [p]) = Some p) by (by apply find_post_fresh).
  pose proof (delete_post_media (with_ps (mkSys (mkPS d c true q) sd msd)
    (mkPS (mkDB (db_posts d ++ [p]) (N.succ (db_next d)) (db_now d) (db_up d)) (invalidated pid c) true q1))
    u2 pid pid p [Media.m_id md]) as Hm.
  destruct (deletePost_hit (mkPS (mkDB (db_posts d ++ [p]) (N.succ (db_next d)) (db_now d) (db_up d))
    (invalidated pid c) true q1) u2 pid pid p) as (q2 & Hd2 & _); [by split|done|apply cast_oid_of|done|].
  subst w2 w1. cbn [sys_ps with_ps]. rewrite Hc. cbn [fst snd sys_ps]. rewrite Hd2. cbn [fst snd]. split; [done|]. split; [done|].
  destruct Hm as [Hm1 Hm2]; [by split|done|apply cast_oid_of|done|by exists mq|done|done|simpl; by rewrite Hcast
    |apply NoDup_singleton|].
  cbn [sys_ps sys_media with_ps] in Hm1, Hm2. rewrite Hd2 in Hm1, Hm2. cbn [fst snd] in Hm1, Hm2. rewrite Hm1, Hm2. cbn [sys_media with_ps].
  split.
  - apply list_filter_iff. intros x. by rewrite list_elem_of_singleton.
  - simpl in Hmd. simpl. by rewrite Hmd.
Qed.

End MediaPipeline.

(** ** Concrete runs of the system *)

Module SysRuns.
Import PostService.Runs.

Abbreviation RSys := (@Sys (RedisDb CacheVal)).

(** The three services started: the search queue bound to both routing
    keys, the media queue to [post.deleted]. *)
Definition sys0 : RSys :=
  mkSys (mkPS db0 redis_empty true
           (mkMq client_init (ConsumerIndex.media_startServer (ConsumerIndex.search_startServer broker0))))
        SearchProps.sdb0 MediaRuns.ms0.

(** [u1] creates a post, the search service indexes it, [u1] deletes it. *)
Definition w1 : RSys := with_ps sys0 (snd (createPostController "u1" body_hello (sys_ps sys0))).
Definition w2 : RSys := search_next w1.
Definition w3 : RSys := with_ps w2 (snd (deletePostController "u1" (oid_of 0) (sys_ps w2))).

Lemma search_inv_sys0 : search_inv sys0.
Proof.
  split; [vm_compute; eexists; split; [reflexivity|split; reflexivity]|].
  split; [assert (sq sys0 = []) as -> by reflexivity; constructor|]. split.
  - intros pid [? Hp]. unfold sys0, SearchProps.sdb0 in Hp. simpl in Hp. by rewrite lookup_empty in Hp.
  - intros i m pid Hi. assert (sq sys0 = []) as Hnil by reflexivity. by rewrite Hnil, lookup_nil in Hi.
Qed.

Lemma healthy_w2 : healthy (sys_ps w2).
Proof. split; [reflexivity|]. vm_compute. split; [set_solver|by eexists]. Qed.

Lemma run_w3 : rtc sys_step sys0 w3.
Proof.
  apply (rtc_l _ _ w1); [apply (sys_create "u1" body_hello); split; [reflexivity|split; [reflexivity|by left]]|].
  apply (rtc_l _ _ w2); [unfold w2; apply search_next_step; [reflexivity|vm_compute; by eexists]|].
  apply rtc_once, (sys_delete "u1" (oid_of 0) w2), healthy_w2.
Qed.

Lemma indexed_w3 : is_Some (Search.sdb_index (sys_search w3) !! oid_of 0).
Proof. vm_compute. by eexists. Qed.

(** The search store is down when the deletion is delivered, and comes
    back. *)
Definition w5 : RSys := mkSys (sys_ps w3) (set_sdb_up false (sys_search w3)) (sys_media w3).

Lemma search_index_sound_witness :
  (forall pid, is_Some (Search.sdb_index (sys_search w3) !! pid) -> live w3 pid \/ del_in (sq w3) pid) /\
  (sq w3 = [] -> forall pid, is_Some (Search.sdb_index (sys_search w3) !! pid) -> live w3 pid).
Proof. apply (search_index_sound sys0 w3); [apply search_inv_sys0|apply run_w3]. Defined.

Lemma gone_w3 : ~ live w3 (oid_of 0).
Proof. intros (p & Hp & _). vm_compute in Hp. by apply not_elem_of_nil in Hp. Qed.

Lemma fresh_oid0 (w : RSys) : sys_next w = 1%N -> fresh_id w (oid_of 0).
Proof.
  intros Hn k Hk E. rewrite Hn in Hk. apply oid_of_inj in E; [lia|lia|].
  vm_compute. reflexivity.
Qed.

Definition del_msg : message := mkMessage EXCHANGE_NAME "post.deleted" (deleted_payload post1 "u1").

Lemma crash_loses_deletion_witness :
  let wc := with_ps w3 (with_broker (sys_ps w3) (broker_crash (sys_broker w3))) in
  sys_fault w3 wc /\ sq wc = [] /\
  is_Some (Search.sdb_index (sys_search wc) !! oid_of 0) /\ ~ live wc (oid_of 0).
Proof.
  intros wc. apply (crash_loses_deletion w3 (oid_of 0) wc).
  - apply indexed_w3.
  - apply gone_w3.
  - exists del_msg. split; [|split; reflexivity].
    assert (sq w3 = [del_msg]) as -> by (vm_compute; reflexivity). apply list_elem_of_here.
  - apply fresh_oid0. vm_compute. reflexivity.
  - apply rtc_refl.
  - assert (sys_next wc = 1%N) as -> by (vm_compute; reflexivity). vm_compute. discriminate.
Defined.

Definition b5' : broker :=
  match deliver "search-service" (sys_broker w5) with Some (_, b) => b | None => sys_broker w5 end.
Definition w6 : RSys :=
  mkSys (with_broker (sys_ps w5) b5') (snd (search_dispatch del_msg (sys_search w5))) (sys_media w5).
Definition w7 : RSys := mkSys (sys_ps w6) (set_sdb_up true (sys_search w6)) (sys_media w6).

Lemma search_down_loses_deletion_witness :
  sys_fault w5 w6 /\ sys_search w6 = sys_search w5 /\ sq w5 = del_msg :: sq w6 /\
  is_Some (Search.sdb_index (sys_search w7) !! oid_of 0) /\ ~ live w7 (oid_of 0).
Proof.
  assert (Hq : sq w6 = []) by (vm_compute; reflexivity).
  apply (search_down_loses_deletion w5 del_msg b5' (oid_of 0) w7).
  - vm_compute. reflexivity.
  - reflexivity.
  - split; reflexivity.
  - vm_compute. by eexists.
  - exact gone_w3.
  - apply fresh_oid0. vm_compute. reflexivity.
  - fold w6. rewrite Hq. constructor.
  - fold w6. rewrite Hq. by intros (m & ?%not_elem_of_nil & _).
  - fold w6. apply rtc_once, fault_step. unfold w7. apply sys_search_mongo.
  - assert (sys_next w7 = 1%N) as -> by (vm_compute; reflexivity). vm_compute. discriminate.
Defined.

(** [u1] uploads an image; [u2] creates a post citing its id. *)
Definition body_u2 : json := JObj [("content", JStr "not my cat"); ("mediaIds", JArr [JStr (oid_of 0)])].
Definition v1 : RSys :=
  mkSys (sys_ps sys0) (sys_search sys0)
    (snd (Media.mediaRouter (Media.MUpload (Some "u1") (Media.Multipart [MediaRuns.png "cat.png" 1000]))
            (sys_media sys0))).
Definition v2 : RSys := with_ps v1 (snd (createPostController "u2" body_u2 (sys_ps v1))).

Definition post_u2 : Post := mkPost (oid_of 0) "u2" "not my cat" [oid_of 0] 1000.

Lemma healthy_v2 : healthy (sys_ps v2).
Proof. split; [reflexivity|]. vm_compute. split; [set_solver|by eexists]. Qed.

(** The image [u1] uploaded. *)
Definition cat_doc : Media.MediaDoc :=
  default (Media.mkMedia "" "" "" "" "" "") (head (Media.ms_media (sys_media v1))).

Lemma foreign_media_deleted_witness :
  let body := JObj [("content", JStr "not my cat"); ("mediaIds", JArr [JStr (Media.m_id cat_doc)])] in
  let pid := oid_of (db_next (ps_db (sys_ps v1))) in
  let w1 := with_ps v1 (snd (createPostController "u2" body (sys_ps v1))) in
  let w2 := media_next (with_ps w1 (snd (deletePostController "u2" pid (sys_ps w1)))) in
  fst (createPostController "u2" body (sys_ps v1)) = inr created_resp /\
  fst (deletePostController "u2" pid (sys_ps w1)) = inr (mkResp 200 (BMsg true "Post deleted successfully")) /\
  Media.ms_media (sys_media w2) = filter (fun m => Media.m_id m <> Media.m_id cat_doc) (Media.ms_media (sys_media v1)) /\
  Media.ms_destroyed (sys_media w2) = Media.ms_destroyed (sys_media v1) ++ [Media.m_publicId cat_doc].
Proof.
  apply (foreign_media_deleted v1 "u2" "not my cat" cat_doc).
  - split; [reflexivity|split; [reflexivity|by left]].
  - reflexivity.
  - vm_compute. reflexivity.
  - simpl. lia.
  - vm_compute. eexists. split; [reflexivity|split; [reflexivity|split; reflexivity]].
  - reflexivity.
  - reflexivity.
  - vm_compute. reflexivity.
  - vm_compute. discriminate.
  - vm_compute. reflexivity.
Defined.

Lemma delete_post_reclaims_media_witness :
  let w' := media_next (with_ps v2 (snd (deletePostController "u2" (oid_of 0) (sys_ps v2)))) in
  Media.ms_media (sys_media w') = filter (fun m => Media.m_id m ∉ [oid_of 0]) (Media.ms_media (sys_media v2)) /\
  Media.ms_destroyed (sys_media w') =
    Media.ms_destroyed (sys_media v2) ++
      omap (fun o => Media.m_publicId <$> Media.media_of (sys_media v2) o) [oid_of 0].
Proof.
  apply (delete_post_reclaims_media v2 "u2" (oid_of 0) (oid_of 0) post_u2);
    [apply healthy_v2|reflexivity|reflexivity|vm_compute; reflexivity| |reflexivity|reflexivity
    |reflexivity|apply NoDup_singleton].
  vm_compute. eexists. split; [reflexivity|split; reflexivity].
Defined.

End SysRuns.
